(** * Recommender system: scoring engines, catalog stores, provider client,
      the TV-show and movie orchestrators, the tables of users, preferences,
      likes and ratings, and the TV-show menu, embedded from the TypeScript
      sources.

    Numbers.  JavaScript numbers that carry ratings and scores are embedded
    as rationals [Q] (exact arithmetic; every comparison the sources make is
    a comparison of such values), identifiers and years as [Z], list lengths
    and the requested item count as [nat].  The program adds the random
    factor in double arithmetic, which rounds; the properties of the order
    of restaurants are therefore stated for every scorer that stays within a
    given error of the exact score ([RankingNotions.approximates]).

    Randomness.  [Math.random()] is the only source of non-determinism in
    the scorers.  It is embedded as an explicit random source that is
    threaded through the code in a small state monad [Rand].

    Part I holds the embedding, Part II the properties. *)

From Stdlib Require Import ZArith QArith Lqa Lia Bool List String Ascii.
From Stdlib Require Import Sorting.Sorted.
From stdpp Require Import base option list gmap.
Import ListNotations.

Local Open Scope Z_scope.

(* ================================================================== *)
(** * Part I — the embedding                                            *)
(* ================================================================== *)

(** ** JavaScript library functions used by the sources *)

Module Js.

(** [x < y] on numbers. *)
Definition Qltb (x y : Q) : bool := negb (Qle_bool y x).

(** [String.prototype.toLowerCase], on the ASCII range. *)
Definition lower_ascii (c : ascii) : ascii :=
  let n := nat_of_ascii c in
  if (Nat.leb 65 n && Nat.leb n 90)%bool then ascii_of_nat (n + 32) else c.

Fixpoint toLowerCase (s : string) : string :=
  match s with
  | EmptyString => EmptyString
  | String c s' => String (lower_ascii c) (toLowerCase s')
  end.

(** [hay.includes(needle)] on strings: [needle] occurs in [hay]. *)
Fixpoint str_includes (hay needle : string) : bool :=
  (String.prefix needle hay
   || match hay with
      | EmptyString => false
      | String _ hay' => str_includes hay' needle
      end)%bool.

(** [arr.includes(x)] on arrays of strings. *)
Definition includes (arr : list string) (x : string) : bool :=
  existsb (String.eqb x) arr.

(** A string is truthy when it is not empty. *)
Definition truthy_str (s : string) : bool :=
  match s with EmptyString => false | _ => true end.

(** [x != null] *)
Definition isSome {A} (o : option A) : bool :=
  match o with Some _ => true | None => false end.

(** [x && x.length > 0] on an optional array: the array when the test
    holds. *)
Definition nonEmpty {A} (o : option (list A)) : option (list A) :=
  match o with
  | Some ((_ :: _) as l) => Some l
  | _ => None
  end.

(** An optional number is truthy when it is defined and not 0. *)
Definition truthyZ (o : option Z) : option Z :=
  match o with
  | Some z => if Z.eqb z 0 then None else Some z
  | None => None
  end.

(** An optional string is truthy when it is defined and not empty. *)
Definition truthyS (o : option string) : option string :=
  match o with
  | Some s => if truthy_str s then Some s else None
  | None => None
  end.

(** [a || b] on optional strings; [None] when both are falsy. *)
Definition orElse (a b : option string) : option string :=
  match truthyS a with
  | Some s => Some s
  | None => truthyS b
  end.

(** [Array.prototype.sort(cmp)]: the sort is stable, and [x] is placed
    before [y] when [cmp x y < 0].  Every stable sort yields the same
    array for a comparator that is a difference of scores; it is embedded
    as a stable insertion sort.  [before x y] is [cmp x y <= 0]. *)
Section Sort.
Context {A : Type} (before : A -> A -> bool).

Fixpoint insert_sorted (x : A) (l : list A) : list A :=
  match l with
  | [] => [x]
  | y :: l' => if before x y then x :: y :: l' else y :: insert_sorted x l'
  end.

Definition sort (l : list A) : list A := fold_right insert_sorted [] l.
End Sort.

(** [parseInt(s)] without a radix: leading white space is skipped, then
    an optional sign, then a [0x]/[0X] prefix selects radix 16, and the
    longest run of digits is read.  [None] is [NaN]. *)
Definition is_ws (c : ascii) : bool :=
  let n := nat_of_ascii c in
  (Nat.eqb n 32 || (Nat.leb 9 n && Nat.leb n 13))%bool.

Fixpoint skip_ws (s : string) : string :=
  match s with
  | String c s' => if is_ws c then skip_ws s' else s
  | EmptyString => s
  end.

Definition digit_of (radix : Z) (c : ascii) : option Z :=
  let n := Z.of_nat (nat_of_ascii c) in
  let d := if (48 <=? n) && (n <=? 57) then Some (n - 48)
           else if (97 <=? n) && (n <=? 102) then Some (n - 87)
           else if (65 <=? n) && (n <=? 70) then Some (n - 55)
           else None in
  match d with
  | Some v => if v <? radix then Some v else None
  | None => None
  end.

Fixpoint read_digits (radix : Z) (s : string) (acc : option Z) : option Z :=
  match s with
  | String c s' =>
      match digit_of radix c with
      | Some d => read_digits radix s' (Some (default 0 acc * radix + d))
      | None => acc
      end
  | EmptyString => acc
  end.

Definition parseInt (s : string) : option Z :=
  let s1 := skip_ws s in
  let '(negative, s2) :=
    match s1 with
    | String "-" r => (true, r)
    | String "+" r => (false, r)
    | _ => (false, s1)
    end in
  let '(radix, s3) :=
    match s2 with
    | String "0" (String "x" r) | String "0" (String "X" r) => (16, r)
    | _ => (10, s2)
    end in
  (fun v : Z => if negative : bool then - v else v) <$> read_digits radix s3 None.

(** [arr.slice(0, n)] for a count [n]. *)
Definition slice0 {A} (n : nat) (l : list A) : list A := firstn n l.

(** [JSON.stringify(arr)] on an array of strings: the elements between
    brackets, separated by commas without white space, each between double
    quotes, with the quote, the backslash and the control characters
    escaped. *)
Definition dquote : ascii := ascii_of_nat 34.
Definition backslash : ascii := ascii_of_nat 92.

Definition hex_digit (n : nat) : ascii :=
  ascii_of_nat (if Nat.ltb n 10 then 48 + n else 87 + n)%nat.

Definition escape_char (c : ascii) : string :=
  let n := nat_of_ascii c in
  if Nat.eqb n 34 then String backslash (String dquote EmptyString)
  else if Nat.eqb n 92 then String backslash (String backslash EmptyString)
  else if Nat.eqb n 8 then String backslash "b"%string
  else if Nat.eqb n 12 then String backslash "f"%string
  else if Nat.eqb n 10 then String backslash "n"%string
  else if Nat.eqb n 13 then String backslash "r"%string
  else if Nat.eqb n 9 then String backslash "t"%string
  else if Nat.ltb n 32
  then String backslash
         (String "u" (String "0" (String "0"
            (String (hex_digit (n / 16)%nat)
               (String (hex_digit (n mod 16)%nat) EmptyString)))))
  else String c EmptyString.

Fixpoint escape_chars (s : string) : string :=
  match s with
  | EmptyString => EmptyString
  | String c s' => (escape_char c ++ escape_chars s')%string
  end.

Definition quoteJSONString (s : string) : string :=
  String dquote (escape_chars s ++ String dquote EmptyString)%string.

Fixpoint comma_separated (items : list string) : string :=
  match items with
  | [] => EmptyString
  | [x] => x
  | x :: rest => (x ++ "," ++ comma_separated rest)%string
  end.

Definition JSON_stringify (arr : list string) : string :=
  ("[" ++ comma_separated (map quoteJSONString arr) ++ "]")%string.

End Js.

(** ** The random source *)

(** The sequence of values that successive calls of [Math.random()] will
    return. *)
Definition RandomSource : Type := nat -> Q.

Definition Rand (A : Type) : Type := RandomSource -> A * RandomSource.

Definition rret {A} (a : A) : Rand A := fun s => (a, s).

Definition rbind {A B} (m : Rand A) (k : A -> Rand B) : Rand B :=
  fun s => let (a, s') := m s in k a s'.

Notation "x <~ m ;; k" := (rbind m (fun x => k))
  (at level 100, m at next level, right associativity).

(** [Math.random()]: draws the next value. *)
Definition Math_random : Rand Q :=
  fun s => (s O, fun n => s (S n)).

(** [arr.map(f)] for an effectful [f]: elements are visited left to right. *)
Fixpoint rmap {A B} (f : A -> Rand B) (l : list A) : Rand (list B) :=
  match l with
  | [] => rret []
  | x :: l' => y <~ f x ;; ys <~ rmap f l' ;; rret (y :: ys)
  end.

(** [Math.random()] returns a value in [[0, 1)]. *)
Definition unit_interval (s : RandomSource) : Prop :=
  forall n, (0 <= s n /\ s n < 1)%Q.

(** ** Restaurant recommender (src/recommender.ts, restaurants/recommender.ts) *)

Module Restaurants.

Record UserPreferences := {
  favoriteCuisines : list string;
  dietaryRestrictions : list string;
  minRating : Q
}.

Record User := {
  user_id : Z;
  user_name : string;
  preferences : UserPreferences
}.

Record Restaurant := {
  id : option Z;                (* id?: number, assigned by the store *)
  googlePlaceId : string;
  name : string;
  address : string;
  cuisines : list string;
  dietaryOptions : list string;
  rating : Q
}.

Definition CUISINE_MATCH_SCORE : Q := 30.
Definition DIETARY_MATCH_SCORE : Q := 50.
Definition RATING_BONUS_PER_POINT : Q := 5.

Definition arrayIntersects (arr1 arr2 : list string) : bool :=
  existsb (fun item => Js.includes arr2 item) arr1.

(** 1. Cuisine Match *)
Definition cuisineMatch (restaurant : Restaurant) (prefs : UserPreferences)
    (score : Q) : Q :=
  let userCuisines := favoriteCuisines prefs in
  if (Js.includes userCuisines "Any" || Nat.eqb (length userCuisines) 0)%bool
  then (score + CUISINE_MATCH_SCORE / 2)%Q
  else if arrayIntersects (cuisines restaurant) userCuisines
  then (score + CUISINE_MATCH_SCORE)%Q
  else score.

Definition meetsAllRestrictions (restaurant : Restaurant)
    (userRestrictions : list string) : bool :=
  forallb (fun restriction =>
    existsb (fun option =>
      Js.str_includes (Js.toLowerCase option) (Js.toLowerCase restriction))
      (dietaryOptions restaurant))
    userRestrictions.

(** 2. Dietary Restrictions Match; [None] is the early [return 0]. *)
Definition dietaryMatch (restaurant : Restaurant) (prefs : UserPreferences)
    (score : Q) : option Q :=
  let userRestrictions := dietaryRestrictions prefs in
  if Nat.ltb 0 (length userRestrictions) then
    if meetsAllRestrictions restaurant userRestrictions
    then Some (score + DIETARY_MATCH_SCORE)%Q
    else None
  else Some (score + DIETARY_MATCH_SCORE / 5)%Q.

(** 3. Rating Match; [None] is the early [return 0]. *)
Definition ratingMatch (restaurant : Restaurant) (prefs : UserPreferences)
    (score : Q) : option Q :=
  if Qle_bool (minRating prefs) (rating restaurant) then
    Some (score + (rating restaurant - minRating prefs) * RATING_BONUS_PER_POINT
          + 10)%Q
  else if Js.Qltb score ((CUISINE_MATCH_SCORE + DIETARY_MATCH_SCORE) / 2)
  then None
  else Some score.

(** The score before the random factor is added; [None] when one of the
    two early [return 0] statements is taken. *)
Definition scoreBeforeJitter (restaurant : Restaurant)
    (prefs : UserPreferences) : option Q :=
  score ← dietaryMatch restaurant prefs (cuisineMatch restaurant prefs 0%Q);
  ratingMatch restaurant prefs score.

(** The body shared by [calculateMatchScore] (random factor 5) and
    [calculateRestaurantMatchScore] (random factor 2). *)
Definition matchScoreWith (factor : Q) (restaurant : Restaurant)
    (prefs : UserPreferences) : Rand Q :=
  match scoreBeforeJitter restaurant prefs with
  | None => rret 0%Q
  | Some score => x <~ Math_random ;; rret (score + x * factor)%Q
  end.

Definition calculateMatchScore := matchScoreWith 5.
Definition calculateRestaurantMatchScore := matchScoreWith 2.

(** [(a, b) => b.score - a.score]: [a] goes first when its score is not
    smaller. *)
Definition byScoreDesc {A} (a b : A * Q) : bool := Qle_bool (snd b) (snd a).

Definition notExcluded (excludeIds : gset Z) (r : Restaurant) : bool :=
  match id r with
  | Some i => negb (bool_decide (i ∈ excludeIds))
  | None => false
  end.

Definition recommendWith (score : Restaurant -> UserPreferences -> Rand Q)
    (prefs : UserPreferences) (allRestaurants : list Restaurant)
    (excludeIds : gset Z) : Rand (list Restaurant) :=
  scored <~ rmap (fun restaurant =>
                    sc <~ score restaurant prefs ;; rret (restaurant, sc))
                 (List.filter (notExcluded excludeIds) allRestaurants) ;;
  rret (map fst
          (Js.sort byScoreDesc
             (List.filter (fun item => Js.Qltb 0 (snd item)) scored))).

(** src/recommender.ts *)
Definition getRecommendations (user : User) (allRestaurants : list Restaurant)
    (excludeIds : gset Z) : Rand (list Restaurant) :=
  recommendWith calculateMatchScore (preferences user) allRestaurants excludeIds.

(** src/restaurants/recommender.ts *)
Definition getRestaurantRecommendations (userPrefs : UserPreferences)
    (allRestaurants : list Restaurant) (excludeRestaurantIds : gset Z)
    : Rand (list Restaurant) :=
  recommendWith calculateRestaurantMatchScore userPrefs allRestaurants
    excludeRestaurantIds.

End Restaurants.

(** ** TMDB provider data (src/common/tmdbService.ts, src/common/types.ts) *)

Module Tmdb.

Record Genre := { genre_id : Z; genre_name : string }.

Record TMDBTvShow := {
  id : Z;
  name : string;
  imdb_id : option string;
  overview : string;
  first_air_date : option string;
  vote_average : Q;
  vote_count : Z;
  poster_path : option string;
  backdrop_path : option string;
  genre_ids : option (list Z);
  genres : option (list Genre);
  number_of_seasons : option Z;
  episode_run_time : option (list Z);
  original_language : option string;
  external_ids_imdb_id : option string      (* external_ids?.imdb_id *)
}.

(** The provider as the orchestrator sees it: every call yields [None]
    ([null]) when the key is missing or the request fails.  During one
    call of the orchestrator the provider is taken to answer equal requests
    equally, so each endpoint is a function of its argument; the genre list
    stands for the module-level cache filled by [getTvShowGenreList]. *)
Record Provider := {
  getPopularTvShows : option (list TMDBTvShow);     (* response.results *)
  getTvShowDetails : Z -> option TMDBTvShow;
  getTvShowRecommendations : Z -> option (list TMDBTvShow);
  getTvShowGenreList : list Genre
}.

Definition mapTvGenreIdsToObjects (P : Provider) (ids : option (list Z))
    : list Genre :=
  match ids with
  | None | Some [] => []
  | Some ids =>
      let fullGenreList := getTvShowGenreList P in
      omap (fun i => List.find (fun g => Z.eqb (genre_id g) i) fullGenreList) ids
  end.

End Tmdb.

(** ** TV shows: types and the content-based scorer
       (src/tvshows/types.ts, src/tvshows/recommender.ts) *)

Module TvShows.

Import Tmdb(Genre, genre_id, genre_name).

Record TvShow := {
  id : Z;                                   (* our DB id *)
  tmdb_id : Z;
  name : string;
  overview : string;
  first_air_date : option string;           (* YYYY-MM-DD, NULL in the store *)
  vote_average : Q;
  vote_count : Z;
  poster_path : option string;
  backdrop_path : option string;
  genres : list Genre;
  number_of_seasons : option Z;
  episode_run_time : option (list Z);
  original_language : option string;
  imdb_id : option string
}.

Record UserTvShowRating := {
  user_id : Z;
  tv_show_id : Z;
  rating : Z
}.

Record UserTvShowPreferences := {
  prefs_user_id : Z;
  preferred_genres : option (list string);
  preferred_languages : option (list string);
  first_air_year_min : option Z;
  first_air_year_max : option Z;
  avg_episode_duration_min : option Z;
  avg_episode_duration_max : option Z;
  min_imdb_rating : option Q;
  preferred_streaming_providers : option (list string)
}.

Definition MIN_RATINGS_FOR_COLLABORATIVE_TV : nat := 2.

(** The two variables the scoring closure updates. *)
Record Acc := { score : Q; meetsAllHardFilters : bool }.

Definition addScore (x : Q) (a : Acc) : Acc :=
  {| score := (score a + x)%Q; meetsAllHardFilters := meetsAllHardFilters a |}.

Definition failHard (a : Acc) : Acc :=
  {| score := score a; meetsAllHardFilters := false |}.

Import Js(nonEmpty, truthyZ, truthyS, isSome).

Definition genreMatchCount (showGenresLower preferredGenresLower : list string)
    : nat :=
  fold_left (fun n pg => if Js.includes showGenresLower pg then S n else n)
    preferredGenresLower O.

(** 1. Genre Match *)
Definition genreMatch (prefs : UserTvShowPreferences) (show : TvShow)
    (a : Acc) : Acc :=
  match nonEmpty (preferred_genres prefs) with
  | Some preferred =>
      let showGenresLower :=
        map (fun g => Js.toLowerCase (genre_name g)) (genres show) in
      let preferredGenresLower := map Js.toLowerCase preferred in
      let n := genreMatchCount showGenresLower preferredGenresLower in
      if Nat.eqb n 0 then failHard a
      else addScore (inject_Z (Z.of_nat n) * 5) a
  | None => addScore 2 a
  end.

(** 2. Language Match *)
Definition languageMatch (prefs : UserTvShowPreferences) (show : TvShow)
    (a : Acc) : Acc :=
  match nonEmpty (preferred_languages prefs) with
  | Some preferred =>
      match truthyS (original_language show) with
      | Some lang =>
          if Js.includes preferred (Js.toLowerCase lang)
          then addScore 10 a else failHard a
      | None => failHard a
      end
  | None => a
  end.

(** [showYear < bound] and [showYear > bound]; [None] is [NaN], for which
    every comparison is false. *)
Definition ltNum (x : option Z) (bound : Z) : bool :=
  match x with Some v => Z.ltb v bound | None => false end.
Definition gtNum (x : option Z) (bound : Z) : bool :=
  match x with Some v => Z.ltb bound v | None => false end.

(** 3. First Air Year *)
Definition firstAirYear (prefs : UserTvShowPreferences) (show : TvShow)
    (a : Acc) : Acc :=
  match truthyS (first_air_date show) with
  | Some date =>
      let showYear := Js.parseInt (String.substring 0 4 date) in
      let a1 :=
        match truthyZ (first_air_year_min prefs) with
        | Some lo => if ltNum showYear lo then failHard a else a
        | None => a
        end in
      match truthyZ (first_air_year_max prefs) with
      | Some hi => if gtNum showYear hi then failHard a1 else a1
      | None => a1
      end
  | None =>
      if (isSome (truthyZ (first_air_year_min prefs))
          || isSome (truthyZ (first_air_year_max prefs)))%bool
      then failHard a else a
  end.

(** 4. Avg Episode Duration *)
Definition avgEpisodeDuration (prefs : UserTvShowPreferences) (show : TvShow)
    (a : Acc) : Acc :=
  let avgEpisodeRunTime :=
    match episode_run_time show with
    | Some (t :: _) => Some t
    | _ => None
    end in
  match avgEpisodeRunTime with
  | Some t =>
      let a1 :=
        match avg_episode_duration_min prefs with
        | Some lo => if Z.ltb t lo then failHard a else a
        | None => a
        end in
      match avg_episode_duration_max prefs with
      | Some hi => if Z.ltb hi t then failHard a1 else a1
      | None => a1
      end
  | None =>
      if (isSome (avg_episode_duration_min prefs)
          || isSome (avg_episode_duration_max prefs))%bool
      then failHard a else a
  end.

(** 5. TMDB Vote Average *)
Definition voteAverage (prefs : UserTvShowPreferences) (show : TvShow)
    (a : Acc) : Acc :=
  match min_imdb_rating prefs with
  | Some lo => if Js.Qltb (vote_average show) lo then failHard a else a
  | None => a
  end.

(** 6. Streaming Provider (soft preference) *)
Definition streamingProvider (prefs : UserTvShowPreferences) (a : Acc) : Acc :=
  match nonEmpty (preferred_streaming_providers prefs) with
  | Some _ => addScore 3 a
  | None => a
  end.

(** The two variables after steps 1 to 6. *)
Definition scoreSteps (prefs : UserTvShowPreferences) (show : TvShow) : Acc :=
  streamingProvider prefs
    (voteAverage prefs show
       (avgEpisodeDuration prefs show
          (firstAirYear prefs show
             (languageMatch prefs show
                (genreMatch prefs show
                   {| score := 0; meetsAllHardFilters := true |}))))).

(** The body of the [map] callback: the score given to one show. *)
Definition scoreShow (prefs : UserTvShowPreferences) (show : TvShow) : Q :=
  let a := scoreSteps prefs show in
  if negb (meetsAllHardFilters a) then 0%Q
  else (score a + (5 + vote_average show / 2))%Q.

Definition byScoreDesc {A} (a b : A * Q) : bool := Qle_bool (snd b) (snd a).

Definition getContentBasedTvShowRecommendations
    (prefs : UserTvShowPreferences) (candidateTvShows : list TvShow)
    (count : nat) : list TvShow :=
  let scoredShows :=
    Js.sort byScoreDesc
      (List.filter (fun item => Js.Qltb 0 (snd item))
         (map (fun show => (show, scoreShow prefs show)) candidateTvShows)) in
  map fst (Js.slice0 count scoredShows).

(** *** The hard filters, one by one.

    Each predicate is the test that one step of the scorer applies to a
    show, independently of the other steps and of the running score: the
    step clears the flag exactly when the predicate is false. *)

(** At least one preferred genre is a genre of the show, ignoring case. *)
Definition genreOk (prefs : UserTvShowPreferences) (show : TvShow) : bool :=
  match nonEmpty (preferred_genres prefs) with
  | Some preferred =>
      existsb (fun pg =>
        Js.includes (map (fun g => Js.toLowerCase (genre_name g)) (genres show))
                    (Js.toLowerCase pg))
        preferred
  | None => true
  end.

(** The show has a language and it is one of the preferred ones. *)
Definition languageOk (prefs : UserTvShowPreferences) (show : TvShow) : bool :=
  match nonEmpty (preferred_languages prefs) with
  | Some preferred =>
      match truthyS (original_language show) with
      | Some lang => Js.includes preferred (Js.toLowerCase lang)
      | None => false
      end
  | None => true
  end.

(** The test of the year step as the code applies it.  A bound is
    consulted only when it is truthy, so a bound of 0 is not consulted; a
    date whose first four characters do not start with a number gives [NaN],
    for which both comparisons are false, so such a show passes; a show
    without a date passes only when no bound is truthy.  The constraint as
    it is stated is [yearWithinBounds] below. *)
Definition yearOk (prefs : UserTvShowPreferences) (show : TvShow) : bool :=
  let lo := truthyZ (first_air_year_min prefs) in
  let hi := truthyZ (first_air_year_max prefs) in
  match truthyS (first_air_date show) with
  | Some date =>
      let showYear := Js.parseInt (String.substring 0 4 date) in
      (negb (from_option (ltNum showYear) false lo)
       && negb (from_option (gtNum showYear) false hi))%bool
  | None => (negb (isSome lo) && negb (isSome hi))%bool
  end.

(** The first listed episode run time lies within the stated bounds; a
    show without run time satisfies the constraint only when no bound is
    stated. *)
Definition durationOk (prefs : UserTvShowPreferences) (show : TvShow) : bool :=
  let lo := avg_episode_duration_min prefs in
  let hi := avg_episode_duration_max prefs in
  match episode_run_time show with
  | Some (t :: _) =>
      (negb (from_option (Z.ltb t) false lo)
       && negb (from_option (fun h => Z.ltb h t) false hi))%bool
  | _ => (negb (isSome lo) && negb (isSome hi))%bool
  end.

(** The vote average reaches the stated minimum. *)
Definition ratingOk (prefs : UserTvShowPreferences) (show : TvShow) : bool :=
  match min_imdb_rating prefs with
  | Some lo => Qle_bool lo (vote_average show)
  | None => true
  end.

Definition passesHardFilters (prefs : UserTvShowPreferences) (show : TvShow)
    : bool :=
  (genreOk prefs show && languageOk prefs show && yearOk prefs show
   && durationOk prefs show && ratingOk prefs show)%bool.

(** The year of the first air date as the scorer reads it: [None] when the
    show has no date, or when the first four characters of the date do not
    start with a number. *)
Definition showYear (show : TvShow) : option Z :=
  match truthyS (first_air_date show) with
  | Some date => Js.parseInt (String.substring 0 4 date)
  | None => None
  end.

(** The year constraint as it is stated, to compare [yearOk] with: the
    first air year meets every stated bound, a bound of 0 included; a show
    whose year is not known meets the constraint only when no bound is
    stated. *)
Definition yearWithinBounds (prefs : UserTvShowPreferences) (show : TvShow)
    : bool :=
  match showYear show with
  | Some year =>
      (from_option (fun lo => Z.leb lo year) true (first_air_year_min prefs)
       && from_option (fun hi => Z.leb year hi) true (first_air_year_max prefs))%bool
  | None =>
      (negb (isSome (first_air_year_min prefs))
       && negb (isSome (first_air_year_max prefs)))%bool
  end.

(** The scorer seen as a computation over the random source: it never
    calls [Math.random()]. *)
Definition scoreShowRand (prefs : UserTvShowPreferences) (show : TvShow)
    : Rand Q :=
  rret (scoreShow prefs show).

End TvShows.

(** ** The stores.  A table is the list of its rows in insertion order;
       list-valued columns are kept as lists (the JSON text written by
       [JSON.stringify] is read back by [JSON.parse]); where the code hands
       out a row without parsing it, the text is written out again.  A
       query without [ORDER BY] on a table whose primary key is a pair
       delivers the rows in the order of that key.  A failed statement
       raises an [Error] carrying SQLite's message. *)

Record Error := { message : string }.

(** *** TV shows (src/db/tvShowDb.ts) *)

Module TvShowDb.

Import TvShows.

Record Db := {
  tv_shows : list TvShow;
  (** sqlite_sequence: the largest row id handed out so far *)
  tv_shows_seq : Z;
  user_tv_show_ratings : list UserTvShowRating
}.

Definition ensureFullTvGenreObjects (P : Tmdb.Provider)
    (tvShowData : Tmdb.TMDBTvShow) : list Tmdb.Genre :=
  match Js.nonEmpty (Tmdb.genres tvShowData) with
  | Some gs => gs
  | None =>
      match Js.nonEmpty (Tmdb.genre_ids tvShowData) with
      | Some ids => Tmdb.mapTvGenreIdsToObjects P (Some ids)
      | None => []
      end
  end.

(** [SELECT * FROM tv_shows WHERE id = ?] *)
Definition getTvShowByOurId (i : Z) (db : Db) : option TvShow :=
  List.find (fun r => Z.eqb (id r) i) (tv_shows db).

(** [SELECT * FROM tv_shows WHERE tmdb_id = ?] *)
Definition getTvShowByTmdbId (t : Z) (db : Db) : option TvShow :=
  List.find (fun r => Z.eqb (tmdb_id r) t) (tv_shows db).

(** The column values both statements bind, as a row with the given ids. *)
Definition rowOf (P : Tmdb.Provider) (tvShowData : Tmdb.TMDBTvShow)
    (ourId : Z) : TvShow :=
  let fullGenres := ensureFullTvGenreObjects P tvShowData in
  let imdbIdToSave :=
    Js.orElse (Tmdb.imdb_id tvShowData) (Tmdb.external_ids_imdb_id tvShowData) in
  {| id := ourId;
     tmdb_id := Tmdb.id tvShowData;
     name := Tmdb.name tvShowData;
     overview := Tmdb.overview tvShowData;
     first_air_date := Tmdb.first_air_date tvShowData;
     vote_average := Tmdb.vote_average tvShowData;
     vote_count := Tmdb.vote_count tvShowData;
     poster_path := Tmdb.poster_path tvShowData;
     backdrop_path := Tmdb.backdrop_path tvShowData;
     genres := map (fun g => {| Tmdb.genre_id := Tmdb.genre_id g;
                                Tmdb.genre_name := Tmdb.genre_name g |})
                   fullGenres;
     number_of_seasons := Tmdb.number_of_seasons tvShowData;
     episode_run_time := Tmdb.episode_run_time tvShowData;
     original_language := Tmdb.original_language tvShowData;
     imdb_id := imdbIdToSave |}.

(** [UPDATE tv_shows SET ... WHERE tmdb_id = ?]: the local id is kept. *)
Definition updateRows (P : Tmdb.Provider) (tvShowData : Tmdb.TMDBTvShow)
    (db : Db) : Db :=
  {| tv_shows :=
       map (fun r => if Z.eqb (tmdb_id r) (Tmdb.id tvShowData)
                     then rowOf P tvShowData (id r) else r)
           (tv_shows db);
     tv_shows_seq := tv_shows_seq db;
     user_tv_show_ratings := user_tv_show_ratings db |}.

(** AUTOINCREMENT: one more than the largest row id that ever existed. *)
Definition nextRowId (db : Db) : Z :=
  fold_right Z.max (tv_shows_seq db) (map id (tv_shows db)) + 1.

(** [INSERT INTO tv_shows ...]: fails on the UNIQUE column [tmdb_id],
    otherwise yields [lastID]. *)
Definition insertRow (P : Tmdb.Provider) (tvShowData : Tmdb.TMDBTvShow)
    (db : Db) : Error + (Z * Db) :=
  if existsb (fun r => Z.eqb (tmdb_id r) (Tmdb.id tvShowData)) (tv_shows db)
  then inl {| message :=
                "SQLITE_CONSTRAINT: UNIQUE constraint failed: tv_shows.tmdb_id" |}
  else
    let lastID := nextRowId db in
    inr (lastID,
         {| tv_shows := tv_shows db ++ [rowOf P tvShowData lastID];
            tv_shows_seq := lastID;
            user_tv_show_ratings := user_tv_show_ratings db |}).

Definition saveTvShow (P : Tmdb.Provider) (tvShowData : Tmdb.TMDBTvShow)
    (db : Db) : option TvShow * Db :=
  match getTvShowByTmdbId (Tmdb.id tvShowData) db with
  | Some _existing =>
      let db' := updateRows P tvShowData db in
      (getTvShowByTmdbId (Tmdb.id tvShowData) db', db')
  | None =>
      match insertRow P tvShowData db with
      | inr (lastID, db') =>
          if Z.eqb lastID 0 then (None, db')
          else (getTvShowByOurId lastID db', db')
      | inl error =>
          if Js.str_includes (message error)
               "UNIQUE constraint failed: tv_shows.tmdb_id"
          then (getTvShowByTmdbId (Tmdb.id tvShowData) db, db)
          else (None, db)
      end
  end.

(** A rating row joined with the show it rates. *)
Record RatedShow := {
  rated : UserTvShowRating;
  tv_show_tmdb_id : Z
}.

(** The rows of [user_tv_show_ratings] that [WHERE user_id = ?] selects,
    in the order in which SQLite delivers them.  The statements have no
    [ORDER BY]; SQLite finds the rows through the index of the primary key
    [(user_id, tv_show_id)], so they come in ascending order of
    [tv_show_id], not in the order of their insertion. *)
Definition ratingsOfUser (userId : Z) (db : Db) : list UserTvShowRating :=
  Js.sort (fun a b => Z.leb (tv_show_id a) (tv_show_id b))
    (List.filter (fun utr => Z.eqb (user_id utr) userId)
       (user_tv_show_ratings db)).

(** [SELECT utr.*, ts.tmdb_id FROM user_tv_show_ratings utr
     JOIN tv_shows ts ON ts.id = utr.tv_show_id WHERE utr.user_id = ?] *)
Definition getUserTvShowRatings (userId : Z) (db : Db) : list RatedShow :=
  flat_map (fun utr =>
    map (fun ts => {| rated := utr; tv_show_tmdb_id := tmdb_id ts |})
        (List.filter (fun ts => Z.eqb (id ts) (tv_show_id utr)) (tv_shows db)))
    (ratingsOfUser userId db).

End TvShowDb.

(** *** Restaurants (src/db/restaurantDb.ts) *)

Module RestaurantDb.

Import Restaurants.

(** [Omit<Restaurant, 'id'>] *)
Record RestaurantData := {
  data_googlePlaceId : string;
  data_name : string;
  data_address : string;
  data_cuisines : list string;
  data_dietaryOptions : list string;
  data_rating : Q
}.

Record Db := {
  restaurants : list Restaurant;
  restaurants_seq : Z
}.

Definition hasId (i : Z) (r : Restaurant) : bool :=
  match id r with Some j => Z.eqb j i | None => false end.

(** The row selected by [SELECT * FROM restaurants WHERE googlePlaceId = ?],
    with its two array columns as the arrays they encode. *)
Definition getByGooglePlaceId (g : string) (db : Db) : option Restaurant :=
  List.find (fun r => String.eqb (googlePlaceId r) g) (restaurants db).

(** A row of [restaurants] as [db.get] hands it out: the columns
    [cuisines] and [dietaryOptions] hold JSON text, not arrays. *)
Record RestaurantRow := {
  row_id : option Z;
  row_googlePlaceId : string;
  row_name : string;
  row_address : string;
  row_cuisines : string;
  row_dietaryOptions : string;
  row_rating : Q
}.

Definition rawRow (r : Restaurant) : RestaurantRow :=
  {| row_id := id r;
     row_googlePlaceId := googlePlaceId r;
     row_name := name r;
     row_address := address r;
     row_cuisines := Js.JSON_stringify (cuisines r);
     row_dietaryOptions := Js.JSON_stringify (dietaryOptions r);
     row_rating := rating r |}.

(** [db.get('SELECT * FROM restaurants WHERE googlePlaceId = ?', g)] *)
Definition getRowByGooglePlaceId (g : string) (db : Db)
    : option RestaurantRow :=
  option_map rawRow (getByGooglePlaceId g db).

(** What [saveRestaurantToDb] resolves to.  The declared type is
    [Restaurant] on every path; the value is the record of
    [getRestaurantById], with the arrays parsed, after an insert, and the
    row of [db.get] as it is when the place is stored already. *)
Inductive Saved :=
| Parsed (restaurant : Restaurant)
| Raw (row : RestaurantRow).

(** [saved.id] *)
Definition savedId (saved : Saved) : option Z :=
  match saved with
  | Parsed restaurant => id restaurant
  | Raw row => row_id row
  end.

(** [SELECT * FROM restaurants WHERE id = ?] *)
Definition getRestaurantById (i : Z) (db : Db) : option Restaurant :=
  List.find (hasId i) (restaurants db).

Definition rowOf (restaurantData : RestaurantData) (ourId : Z) : Restaurant :=
  {| id := Some ourId;
     googlePlaceId := data_googlePlaceId restaurantData;
     name := data_name restaurantData;
     address := data_address restaurantData;
     cuisines := data_cuisines restaurantData;
     dietaryOptions := data_dietaryOptions restaurantData;
     rating := data_rating restaurantData |}.

Definition nextRowId (db : Db) : Z :=
  fold_right Z.max (restaurants_seq db)
    (omap id (restaurants db)) + 1.

(** [INSERT INTO restaurants ...]: fails on the UNIQUE column
    [googlePlaceId], otherwise yields [lastID]. *)
Definition insertRow (restaurantData : RestaurantData) (db : Db)
    : Error + (Z * Db) :=
  if existsb (fun r => String.eqb (googlePlaceId r)
                         (data_googlePlaceId restaurantData))
             (restaurants db)
  then inl {| message :=
                "SQLITE_CONSTRAINT: UNIQUE constraint failed: restaurants.googlePlaceId" |}
  else
    let lastID := nextRowId db in
    inr (lastID,
         {| restaurants := restaurants db ++ [rowOf restaurantData lastID];
            restaurants_seq := lastID |}).

(** An existing row is returned as it is read, without any write and
    without parsing its array columns. *)
Definition saveRestaurantToDb (restaurantData : RestaurantData) (db : Db)
    : option Saved * Db :=
  match getRowByGooglePlaceId (data_googlePlaceId restaurantData) db with
  | Some existing => (Some (Raw existing), db)
  | None =>
      match insertRow restaurantData db with
      | inr (lastID, db') =>
          if Z.eqb lastID 0 then (None, db')
          else (option_map Parsed (getRestaurantById lastID db'), db')
      | inl error =>
          if Js.str_includes (message error) "UNIQUE constraint failed"
          then (option_map Raw
                  (getRowByGooglePlaceId (data_googlePlaceId restaurantData) db),
                db)
          else (None, db)
      end
  end.

(** [SELECT * FROM restaurants] *)
Definition getAllRestaurantsFromDb (db : Db) : list Restaurant :=
  restaurants db.

End RestaurantDb.

(** ** The TV-show orchestrator (src/tvshows/recommender.ts)

    [getTvShowRecommendationsForUser] pushes onto the local array
    [recommendations], adds to the caller's set [excludeTvShowTmdbIds] in
    place and writes to the store.  The three are threaded as one state;
    the call returns the array together with the set and the store as the
    caller finds them afterwards. *)

Module TvRecommender.

Import TvShows TvShowDb.

Record User := { user_id : Z; user_name : string }.

Record State := {
  recommendations : list TvShow;
  excludeTvShowTmdbIds : gset Z;
  db : Db
}.

(** [recommendations.some(r => r.tmdb_id === t)] *)
Definition recommended (t : Z) (recs : list TvShow) : bool :=
  existsb (fun r => Z.eqb (tmdb_id r) t) recs.

(** [recommendations.push(show); excludeTvShowTmdbIds.add(show.tmdb_id)] *)
Definition pushAndExclude (show : TvShow) (st : State) : State :=
  {| recommendations := recommendations st ++ [show];
     excludeTvShowTmdbIds := {[ tmdb_id show ]} ∪ excludeTvShowTmdbIds st;
     db := db st |}.

Definition withDb (d : Db) (st : State) : State :=
  {| recommendations := recommendations st;
     excludeTvShowTmdbIds := excludeTvShowTmdbIds st;
     db := d |}.

(** [recommendations.length >= count] *)
Definition full (count : nat) (st : State) : bool :=
  Nat.leb count (length (recommendations st)).

(** Phase 1, first loop: details of the first 30 popular shows that are
    not excluded are saved and become candidates. *)
Fixpoint collectCandidates (P : Tmdb.Provider) (excl : gset Z)
    (popular : list Tmdb.TMDBTvShow) (candidateTvShows : list TvShow)
    (d : Db) : list TvShow * Db :=
  match popular with
  | [] => (candidateTvShows, d)
  | tmdbPopShow :: rest =>
      if bool_decide (Tmdb.id tmdbPopShow ∈ excl)
      then collectCandidates P excl rest candidateTvShows d
      else
        match Tmdb.getTvShowDetails P (Tmdb.id tmdbPopShow) with
        | None => collectCandidates P excl rest candidateTvShows d
        | Some detailedTmdbShow =>
            let '(showInDb, d') := saveTvShow P detailedTmdbShow d in
            match showInDb with
            | Some s => collectCandidates P excl rest (candidateTvShows ++ [s]) d'
            | None => collectCandidates P excl rest candidateTvShows d'
            end
        end
  end.

(** Phase 1, second loop: [for (const rec of contentRecs)] with its
    [break]. *)
Fixpoint takeContentRecs (count : nat) (contentRecs : list TvShow)
    (st : State) : State :=
  match contentRecs with
  | [] => st
  | rec :: rest =>
      if full count st then st
      else if negb (recommended (tmdb_id rec) (recommendations st))
      then takeContentRecs count rest (pushAndExclude rec st)
      else takeContentRecs count rest st
  end.

Definition phase1 (P : Tmdb.Provider) (prefs : UserTvShowPreferences)
    (count : nat) (st : State) : State :=
  let '(candidateTvShows, d) :=
    match Tmdb.getPopularTvShows P with
    | Some results =>
        collectCandidates P (excludeTvShowTmdbIds st)
          (Js.slice0 30 results) [] (db st)
    | None => ([], db st)
    end in
  let st := withDb d st in
  if Nat.ltb 0 (length candidateTvShows) then
    takeContentRecs count
      (getContentBasedTvShowRecommendations prefs candidateTvShows count) st
  else st.

(** Phase 2, inner loop over the provider's recommendations for one
    rated show. *)
Fixpoint takeCollaborative (P : Tmdb.Provider) (count : nat)
    (results : list Tmdb.TMDBTvShow) (st : State) : State :=
  match results with
  | [] => st
  | tmdbCollabShow :: rest =>
      if (full count st
          || bool_decide (Tmdb.id tmdbCollabShow ∈ excludeTvShowTmdbIds st))%bool
      then takeCollaborative P count rest st
      else
        match Tmdb.getTvShowDetails P (Tmdb.id tmdbCollabShow) with
        | None => takeCollaborative P count rest st
        | Some detailedCollabShow =>
            let '(showInDb, d') := saveTvShow P detailedCollabShow (db st) in
            let st := withDb d' st in
            match showInDb with
            | Some s =>
                if negb (recommended (tmdb_id s) (recommendations st))
                then takeCollaborative P count rest (pushAndExclude s st)
                else takeCollaborative P count rest st
            | None => takeCollaborative P count rest st
            end
        end
  end.

(** Phase 2, outer loop over the top rated shows, with its [break]. *)
Fixpoint collaborativeLoop (P : Tmdb.Provider) (count : nat)
    (ratedShows : list RatedShow) (st : State) : State :=
  match ratedShows with
  | [] => st
  | ratedShow :: rest =>
      if full count st then st
      else
        let st :=
          match Tmdb.getTvShowRecommendations P (tv_show_tmdb_id ratedShow) with
          | Some results => takeCollaborative P count results st
          | None => st
          end in
        collaborativeLoop P count rest st
  end.

(** [(a, b) => b.rating - a.rating] *)
Definition byRatingDesc (a b : RatedShow) : bool :=
  Z.leb (rating (rated b)) (rating (rated a)).

Definition phase2 (P : Tmdb.Provider) (count : nat)
    (userRatings : list RatedShow) (st : State) : State :=
  if (negb (full count st)
      && Nat.leb MIN_RATINGS_FOR_COLLABORATIVE_TV (length userRatings))%bool
  then
    let sortedRatings := Js.sort byRatingDesc userRatings in
    collaborativeLoop P count (Js.slice0 2 sortedRatings) st
  else st.

(** Phase 3 loop over the whole popular list. *)
Fixpoint takePopular (P : Tmdb.Provider) (count : nat)
    (popular : list Tmdb.TMDBTvShow) (st : State) : State :=
  match popular with
  | [] => st
  | tmdbPopShow :: rest =>
      if (full count st
          || bool_decide (Tmdb.id tmdbPopShow ∈ excludeTvShowTmdbIds st))%bool
      then takePopular P count rest st
      else
        let '(showInDb, d') :=
          match getTvShowByTmdbId (Tmdb.id tmdbPopShow) (db st) with
          | Some s => (Some s, db st)
          | None =>
              match Tmdb.getTvShowDetails P (Tmdb.id tmdbPopShow) with
              | Some detailedFallbackShow =>
                  saveTvShow P detailedFallbackShow (db st)
              | None => (None, db st)
              end
          end in
        let st := withDb d' st in
        match showInDb with
        | Some s =>
            if negb (recommended (tmdb_id s) (recommendations st))
            then takePopular P count rest (pushAndExclude s st)
            else takePopular P count rest st
        | None => takePopular P count rest st
        end
  end.

Definition phase3 (P : Tmdb.Provider) (count : nat) (st : State) : State :=
  if negb (full count st) then
    match Tmdb.getPopularTvShows P with
    | Some results => takePopular P count results st
    | None => st
    end
  else st.

(** The state after the three phases. *)
Definition runPhases (P : Tmdb.Provider) (user : User)
    (userPrefs : UserTvShowPreferences) (excludeTvShowTmdbIds : gset Z)
    (count : nat) (d : Db) : State :=
  let userRatings := getUserTvShowRatings (user_id user) d in
  let st := {| recommendations := [];
               excludeTvShowTmdbIds := excludeTvShowTmdbIds;
               db := d |} in
  phase3 P count (phase2 P count userRatings (phase1 P userPrefs count st)).

Definition getTvShowRecommendationsForUser (P : Tmdb.Provider) (user : User)
    (userPrefs : UserTvShowPreferences) (excludeTvShowTmdbIds : gset Z)
    (count : nat) (d : Db) : list TvShow * gset Z * Db :=
  let st := runPhases P user userPrefs excludeTvShowTmdbIds count d in
  (Js.slice0 count (recommendations st), TvRecommender.excludeTvShowTmdbIds st,
   db st).

(** [count: number = 5] *)
Definition defaultCount : nat := 5.

End TvRecommender.

(** ** The restaurant provider client (src/googleApiService.ts)

    A computation that may throw is a value of [Error + A]; [try_catch]
    is the [try { ... } catch (error) { ... }] statement. *)

Definition Exc (A : Type) : Type := (Error + A)%type.

Definition ebind {A B} (m : Exc A) (k : A -> Exc B) : Exc B :=
  match m with
  | inl e => inl e
  | inr a => k a
  end.

Notation "x <~! m ;; k" := (ebind m (fun x => k))
  (at level 100, m at next level, right associativity).

Definition try_catch {A} (body : Exc A) (handler : Error -> Exc A) : Exc A :=
  match body with
  | inl e => handler e
  | inr a => inr a
  end.

Module GooglePlaces.

Import RestaurantDb(RestaurantData, Build_RestaurantData).

(** One element of [data.results]. *)
Record Place := {
  place_id : string;
  place_name : option string;
  formatted_address : option string;
  vicinity : option string;
  types : option (list string);
  place_rating : option Q
}.

(** The parsed body of a response. *)
Record Data := {
  status : string;
  error_message : option string;
  results : option (list Place)
}.

(** A [Response]: [text()] and [json()] may throw. *)
Record Response := {
  ok : bool;
  text : Exc string;
  json : Exc Data
}.

(** What the process and the network supply: the environment variable
    and the outcome of [fetch] for a text query with a key. *)
Record Env := {
  API_KEY : option string;
  fetch : string -> string -> Exc Response
}.

Definition upper_ascii (c : ascii) : ascii :=
  let n := nat_of_ascii c in
  if (Nat.leb 97 n && Nat.leb n 122)%bool then ascii_of_nat (n - 32) else c.

(** [w.charAt(0).toUpperCase() + w.slice(1)] *)
Definition capitalize (w : string) : string :=
  match w with
  | String c r => String (upper_ascii c) r
  | EmptyString => EmptyString
  end.

(** [s.replace(pat, EmptyString)]: the first occurrence is removed. *)
Fixpoint removeFirst (pat s : string) : string :=
  if String.prefix pat s
  then String.substring (String.length pat) (String.length s) s
  else match s with
       | String c r => String c (removeFirst pat r)
       | EmptyString => EmptyString
       end.

(** [s.split(sep)] for a one-character separator. *)
Fixpoint split (sep : ascii) (s : string) : list string :=
  match s with
  | EmptyString => [EmptyString]
  | String c r =>
      if Ascii.eqb c sep then EmptyString :: split sep r
      else match split sep r with
           | w :: ws => String c w :: ws
           | [] => [String c EmptyString]
           end
  end.

(** [words.join(sep)] *)
Fixpoint join (sep : string) (words : list string) : string :=
  match words with
  | [] => EmptyString
  | [w] => w
  | w :: ws => (w ++ sep ++ join sep ws)%string
  end.

(** [if (!arr.includes(x)) arr.push(x)] *)
Definition pushNew (x : string) (arr : list string) : list string :=
  if Js.includes arr x then arr else arr ++ [x].

(** The names that every object literal inherits from [Object.prototype].
    Under such a name [typeMap[type]] finds a function or an object, which
    is truthy, and the loop pushes that value, not a string, and skips the
    [else] branch. *)
Definition objectPrototypeKeys : list string :=
  ["constructor"; "hasOwnProperty"; "isPrototypeOf"; "propertyIsEnumerable";
   "toLocaleString"; "toString"; "valueOf"; "__proto__";
   "__defineGetter__"; "__defineSetter__"; "__lookupGetter__";
   "__lookupSetter__"]%string.

(** [typeMap[type]] for the own keys of the object literal.  The place
    types of the provider are lower-case words joined by underscores; the
    inherited names of [objectPrototypeKeys] are not among them and are
    left out of the table. *)
Definition typeMap (type : string) : option string :=
  if String.eqb type "cafe" then Some "Cafe"%string
  else if String.eqb type "bakery" then Some "Bakery"%string
  else if String.eqb type "bar" then Some "Bar"%string
  else None.

Definition nameKeywords : list (string * string) :=
  [("pizza", "Pizza"); ("sushi", "Sushi"); ("burger", "Burgers");
   ("taco", "Mexican"); ("pho", "Vietnamese"); ("curry", "Indian");
   ("pasta", "Italian"); ("steakhouse", "Steakhouse")]%string.

(** [[...new Set(arr)]]: first occurrences, in order. *)
Definition unique (arr : list string) : list string :=
  fold_left (fun acc x => pushNew x acc) arr [].

Definition mapGoogleTypesToCuisines (googleTypes : option (list string))
    (placeName : string) : list string :=
  match googleTypes with
  | None => ["Miscellaneous"%string]
  | Some googleTypes =>
      let cuisines :=
        fold_left (fun cuisines type =>
          match typeMap type with
          | Some c => pushNew c cuisines
          | None =>
              if Js.str_includes type "_restaurant"
              then pushNew
                     (join " " (map capitalize
                                  (split "_" (removeFirst "_restaurant" type))))
                     cuisines
              else cuisines
          end) googleTypes [] in
      let cuisines :=
        fold_left (fun cuisines kw =>
          if Js.str_includes (Js.toLowerCase placeName) (fst kw)
          then pushNew (snd kw) cuisines else cuisines) nameKeywords cuisines in
      let cuisines :=
        if (Js.includes googleTypes "restaurant"
            && Nat.eqb (length cuisines) 0)%bool
        then cuisines ++ ["Restaurant"%string] else cuisines in
      let cuisines :=
        if Nat.eqb (length cuisines) 0 then cuisines ++ ["Food"%string]
        else cuisines in
      unique cuisines
  end.

Definition mapGoogleTypesToDietary (googleTypes : option (list string))
    : list string :=
  match googleTypes with
  | None => []
  | Some googleTypes =>
      let dietary :=
        if Js.includes googleTypes "vegetarian_restaurant"
        then ["vegetarian"%string] else [] in
      let dietary :=
        if Js.includes googleTypes "vegan_restaurant"
        then dietary ++ ["vegan"%string] else dietary in
      unique dietary
  end.

(** The callback of [data.results.slice(0, maxResults).map(...)]. *)
Definition mapPlace (place : Place) : RestaurantData :=
  let placeName := default EmptyString (Js.truthyS (place_name place)) in
  let cuisines := mapGoogleTypesToCuisines (types place) placeName in
  let dietaryOptions := mapGoogleTypesToDietary (types place) in
  Build_RestaurantData
    (place_id place)
    (default "Name N/A"%string (Js.truthyS (place_name place)))
    (default "Address N/A"%string
       (Js.orElse (formatted_address place) (vicinity place)))
    cuisines
    dietaryOptions
    (default 0%Q (place_rating place)).   (* place.rating || 0 *)

Definition fetchRestaurantsFromGooglePlaces (env : Env)
    (locationQuery : string) (maxResults : nat) : Exc (list RestaurantData) :=
  match Js.truthyS (API_KEY env) with
  | None => inr []
  | Some key =>
      let query := ("restaurants in " ++ locationQuery)%string in
      try_catch
        (response <~! fetch env query key ;;
         if negb (ok response) then
           (_errorBody <~! text response ;; inr [])
         else
           (data <~! json response ;;
            if (negb (String.eqb (status data) "OK")
                && negb (String.eqb (status data) "ZERO_RESULTS"))%bool
            then inr []
            else if (String.eqb (status data) "ZERO_RESULTS"
                     || negb (Js.isSome (Js.nonEmpty (results data))))%bool
            then inr []
            else
              let fetchedRestaurants :=
                map mapPlace (Js.slice0 maxResults (default [] (results data))) in
              inr fetchedRestaurants))
        (fun _error => inr [])
  end.

(** [maxResults: number = 20] *)
Definition defaultMaxResults : nat := 20.

(** The failure modes of one fetch: no API key; [fetch] throws; the
    response is not OK; parsing the body throws; the API reports an error
    status; the API reports no result. *)
Inductive Failure (env : Env) (locationQuery : string) : Prop :=
| MissingApiKey :
    Js.truthyS (API_KEY env) = None ->
    Failure env locationQuery
| FetchThrows key error :
    Js.truthyS (API_KEY env) = Some key ->
    fetch env ("restaurants in " ++ locationQuery)%string key = inl error ->
    Failure env locationQuery
| HttpNotOk key response :
    Js.truthyS (API_KEY env) = Some key ->
    fetch env ("restaurants in " ++ locationQuery)%string key = inr response ->
    ok response = false ->
    Failure env locationQuery
| ParseThrows key response error :
    Js.truthyS (API_KEY env) = Some key ->
    fetch env ("restaurants in " ++ locationQuery)%string key = inr response ->
    ok response = true ->
    json response = inl error ->
    Failure env locationQuery
| ApiStatusError key response data :
    Js.truthyS (API_KEY env) = Some key ->
    fetch env ("restaurants in " ++ locationQuery)%string key = inr response ->
    ok response = true ->
    json response = inr data ->
    status data <> "OK"%string -> status data <> "ZERO_RESULTS"%string ->
    Failure env locationQuery
| ZeroResults key response data :
    Js.truthyS (API_KEY env) = Some key ->
    fetch env ("restaurants in " ++ locationQuery)%string key = inr response ->
    ok response = true ->
    json response = inr data ->
    status data = "ZERO_RESULTS"%string \/ results data = None
    \/ results data = Some [] ->
    Failure env locationQuery.

End GooglePlaces.

(** ** Notions used to state the properties *)

Module Notions.

Import TvShows TvShowDb TvRecommender.

(** A scoring step keeps the flag exactly when its own constraint holds,
    and never lowers the score. *)
Definition stepOk (step : Acc -> Acc) (ok : bool) : Prop :=
  forall a,
    meetsAllHardFilters (step a) = (meetsAllHardFilters a && ok)%bool
    /\ ((0 <= score a)%Q -> (0 <= score (step a))%Q).

(** The UNIQUE constraints of the two catalog tables. *)
Definition unique_tmdb_ids (d : Db) : Prop :=
  NoDup (map tmdb_id (tv_shows d)).

Definition unique_place_ids (d : RestaurantDb.Db) : Prop :=
  NoDup (map Restaurants.googlePlaceId (RestaurantDb.restaurants d)).

(** The external ids of an array of shows. *)
Definition ids (recs : list TvShow) : list Z := map tmdb_id recs.

(** The store holds a show with this external id. *)
Definition present (t : Z) (d : Db) : Prop := t ∈ map tmdb_id (tv_shows d).

(** The details endpoint answers with the show that was asked for. *)
Definition details_consistent (P : Tmdb.Provider) : Prop :=
  forall i det, Tmdb.getTvShowDetails P i = Some det -> Tmdb.id det = i.

(** The invariant of the orchestrator: the exclusion set is the caller's
    set plus the external ids of the recommendations made so far, no show
    is recommended twice, at most [count] shows are recommended, and with a
    consistent provider no recommended show was excluded by the caller. *)
Definition Inv (P : Tmdb.Provider) (excl0 : gset Z) (count : nat) (st : State)
    : Prop :=
  excludeTvShowTmdbIds st = list_to_set (ids (recommendations st)) ∪ excl0
  /\ NoDup (ids (recommendations st))
  /\ (length (recommendations st) <= count)%nat
  /\ (details_consistent P ->
      forall t, t ∈ ids (recommendations st) -> t ∉ excl0).

(** What only grows along a run: the exclusion set, fullness, and, when
    the sequence counter is sound, the content of the store. *)
Definition Mono (count : nat) (st st' : State) : Prop :=
  excludeTvShowTmdbIds st ⊆ excludeTvShowTmdbIds st'
  /\ (full count st = true -> full count st' = true)
  /\ (0 <= tv_shows_seq (db st) ->
      0 <= tv_shows_seq (db st')
      /\ forall t, present t (db st) -> present t (db st')).

(** One candidate is offered: the store is replaced, and the show, if there
    is one and it is not yet recommended, is pushed and excluded. *)
Definition offer (showInDb : option TvShow) (d' : Db) (st : State) : State :=
  let st1 := withDb d' st in
  match showInDb with
  | Some s =>
      if negb (recommended (tmdb_id s) (recommendations st1))
      then pushAndExclude s st1 else st1
  | None => st1
  end.

(** The body of the phase 3 loop. *)
Definition popularStep (P : Tmdb.Provider) (count : nat)
    (pop : Tmdb.TMDBTvShow) (st : State) : State :=
  if (full count st
      || bool_decide (Tmdb.id pop ∈ excludeTvShowTmdbIds st))%bool
  then st
  else
    match getTvShowByTmdbId (Tmdb.id pop) (db st) with
    | Some s => offer (Some s) (db st) st
    | None =>
        match Tmdb.getTvShowDetails P (Tmdb.id pop) with
        | Some det =>
            offer (fst (saveTvShow P det (db st)))
              (snd (saveTvShow P det (db st))) st
        | None => offer None (db st) st
        end
    end.

(** The body of the inner phase 2 loop. *)
Definition collabStep (P : Tmdb.Provider) (count : nat)
    (c : Tmdb.TMDBTvShow) (st : State) : State :=
  if (full count st
      || bool_decide (Tmdb.id c ∈ excludeTvShowTmdbIds st))%bool
  then st
  else
    match Tmdb.getTvShowDetails P (Tmdb.id c) with
    | Some det =>
        offer (fst (saveTvShow P det (db st)))
          (snd (saveTvShow P det (db st))) st
    | None => st
    end.

(** A popular show the fallback phase can use: it is in the store or its
    details can be fetched. *)
Definition available (P : Tmdb.Provider) (t : Z) (d : Db) : Prop :=
  present t d \/ is_Some (Tmdb.getTvShowDetails P t).

(** The shows the similarity phase can use for a list of rated shows. *)
Definition similarTo (P : Tmdb.Provider) (ratedShows : list RatedShow) (t : Z)
    : Prop :=
  exists ratedShow results c,
    ratedShow ∈ ratedShows
    /\ Tmdb.getTvShowRecommendations P (tv_show_tmdb_id ratedShow) = Some results
    /\ c ∈ results /\ Tmdb.id c = t
    /\ is_Some (Tmdb.getTvShowDetails P t).

(** The state at the start of a call and after phase 1 and phase 2
    ([runPhases] is the state after phase 3). *)
Definition initial (excl0 : gset Z) (d : Db) : State :=
  {| recommendations := []; excludeTvShowTmdbIds := excl0; db := d |}.

Definition afterPhase1 (P : Tmdb.Provider) (prefs : UserTvShowPreferences)
    (excl0 : gset Z) (count : nat) (d : Db) : State :=
  phase1 P prefs count (initial excl0 d).

Definition afterPhase2 (P : Tmdb.Provider) (user : User)
    (prefs : UserTvShowPreferences) (excl0 : gset Z) (count : nat) (d : Db)
    : State :=
  phase2 P count (getUserTvShowRatings (user_id user) d)
    (afterPhase1 P prefs excl0 count d).

(** An unseen show the fallback phase can supply at call time. *)
Definition popularSupply (P : Tmdb.Provider) (d : Db) (t : Z) : Prop :=
  exists results pop,
    Tmdb.getPopularTvShows P = Some results /\ pop ∈ results
    /\ Tmdb.id pop = t /\ available P t d.

(** An unseen show the similarity phase can supply at call time.  Its
    seeds are the first two rated shows in descending order of rating; the
    sort is stable, so shows rated alike stay in the order of the query,
    which is ascending in the local id of the show. *)
Definition similarSupply (P : Tmdb.Provider) (user : User) (d : Db) (t : Z)
    : Prop :=
  (MIN_RATINGS_FOR_COLLABORATIVE_TV
   <= length (getUserTvShowRatings (user_id user) d))%nat
  /\ similarTo P
       (Js.slice0 2 (Js.sort byRatingDesc (getUserTvShowRatings (user_id user) d)))
       t.

End Notions.

(** ** Concrete data used by the properties *)

Module Scenario.

Import Restaurants.
Local Open Scope string_scope.

(** User U and the catalog A, B, C of the documented scenario. *)
Definition prefsU : UserPreferences :=
  {| favoriteCuisines := ["Italian"];
     dietaryRestrictions := ["vegetarian"];
     minRating := 4.0 |}.

Definition userU : User :=
  {| user_id := 1; user_name := "U"; preferences := prefsU |}.

Definition restaurantA : Restaurant :=
  {| id := Some 1; googlePlaceId := "place-A"; name := "A"; address := "";
     cuisines := ["Italian"]; dietaryOptions := ["vegetarian"; "vegan"];
     rating := 4.5 |}.

Definition restaurantB : Restaurant :=
  {| id := Some 2; googlePlaceId := "place-B"; name := "B"; address := "";
     cuisines := ["Mexican"]; dietaryOptions := ["vegetarian"];
     rating := 4.8 |}.

Definition restaurantC : Restaurant :=
  {| id := Some 3; googlePlaceId := "place-C"; name := "C"; address := "";
     cuisines := ["Italian"]; dietaryOptions := [];
     rating := 4.2 |}.

(** A vegetarian place rated 3.0, for a user who asks for vegetarian
    food and a rating of at least 4. *)
Definition prefsVeg4 : UserPreferences :=
  {| favoriteCuisines := [];
     dietaryRestrictions := ["vegetarian"];
     minRating := 4 |}.

Definition lowRatedVeg : Restaurant :=
  {| id := Some 7; googlePlaceId := "place-V"; name := "V"; address := "";
     cuisines := ["Indian"]; dietaryOptions := ["vegetarian"];
     rating := 3 |}.

(** Two restaurants rated 4.0 that differ in cuisine only, for a user who
    likes Italian food and asks for a rating of at least 4.5. *)
Definition prefsItalian45 : UserPreferences :=
  {| favoriteCuisines := ["Italian"]; dietaryRestrictions := [];
     minRating := 4.5 |}.

Definition rated4 (i : Z) (place cuisine : string) : Restaurant :=
  {| id := Some i; googlePlaceId := place; name := cuisine; address := "";
     cuisines := [cuisine]; dietaryOptions := []; rating := 4 |}.

Definition mexican4 : Restaurant := rated4 8 "place-M" "Mexican".
Definition italian4 : Restaurant := rated4 9 "place-I" "Italian".

(** Six restaurants that differ in id and place only, for a user with no
    preference. *)
Definition prefsNone : UserPreferences :=
  {| favoriteCuisines := []; dietaryRestrictions := []; minRating := 1 |}.

Definition userNone : User :=
  {| user_id := 2; user_name := "N"; preferences := prefsNone |}.

Definition diner (i : Z) (place : string) : Restaurant :=
  {| id := Some i; googlePlaceId := place; name := "Diner"; address := "";
     cuisines := ["Food"]; dietaryOptions := []; rating := 4 |}.

Definition sixDiners : list Restaurant :=
  [diner 1 "diner-1"; diner 2 "diner-2"; diner 3 "diner-3";
   diner 4 "diner-4"; diner 5 "diner-5"; diner 6 "diner-6"].

(** A random source that always yields one half. *)
Definition halves : RandomSource := fun _ => 0.5%Q.
Definition zeros : RandomSource := fun _ => 0%Q.

Import TvShows.

Definition comedy : Tmdb.Genre := {| Tmdb.genre_id := 35; Tmdb.genre_name := "Comedy" |}.
Definition drama : Tmdb.Genre := {| Tmdb.genre_id := 18; Tmdb.genre_name := "Drama" |}.

Definition showWith (i : Z) (gs : list Tmdb.Genre) : TvShow :=
  {| TvShows.id := i; tmdb_id := 1000 + i; TvShows.name := "Show"; overview := "";
     first_air_date := Some "2019-05-01"; vote_average := 8; vote_count := 10;
     poster_path := None; backdrop_path := None; genres := gs;
     number_of_seasons := Some 2; episode_run_time := Some [45];
     original_language := Some "en"; imdb_id := None |}.

Definition comedyShow : TvShow := showWith 1 [comedy].
Definition dramaShow : TvShow := showWith 2 [drama].

Definition tvPrefs (gs : option (list string)) : UserTvShowPreferences :=
  {| prefs_user_id := 1; preferred_genres := gs; preferred_languages := None;
     first_air_year_min := None; first_air_year_max := None;
     avg_episode_duration_min := None; avg_episode_duration_max := None;
     min_imdb_rating := None; preferred_streaming_providers := None |}.

Definition noTvPrefs : UserTvShowPreferences := tvPrefs None.
Definition dramaPrefs : UserTvShowPreferences := tvPrefs (Some ["Drama"]).
Definition anyPrefs : UserTvShowPreferences := tvPrefs (Some ["Any"]).

Definition acc0 : Acc := {| score := 0; meetsAllHardFilters := true |}.

(** A restaurant fetched twice, the second time with a new rating. *)
Definition trattoria (r : Q) : RestaurantDb.RestaurantData :=
  RestaurantDb.Build_RestaurantData
    "place-T" "Trattoria" "1 Main St" ["Italian"] [] r.

Definition emptyRestaurantDb : RestaurantDb.Db :=
  {| RestaurantDb.restaurants := []; RestaurantDb.restaurants_seq := 0 |}.

(** A provider with three popular shows (ids 1, 2, 3); details exist for
    each of them, and show 1 has two similar shows (4 and 5). *)
Definition tmdbShow (i : Z) (v : Q) : Tmdb.TMDBTvShow :=
  {| Tmdb.id := i; Tmdb.name := "Show"; Tmdb.imdb_id := None;
     Tmdb.overview := ""; Tmdb.first_air_date := Some "2019-05-01";
     Tmdb.vote_average := v; Tmdb.vote_count := 10;
     Tmdb.poster_path := None; Tmdb.backdrop_path := None;
     Tmdb.genre_ids := None; Tmdb.genres := Some [drama];
     Tmdb.number_of_seasons := Some 2; Tmdb.episode_run_time := Some [45];
     Tmdb.original_language := Some "en";
     Tmdb.external_ids_imdb_id := None |}.

Definition provider : Tmdb.Provider :=
  {| Tmdb.getPopularTvShows := Some [tmdbShow 1 8; tmdbShow 2 7; tmdbShow 3 6];
     Tmdb.getTvShowDetails :=
       fun i => if (Z.leb 1 i && Z.leb i 5)%bool
                then Some (tmdbShow i (8 - inject_Z i / 2))
                else None;
     Tmdb.getTvShowRecommendations :=
       fun i => if Z.eqb i 1 then Some [tmdbShow 4 9; tmdbShow 5 9] else None;
     Tmdb.getTvShowGenreList := [comedy; drama] |}.

Definition emptyTvDb : TvShowDb.Db :=
  {| TvShowDb.tv_shows := []; TvShowDb.tv_shows_seq := 0;
     TvShowDb.user_tv_show_ratings := [] |}.

Definition viewer : TvRecommender.User :=
  {| TvRecommender.user_id := 1; TvRecommender.user_name := "U" |}.

(** A provider whose only popular show has the id 7 and whose details
    endpoint answers the request for show 7 with the record of show 1. *)
Definition redirectingProvider : Tmdb.Provider :=
  {| Tmdb.getPopularTvShows := Some [tmdbShow 7 8];
     Tmdb.getTvShowDetails :=
       fun i => if Z.eqb i 7 then Some (tmdbShow 1 8) else None;
     Tmdb.getTvShowRecommendations := fun _ => None;
     Tmdb.getTvShowGenreList := [comedy; drama] |}.

(** Preferences that state nothing but the two bounds of the first air
    year, and a comedy with a given first air date. *)
Definition yearPrefs (lo hi : option Z) : UserTvShowPreferences :=
  {| prefs_user_id := 1; preferred_genres := None; preferred_languages := None;
     first_air_year_min := lo; first_air_year_max := hi;
     avg_episode_duration_min := None; avg_episode_duration_max := None;
     min_imdb_rating := None; preferred_streaming_providers := None |}.

Definition showDated (date : option string) : TvShow :=
  {| TvShows.id := 3; tmdb_id := 1003; TvShows.name := "Show"; overview := "";
     first_air_date := date; vote_average := 8; vote_count := 10;
     poster_path := None; backdrop_path := None; genres := [comedy];
     number_of_seasons := Some 2; episode_run_time := Some [45];
     original_language := Some "en"; imdb_id := None |}.

(** A random source that always yields [1 - 2^-52], the value at which
    adding the factor to a score rounds up to the next whole number. *)
Definition nearlyOne : RandomSource := fun _ => (1 - 1 / 4503599627370496)%Q.

(** Environments of the restaurant provider client: no key; a key and a
    network error; a key and one place found. *)
Definition envNoKey : GooglePlaces.Env :=
  {| GooglePlaces.API_KEY := None;
     GooglePlaces.fetch := fun _ _ => inl {| message := "unreachable" |} |}.

Definition envNetworkDown : GooglePlaces.Env :=
  {| GooglePlaces.API_KEY := Some "k";
     GooglePlaces.fetch := fun _ _ => inl {| message := "fetch failed" |} |}.

Definition pizzeria : GooglePlaces.Place :=
  {| GooglePlaces.place_id := "place-P";
     GooglePlaces.place_name := Some "Luigi Pizza";
     GooglePlaces.formatted_address := None;
     GooglePlaces.vicinity := Some "2 High St";
     GooglePlaces.types := Some ["thai_food_restaurant"; "bar"; "restaurant"];
     GooglePlaces.place_rating := Some 4.3%Q |}.

Definition envOnePlace : GooglePlaces.Env :=
  {| GooglePlaces.API_KEY := Some "k";
     GooglePlaces.fetch := fun _ _ =>
       inr {| GooglePlaces.ok := true;
              GooglePlaces.text := inr "";
              GooglePlaces.json :=
                inr {| GooglePlaces.status := "OK";
                       GooglePlaces.error_message := None;
                       GooglePlaces.results := Some [pizzeria] |} |} |}.

End Scenario.

(** ** Further notions and data *)

(** [x] is not ranked below [y] by the key. *)
Definition desc {A : Type} (key : A -> Q) (x y : A) : Prop := (key y <= key x)%Q.

(** The items of [l] with a positive score, each with its score, in
    descending order of score (the order [sort] gives for the comparator
    [(a, b) => b.score - a.score]). *)
Definition scored {A} (score : A -> Q) (l : list A) : list (A * Q) :=
  Js.sort (fun a b => Qle_bool (snd b) (snd a))
    (List.filter (fun item => Js.Qltb 0 (snd item))
       (map (fun a => (a, score a)) l)).

Module Samples.

Import Restaurants.
Local Open Scope string_scope.


End Samples.

(** ** Scores in double arithmetic *)

Module RankingNotions.
Import Restaurants.


End RankingNotions.

(** The bodies of the two loops of [mapGoogleTypesToCuisines], and the
    array they build. *)
Module PlacesNotions.
Import GooglePlaces.

(** The step of the loop over the place types. *)
Definition typeStep (cuisines : list string) (type : string) : list string :=
  match typeMap type with
  | Some c => pushNew c cuisines
  | None =>
      if Js.str_includes type "_restaurant"
      then pushNew
             (join " " (map capitalize (split "_" (removeFirst "_restaurant" type))))
             cuisines
      else cuisines
  end.

(** The step of the loop over the name keywords. *)
Definition nameStep (placeName : string) (cuisines : list string)
    (kw : string * string) : list string :=
  if Js.str_includes (Js.toLowerCase placeName) (fst kw)
  then pushNew (snd kw) cuisines else cuisines.

(** The array of cuisines after the two loops. *)
Definition inferred (googleTypes : list string) (placeName : string)
    : list string :=
  fold_left (nameStep placeName) nameKeywords (fold_left typeStep googleTypes []).

End PlacesNotions.

(** Further notions for the TV-show orchestrator. *)
Module TvNotions.
Import TvShows TvShowDb TvRecommender.

(** The scored, filtered and sorted array of the content-based
    recommender. *)
Definition ranked (prefs : UserTvShowPreferences) (candidates : list TvShow)
    : list (TvShow * Q) :=
  Js.sort byScoreDesc
    (List.filter (fun item => Js.Qltb 0 (snd item))
       (map (fun show => (show, scoreShow prefs show)) candidates)).

(** Every recommended show is the row the store holds under its external
    id. *)
Definition Stored (st : State) : Prop :=
  forall r, r ∈ recommendations st ->
    getTvShowByTmdbId (tmdb_id r) (db st) = Some r.

(** The two ids of a row. *)
Definition rowKey (r : TvShow) : Z * Z := (id r, tmdb_id r).

(** The store [d'] extends [d]: the rows of [d] are still there, in place
    and under the same ids, the ratings are untouched, and the UNIQUE
    constraint and a sound sequence counter are kept. *)
Definition Grows (d d' : Db) : Prop :=
  map rowKey (tv_shows d) `prefix_of` map rowKey (tv_shows d')
  /\ user_tv_show_ratings d' = user_tv_show_ratings d
  /\ (NoDup (map tmdb_id (tv_shows d)) -> NoDup (map tmdb_id (tv_shows d')))
  /\ (0 <= tv_shows_seq d -> 0 <= tv_shows_seq d').

(** A candidate of phase 1 is the stored row of its external id, built
    from the details of that id. *)
Definition CandidateOk (P : Tmdb.Provider) (d : Db) (c : TvShow) : Prop :=
  getTvShowByTmdbId (tmdb_id c) d = Some c
  /\ exists det, Tmdb.getTvShowDetails P (tmdb_id c) = Some det
                 /\ c = rowOf P det (id c).

(** From [st] to [st']: recommendations are only appended, the store only
    grows, and the recommended shows stay the stored rows. *)
Definition Run (P : Tmdb.Provider) (excl0 : gset Z) (count : nat)
    (st st' : State) : Prop :=
  recommendations st `prefix_of` recommendations st'
  /\ Grows (db st) (db st')
  /\ (Notions.details_consistent P -> Notions.Inv P excl0 count st ->
      Stored st -> Stored st').

End TvNotions.

(** ** More of the JavaScript library *)

Module JsStrings.

(** [s.trimEnd()] and [s.trim()], on the ASCII range. *)
Fixpoint trimEnd (s : string) : string :=
  match s with
  | EmptyString => EmptyString
  | String c r =>
      match trimEnd r with
      | EmptyString => if Js.is_ws c then EmptyString else String c EmptyString
      | r' => String c r'
      end
  end.

Definition trim (s : string) : string := trimEnd (Js.skip_ws s).

End JsStrings.

(** ** Loading restaurants into the store
       (src/db/restaurantDb.ts, fetchAndSaveRestaurantsToDb) *)

Module RestaurantFetch.

Import Restaurants RestaurantDb.

(** [SELECT COUNT( * ) as c FROM restaurants WHERE googlePlaceId = ? AND id != ?],
    then [(count?.c ?? 0) > 0]. *)
Definition isRestaurantPreviouslySaved (googlePlaceId : string)
    (currentIdInDb : option Z) (db : Db) : bool :=
  let c :=
    length (List.filter
              (fun r => (String.eqb (Restaurants.googlePlaceId r) googlePlaceId
                         && match id r, currentIdInDb with
                            | Some i, Some j => negb (Z.eqb i j)
                            | _, _ => false
                            end)%bool)
              (restaurants db)) in
  Nat.ltb 0 c.

(** The two counters of the loop. *)
Record Counts := { savedCount : nat; skippedCount : nat }.

(** The body of [for (const resto of restaurantsFromApi)]. *)
Definition saveOne (resto : RestaurantData) (acc : Counts * Db) : Counts * Db :=
  let '(counts, db) := acc in
  let '(saved, db) := saveRestaurantToDb resto db in
  match saved with
  | Some s =>
      if negb (isRestaurantPreviouslySaved (data_googlePlaceId resto)
                 (savedId s) db)
      then ({| savedCount := S (savedCount counts);
               skippedCount := skippedCount counts |}, db)
      else ({| savedCount := savedCount counts;
               skippedCount := S (skippedCount counts) |}, db)
  | None => ({| savedCount := savedCount counts;
                skippedCount := S (skippedCount counts) |}, db)
  end.

Definition saveAll (restaurantsFromApi : list RestaurantData) (db : Db)
    : Counts * Db :=
  fold_left (fun acc resto => saveOne resto acc) restaurantsFromApi
    ({| savedCount := 0; skippedCount := 0 |}, db).

(** The call yields the store and, when the loop ran, the two counts of
    the last message; [None] stands for the two early returns. *)
Definition fetchAndSaveRestaurantsToDb (env : GooglePlaces.Env)
    (locationQuery : string) (db : Db) : Exc (option Counts * Db) :=
  if String.eqb (JsStrings.trim locationQuery) EmptyString
  then inr (None, db)
  else
    restaurantsFromApi <~!
      GooglePlaces.fetchRestaurantsFromGooglePlaces env locationQuery
        GooglePlaces.defaultMaxResults ;;
    if Nat.eqb (length restaurantsFromApi) 0 then inr (None, db)
    else
      let '(counts, db) := saveAll restaurantsFromApi db in
      inr (Some counts, db).

End RestaurantFetch.

(** ** The first store (src/database.ts) *)

Module Database.

Import Restaurants RestaurantDb.

(** [saveRestaurant]: [lastID], or [None] ([undefined]) when the place
    is already stored or the insert fails. *)
Definition saveRestaurant (restaurant : RestaurantData) (db : Db)
    : option Z * Db :=
  match getByGooglePlaceId (data_googlePlaceId restaurant) db with
  | Some _existing => (None, db)
  | None =>
      match insertRow restaurant db with
      | inr (lastID, db') => (Some lastID, db')
      | inl _error => (None, db)
      end
  end.

Record Counts := { savedCount : nat; existingSkippedCount : nat }.

(** The body of the loop of [fetchAndSaveRestaurants]; an insert that
    fails throws. *)
Definition saveOne (resto : RestaurantData) (acc : Counts * Db)
    : Exc (Counts * Db) :=
  let '(counts, db) := acc in
  match getByGooglePlaceId (data_googlePlaceId resto) db with
  | Some _existing =>
      inr ({| savedCount := savedCount counts;
              existingSkippedCount := S (existingSkippedCount counts) |}, db)
  | None =>
      result <~! insertRow resto db ;;
      let '(lastID, db') := result in
      inr ({| savedCount := if Z.eqb lastID 0 then savedCount counts
                            else S (savedCount counts);
              existingSkippedCount := existingSkippedCount counts |}, db')
  end.

Fixpoint saveAll (restaurantsFromApi : list RestaurantData)
    (acc : Counts * Db) : Exc (Counts * Db) :=
  match restaurantsFromApi with
  | [] => inr acc
  | resto :: rest => acc' <~! saveOne resto acc ;; saveAll rest acc'
  end.

Definition fetchAndSaveRestaurants (env : GooglePlaces.Env)
    (locationQuery : string) (db : Db) : Exc (option Counts * Db) :=
  if String.eqb (JsStrings.trim locationQuery) EmptyString
  then inr (None, db)
  else
    restaurantsFromApi <~!
      GooglePlaces.fetchRestaurantsFromGooglePlaces env locationQuery
        GooglePlaces.defaultMaxResults ;;
    if Nat.eqb (length restaurantsFromApi) 0 then inr (None, db)
    else
      r <~! saveAll restaurantsFromApi
              ({| savedCount := 0; existingSkippedCount := 0 |}, db) ;;
      inr (Some (fst r), snd r).

(** [getAllRestaurants] *)
Definition getAllRestaurants (db : Db) : list Restaurant := restaurants db.

End Database.

(** ** Users (src/db/setup.ts) *)

Module UserDb.

Record User := { id : Z; name : string }.

Record Db := {
  users : list User;
  (** sqlite_sequence: the largest row id handed out so far *)
  users_seq : Z
}.

(** [SELECT id, name FROM users WHERE name = ?] *)
Definition getUserByName (n : string) (db : Db) : option User :=
  List.find (fun u => String.eqb (name u) n) (users db).

(** [SELECT id, name FROM users WHERE id = ?] *)
Definition getUserById (i : Z) (db : Db) : option User :=
  List.find (fun u => Z.eqb (id u) i) (users db).

Definition nextRowId (db : Db) : Z :=
  fold_right Z.max (users_seq db) (map id (users db)) + 1.

(** [INSERT INTO users (name) VALUES (?)]: fails on the UNIQUE column
    [name], otherwise yields [lastID]. *)
Definition insertUser (n : string) (db : Db) : Error + (Z * Db) :=
  if existsb (fun u => String.eqb (name u) n) (users db)
  then inl {| message :=
                "SQLITE_CONSTRAINT: UNIQUE constraint failed: users.name" |}
  else
    let lastID := nextRowId db in
    inr (lastID,
         {| users := users db ++ [{| id := lastID; name := n |}];
            users_seq := lastID |}).

Definition ensureUser (n : string) (db : Db) : option User * Db :=
  match getUserByName n db with
  | Some user => (Some user, db)
  | None =>
      match insertUser n db with
      | inr (lastID, db') =>
          if Z.eqb lastID 0 then (None, db')
          else (getUserById lastID db', db')
      | inl error =>
          if Js.str_includes (message error) "UNIQUE constraint failed: users.name"
          then (getUserByName n db, db)
          else (None, db)
      end
  end.

(** [SELECT id, name FROM users ORDER BY name ASC] *)
Definition getAllUsers (db : Db) : list User :=
  Js.sort (fun a b => String.leb (name a) (name b)) (users db).

Definition usersToSeed : list string :=
  ["Alice"; "Bob"; "Charlie"; "Diana"; "Edward"; "Fiona"]%string.

(** The loop of [seedInitialGenericUsers], with its counter. *)
Definition seedLoop (names : list string) (acc : nat * Db) : nat * Db :=
  fold_left (fun acc n =>
               let '(seededCount, db) := acc in
               let '(user, db) := ensureUser n db in
               match user with
               | Some _ => (S seededCount, db)
               | None => (seededCount, db)
               end) names acc.

(** [seedInitialGenericUsers]: the number of users seeded, [None] when
    the table is not empty, and the store. *)
Definition seedInitialGenericUsers (db : Db) : option nat * Db :=
  if Nat.eqb (length (users db)) 0
  then let '(seededCount, db) := seedLoop usersToSeed (O, db) in
       (Some seededCount, db)
  else (None, db).

End UserDb.

(** ** Notions for the restaurant store *)

Module RestaurantNotions.
Import RestaurantDb.

(** The store is sound: the sequence counter is not negative and no place
    id is stored twice. *)
Definition Sound (db : Db) : Prop :=
  0 <= restaurants_seq db /\ Notions.unique_place_ids db.

End RestaurantNotions.

(** ** Notions for the table of users *)

Module UserNotions.
Import UserDb.

(** The table is sound: the sequence counter is not negative, and names
    (UNIQUE) and ids (PRIMARY KEY) are not repeated. *)
Definition Sound (db : Db) : Prop :=
  0 <= users_seq db /\ NoDup (map name (users db)) /\ NoDup (map id (users db)).

Definition emptyUserDb : Db := {| users := []; users_seq := 0 |}.

End UserNotions.

(** ** Preferences and likes of the restaurant module
       (src/restaurants/types.ts, src/db/restaurantDb.ts, src/data/mockUsers.ts)

    The connection enforces foreign keys ([PRAGMA foreign_keys = ON]).
    The column [liked_at] is written by its default and read by no
    function; it is left out. *)

Module RestaurantAccounts.

Record RestaurantUserPreferences := {
  user_id : Z;
  favoriteCuisines : list string;
  dietaryRestrictions : list string;
  minRating : Q
}.

Record UserRestaurantLike := {
  like_user_id : Z;
  restaurant_id : Z
}.

Record Db := {
  users : UserDb.Db;
  restaurants : RestaurantDb.Db;
  user_restaurant_preferences : list RestaurantUserPreferences;
  user_restaurant_likes : list UserRestaurantLike
}.

(** The preferences as the scorer reads them. *)
Definition scoringPreferences (p : RestaurantUserPreferences)
    : Restaurants.UserPreferences :=
  {| Restaurants.favoriteCuisines := favoriteCuisines p;
     Restaurants.dietaryRestrictions := dietaryRestrictions p;
     Restaurants.minRating := minRating p |}.

Definition foreignKeyFailed : Error :=
  {| message := "SQLITE_CONSTRAINT: FOREIGN KEY constraint failed" |}.

Definition withPreferences (rows : list RestaurantUserPreferences) (db : Db)
    : Db :=
  {| users := users db; restaurants := restaurants db;
     user_restaurant_preferences := rows;
     user_restaurant_likes := user_restaurant_likes db |}.

Definition withLikes (rows : list UserRestaurantLike) (db : Db) : Db :=
  {| users := users db; restaurants := restaurants db;
     user_restaurant_preferences := user_restaurant_preferences db;
     user_restaurant_likes := rows |}.

(** [INSERT INTO user_restaurant_preferences ... ON CONFLICT(user_id) DO
    UPDATE SET ...]: a row of the user is rewritten in place; otherwise a
    row is inserted, which needs the user to exist. *)
Definition upsertPreferences (prefs : RestaurantUserPreferences) (db : Db)
    : Exc Db :=
  let rows := user_restaurant_preferences db in
  if existsb (fun r => Z.eqb (user_id r) (user_id prefs)) rows
  then inr (withPreferences
              (map (fun r => if Z.eqb (user_id r) (user_id prefs)
                             then prefs else r) rows) db)
  else if Js.isSome (UserDb.getUserById (user_id prefs) (users db))
  then inr (withPreferences (rows ++ [prefs]) db)
  else inl foreignKeyFailed.

(** The error is caught and logged. *)
Definition saveUserRestaurantPreferences (prefs : RestaurantUserPreferences)
    (db : Db) : Db :=
  match upsertPreferences prefs db with
  | inr db' => db'
  | inl _error => db
  end.

Definition getUserRestaurantPreferences (userId : Z) (db : Db)
    : option RestaurantUserPreferences :=
  List.find (fun r => Z.eqb (user_id r) userId) (user_restaurant_preferences db).

(** [INSERT INTO user_restaurant_likes (user_id, restaurant_id) VALUES (?, ?)
    ON CONFLICT(user_id, restaurant_id) DO NOTHING] *)
Definition insertLike (userId restaurantId : Z) (db : Db) : Exc Db :=
  let rows := user_restaurant_likes db in
  if existsb (fun l => (Z.eqb (like_user_id l) userId
                        && Z.eqb (restaurant_id l) restaurantId)%bool) rows
  then inr db
  else if (Js.isSome (UserDb.getUserById userId (users db))
           && Js.isSome (RestaurantDb.getRestaurantById restaurantId
                           (restaurants db)))%bool
  then inr (withLikes (rows ++ [{| like_user_id := userId;
                                   restaurant_id := restaurantId |}]) db)
  else inl foreignKeyFailed.

Definition recordUserRestaurantLike (userId restaurantId : Z) (db : Db) : Db :=
  match insertLike userId restaurantId db with
  | inr db' => db'
  | inl _error => db
  end.

(** The rows of [user_restaurant_likes] that [WHERE user_id = ?] selects.
    The statement has no [ORDER BY]; SQLite finds the rows through the
    index of the primary key [(user_id, restaurant_id)], so they come in
    ascending order of [restaurant_id]. *)
Definition likesOfUser (userId : Z) (db : Db) : list UserRestaurantLike :=
  Js.sort (fun a b => Z.leb (restaurant_id a) (restaurant_id b))
    (List.filter (fun l => Z.eqb (like_user_id l) userId)
       (user_restaurant_likes db)).

(** [SELECT restaurant_id FROM user_restaurant_likes WHERE user_id = ?] *)
Definition getLikedRestaurantIdsByUserId (userId : Z) (db : Db) : list Z :=
  map restaurant_id (likesOfUser userId db).

(** src/data/mockUsers.ts *)
Record MockUser := {
  mock_name : string;
  mock_preferences : Restaurants.UserPreferences
}.

Definition mockUser (n : string) (cuisines restrictions : list string)
    (r : Q) : MockUser :=
  {| mock_name := n;
     mock_preferences :=
       {| Restaurants.favoriteCuisines := cuisines;
          Restaurants.dietaryRestrictions := restrictions;
          Restaurants.minRating := r |} |}.

Definition mockUsers : list MockUser :=
  [mockUser "Alice" ["Italian"; "Mexican"] [] 4.0;
   mockUser "Bob" ["Indian"; "Thai"; "Vietnamese"] ["vegetarian"] 4.2;
   mockUser "Charlie" ["American"; "BBQ"] [] 3.5;
   mockUser "Diana" ["Japanese"; "Sushi"; "Ramen"] ["gluten-free"] 4.5;
   mockUser "Edward" ["Mediterranean"; "Greek"; "Cafe"] ["vegan"] 3.8;
   mockUser "Fiona" ["Any"] [] 3.0]%string.

(** [{ user_id: currentUser.id, ...mockUserData.preferences }] *)
Definition seededPreferences (currentUser : UserDb.User)
    (mockUserData : MockUser) : RestaurantUserPreferences :=
  {| user_id := UserDb.id currentUser;
     favoriteCuisines :=
       Restaurants.favoriteCuisines (mock_preferences mockUserData);
     dietaryRestrictions :=
       Restaurants.dietaryRestrictions (mock_preferences mockUserData);
     minRating := Restaurants.minRating (mock_preferences mockUserData) |}.

(** [SELECT id FROM users ORDER BY id ASC] *)
Definition usersById (db : Db) : list UserDb.User :=
  Js.sort (fun a b => Z.leb (UserDb.id a) (UserDb.id b))
    (UserDb.users (users db)).

(** The loop over [i < Math.min(users.length, mockUsers.length)] visits
    the pairs [(users[i], mockUsers[i])]. *)
Definition seedInitialRestaurantPreferences (db : Db) : Db :=
  let us := usersById db in
  if (Nat.ltb 0 (length us)
      && Nat.eqb (length (user_restaurant_preferences db)) 0)%bool
  then fold_left (fun db pair =>
                    saveUserRestaurantPreferences
                      (seededPreferences (fst pair) (snd pair)) db)
         (combine us mockUsers) db
  else db.

End RestaurantAccounts.

(** ** Preferences and ratings of the TV-show module (src/db/tvShowDb.ts)

    A preference column holds [NULL] exactly when the field is
    [undefined]; the column [rated_at] is read by no function and is left
    out. *)

Module TvAccounts.

Import TvShows.

Record Db := {
  users : UserDb.Db;
  shows : TvShowDb.Db;
  user_tv_show_preferences : list UserTvShowPreferences
}.

Definition withShows (d : TvShowDb.Db) (db : Db) : Db :=
  {| users := users db; shows := d;
     user_tv_show_preferences := user_tv_show_preferences db |}.

Definition withPreferences (rows : list UserTvShowPreferences) (db : Db) : Db :=
  {| users := users db; shows := shows db; user_tv_show_preferences := rows |}.

Definition withRatings (rows : list UserTvShowRating) (db : Db) : Db :=
  withShows {| TvShowDb.tv_shows := TvShowDb.tv_shows (shows db);
               TvShowDb.tv_shows_seq := TvShowDb.tv_shows_seq (shows db);
               TvShowDb.user_tv_show_ratings := rows |} db.

Definition foreignKeyFailed : Error :=
  {| message := "SQLITE_CONSTRAINT: FOREIGN KEY constraint failed" |}.

(** [INSERT INTO user_tv_show_preferences ... ON CONFLICT(user_id) DO UPDATE
    SET ...] *)
Definition upsertPreferences (prefs : UserTvShowPreferences) (db : Db) : Exc Db :=
  let rows := user_tv_show_preferences db in
  if existsb (fun r => Z.eqb (prefs_user_id r) (prefs_user_id prefs)) rows
  then inr (withPreferences
              (map (fun r => if Z.eqb (prefs_user_id r) (prefs_user_id prefs)
                             then prefs else r) rows) db)
  else if Js.isSome (UserDb.getUserById (prefs_user_id prefs) (users db))
  then inr (withPreferences (rows ++ [prefs]) db)
  else inl foreignKeyFailed.

Definition saveUserTvShowPreferences (prefs : UserTvShowPreferences) (db : Db)
    : Db :=
  match upsertPreferences prefs db with
  | inr db' => db'
  | inl _error => db
  end.

Definition getUserTvShowPreferences (userId : Z) (db : Db)
    : option UserTvShowPreferences :=
  List.find (fun r => Z.eqb (prefs_user_id r) userId)
    (user_tv_show_preferences db).

Definition sameRating (userId tvShowId : Z) (r : UserTvShowRating) : bool :=
  (Z.eqb (user_id r) userId && Z.eqb (tv_show_id r) tvShowId)%bool.

(** [INSERT INTO user_tv_show_ratings (user_id, tv_show_id, rating) VALUES
    (?, ?, ?) ON CONFLICT(user_id, tv_show_id) DO UPDATE SET rating =
    excluded.rating, rated_at = CURRENT_TIMESTAMP] *)
Definition upsertRating (userId tvShowId rating : Z) (db : Db) : Exc Db :=
  let rows := TvShowDb.user_tv_show_ratings (shows db) in
  let new := {| user_id := userId; tv_show_id := tvShowId; rating := rating |} in
  if existsb (sameRating userId tvShowId) rows
  then inr (withRatings
              (map (fun r => if sameRating userId tvShowId r then new else r)
                 rows) db)
  else if (Js.isSome (UserDb.getUserById userId (users db))
           && Js.isSome (TvShowDb.getTvShowByOurId tvShowId (shows db)))%bool
  then inr (withRatings (rows ++ [new]) db)
  else inl foreignKeyFailed.

Definition saveUserTvShowRating (userId tvShowId rating : Z) (db : Db) : Db :=
  match upsertRating userId tvShowId rating db with
  | inr db' => db'
  | inl _error => db
  end.

(** [SELECT tv_show_id FROM user_tv_show_ratings WHERE user_id = ?], in
    the order of the primary key. *)
Definition getRatedTvShowIdsByUser (userId : Z) (db : Db) : list Z :=
  map tv_show_id (TvShowDb.ratingsOfUser userId (shows db)).

End TvAccounts.

(** ** The TV-show menu (src/cli/tvShow.ts, runTvShowCLI) *)

Module TvCli.

Import TvShows TvAccounts.

(** Menu option 1: the shows the user has rated are excluded, and the
    default count is used. *)
Definition recommendCase (P : Tmdb.Provider) (currentUser : TvRecommender.User)
    (userTvShowPrefs : UserTvShowPreferences) (db : Db)
    : list TvShow * Db :=
  let ratedTvShowOurDbIds :=
    getRatedTvShowIdsByUser (TvRecommender.user_id currentUser) db in
  let ratedTvShowsInDb :=
    omap (fun i => TvShowDb.getTvShowByOurId i (shows db)) ratedTvShowOurDbIds in
  let excludeTmdbIds : gset Z := list_to_set (map tmdb_id ratedTvShowsInDb) in
  let '(recommendations, _, d) :=
    TvRecommender.getTvShowRecommendationsForUser P currentUser userTvShowPrefs
      excludeTmdbIds TvRecommender.defaultCount (shows db) in
  (recommendations, withShows d db).

(** Menu option 2, once a search result is chosen: the details are
    fetched and saved, and the answer to the rating question is parsed;
    the rating is stored when it lies between 1 and 5. *)
Definition rateCase (P : Tmdb.Provider) (currentUser : TvRecommender.User)
    (tmdbId : Z) (ratingStr : string) (db : Db) : Db :=
  match Tmdb.getTvShowDetails P tmdbId with
  | None => db
  | Some detailedShowData =>
      let '(showInDb, d) := TvShowDb.saveTvShow P detailedShowData (shows db) in
      let db := withShows d db in
      match showInDb with
      | None => db
      | Some showInDb =>
          match Js.parseInt ratingStr with
          | Some rating =>
              if (Z.leb 1 rating && Z.leb rating 5)%bool
              then saveUserTvShowRating (TvRecommender.user_id currentUser)
                     (id showInDb) rating db
              else db
          | None => db
          end
      end
  end.

End TvCli.

(** ** A store with one user and no show *)

Module TvSamples.

Definition oneUser : UserDb.Db :=
  {| UserDb.users := [{| UserDb.id := 1; UserDb.name := "U" |}];
     UserDb.users_seq := 1 |}.

Definition freshStore : TvAccounts.Db :=
  {| TvAccounts.users := oneUser;
     TvAccounts.shows := Scenario.emptyTvDb;
     TvAccounts.user_tv_show_preferences := [] |}.

End TvSamples.

(** ** Movies (src/common/tmdbService.ts, src/movies/types.ts,
       src/db/movieDb.ts, src/movies/recommender.ts) *)

Module TmdbMovies.

Import Tmdb(Genre, genre_id, genre_name).

Record TMDBMovie := {
  id : Z;
  title : string;
  overview : string;
  release_date : option string;
  vote_average : Q;
  vote_count : Z;
  poster_path : option string;
  backdrop_path : option string;
  genre_ids : option (list Z);
  genres : option (list Genre);
  runtime : option Z;
  original_language : option string;
  imdb_id : option string;
  external_ids_imdb_id : option string      (* external_ids?.imdb_id *)
}.

(** The movie endpoints as the orchestrator sees them; as for the TV
    endpoints, [None] is [null], equal requests are answered equally, and
    the genre list stands for the cache filled by [getMovieGenreList]. *)
Record Provider := {
  getPopularMovies : option (list TMDBMovie);        (* response.results *)
  getMovieRecommendations : Z -> option (list TMDBMovie);
  getMovieGenreList : list Genre
}.

Definition mapMovieGenreIdsToObjects (P : Provider) (ids : option (list Z))
    : list Genre :=
  match ids with
  | None | Some [] => []
  | Some ids =>
      let fullGenreList := getMovieGenreList P in
      omap (fun i => List.find (fun g => Z.eqb (genre_id g) i) fullGenreList) ids
  end.

End TmdbMovies.

Module Movies.

Import Tmdb(Genre, genre_id, genre_name).

Record Movie := {
  id : Z;                                   (* our DB id *)
  tmdb_id : Z;
  title : string;
  overview : string;
  release_date : option string;             (* YYYY-MM-DD, NULL in the store *)
  vote_average : Q;
  vote_count : Z;
  poster_path : option string;
  backdrop_path : option string;
  genres : list Genre;
  runtime : option Z;
  original_language : option string;
  imdb_id : option string
}.

Record UserMovieRating := {
  user_id : Z;
  movie_id : Z;
  rating : Z
}.

End Movies.

(** *** The movie store (src/db/movieDb.ts) *)

Module MovieDb.

Import Tmdb(Genre, genre_id, genre_name).
Import Movies.

Record Db := {
  movies : list Movie;
  (** sqlite_sequence: the largest row id handed out so far *)
  movies_seq : Z;
  user_movie_ratings : list UserMovieRating
}.

Definition ensureFullMovieGenreObjects (P : TmdbMovies.Provider)
    (movieData : TmdbMovies.TMDBMovie) : list Genre :=
  match Js.nonEmpty (TmdbMovies.genres movieData) with
  | Some gs => gs
  | None =>
      match Js.nonEmpty (TmdbMovies.genre_ids movieData) with
      | Some ids => TmdbMovies.mapMovieGenreIdsToObjects P (Some ids)
      | None => []
      end
  end.

(** [SELECT * FROM movies WHERE id = ?] *)
Definition getMovieByOurId (i : Z) (db : Db) : option Movie :=
  List.find (fun r => Z.eqb (id r) i) (movies db).

(** [SELECT * FROM movies WHERE tmdb_id = ?] *)
Definition getMovieByTmdbId (t : Z) (db : Db) : option Movie :=
  List.find (fun r => Z.eqb (tmdb_id r) t) (movies db).

(** The column values both statements bind, as a row with the given ids. *)
Definition rowOf (P : TmdbMovies.Provider)
    (movieDataFromService : TmdbMovies.TMDBMovie) (ourId : Z) : Movie :=
  let fullGenres := ensureFullMovieGenreObjects P movieDataFromService in
  let imdbIdToSave :=
    Js.orElse (TmdbMovies.external_ids_imdb_id movieDataFromService)
      (TmdbMovies.imdb_id movieDataFromService) in
  {| id := ourId;
     tmdb_id := TmdbMovies.id movieDataFromService;
     title := TmdbMovies.title movieDataFromService;
     overview := TmdbMovies.overview movieDataFromService;
     release_date := TmdbMovies.release_date movieDataFromService;
     vote_average := TmdbMovies.vote_average movieDataFromService;
     vote_count := TmdbMovies.vote_count movieDataFromService;
     poster_path := TmdbMovies.poster_path movieDataFromService;
     backdrop_path := TmdbMovies.backdrop_path movieDataFromService;
     genres := map (fun g => {| genre_id := genre_id g;
                                genre_name := genre_name g |}) fullGenres;
     runtime := TmdbMovies.runtime movieDataFromService;
     original_language := TmdbMovies.original_language movieDataFromService;
     imdb_id := imdbIdToSave |}.

(** [UPDATE movies SET ... WHERE tmdb_id = ?]: the local id is kept. *)
Definition updateRows (P : TmdbMovies.Provider)
    (movieDataFromService : TmdbMovies.TMDBMovie) (db : Db) : Db :=
  {| movies :=
       map (fun r => if Z.eqb (tmdb_id r) (TmdbMovies.id movieDataFromService)
                     then rowOf P movieDataFromService (id r) else r)
           (movies db);
     movies_seq := movies_seq db;
     user_movie_ratings := user_movie_ratings db |}.

(** AUTOINCREMENT: one more than the largest row id that ever existed. *)
Definition nextRowId (db : Db) : Z :=
  fold_right Z.max (movies_seq db) (map id (movies db)) + 1.

(** [INSERT INTO movies ...]: fails on the UNIQUE column [tmdb_id],
    otherwise yields [lastID]. *)
Definition insertRow (P : TmdbMovies.Provider)
    (movieDataFromService : TmdbMovies.TMDBMovie) (db : Db)
    : Error + (Z * Db) :=
  if existsb (fun r => Z.eqb (tmdb_id r) (TmdbMovies.id movieDataFromService))
       (movies db)
  then inl {| message :=
                "SQLITE_CONSTRAINT: UNIQUE constraint failed: movies.tmdb_id" |}
  else
    let lastID := nextRowId db in
    inr (lastID,
         {| movies := movies db ++ [rowOf P movieDataFromService lastID];
            movies_seq := lastID;
            user_movie_ratings := user_movie_ratings db |}).

Definition saveMovie (P : TmdbMovies.Provider)
    (movieDataFromService : TmdbMovies.TMDBMovie) (db : Db)
    : option Movie * Db :=
  match getMovieByTmdbId (TmdbMovies.id movieDataFromService) db with
  | Some _existingMovie =>
      let db' := updateRows P movieDataFromService db in
      (getMovieByTmdbId (TmdbMovies.id movieDataFromService) db', db')
  | None =>
      match insertRow P movieDataFromService db with
      | inr (lastID, db') =>
          if Z.eqb lastID 0 then (None, db')
          else (getMovieByOurId lastID db', db')
      | inl error =>
          if Js.str_includes (message error)
               "UNIQUE constraint failed: movies.tmdb_id"
          then (getMovieByTmdbId (TmdbMovies.id movieDataFromService) db, db)
          else (None, db)
      end
  end.

(** A rating row joined with the movie it rates. *)
Record RatedMovie := {
  rated : UserMovieRating;
  movie_tmdb_id : Z
}.

(** The rows of [user_movie_ratings] that [WHERE user_id = ?] selects.
    The statements have no [ORDER BY]; SQLite finds the rows through the
    index of the primary key [(user_id, movie_id)], so they come in
    ascending order of [movie_id]. *)
Definition ratingsOfUser (userId : Z) (db : Db) : list UserMovieRating :=
  Js.sort (fun a b => Z.leb (movie_id a) (movie_id b))
    (List.filter (fun umr => Z.eqb (user_id umr) userId)
       (user_movie_ratings db)).

(** [SELECT umr.*, m.tmdb_id FROM user_movie_ratings umr
     JOIN movies m ON m.id = umr.movie_id WHERE umr.user_id = ?] *)
Definition getUserMovieRatings (userId : Z) (db : Db) : list RatedMovie :=
  flat_map (fun umr =>
    map (fun m => {| rated := umr; movie_tmdb_id := tmdb_id m |})
        (List.filter (fun m => Z.eqb (id m) (movie_id umr)) (movies db)))
    (ratingsOfUser userId db).

(** [allGenreNames.add(name)] on a [Set], kept in insertion order. *)
Definition addName (allGenreNames : list string) (n : string) : list string :=
  if Js.includes allGenreNames n then allGenreNames
  else allGenreNames ++ [n].

(** [SELECT m.genres FROM movies m JOIN user_movie_ratings umr
     ON m.id = umr.movie_id WHERE umr.user_id = ? AND umr.rating >= ?],
    then the names of the genres of these rows, without repetition. *)
Definition getGenresFromUserHighlyRatedMovies (userId : Z) (minRating : Q)
    (db : Db) : list string :=
  let rows :=
    flat_map (fun umr =>
      map genres
          (List.filter (fun m => Z.eqb (id m) (movie_id umr)) (movies db)))
      (List.filter
         (fun umr => Qle_bool minRating (inject_Z (rating umr)))
         (ratingsOfUser userId db)) in
  fold_left (fun allGenreNames genresArray =>
               fold_left (fun names g => addName names (genre_name g))
                 genresArray allGenreNames)
    rows [].

End MovieDb.

(** *** The movie recommender (src/movies/recommender.ts) *)

Module MovieRecommender.

Import Tmdb(Genre, genre_id, genre_name).
Import Movies MovieDb.

Definition MIN_RATINGS_FOR_COLLABORATIVE : nat := 3.

(** [movie.genres.forEach(genre => { if (likedGenres.includes(genre.name))
    score += 1 })] *)
Definition scoreMovie (likedGenres : list string) (movie : Movie) : Q :=
  fold_left (fun score genre =>
               if Js.includes likedGenres (genre_name genre)
               then (score + 1)%Q else score)
    (genres movie) 0%Q.

(** [(a, b) => b.score - a.score] *)
Definition byScoreDesc (a b : Movie * Q) : bool := Qle_bool (snd b) (snd a).

Definition getContentBasedRecommendations (user : TvRecommender.User)
    (allMoviesFromDB : list Movie) (count : nat) (db : Db) : list Movie :=
  let likedGenres :=
    getGenresFromUserHighlyRatedMovies (TvRecommender.user_id user) 3.5 db in
  if Nat.eqb (length likedGenres) 0 then []
  else
    let scoredMovies :=
      Js.sort byScoreDesc
        (List.filter (fun item => Js.Qltb 0 (snd item))
           (map (fun movie => (movie, scoreMovie likedGenres movie))
              allMoviesFromDB)) in
    map fst (Js.slice0 count scoredMovies).

Record State := {
  recommendations : list Movie;
  excludeMovieTmdbIds : gset Z;
  db : Db
}.

(** [recommendations.find(r => r.tmdb_id === t)] is defined *)
Definition recommended (t : Z) (recs : list Movie) : bool :=
  Js.isSome (List.find (fun r => Z.eqb (tmdb_id r) t) recs).

(** [recommendations.push(movie); excludeMovieTmdbIds.add(movie.tmdb_id)] *)
Definition pushAndExclude (movie : Movie) (st : State) : State :=
  {| recommendations := recommendations st ++ [movie];
     excludeMovieTmdbIds := {[ tmdb_id movie ]} ∪ excludeMovieTmdbIds st;
     db := db st |}.

Definition withDb (d : Db) (st : State) : State :=
  {| recommendations := recommendations st;
     excludeMovieTmdbIds := excludeMovieTmdbIds st;
     db := d |}.

(** [recommendations.length >= count] *)
Definition full (count : nat) (st : State) : bool :=
  Nat.leb count (length (recommendations st)).

(** [let movieInDb = await getMovieByTmdbId(tmdbMovie.id);
     if (!movieInDb) movieInDb = await saveMovie(tmdbMovie)] *)
Definition findOrSave (P : TmdbMovies.Provider)
    (tmdbMovie : TmdbMovies.TMDBMovie) (d : Db) : option Movie * Db :=
  match getMovieByTmdbId (TmdbMovies.id tmdbMovie) d with
  | Some movieInDb => (Some movieInDb, d)
  | None => saveMovie P tmdbMovie d
  end.

(** The loop over the provider's movies of the collaborative phase and of
    the fallback: [break] when the array is full, [continue] on an excluded
    id. *)
Fixpoint takeFromProvider (P : TmdbMovies.Provider) (count : nat)
    (results : list TmdbMovies.TMDBMovie) (st : State) : State :=
  match results with
  | [] => st
  | tmdbMovie :: rest =>
      if full count st then st
      else if bool_decide (TmdbMovies.id tmdbMovie ∈ excludeMovieTmdbIds st)
      then takeFromProvider P count rest st
      else
        let '(movieInDb, d') := findOrSave P tmdbMovie (db st) in
        let st := withDb d' st in
        match movieInDb with
        | Some m =>
            if negb (recommended (tmdb_id m) (recommendations st))
            then takeFromProvider P count rest (pushAndExclude m st)
            else takeFromProvider P count rest st
        | None => takeFromProvider P count rest st
        end
  end.

(** The loop over the seeds, with its [break] at the end of the body. *)
Fixpoint collaborativeLoop (P : TmdbMovies.Provider) (count : nat)
    (seeds : list RatedMovie) (st : State) : State :=
  match seeds with
  | [] => st
  | ratedMovie :: rest =>
      let st :=
        match TmdbMovies.getMovieRecommendations P (movie_tmdb_id ratedMovie) with
        | Some results => takeFromProvider P count results st
        | None => st
        end in
      if full count st then st else collaborativeLoop P count rest st
  end.

(** [(a, b) => b.rating - a.rating] *)
Definition byRatingDesc (a b : RatedMovie) : bool :=
  Z.leb (rating (rated b)) (rating (rated a)).

Definition collaborativePhase (P : TmdbMovies.Provider) (count : nat)
    (userRatings : list RatedMovie) (st : State) : State :=
  if Nat.leb MIN_RATINGS_FOR_COLLABORATIVE (length userRatings) then
    let sortedRatings := Js.sort byRatingDesc userRatings in
    collaborativeLoop P count (Js.slice0 3 sortedRatings) st
  else st.

(** The candidates of the content phase: every popular movie that is not
    excluded, from the store or saved into it. *)
Fixpoint collectCandidates (P : TmdbMovies.Provider) (excl : gset Z)
    (popular : list TmdbMovies.TMDBMovie) (candidateMovies : list Movie)
    (d : Db) : list Movie * Db :=
  match popular with
  | [] => (candidateMovies, d)
  | tmdbPopMovie :: rest =>
      if bool_decide (TmdbMovies.id tmdbPopMovie ∈ excl)
      then collectCandidates P excl rest candidateMovies d
      else
        let '(movieInDb, d') := findOrSave P tmdbPopMovie d in
        match movieInDb with
        | Some m => collectCandidates P excl rest (candidateMovies ++ [m]) d'
        | None => collectCandidates P excl rest candidateMovies d'
        end
  end.

(** [for (const rec of contentRecs)] with its [break]. *)
Fixpoint takeContentRecs (count : nat) (contentRecs : list Movie)
    (st : State) : State :=
  match contentRecs with
  | [] => st
  | rec :: rest =>
      if full count st then st
      else if (negb (recommended (tmdb_id rec) (recommendations st))
               && negb (bool_decide (tmdb_id rec ∈ excludeMovieTmdbIds st)))%bool
      then takeContentRecs count rest (pushAndExclude rec st)
      else takeContentRecs count rest st
  end.

Definition contentPhase (P : TmdbMovies.Provider) (user : TvRecommender.User)
    (count : nat) (userRatings : list RatedMovie) (st : State) : State :=
  if (negb (full count st) && Nat.ltb 0 (length userRatings))%bool then
    let '(candidateMovies, d) :=
      match TmdbMovies.getPopularMovies P with
      | Some results =>
          collectCandidates P (excludeMovieTmdbIds st) results [] (db st)
      | None => ([], db st)
      end in
    let st := withDb d st in
    let contentRecs :=
      getContentBasedRecommendations user candidateMovies
        (count - length (recommendations st)) (db st) in
    takeContentRecs count contentRecs st
  else st.

Definition fallbackPhase (P : TmdbMovies.Provider) (count : nat) (st : State)
    : State :=
  if negb (full count st) then
    match TmdbMovies.getPopularMovies P with
    | Some results => takeFromProvider P count results st
    | None => st
    end
  else st.

(** The state after the three phases. *)
Definition runPhases (P : TmdbMovies.Provider) (user : TvRecommender.User)
    (excludeMovieTmdbIds : gset Z) (count : nat) (d : Db) : State :=
  let userRatings := getUserMovieRatings (TvRecommender.user_id user) d in
  let st := {| recommendations := [];
               excludeMovieTmdbIds := excludeMovieTmdbIds;
               db := d |} in
  fallbackPhase P count
    (contentPhase P user count userRatings
       (collaborativePhase P count userRatings st)).

Definition getMovieRecommendationsForUser (P : TmdbMovies.Provider)
    (user : TvRecommender.User) (excludeMovieTmdbIds : gset Z) (count : nat)
    (d : Db) : list Movie * gset Z * Db :=
  let st := runPhases P user excludeMovieTmdbIds count d in
  (Js.slice0 count (recommendations st),
   MovieRecommender.excludeMovieTmdbIds st, db st).

End MovieRecommender.

(** *** Notions about the movie recommender *)

Module MovieNotions.

Import Movies MovieDb MovieRecommender.

(** The external ids of an array of movies. *)
Definition ids (recs : list Movie) : list Z := map tmdb_id recs.

(** The store after the INSERT of [data]. *)
Definition inserted (P : TmdbMovies.Provider) (data : TmdbMovies.TMDBMovie)
    (d : Db) : Db :=
  {| movies := movies d ++ [rowOf P data (nextRowId d)];
     movies_seq := nextRowId d;
     user_movie_ratings := user_movie_ratings d |}.

(** The ids of a list in order, without those of [excl] and without
    repetition. *)
Fixpoint fresh (excl : gset Z) (l : list Z) : list Z :=
  match l with
  | [] => []
  | x :: rest =>
      if bool_decide (x ∈ excl) then fresh excl rest
      else x :: fresh ({[ x ]} ∪ excl) rest
  end.

(** What every step of the orchestrator keeps: the exclusion set is the
    caller's set plus the external ids of the recommendations, no movie is
    recommended twice or against the caller's set, at most [count] movies
    are recommended, and each of them is the row the store holds under its
    external id. *)
Definition Inv (excl0 : gset Z) (count : nat) (st : State) : Prop :=
  excludeMovieTmdbIds st = list_to_set (ids (recommendations st)) ∪ excl0
  /\ NoDup (ids (recommendations st))
  /\ (length (recommendations st) <= count)%nat
  /\ (forall t, t ∈ ids (recommendations st) -> t ∉ excl0)
  /\ (forall m, m ∈ recommendations st ->
        getMovieByTmdbId (tmdb_id m) (db st) = Some m).

(** From [st] to [st']: recommendations and rows are only appended, and
    the ratings are untouched. *)
Definition Extends (st st' : State) : Prop :=
  recommendations st `prefix_of` recommendations st'
  /\ movies (db st) `prefix_of` movies (db st')
  /\ user_movie_ratings (db st') = user_movie_ratings (db st)
  /\ (0 <= movies_seq (db st) -> 0 <= movies_seq (db st')).

Definition initial (excl0 : gset Z) (d : Db) : State :=
  {| recommendations := []; excludeMovieTmdbIds := excl0; db := d |}.

(** The state in which the fallback phase starts. *)
Definition beforeFallback (P : TmdbMovies.Provider) (user : TvRecommender.User)
    (excl0 : gset Z) (count : nat) (d : Db) : State :=
  let userRatings := getUserMovieRatings (TvRecommender.user_id user) d in
  contentPhase P user count userRatings
    (collaborativePhase P count userRatings (initial excl0 d)).

(** The genres of a movie that the user likes, and the movies that have
    one. *)
Definition likedGenresOf (likedGenres : list string) (movie : Movie)
    : list Tmdb.Genre :=
  List.filter (fun g => Js.includes likedGenres (Tmdb.genre_name g))
    (genres movie).

Definition hasLikedGenre (likedGenres : list string) (movie : Movie) : bool :=
  existsb (fun g => Js.includes likedGenres (Tmdb.genre_name g)) (genres movie).

End MovieNotions.

(** A provider of movies and a store with ratings *)

Module MovieSamples.

Import Movies MovieDb.
Local Open Scope string_scope.

Definition action : Tmdb.Genre :=
  {| Tmdb.genre_id := 28; Tmdb.genre_name := "Action" |}.

Definition tmdbMovie (i : Z) (gs : list Z) : TmdbMovies.TMDBMovie :=
  {| TmdbMovies.id := i; TmdbMovies.title := "Movie";
     TmdbMovies.overview := ""; TmdbMovies.release_date := Some "2020-01-01";
     TmdbMovies.vote_average := 7; TmdbMovies.vote_count := 10;
     TmdbMovies.poster_path := None; TmdbMovies.backdrop_path := None;
     TmdbMovies.genre_ids := Some gs; TmdbMovies.genres := None;
     TmdbMovies.runtime := None; TmdbMovies.original_language := Some "en";
     TmdbMovies.imdb_id := None; TmdbMovies.external_ids_imdb_id := None |}.

Definition provider : TmdbMovies.Provider :=
  {| TmdbMovies.getPopularMovies :=
       Some [tmdbMovie 1 [28]; tmdbMovie 2 [18]; tmdbMovie 1 [28];
             tmdbMovie 3 [28; 18]];
     TmdbMovies.getMovieRecommendations := fun _ => None;
     TmdbMovies.getMovieGenreList := [action; Scenario.drama] |}.

Definition emptyMovieDb : Db :=
  {| movies := []; movies_seq := 0; user_movie_ratings := [] |}.

End MovieSamples.

(* ================================================================== *)
(** * Part II — properties                                              *)
(* ================================================================== *)

(** ** Rational arithmetic used below *)

Lemma Qltb_true x y : Js.Qltb x y = true <-> (x < y)%Q.
Proof.
  unfold Js.Qltb. rewrite negb_true_iff, <- not_true_iff_false, Qle_bool_iff.
  split; [apply Qnot_le_lt | apply Qlt_not_le].
Qed.

Lemma Qltb_false x y : Js.Qltb x y = false <-> (y <= x)%Q.
Proof.
  unfold Js.Qltb. rewrite negb_false_iff, Qle_bool_iff. reflexivity.
Qed.

Lemma Qle_bool_false x y : Qle_bool x y = false <-> (y < x)%Q.
Proof.
  rewrite <- not_true_iff_false, Qle_bool_iff.
  split; [apply Qnot_le_lt | apply Qlt_not_le].
Qed.

Lemma inject_nat_nonneg (n : nat) : (0 <= inject_Z (Z.of_nat n))%Q.
Proof. unfold Qle; simpl; lia. Qed.

(** Linear arithmetic after the divisions by 2 and 5 of the sources are
    turned into multiplications. *)
Ltac qlra :=
  unfold Qdiv in *;
  change (/ 2)%Q with (1 # 2)%Q in *;
  change (/ 5)%Q with (1 # 5)%Q in *;
  lra.

(** ** The embedding on concrete inputs *)

Module Checks.

Import Scenario.
Local Open Scope string_scope.

Example toLowerCase_mixed : Js.toLowerCase "Vegan Options" = "vegan options".
Proof. reflexivity. Qed.

Example str_includes_inside : Js.str_includes "vegan options" "vegan" = true.
Proof. reflexivity. Qed.

Example str_includes_longer : Js.str_includes "vegan" "vegan options" = false.
Proof. reflexivity. Qed.

Example str_includes_empty : Js.str_includes "vegan" "" = true.
Proof. reflexivity. Qed.

Example parseInt_year : Js.parseInt "2019" = Some 2019.
Proof. reflexivity. Qed.

Example parseInt_prefix : Js.parseInt " 19-0" = Some 19.
Proof. reflexivity. Qed.

Example parseInt_hex : Js.parseInt "0x1f" = Some 31.
Proof. reflexivity. Qed.

Example parseInt_nan : Js.parseInt "n/a" = None.
Proof. reflexivity. Qed.

Example nonEmpty_some : Js.nonEmpty (Some [1; 2]) = Some [1; 2].
Proof. reflexivity. Qed.

Example stringify_empty : Js.JSON_stringify [] = "[]".
Proof. reflexivity. Qed.

Example stringify_two :
  Js.JSON_stringify ["Thai Food"; "Bar"]
  = String "[" (String Js.dquote ("Thai Food" ++ String Js.dquote (","
      ++ String Js.dquote ("Bar" ++ String Js.dquote "]")))).
Proof. reflexivity. Qed.

Example stringify_escapes :
  Js.JSON_stringify
    [String Js.dquote (String (ascii_of_nat 10) (String Js.backslash ""))]
  = String "[" (String Js.dquote
      (String Js.backslash (String Js.dquote
         (String Js.backslash ("n" ++
            String Js.backslash (String Js.backslash
              (String Js.dquote "]"))))))).
Proof. reflexivity. Qed.

Example nonEmpty_empty : Js.nonEmpty (Some (@nil Z)) = None.
Proof. reflexivity. Qed.

(** Equal scores keep their order. *)
Example sort_is_stable :
  Js.sort Restaurants.byScoreDesc [("a", 5%Q); ("b", 7%Q); ("c", 5%Q)]
  = [("b", 7%Q); ("a", 5%Q); ("c", 5%Q)].
Proof. reflexivity. Qed.

Example content_based_keeps_drama :
  TvShows.getContentBasedTvShowRecommendations dramaPrefs
    [comedyShow; dramaShow] 5 = [dramaShow].
Proof. reflexivity. Qed.

(** A show without a first air date fails a stated year bound. *)
Example missing_date_fails_year_bound :
  TvShows.yearOk
    {| TvShows.prefs_user_id := 1; TvShows.preferred_genres := None;
       TvShows.preferred_languages := None;
       TvShows.first_air_year_min := Some 2000;
       TvShows.first_air_year_max := None;
       TvShows.avg_episode_duration_min := None;
       TvShows.avg_episode_duration_max := None;
       TvShows.min_imdb_rating := None;
       TvShows.preferred_streaming_providers := None |}
    {| TvShows.id := 1; TvShows.tmdb_id := 1; TvShows.name := "Undated";
       TvShows.overview := ""; TvShows.first_air_date := None;
       TvShows.vote_average := 8; TvShows.vote_count := 1;
       TvShows.poster_path := None; TvShows.backdrop_path := None;
       TvShows.genres := []; TvShows.number_of_seasons := None;
       TvShows.episode_run_time := None; TvShows.original_language := None;
       TvShows.imdb_id := None |}
  = false.
Proof. reflexivity. Qed.

End Checks.

(** ** The restaurant scorer *)

Module RestaurantFacts.

Import Restaurants.

Lemma cuisineMatch_cases r p s :
  cuisineMatch r p s = (s + 30 / 2)%Q \/ cuisineMatch r p s = (s + 30)%Q
  \/ cuisineMatch r p s = s.
Proof.
  unfold cuisineMatch, CUISINE_MATCH_SCORE.
  destruct (_ || _)%bool; [now left|].
  destruct (arrayIntersects _ _); [right; now left | right; now right].
Qed.

Lemma matchScoreWith_reject f r p rs :
  scoreBeforeJitter r p = None -> matchScoreWith f r p rs = (0%Q, rs).
Proof. unfold matchScoreWith. now intros ->. Qed.

Lemma matchScoreWith_accept f r p rs q :
  scoreBeforeJitter r p = Some q ->
  matchScoreWith f r p rs = ((q + rs O * f)%Q, fun n => rs (S n)).
Proof. unfold matchScoreWith. now intros ->. Qed.

(** A restaurant that is not rejected has at least 10 points before the
    random factor. *)
Lemma scoreBeforeJitter_ge_10 r p q :
  scoreBeforeJitter r p = Some q -> (10 <= q)%Q.
Proof.
  unfold scoreBeforeJitter, dietaryMatch, ratingMatch,
    DIETARY_MATCH_SCORE, CUISINE_MATCH_SCORE, RATING_BONUS_PER_POINT.
  destruct (Nat.ltb _ _); [destruct (meetsAllRestrictions _ _)|];
    simpl; try discriminate.
  all: destruct (Qle_bool _ _) eqn:Hr;
    [ apply Qle_bool_iff in Hr
    | destruct (Js.Qltb _ _) eqn:Hs; [discriminate | apply Qltb_false in Hs] ].
  all: intros [= <-].
  all: destruct (cuisineMatch_cases r p 0) as [-> | [-> | ->]]; qlra.
Qed.

(** With a non-negative factor the result is 0 exactly when one of the
    early returns was taken. *)
Lemma rejected_iff f r p rs :
  (0 <= f)%Q -> (0 <= rs O)%Q ->
  (fst (matchScoreWith f r p rs) == 0)%Q <-> scoreBeforeJitter r p = None.
Proof.
  intros Hf Hr. destruct (scoreBeforeJitter r p) as [q|] eqn:E.
  - rewrite (matchScoreWith_accept _ _ _ _ _ E). simpl.
    apply scoreBeforeJitter_ge_10 in E.
    split; [|discriminate]. intros H.
    assert (0 <= rs O * f)%Q by (apply Qmult_le_0_compat; assumption). lra.
  - rewrite (matchScoreWith_reject _ _ _ _ E). simpl. split; reflexivity.
Qed.

Lemma accepted_positive f r p rs q :
  (0 <= f)%Q -> (0 <= rs O)%Q -> scoreBeforeJitter r p = Some q ->
  (0 < fst (matchScoreWith f r p rs))%Q.
Proof.
  intros Hf Hr E. rewrite (matchScoreWith_accept _ _ _ _ _ E). simpl.
  apply scoreBeforeJitter_ge_10 in E.
  assert (0 <= rs O * f)%Q by (apply Qmult_le_0_compat; assumption). lra.
Qed.


Lemma dietary_unmet_rejects f r p rs :
  meetsAllRestrictions r (dietaryRestrictions p) = false ->
  matchScoreWith f r p rs = (0%Q, rs).
Proof.
  intros Hd. apply matchScoreWith_reject.
  unfold scoreBeforeJitter, dietaryMatch. rewrite Hd.
  destruct (dietaryRestrictions p); [discriminate | reflexivity].
Qed.

(** One restriction that no dietary option mentions is enough. *)
Lemma one_unmet_restriction r restrictions restriction :
  restriction ∈ restrictions ->
  (forall option, option ∈ dietaryOptions r ->
     Js.str_includes (Js.toLowerCase option) (Js.toLowerCase restriction) = false) ->
  meetsAllRestrictions r restrictions = false.
Proof.
  intros Hin Hnone. unfold meetsAllRestrictions.
  apply not_true_iff_false. rewrite forallb_forall. intros Hall.
  apply list_elem_of_In in Hin. specialize (Hall _ Hin).
  apply existsb_exists in Hall as (option & Ho & Hinc).
  apply list_elem_of_In in Ho. rewrite (Hnone _ Ho) in Hinc. discriminate.
Qed.

Lemma below_min_rating f r p rs s :
  dietaryMatch r p (cuisineMatch r p 0) = Some s ->
  (rating r < minRating p)%Q ->
  ((s < 40)%Q -> matchScoreWith f r p rs = (0%Q, rs))
  /\ ((40 <= s)%Q ->
      matchScoreWith f r p rs = ((s + rs O * f)%Q, fun n => rs (S n))).
Proof.
  intros Hd Hr. apply Qle_bool_false in Hr.
  assert (E : ((CUISINE_MATCH_SCORE + DIETARY_MATCH_SCORE) / 2 == 40)%Q)
    by reflexivity.
  split; intros Hs.
  - apply matchScoreWith_reject. unfold scoreBeforeJitter. rewrite Hd. simpl.
    unfold ratingMatch. rewrite Hr.
    rewrite (proj2 (Qltb_true _ _)); [reflexivity | rewrite E; exact Hs].
  - apply matchScoreWith_accept. unfold scoreBeforeJitter. rewrite Hd. simpl.
    unfold ratingMatch. rewrite Hr.
    rewrite (proj2 (Qltb_false _ _)); [reflexivity | rewrite E; exact Hs].
Qed.

Lemma notExcluded_empty r : notExcluded ∅ r = Js.isSome (id r).
Proof.
  unfold notExcluded. destruct (id r); [|reflexivity].
  rewrite bool_decide_eq_false_2; [reflexivity | set_solver].
Qed.

End RestaurantFacts.

(** ** The TV-show scorer *)

Module TvFacts.

Import Js(nonEmpty, truthyZ, truthyS, isSome).
Import TvShows Notions.

Lemma genreMatchCount_from sg pl n :
  fold_left (fun n pg => if Js.includes sg pg then S n else n) pl n
  = (n + length (List.filter (Js.includes sg) pl))%nat.
Proof.
  revert n. induction pl as [|pg pl IH]; intros n; simpl; [lia|].
  rewrite IH. destruct (Js.includes sg pg); simpl; lia.
Qed.

Lemma genreMatchCount_zero sg preferred :
  Nat.eqb (genreMatchCount sg (map Js.toLowerCase preferred)) 0
  = negb (existsb (fun pg => Js.includes sg (Js.toLowerCase pg)) preferred).
Proof.
  unfold genreMatchCount. rewrite genreMatchCount_from. simpl.
  induction preferred as [|pg pl IH]; simpl; [reflexivity|].
  destruct (Js.includes sg (Js.toLowerCase pg)); simpl; [reflexivity | exact IH].
Qed.

Ltac step_cases :=
  repeat match goal with
  | |- context [match ?x with _ => _ end] => destruct x eqn:?; simpl
  end.

Ltac close_step :=
  simpl; split;
  [ try reflexivity; try (symmetry; apply andb_true_r);
    try (symmetry; apply andb_false_r)
  | intros; try assumption; try lra ].

Lemma genreMatch_ok prefs show :
  stepOk (genreMatch prefs show) (genreOk prefs show).
Proof.
  intros a. unfold genreMatch, genreOk.
  destruct (nonEmpty (preferred_genres prefs)) as [preferred|]; [|close_step].
  rewrite genreMatchCount_zero.
  destruct (existsb _ preferred); close_step.
  pose proof (inject_nat_nonneg
    (genreMatchCount
       (map (fun g => Js.toLowerCase (Tmdb.genre_name g)) (genres show))
       (map Js.toLowerCase preferred))). lra.
Qed.

Lemma languageMatch_ok prefs show :
  stepOk (languageMatch prefs show) (languageOk prefs show).
Proof.
  intros a. unfold languageMatch, languageOk.
  step_cases; close_step.
Qed.

Lemma firstAirYear_ok prefs show :
  stepOk (firstAirYear prefs show) (yearOk prefs show).
Proof.
  intros a. unfold firstAirYear, yearOk.
  destruct (truthyS (first_air_date show)),
    (truthyZ (first_air_year_min prefs)), (truthyZ (first_air_year_max prefs));
    simpl; step_cases; close_step.
  all: destruct (meetsAllHardFilters a); reflexivity.
Qed.

Lemma avgEpisodeDuration_ok prefs show :
  stepOk (avgEpisodeDuration prefs show) (durationOk prefs show).
Proof.
  intros a. unfold avgEpisodeDuration, durationOk.
  destruct (episode_run_time show) as [[|t ts]|],
    (avg_episode_duration_min prefs), (avg_episode_duration_max prefs);
    simpl; step_cases; close_step.
  all: destruct (meetsAllHardFilters a); reflexivity.
Qed.

Lemma voteAverage_ok prefs show :
  stepOk (voteAverage prefs show) (ratingOk prefs show).
Proof.
  intros a. unfold voteAverage, ratingOk, Js.Qltb.
  destruct (min_imdb_rating prefs) as [lo|]; [|close_step].
  destruct (Qle_bool lo (vote_average show)); close_step.
Qed.

Lemma streamingProvider_ok prefs : stepOk (streamingProvider prefs) true.
Proof.
  intros a. unfold streamingProvider.
  destruct (nonEmpty _); close_step.
Qed.

(** The test of the year step is the stated constraint when no bound is 0
    and the date, when there is one, starts with a number. *)
Lemma yearOk_is_yearWithinBounds prefs show :
  first_air_year_min prefs <> Some 0 ->
  first_air_year_max prefs <> Some 0 ->
  truthyS (first_air_date show) = None \/ is_Some (showYear show) ->
  yearOk prefs show = yearWithinBounds prefs show.
Proof.
  intros Hlo Hhi Hdate. unfold yearOk, yearWithinBounds, showYear in *.
  assert (forall o : option Z, o <> Some 0 -> truthyZ o = o) as Htruthy.
  { intros [z|] Hz; [|reflexivity]. simpl.
    destruct (Z.eqb_spec z 0) as [-> | _]; [contradiction | reflexivity]. }
  rewrite (Htruthy _ Hlo), (Htruthy _ Hhi).
  destruct (truthyS (first_air_date show)) as [date|]; [|reflexivity].
  destruct Hdate as [Hdate | [year Hyear]]; [discriminate|].
  rewrite Hyear.
  destruct (first_air_year_min prefs) as [lo|],
    (first_air_year_max prefs) as [hi|]; simpl;
    rewrite ?Z.ltb_antisym, ?negb_involutive; reflexivity.
Qed.

(** The flag after the six steps is the conjunction of the five
    constraints. *)
Lemma scoreSteps_meets prefs show :
  meetsAllHardFilters (scoreSteps prefs show) = passesHardFilters prefs show.
Proof.
  unfold scoreSteps, passesHardFilters.
  rewrite (proj1 (streamingProvider_ok prefs _)),
    (proj1 (voteAverage_ok prefs show _)),
    (proj1 (avgEpisodeDuration_ok prefs show _)),
    (proj1 (firstAirYear_ok prefs show _)),
    (proj1 (languageMatch_ok prefs show _)),
    (proj1 (genreMatch_ok prefs show _)).
  simpl. now rewrite andb_true_r.
Qed.

Lemma scoreSteps_nonneg prefs show : (0 <= score (scoreSteps prefs show))%Q.
Proof.
  unfold scoreSteps.
  apply streamingProvider_ok, voteAverage_ok, avgEpisodeDuration_ok,
    firstAirYear_ok, languageMatch_ok, genreMatch_ok. simpl. lra.
Qed.

Lemma scoreShow_fail prefs show :
  passesHardFilters prefs show = false -> scoreShow prefs show = 0%Q.
Proof. unfold scoreShow. rewrite scoreSteps_meets. now intros ->. Qed.

Lemma scoreShow_pass prefs show :
  passesHardFilters prefs show = true ->
  scoreShow prefs show
  = (score (scoreSteps prefs show) + (5 + vote_average show / 2))%Q.
Proof. unfold scoreShow. rewrite scoreSteps_meets. now intros ->. Qed.

Lemma scoreShow_positive_iff prefs show :
  (0 <= vote_average show)%Q ->
  (0 < scoreShow prefs show)%Q <-> passesHardFilters prefs show = true.
Proof.
  intros Hv. destruct (passesHardFilters prefs show) eqn:E.
  - rewrite (scoreShow_pass _ _ E).
    pose proof (scoreSteps_nonneg prefs show).
    split; [reflexivity|]. intros _. qlra.
  - rewrite (scoreShow_fail _ _ E). split; [lra | discriminate].
Qed.

(** The positive-score filter keeps the shows that pass the hard
    filters, and only them. *)
Lemma positive_filter_is_hard_filter prefs candidates :
  (forall show, show ∈ candidates -> (0 <= vote_average show)%Q) ->
  List.filter (fun item => Js.Qltb 0 (snd item))
    (map (fun show => (show, scoreShow prefs show)) candidates)
  = map (fun show => (show, scoreShow prefs show))
      (List.filter (passesHardFilters prefs) candidates).
Proof.
  induction candidates as [|show l IH]; intros Hv; [reflexivity|].
  simpl. rewrite IH by (intros; apply Hv; now right).
  assert (0 <= vote_average show)%Q as Hs by (apply Hv; now left).
  pose proof (scoreShow_positive_iff prefs show Hs) as Hiff.
  destruct (passesHardFilters prefs show).
  - rewrite (proj2 (Qltb_true _ _)); [reflexivity | now apply Hiff].
  - destruct (Js.Qltb 0 (scoreShow prefs show)) eqn:E; [|reflexivity].
    apply Qltb_true, Hiff in E. discriminate.
Qed.

End TvFacts.

(** ** Properties of the two scorers *)

Module Scoring.

Import TvShows Restaurants RestaurantFacts TvFacts Scenario.

Lemma unit_interval_halves : unit_interval halves.
Proof. intros n. unfold halves. split; lra. Qed.

Lemma unit_interval_zeros : unit_interval zeros.
Proof. intros n. unfold zeros. split; lra. Qed.

Lemma unit_interval_nearlyOne : unit_interval nearlyOne.
Proof.
  intros n. unfold nearlyOne.
  split; [apply Qle_bool_iff; reflexivity | reflexivity].
Qed.

(** *** C1: is the category preference a soft signal? *)

(** C1, as stated, fails.  TV shows: with "Drama" preferred and every other
    preference unset, a comedy passes the other four constraints and is
    still given the score 0, although the same show scores 11 for a user
    without genre preference.  Restaurants: of two restaurants rated 4.0
    that differ in cuisine only, for a user who likes Italian food and asks
    for 4.5, the Mexican one is given 0 (its 10 points are below the
    threshold 40) while the Italian one keeps its 40 points. *)
Lemma category_mismatch_rejects_example :
  (Js.nonEmpty (preferred_genres dramaPrefs) = Some ["Drama"%string]
   /\ genreOk dramaPrefs comedyShow = false
   /\ (languageOk dramaPrefs comedyShow && yearOk dramaPrefs comedyShow
       && durationOk dramaPrefs comedyShow && ratingOk dramaPrefs comedyShow)%bool
      = true
   /\ scoreShow dramaPrefs comedyShow = 0%Q
   /\ (scoreShow noTvPrefs comedyShow == 11)%Q)
  /\ (arrayIntersects (cuisines mexican4) (favoriteCuisines prefsItalian45)
      = false
      /\ calculateMatchScore mexican4 prefsItalian45 halves = (0%Q, halves)
      /\ (fst (calculateMatchScore italian4 prefsItalian45 halves) == 42.5)%Q).
Proof. repeat split; reflexivity. Qed.

(** *** C3: are the hard filters a conjunction? *)

(** C3, as stated, fails for restaurants: the user requires vegetarian
    food and a rating of at least 4; the restaurant offers vegetarian
    food but is rated 3.  It fails exactly one of the two constraints and
    its score is 65 plus the random factor, not 0. *)
Lemma restaurant_below_min_rating_scores_example :
  meetsAllRestrictions lowRatedVeg (dietaryRestrictions prefsVeg4) = true
  /\ (rating lowRatedVeg < minRating prefsVeg4)%Q
  /\ (fst (calculateMatchScore lowRatedVeg prefsVeg4 halves) == 67.5)%Q
  /\ ~ (fst (calculateMatchScore lowRatedVeg prefsVeg4 halves) == 0)%Q.
Proof.
  split; [reflexivity|]. split; [reflexivity|].
  split; [reflexivity|]. discriminate.
Qed.

(** C3, as stated, fails for the year bounds of TV shows as well.  A
    show first aired in 2019 does not meet the upper bound 0, and a show
    whose date is the word "soon" has no year to meet the lower bound 2000;
    everything else is unconstrained, and both shows keep the score 11.
    With the upper bound 2000 the show of 2019 is rejected. *)
Lemma tv_year_bound_slips_example :
  (showYear (showDated (Some "2019-05-01"%string)) = Some 2019%Z
   /\ yearWithinBounds (yearPrefs None (Some 0%Z))
        (showDated (Some "2019-05-01"%string)) = false
   /\ (scoreShow (yearPrefs None (Some 0%Z))
         (showDated (Some "2019-05-01"%string)) == 11)%Q)
  /\ (showYear (showDated (Some "soon"%string)) = None
      /\ yearWithinBounds (yearPrefs (Some 2000%Z) None)
           (showDated (Some "soon"%string)) = false
      /\ (scoreShow (yearPrefs (Some 2000%Z) None)
            (showDated (Some "soon"%string)) == 11)%Q)
  /\ scoreShow (yearPrefs None (Some 2000%Z))
       (showDated (Some "2019-05-01"%string)) = 0%Q.
Proof. repeat split; reflexivity. Qed.

(** C3, amended.  Restaurants: one dietary restriction that no dietary
    option of the restaurant mentions forces the score to 0; a rating
    below the minimum forces the score to 0 only when the cuisine and
    dietary points are below 40, otherwise the restaurant keeps them.
    TV shows: failing any one of the genre, language, duration and rating
    constraints forces the score to 0, whatever the others; so does
    failing a bound of the first air year, provided that no stated bound is
    0 and that the first air date, when the show has one, starts with a
    number.  (A bound of 0 is ignored, and a date that does not start with a
    number passes every bound: [tv_year_bound_slips_example].) *)
Theorem hard_filters_conjunctive :
  (forall (f : Q) (r : Restaurant) (p : UserPreferences) (rs : RandomSource)
          (restriction : string),
      restriction ∈ dietaryRestrictions p ->
      (forall option, option ∈ dietaryOptions r ->
         Js.str_includes (Js.toLowerCase option) (Js.toLowerCase restriction)
         = false) ->
      matchScoreWith f r p rs = (0%Q, rs))
  /\ (forall (f : Q) (r : Restaurant) (p : UserPreferences) (rs : RandomSource)
             (s : Q),
        dietaryMatch r p (cuisineMatch r p 0) = Some s ->
        (rating r < minRating p)%Q ->
        ((s < 40)%Q -> matchScoreWith f r p rs = (0%Q, rs))
        /\ ((40 <= s)%Q ->
            matchScoreWith f r p rs = ((s + rs O * f)%Q, fun n => rs (S n))))
  /\ (forall (prefs : UserTvShowPreferences) (show : TvShow),
        (genreOk prefs show && languageOk prefs show
         && durationOk prefs show && ratingOk prefs show)%bool = false ->
        scoreShow prefs show = 0%Q)
  /\ (forall (prefs : UserTvShowPreferences) (show : TvShow),
        first_air_year_min prefs <> Some 0%Z ->
        first_air_year_max prefs <> Some 0%Z ->
        Js.truthyS (first_air_date show) = None \/ is_Some (showYear show) ->
        yearWithinBounds prefs show = false ->
        scoreShow prefs show = 0%Q).
Proof.
  split; [|split; [|split]].
  - intros f r p rs restriction Hin Hnone.
    apply dietary_unmet_rejects.
    exact (one_unmet_restriction r _ restriction Hin Hnone).
  - intros f r p rs s. apply below_min_rating.
  - intros prefs show H. apply scoreShow_fail. unfold passesHardFilters.
    destruct (genreOk prefs show), (languageOk prefs show),
      (durationOk prefs show), (ratingOk prefs show), (yearOk prefs show);
      (reflexivity || discriminate H).
  - intros prefs show Hlo Hhi Hdate H. apply scoreShow_fail.
    unfold passesHardFilters.
    rewrite (yearOk_is_yearWithinBounds prefs show Hlo Hhi Hdate), H.
    now rewrite andb_false_r.
Qed.

Lemma hard_filters_conjunctive_witness :
  calculateMatchScore restaurantC prefsU halves = (0%Q, halves)
  /\ calculateMatchScore lowRatedVeg prefsVeg4 halves
     = ((0 + 30 / 2 + 50 + halves O * 5)%Q, fun n => halves (S n))
  /\ scoreShow dramaPrefs comedyShow = 0%Q
  /\ scoreShow (yearPrefs None (Some 2000%Z))
       (showDated (Some "2019-05-01"%string)) = 0%Q.
Proof.
  destruct hard_filters_conjunctive as (HD & HR & HT & HY).
  split; [|split; [|split]].
  - apply (HD 5%Q restaurantC prefsU halves "vegetarian"%string).
    + now left.
    + intros option Ho. inversion Ho.
  - apply (HR 5%Q lowRatedVeg prefsVeg4 halves (0 + 30 / 2 + 50)%Q);
      [reflexivity | reflexivity | discriminate].
  - apply HT. reflexivity.
  - apply HY; [discriminate | discriminate | right; now exists 2019%Z
              | reflexivity].
Defined.

(** *** C4: the bonus when no category preference is stated *)

(** C4, as stated, fails for TV shows: one matching genre is worth 5,
    but a user without genre preference gets 2, which is not one half of
    5; and the word "Any" is an ordinary genre name for the TV scorer, so
    a show without such a genre is rejected. *)
Lemma tv_no_preference_bonus_example :
  (score (genreMatch dramaPrefs dramaShow acc0) == 5)%Q
  /\ (score (genreMatch noTvPrefs comedyShow acc0) == 2)%Q
  /\ ~ (score (genreMatch noTvPrefs comedyShow acc0) == 5 / 2)%Q
  /\ scoreShow anyPrefs comedyShow = 0%Q.
Proof.
  split; [reflexivity|]. split; [reflexivity|].
  split; [discriminate | reflexivity].
Qed.

(** C4, amended.  Restaurants: when [favoriteCuisines] is empty or
    contains "Any", the cuisine step adds exactly [CUISINE_MATCH_SCORE / 2]
    (15) and nothing is rejected by it.  TV shows: when [preferred_genres]
    is unset or empty, the genre constraint holds and the genre step adds
    exactly 2 and leaves the flag alone. *)
Theorem no_preference_bonus :
  (forall (r : Restaurant) (p : UserPreferences) (s : Q),
      Js.includes (favoriteCuisines p) "Any" = true \/ favoriteCuisines p = [] ->
      cuisineMatch r p s = (s + CUISINE_MATCH_SCORE / 2)%Q
      /\ (CUISINE_MATCH_SCORE / 2 == 15)%Q)
  /\ (forall (prefs : UserTvShowPreferences) (show : TvShow) (a : Acc),
        Js.nonEmpty (preferred_genres prefs) = None ->
        genreOk prefs show = true
        /\ genreMatch prefs show a
           = {| score := (score a + 2)%Q;
                meetsAllHardFilters := meetsAllHardFilters a |}).
Proof.
  split.
  - intros r p s H. split; [|reflexivity].
    unfold cuisineMatch. destruct H as [-> | ->]; reflexivity.
  - intros prefs show a H. unfold genreOk, genreMatch. rewrite H.
    split; reflexivity.
Qed.

Lemma no_preference_bonus_witness :
  cuisineMatch restaurantA prefsNone 0 = (0 + CUISINE_MATCH_SCORE / 2)%Q
  /\ genreMatch noTvPrefs comedyShow acc0
     = {| score := (0 + 2)%Q; meetsAllHardFilters := true |}.
Proof.
  destruct no_preference_bonus as [HR HT]. split.
  - apply HR. right. reflexivity.
  - apply (HT noTvPrefs comedyShow acc0). reflexivity.
Defined.

(** *** C6: the random factor *)

(** C6, as stated, fails for TV shows: the TV scorer adds no random
    perturbation.  It never draws from the random source, and two runs
    with different sources give the same score. *)
Lemma tv_scorer_adds_no_jitter_example :
  scoreShowRand noTvPrefs comedyShow halves
  = (scoreShow noTvPrefs comedyShow, halves)
  /\ fst (scoreShowRand noTvPrefs comedyShow zeros)
     = fst (scoreShowRand noTvPrefs comedyShow halves)
  /\ ~ (fst (calculateMatchScore restaurantA prefsU zeros)
        == fst (calculateMatchScore restaurantA prefsU halves))%Q.
Proof. split; [reflexivity|]. split; [reflexivity | discriminate]. Qed.

(** C6, amended.  The restaurant scorers add [Math.random() * factor]
    (factor 5 or 2) to the score of a restaurant that is not rejected,
    and whether a restaurant is rejected (score 0) is the same in any two
    runs.  The TV scorer adds no random factor: its score does not depend
    on the random source, which it leaves untouched. *)
Theorem jitter_never_decides_rejection
    (f : Q) (r : Restaurant) (p : UserPreferences)
    (prefs : UserTvShowPreferences) (show : TvShow) (rs1 rs2 : RandomSource) :
  (0 <= f)%Q -> unit_interval rs1 -> unit_interval rs2 ->
  ((fst (matchScoreWith f r p rs1) == 0)%Q
   <-> (fst (matchScoreWith f r p rs2) == 0)%Q)
  /\ (forall q, scoreBeforeJitter r p = Some q ->
        fst (matchScoreWith f r p rs1) = (q + rs1 O * f)%Q
        /\ (q <= fst (matchScoreWith f r p rs1))%Q
        /\ (fst (matchScoreWith f r p rs1) <= q + f)%Q)
  /\ scoreShowRand prefs show rs1 = (scoreShow prefs show, rs1)
  /\ fst (scoreShowRand prefs show rs1) = fst (scoreShowRand prefs show rs2).
Proof.
  intros Hf H1 H2. split; [|split; [|split; reflexivity]].
  - rewrite !rejected_iff by (try assumption; apply H1 || apply H2).
    reflexivity.
  - intros q Hq. rewrite (matchScoreWith_accept _ _ _ _ _ Hq). simpl.
    destruct (H1 O) as [Hlo Hhi].
    assert (0 <= rs1 O * f)%Q by (apply Qmult_le_0_compat; assumption).
    assert (rs1 O * f <= 1 * f)%Q
      by (apply Qmult_le_compat_r; [apply Qlt_le_weak|]; assumption).
    split; [reflexivity|]. split; lra.
Qed.

Lemma jitter_never_decides_rejection_witness :
  ((fst (calculateMatchScore restaurantC prefsU zeros) == 0)%Q
   <-> (fst (calculateMatchScore restaurantC prefsU halves) == 0)%Q)
  /\ fst (scoreShowRand dramaPrefs dramaShow zeros)
     = fst (scoreShowRand dramaPrefs dramaShow halves).
Proof.
  destruct (jitter_never_decides_rejection 5 restaurantC prefsU
              dramaPrefs dramaShow zeros halves)
    as (H1 & _ & _ & H4);
    [lra | exact unit_interval_zeros | exact unit_interval_halves |].
  split; [exact H1 | exact H4].
Defined.

(** *** C10: the TV scorer's base bonus *)



(** *** C8: the documented scenario *)

Lemma scoreA : scoreBeforeJitter restaurantA prefsU = Some 92.50%Q.
Proof. reflexivity. Qed.

Lemma scoreB : scoreBeforeJitter restaurantB prefsU = Some 64.00%Q.
Proof. reflexivity. Qed.

Lemma scoreC : scoreBeforeJitter restaurantC prefsU = None.
Proof. reflexivity. Qed.

Lemma catalog_orders (catalog : list Restaurant) :
  catalog ≡ₚ [restaurantA; restaurantB; restaurantC] ->
  catalog ∈ [[restaurantA; restaurantB; restaurantC];
             [restaurantB; restaurantA; restaurantC];
             [restaurantB; restaurantC; restaurantA];
             [restaurantA; restaurantC; restaurantB];
             [restaurantC; restaurantA; restaurantB];
             [restaurantC; restaurantB; restaurantA]].
Proof.
  intros H. symmetry in H. apply permutations_Permutation in H. exact H.
Qed.

Ltac score_step :=
  first
    [ rewrite (matchScoreWith_accept _ _ _ _ _ scoreA)
    | rewrite (matchScoreWith_accept _ _ _ _ _ scoreB)
    | rewrite (matchScoreWith_reject _ _ _ _ scoreC) ].

(** Runs the recommender on one concrete order of the catalog. *)
Ltac run_scenario Hrs :=
  cbn [List.filter]; rewrite !notExcluded_empty;
  cbn [Js.isSome id restaurantA restaurantB restaurantC];
  unfold rbind; cbn [rmap rbind rret]; unfold rbind, rret;
  repeat score_step;
  pose proof (Hrs 0%nat) as [? ?]; pose proof (Hrs 1%nat) as [? ?];
  cbn [List.filter snd];
  repeat match goal with
  | |- context [Js.Qltb 0 ?x] =>
      first [ rewrite (proj2 (Qltb_true 0 x)) by lra
            | rewrite (proj2 (Qltb_false 0 x)) by lra ]
  end;
  unfold Js.sort, byScoreDesc; cbn [fold_right Js.insert_sorted snd];
  repeat match goal with
  | |- context [Qle_bool ?x ?y] =>
      first [ rewrite (proj2 (Qle_bool_iff x y)) by lra
            | rewrite (proj2 (Qle_bool_false x y)) by lra ];
      cbn [Js.insert_sorted snd]
  end;
  reflexivity.

Ltac each_order Hc :=
  apply catalog_orders in Hc;
  repeat match type of Hc with
  | _ ∈ _ :: _ => apply elem_of_cons in Hc as [-> | Hc]
  | _ ∈ [] => apply elem_of_nil in Hc; destruct Hc
  end.

(** C8.  In the documented scenario C scores exactly 0, A and B score
    positively, A scores more than B whatever the two random draws are,
    and for every order of the catalog both restaurant recommenders
    return A, then B, and not C. *)
Theorem scenario_A_before_B_without_C
    (rs rs' : RandomSource) (catalog : list Restaurant) :
  unit_interval rs -> unit_interval rs' ->
  catalog ≡ₚ [restaurantA; restaurantB; restaurantC] ->
  fst (calculateMatchScore restaurantC prefsU rs) = 0%Q
  /\ (0 < fst (calculateMatchScore restaurantA prefsU rs))%Q
  /\ (0 < fst (calculateMatchScore restaurantB prefsU rs))%Q
  /\ (fst (calculateMatchScore restaurantB prefsU rs')
      < fst (calculateMatchScore restaurantA prefsU rs))%Q
  /\ fst (getRecommendations userU catalog ∅ rs) = [restaurantA; restaurantB]
  /\ fst (getRestaurantRecommendations prefsU catalog ∅ rs)
     = [restaurantA; restaurantB].
Proof.
  intros Hrs Hrs' Hc. unfold calculateMatchScore.
  rewrite (matchScoreWith_reject _ _ _ _ scoreC),
    (matchScoreWith_accept _ _ _ rs _ scoreA),
    (matchScoreWith_accept _ _ _ rs _ scoreB),
    (matchScoreWith_accept _ _ _ rs' _ scoreB).
  cbn [fst].
  destruct (Hrs O) as [? ?], (Hrs' O) as [? ?].
  split; [reflexivity|]. split; [lra|]. split; [lra|]. split; [lra|].
  split.
  - each_order Hc.
    all: unfold getRecommendations, recommendWith, calculateMatchScore.
    all: change (preferences userU) with prefsU.
    all: run_scenario Hrs.
  - each_order Hc.
    all: unfold getRestaurantRecommendations, recommendWith,
           calculateRestaurantMatchScore.
    all: run_scenario Hrs.
Qed.

Lemma scenario_A_before_B_without_C_witness :
  fst (calculateMatchScore restaurantC prefsU halves) = 0%Q
  /\ fst (getRecommendations userU [restaurantC; restaurantB; restaurantA]
            ∅ halves)
     = [restaurantA; restaurantB].
Proof.
  destruct (scenario_A_before_B_without_C halves zeros
              [restaurantC; restaurantB; restaurantA])
    as (H1 & _ & _ & _ & H5 & _).
  - exact unit_interval_halves.
  - exact unit_interval_zeros.
  - apply Permutation_rev.
  - split; [exact H1 | exact H5].
Defined.

End Scoring.

(** ** Lists as tables *)

Section Tables.
Context {A K : Type} (key : A -> K) (eqb : K -> K -> bool).
Hypothesis eqb_spec : forall x y, eqb x y = true <-> x = y.

Lemma find_none_existsb (k : K) (rows : list A) :
  List.find (fun r => eqb (key r) k) rows = None ->
  existsb (fun r => eqb (key r) k) rows = false.
Proof.
  induction rows as [|r rows IH]; simpl; [reflexivity|].
  destruct (eqb (key r) k); [discriminate | exact IH].
Qed.

Lemma find_some_key (k : K) (rows : list A) (e : A) :
  List.find (fun r => eqb (key r) k) rows = Some e -> key e = k /\ e ∈ rows.
Proof.
  intros H. apply find_some in H as [Hin Hk].
  split; [now apply eqb_spec | now apply list_elem_of_In].
Qed.

(** Under a UNIQUE key the row found is the only one with that key. *)
Lemma unique_row (k : K) (rows : list A) (e : A) :
  NoDup (map key rows) ->
  List.find (fun r => eqb (key r) k) rows = Some e ->
  List.filter (fun r => eqb (key r) k) rows = [e].
Proof.
  induction rows as [|r rows IH]; simpl; [discriminate|].
  intros Hnd Hf. apply NoDup_cons in Hnd as [Hnotin Hnd].
  destruct (eqb (key r) k) eqn:E.
  - injection Hf as ->. f_equal.
    apply eqb_spec in E. subst k.
    clear IH Hnd. induction rows as [|r' rows IH']; simpl; [reflexivity|].
    destruct (eqb (key r') (key e)) eqn:E'.
    + apply eqb_spec in E'. exfalso. apply Hnotin. simpl. rewrite E'. now left.
    + apply IH'. intros Hin. apply Hnotin. simpl. now right.
  - now apply IH.
Qed.

Lemma find_app_fresh (k : K) (rows : list A) (new : A) :
  List.find (fun r => eqb (key r) k) rows = None -> key new = k ->
  List.find (fun r => eqb (key r) k) (rows ++ [new]) = Some new.
Proof.
  intros Hn Hk. induction rows as [|r rows IH]; simpl in *.
  - rewrite (proj2 (eqb_spec _ _) Hk). reflexivity.
  - destruct (eqb (key r) k); [discriminate | now apply IH].
Qed.

Lemma find_none_not_in (k : K) (rows : list A) :
  List.find (fun r => eqb (key r) k) rows = None <-> k ∉ map key rows.
Proof.
  induction rows as [|r rows IH]; simpl.
  - split; [intros _ H; inversion H | reflexivity].
  - rewrite not_elem_of_cons. destruct (eqb (key r) k) eqn:E.
    + apply eqb_spec in E. split; [discriminate | intros [H _]; congruence].
    + rewrite IH. split; [|tauto]. intros H. split; [|exact H].
      intros ->. rewrite (proj2 (eqb_spec _ _) eq_refl) in E. discriminate.
Qed.
End Tables.

Lemma max_fold_ge (seq : Z) (ids : list Z) :
  seq <= fold_right Z.max seq ids /\ forall i, i ∈ ids -> i <= fold_right Z.max seq ids.
Proof.
  induction ids as [|j ids [IH1 IH2]]; simpl.
  - split; [lia | intros i H; inversion H].
  - split; [lia|]. intros i H. apply elem_of_cons in H as [-> | H]; [lia|].
    specialize (IH2 i H). lia.
Qed.

Module TvDbFacts.
Import TvShows TvShowDb Notions.

Lemma tv_nextRowId_fresh db :
  0 <= tv_shows_seq db ->
  0 < nextRowId db /\ nextRowId db ∉ map id (tv_shows db).
Proof.
  intros Hs. unfold nextRowId.
  destruct (max_fold_ge (tv_shows_seq db) (map id (tv_shows db))) as [H1 H2].
  split; [lia|]. intros Hin. apply H2 in Hin. lia.
Qed.

Lemma saveTvShow_new P d db :
  getTvShowByTmdbId (Tmdb.id d) db = None ->
  0 <= tv_shows_seq db ->
  saveTvShow P d db
  = (Some (rowOf P d (nextRowId db)),
     {| tv_shows := tv_shows db ++ [rowOf P d (nextRowId db)];
        tv_shows_seq := nextRowId db;
        user_tv_show_ratings := user_tv_show_ratings db |}).
Proof.
  intros Hnone Hseq. unfold saveTvShow, insertRow. rewrite Hnone.
  rewrite (find_none_existsb tmdb_id Z.eqb _ _ Hnone).
  destruct (tv_nextRowId_fresh db Hseq) as [Hpos Hfresh].
  rewrite (proj2 (Z.eqb_neq _ _)) by lia.
  unfold getTvShowByOurId. simpl.
  rewrite (find_app_fresh id Z.eqb Z.eqb_eq); [reflexivity | | reflexivity].
  now apply (find_none_not_in id Z.eqb Z.eqb_eq).
Qed.

Lemma find_updateRows P d db t :
  getTvShowByTmdbId t (updateRows P d db)
  = (fun r => if Z.eqb (tmdb_id r) (Tmdb.id d) then rowOf P d (id r) else r)
      <$> getTvShowByTmdbId t db.
Proof.
  unfold getTvShowByTmdbId, updateRows. simpl.
  induction (tv_shows db) as [|r rows IH]; simpl; [reflexivity|].
  destruct (Z.eqb (tmdb_id r) (Tmdb.id d)) eqn:E; simpl.
  - apply Z.eqb_eq in E. rewrite <- E.
    destruct (Z.eqb (tmdb_id r) t) eqn:E'; simpl.
    + rewrite Z.eqb_refl. reflexivity.
    + rewrite E. exact IH.
  - destruct (Z.eqb (tmdb_id r) t) eqn:E'; simpl; [now rewrite E | exact IH].
Qed.

Lemma tmdb_ids_updateRows P d db :
  map tmdb_id (tv_shows (updateRows P d db)) = map tmdb_id (tv_shows db).
Proof.
  unfold updateRows. simpl. rewrite map_map. apply map_ext.
  intros r. destruct (Z.eqb (tmdb_id r) (Tmdb.id d)) eqn:E; [|reflexivity].
  simpl. symmetry. now apply Z.eqb_eq.
Qed.

Lemma saveTvShow_existing P d db e :
  getTvShowByTmdbId (Tmdb.id d) db = Some e ->
  saveTvShow P d db = (Some (rowOf P d (id e)), updateRows P d db).
Proof.
  intros He. unfold saveTvShow. rewrite He, find_updateRows, He. simpl.
  destruct (find_some_key tmdb_id Z.eqb Z.eqb_eq _ _ _ He) as [Hk _].
  now rewrite (proj2 (Z.eqb_eq _ _) Hk).
Qed.

Lemma updateRows_fixed P d db i :
  unique_tmdb_ids db ->
  getTvShowByTmdbId (Tmdb.id d) db = Some (rowOf P d i) ->
  updateRows P d db = db.
Proof.
  intros Hu Hf. pose proof (unique_row tmdb_id Z.eqb Z.eqb_eq _ _ _ Hu Hf) as Hone.
  unfold updateRows. destruct db as [rows seq ratings]. simpl in *. f_equal.
  rewrite <- (map_id rows) at 2. apply map_ext_in. intros r Hin.
  destruct (Z.eqb (tmdb_id r) (Tmdb.id d)) eqn:E; [|reflexivity].
  assert (In r (List.filter (fun r => Z.eqb (tmdb_id r) (Tmdb.id d)) rows)) as Hr
    by (apply filter_In; split; assumption).
  rewrite Hone in Hr. destruct Hr as [<- | []]. reflexivity.
Qed.

(** What one call of [saveTvShow] achieves. *)
Lemma saveTvShow_spec P d db :
  0 <= tv_shows_seq db ->
  exists i db1,
    saveTvShow P d db = (Some (rowOf P d i), db1)
    /\ getTvShowByTmdbId (Tmdb.id d) db1 = Some (rowOf P d i)
    /\ 0 <= tv_shows_seq db1
    /\ (unique_tmdb_ids db -> unique_tmdb_ids db1)
    /\ (forall e, getTvShowByTmdbId (Tmdb.id d) db = Some e ->
          i = id e /\ length (tv_shows db1) = length (tv_shows db))
    /\ (forall t, t ∈ map tmdb_id (tv_shows db) -> t ∈ map tmdb_id (tv_shows db1))
    /\ user_tv_show_ratings db1 = user_tv_show_ratings db.
Proof.
  intros Hseq. destruct (getTvShowByTmdbId (Tmdb.id d) db) as [e|] eqn:He.
  - exists (id e), (updateRows P d db).
    destruct (find_some_key tmdb_id Z.eqb Z.eqb_eq _ _ _ He) as [Hk _].
    assert (getTvShowByTmdbId (Tmdb.id d) (updateRows P d db)
            = Some (rowOf P d (id e))) as Hfind.
    { rewrite find_updateRows, He. simpl.
      now rewrite (proj2 (Z.eqb_eq _ _) Hk). }
    rewrite (saveTvShow_existing P d db e He).
    split; [reflexivity|]. split; [exact Hfind|]. split; [exact Hseq|].
    split; [unfold unique_tmdb_ids; now rewrite tmdb_ids_updateRows|].
    split; [|split; [now rewrite tmdb_ids_updateRows | reflexivity]].
    intros e' [= <-]. split; [reflexivity|].
    unfold updateRows. simpl. now rewrite length_map.
  - exists (nextRowId db). eexists.
    rewrite (saveTvShow_new P d db He Hseq).
    destruct (tv_nextRowId_fresh db Hseq) as [Hpos _].
    split; [reflexivity|]. simpl.
    split; [now apply (find_app_fresh tmdb_id Z.eqb Z.eqb_eq)|].
    split; [lia|]. split; [|split; [discriminate|split; [|reflexivity]]].
    + unfold unique_tmdb_ids. simpl. rewrite map_app. intros Hu.
      apply NoDup_app. split; [exact Hu|]. split; [|apply NoDup_singleton].
      intros t Ht Ht'. apply list_elem_of_singleton in Ht'. subst t.
      now apply (find_none_not_in tmdb_id Z.eqb Z.eqb_eq) in He.
    + rewrite map_app. intros t Ht. apply elem_of_app. now left.
Qed.
End TvDbFacts.

Module RestaurantDbFacts.
Import Restaurants RestaurantDb Notions.

Lemma restaurant_nextRowId_fresh db :
  0 <= restaurants_seq db ->
  0 < nextRowId db /\ Some (nextRowId db) ∉ map id (restaurants db).
Proof.
  intros Hs. unfold nextRowId.
  destruct (max_fold_ge (restaurants_seq db) (omap id (restaurants db))) as [H1 H2].
  split; [lia|]. intros Hin.
  apply list_elem_of_fmap in Hin as (r & Hr & Hin).
  assert (fold_right Z.max (restaurants_seq db) (omap id (restaurants db)) + 1
          ∈ omap id (restaurants db)) as Hin'.
  { apply list_elem_of_omap. exists r. split; [exact Hin | now symmetry]. }
  apply H2 in Hin'. lia.
Qed.

Lemma find_hasId_fresh i rows new :
  Some i ∉ map id rows -> id new = Some i ->
  List.find (hasId i) (rows ++ [new]) = Some new.
Proof.
  intros Hn Hk. induction rows as [|r rows IH]; simpl in *.
  - unfold hasId. rewrite Hk, Z.eqb_refl. reflexivity.
  - apply not_elem_of_cons in Hn as [Hne Hn].
    unfold hasId at 1. destruct (id r) as [j|] eqn:Ej.
    + destruct (Z.eqb j i) eqn:E; [apply Z.eqb_eq in E; congruence | now apply IH].
    + now apply IH.
Qed.

Lemma saveRestaurantToDb_new data db :
  getByGooglePlaceId (data_googlePlaceId data) db = None ->
  0 <= restaurants_seq db ->
  saveRestaurantToDb data db
  = (Some (Parsed (rowOf data (nextRowId db))),
     {| restaurants := restaurants db ++ [rowOf data (nextRowId db)];
        restaurants_seq := nextRowId db |}).
Proof.
  intros Hnone Hseq.
  unfold saveRestaurantToDb, getRowByGooglePlaceId, insertRow. rewrite Hnone.
  cbn [option_map].
  rewrite (find_none_existsb googlePlaceId String.eqb _ _ Hnone).
  destruct (restaurant_nextRowId_fresh db Hseq) as [Hpos Hfresh].
  rewrite (proj2 (Z.eqb_neq _ _)) by lia.
  unfold getRestaurantById. simpl.
  now rewrite (find_hasId_fresh _ _ _ Hfresh).
Qed.

Lemma saveRestaurantToDb_existing data db e :
  getByGooglePlaceId (data_googlePlaceId data) db = Some e ->
  saveRestaurantToDb data db = (Some (Raw (rawRow e)), db).
Proof.
  intros He. unfold saveRestaurantToDb, getRowByGooglePlaceId. now rewrite He.
Qed.

Lemma saveRestaurantToDb_spec data db :
  0 <= restaurants_seq db ->
  exists saved row db1,
    saveRestaurantToDb data db = (Some saved, db1)
    /\ savedId saved = id row
    /\ getByGooglePlaceId (data_googlePlaceId data) db1 = Some row
    /\ 0 <= restaurants_seq db1
    /\ (unique_place_ids db -> unique_place_ids db1)
    /\ (forall e, getByGooglePlaceId (data_googlePlaceId data) db = Some e ->
          saved = Raw (rawRow e) /\ row = e /\ db1 = db)
    /\ (getByGooglePlaceId (data_googlePlaceId data) db = None ->
          saved = Parsed row /\ row = rowOf data (nextRowId db)).
Proof.
  intros Hseq.
  destruct (getByGooglePlaceId (data_googlePlaceId data) db) as [e|] eqn:He.
  - exists (Raw (rawRow e)), e, db.
    rewrite (saveRestaurantToDb_existing data db e He).
    split; [reflexivity|]. split; [reflexivity|].
    split; [exact He|]. split; [exact Hseq|].
    split; [easy|]. split; [|discriminate]. now intros e' [= <-].
  - eexists. eexists. eexists. rewrite (saveRestaurantToDb_new data db He Hseq).
    destruct (restaurant_nextRowId_fresh db Hseq) as [Hpos _].
    split; [reflexivity|]. split; [reflexivity|]. simpl.
    split; [now apply (find_app_fresh googlePlaceId String.eqb String.eqb_eq)|].
    split; [lia|]. split; [|split; [discriminate | split; reflexivity]].
    unfold unique_place_ids. simpl. rewrite map_app. intros Hu.
    apply NoDup_app. split; [exact Hu|]. split; [|apply NoDup_singleton].
    intros t Ht Ht'. apply list_elem_of_singleton in Ht'. subst t.
    now apply (find_none_not_in googlePlaceId String.eqb String.eqb_eq) in He.
Qed.
End RestaurantDbFacts.

(** ** Properties of the catalog upserts *)

Module Stores.
Import Notions TvDbFacts RestaurantDbFacts.

(** C5, as stated, fails for the restaurant store: saving the same place
    again with rating 5 returns the row stored first, with rating 4, and
    leaves the store as it was.  What is returned is the row as the
    database holds it: its cuisines are the JSON text of the array, where
    the first save returned the array. *)
Lemma restaurant_upsert_keeps_first_attributes_example :
  let first := RestaurantDb.saveRestaurantToDb (Scenario.trattoria 4)
                 Scenario.emptyRestaurantDb in
  let db1 := snd first in
  let saved := RestaurantDb.saveRestaurantToDb (Scenario.trattoria 5) db1 in
  RestaurantDb.data_rating (Scenario.trattoria 5) = 5%Q
  /\ fst first
     = Some (RestaurantDb.Parsed
               {| Restaurants.id := Some 1;
                  Restaurants.googlePlaceId := "place-T";
                  Restaurants.name := "Trattoria";
                  Restaurants.address := "1 Main St";
                  Restaurants.cuisines := ["Italian"%string];
                  Restaurants.dietaryOptions := [];
                  Restaurants.rating := 4%Q |})
  /\ fst saved
     = Some (RestaurantDb.Raw
               {| RestaurantDb.row_id := Some 1;
                  RestaurantDb.row_googlePlaceId := "place-T";
                  RestaurantDb.row_name := "Trattoria";
                  RestaurantDb.row_address := "1 Main St";
                  RestaurantDb.row_cuisines :=
                    String "[" (String Js.dquote
                      ("Italian" ++ String Js.dquote "]"));
                  RestaurantDb.row_dietaryOptions := "[]";
                  RestaurantDb.row_rating := 4%Q |})
  /\ Restaurants.rating <$> RestaurantDb.getByGooglePlaceId "place-T" (snd saved)
     = Some 4%Q
  /\ snd saved = db1.
Proof. repeat split. Qed.

(** C5, amended.  Both upserts are keyed on the external id and never
    create a duplicate, and the local id is stable.  TV shows: saving the
    same data twice returns the same record and changes nothing the
    second time; saving updated data under the same external id rewrites
    the attributes of that one record in place.  Restaurants: the record
    is inserted once, and that save returns it with its arrays; every
    later save under the same external id, with the same or with updated
    attributes, leaves the store unchanged (attributes are not refreshed)
    and returns the stored row as the database holds it, under the same
    local id and with its two arrays as JSON text. *)
Theorem upsert_keyed_on_external_id :
  (forall (P : Tmdb.Provider) (d d' : Tmdb.TMDBTvShow) (db : TvShowDb.Db),
      0 <= TvShowDb.tv_shows_seq db -> unique_tmdb_ids db ->
      Tmdb.id d' = Tmdb.id d ->
      exists i db1 db3,
        TvShowDb.saveTvShow P d db = (Some (TvShowDb.rowOf P d i), db1)
        /\ (forall e, TvShowDb.getTvShowByTmdbId (Tmdb.id d) db = Some e ->
              i = TvShows.id e)
        /\ TvShowDb.saveTvShow P d db1 = (Some (TvShowDb.rowOf P d i), db1)
        /\ List.filter (fun r => Z.eqb (TvShows.tmdb_id r) (Tmdb.id d))
             (TvShowDb.tv_shows db1) = [TvShowDb.rowOf P d i]
        /\ TvShowDb.saveTvShow P d' db1 = (Some (TvShowDb.rowOf P d' i), db3)
        /\ List.filter (fun r => Z.eqb (TvShows.tmdb_id r) (Tmdb.id d))
             (TvShowDb.tv_shows db3) = [TvShowDb.rowOf P d' i]
        /\ length (TvShowDb.tv_shows db3) = length (TvShowDb.tv_shows db1))
  /\ (forall (data data' : RestaurantDb.RestaurantData) (db : RestaurantDb.Db),
        0 <= RestaurantDb.restaurants_seq db -> unique_place_ids db ->
        RestaurantDb.data_googlePlaceId data' = RestaurantDb.data_googlePlaceId data ->
        exists saved row db1,
          RestaurantDb.saveRestaurantToDb data db = (Some saved, db1)
          /\ RestaurantDb.savedId saved = Restaurants.id row
          /\ (forall e, RestaurantDb.getByGooglePlaceId
                          (RestaurantDb.data_googlePlaceId data) db = Some e ->
                saved = RestaurantDb.Raw (RestaurantDb.rawRow e)
                /\ row = e /\ db1 = db)
          /\ (RestaurantDb.getByGooglePlaceId
                (RestaurantDb.data_googlePlaceId data) db = None ->
                saved = RestaurantDb.Parsed row
                /\ row = RestaurantDb.rowOf data (RestaurantDb.nextRowId db))
          /\ RestaurantDb.saveRestaurantToDb data db1
             = (Some (RestaurantDb.Raw (RestaurantDb.rawRow row)), db1)
          /\ List.filter (fun r => String.eqb (Restaurants.googlePlaceId r)
                                     (RestaurantDb.data_googlePlaceId data))
               (RestaurantDb.restaurants db1) = [row]
          /\ RestaurantDb.saveRestaurantToDb data' db1
             = (Some (RestaurantDb.Raw (RestaurantDb.rawRow row)), db1)).
Proof.
  split.
  - intros P d d' db Hseq Hu Hid.
    destruct (saveTvShow_spec P d db Hseq)
      as (i & db1 & Hsave & Hfind & Hseq1 & Hu1 & Hex & _).
    specialize (Hu1 Hu).
    exists i, db1, (TvShowDb.updateRows P d' db1).
    split; [exact Hsave|]. split; [intros e He; now apply Hex|].
    split.
    { rewrite (saveTvShow_existing P d db1 _ Hfind). simpl.
      now rewrite (updateRows_fixed P d db1 i Hu1 Hfind). }
    split; [exact (unique_row _ _ Z.eqb_eq _ _ _ Hu1 Hfind)|].
    assert (TvShowDb.getTvShowByTmdbId (Tmdb.id d') db1
            = Some (TvShowDb.rowOf P d i)) as Hfind' by now rewrite Hid.
    split; [now rewrite (saveTvShow_existing P d' db1 _ Hfind')|].
    split.
    + rewrite <- Hid. apply (unique_row _ _ Z.eqb_eq).
      * unfold unique_tmdb_ids in *. now rewrite tmdb_ids_updateRows.
      * change (TvShowDb.getTvShowByTmdbId (Tmdb.id d')
                  (TvShowDb.updateRows P d' db1)
                = Some (TvShowDb.rowOf P d' i)).
        rewrite find_updateRows, Hfind'. simpl. now rewrite Hid, Z.eqb_refl.
    + unfold TvShowDb.updateRows. simpl. now rewrite length_map.
  - intros data data' db Hseq Hu Hid.
    destruct (saveRestaurantToDb_spec data db Hseq)
      as (saved & row & db1 & Hsave & Hsid & Hfind & Hseq1 & Hu1 & Hex & Hnew).
    specialize (Hu1 Hu). exists saved, row, db1.
    split; [exact Hsave|]. split; [exact Hsid|].
    split; [intros e He; now apply Hex|].
    split; [exact Hnew|].
    split; [now apply saveRestaurantToDb_existing|].
    split; [exact (unique_row _ _ String.eqb_eq _ _ _ Hu1 Hfind)|].
    apply saveRestaurantToDb_existing. now rewrite Hid.
Qed.

Lemma upsert_keyed_on_external_id_witness :
  (exists i db1 db3,
      TvShowDb.saveTvShow Scenario.provider (Scenario.tmdbShow 1 8)
        Scenario.emptyTvDb
      = (Some (TvShowDb.rowOf Scenario.provider (Scenario.tmdbShow 1 8) i), db1)
      /\ TvShowDb.saveTvShow Scenario.provider (Scenario.tmdbShow 1 9) db1
         = (Some (TvShowDb.rowOf Scenario.provider (Scenario.tmdbShow 1 9) i),
            db3)
      /\ length (TvShowDb.tv_shows db3) = length (TvShowDb.tv_shows db1))
  /\ (exists row db1,
        RestaurantDb.saveRestaurantToDb (Scenario.trattoria 4)
          Scenario.emptyRestaurantDb = (Some (RestaurantDb.Parsed row), db1)
        /\ RestaurantDb.saveRestaurantToDb (Scenario.trattoria 5) db1
           = (Some (RestaurantDb.Raw (RestaurantDb.rawRow row)), db1)).
Proof.
  destruct upsert_keyed_on_external_id as [HT HR]. split.
  - destruct (HT Scenario.provider (Scenario.tmdbShow 1 8)
                (Scenario.tmdbShow 1 9) Scenario.emptyTvDb)
      as (i & db1 & db3 & H1 & _ & _ & _ & H5 & _ & H7).
    + simpl. lia.
    + apply NoDup_nil_2.
    + reflexivity.
    + exists i, db1, db3. split; [exact H1|]. split; [exact H5 | exact H7].
  - destruct (HR (Scenario.trattoria 4) (Scenario.trattoria 5)
                Scenario.emptyRestaurantDb)
      as (saved & row & db1 & H1 & _ & _ & H4 & _ & _ & H7).
    + simpl. lia.
    + apply NoDup_nil_2.
    + reflexivity.
    + destruct (H4 eq_refl) as [-> _].
      exists row, db1. split; [exact H1 | exact H7].
Defined.

End Stores.

(** ** Properties of the restaurant provider client *)

Module ProviderClient.
Import GooglePlaces.

Example fetch_one_place :
  fetchRestaurantsFromGooglePlaces Scenario.envOnePlace "London" defaultMaxResults
  = inr [RestaurantDb.Build_RestaurantData "place-P" "Luigi Pizza" "2 High St"
           ["Thai Food"; "Bar"; "Pizza"]%string [] 4.3%Q].
Proof. reflexivity. Qed.

Lemma string_eqb_false (a b : string) : a <> b -> String.eqb a b = false.
Proof. intros H. now apply String.eqb_neq. Qed.

(** C9.  The call never throws, and in each failure mode (no API key, an
    exception in [fetch], a response that is not OK, an exception while
    parsing, an API error status, no result) it returns the empty list. *)
Theorem fetch_failures_yield_empty_list
    (env : Env) (locationQuery : string) (maxResults : nat) :
  (exists fetched,
      fetchRestaurantsFromGooglePlaces env locationQuery maxResults = inr fetched)
  /\ (Failure env locationQuery ->
      fetchRestaurantsFromGooglePlaces env locationQuery maxResults = inr []).
Proof.
  split.
  - unfold fetchRestaurantsFromGooglePlaces, try_catch, ebind.
    destruct (Js.truthyS (API_KEY env)) as [key|]; [|eauto].
    destruct (fetch env _ key) as [e|response]; [eauto|].
    destruct (ok response); simpl.
    + destruct (json response) as [e|data]; [eauto|].
      repeat match goal with
      | |- context [if ?c then _ else _] => destruct c
      end; eauto.
    + destruct (text response); eauto.
  - intros HF. unfold fetchRestaurantsFromGooglePlaces, try_catch, ebind.
    destruct HF as [Hk | key e Hk Hf | key response Hk Hf Hok
                   | key response e Hk Hf Hok Hj
                   | key response data Hk Hf Hok Hj Hs1 Hs2
                   | key response data Hk Hf Hok Hj Hz];
      rewrite Hk; [reflexivity | rewrite Hf ..].
    + reflexivity.
    + rewrite Hok. simpl. destruct (text response); reflexivity.
    + rewrite Hok, Hj. reflexivity.
    + rewrite Hok, Hj. simpl.
      now rewrite (string_eqb_false _ _ Hs1), (string_eqb_false _ _ Hs2).
    + rewrite Hok, Hj. simpl.
      destruct (negb _ && negb _)%bool; [reflexivity|].
      destruct Hz as [-> | [-> | ->]]; simpl; [reflexivity | |];
        now rewrite orb_true_r.
Qed.

Lemma fetch_failures_yield_empty_list_witness :
  fetchRestaurantsFromGooglePlaces Scenario.envNoKey "London" defaultMaxResults
  = inr []
  /\ fetchRestaurantsFromGooglePlaces Scenario.envNetworkDown "London"
       defaultMaxResults = inr [].
Proof.
  split.
  - apply (fetch_failures_yield_empty_list Scenario.envNoKey).
    apply MissingApiKey. reflexivity.
  - apply (fetch_failures_yield_empty_list Scenario.envNetworkDown).
    apply (FetchThrows _ _ "k"%string {| message := "fetch failed" |});
      reflexivity.
Defined.

End ProviderClient.

(** ** The sort is a permutation *)

Lemma insert_sorted_perm {A} (before : A -> A -> bool) (x : A) (l : list A) :
  Js.insert_sorted before x l ≡ₚ x :: l.
Proof.
  induction l as [|y l IH]; simpl; [reflexivity|].
  destruct (before x y); [reflexivity|].
  rewrite IH. apply Permutation_swap.
Qed.

Lemma sort_perm {A} (before : A -> A -> bool) (l : list A) :
  Js.sort before l ≡ₚ l.
Proof.
  induction l as [|x l IH]; simpl; [reflexivity|].
  fold (Js.sort before l). now rewrite insert_sorted_perm, IH.
Qed.

Module OrchestratorFacts.
Import TvShows TvShowDb TvRecommender Notions TvDbFacts.

Lemma recommended_spec t recs : recommended t recs = true <-> t ∈ ids recs.
Proof.
  unfold recommended, ids. rewrite existsb_exists, list_elem_of_fmap.
  split.
  - intros (r & Hin & E). exists r. apply Z.eqb_eq in E.
    split; [now symmetry | now apply list_elem_of_In].
  - intros (r & E & Hin). exists r.
    split; [now apply list_elem_of_In | now apply Z.eqb_eq].
Qed.

Lemma recommended_false t recs : recommended t recs = false <-> t ∉ ids recs.
Proof. rewrite <- recommended_spec. now destruct (recommended t recs). Qed.

Lemma tv_nextRowId_not_in d : nextRowId d ∉ map id (tv_shows d).
Proof.
  unfold nextRowId.
  destruct (max_fold_ge (tv_shows_seq d) (map id (tv_shows d))) as [_ H2].
  intros Hin. apply H2 in Hin. lia.
Qed.

(** The record returned by [saveTvShow] carries the external id of the
    data that was saved. *)
Lemma saveTvShow_tmdb_id P det d s d' :
  saveTvShow P det d = (Some s, d') -> tmdb_id s = Tmdb.id det.
Proof.
  unfold saveTvShow, insertRow.
  destruct (getTvShowByTmdbId (Tmdb.id det) d) as [e|] eqn:He.
  - intros [= Hs _].
    now destruct (find_some_key tmdb_id Z.eqb Z.eqb_eq _ _ _ Hs).
  - rewrite (find_none_existsb tmdb_id Z.eqb _ _ He).
    destruct (Z.eqb (nextRowId d) 0); [discriminate|].
    unfold getTvShowByOurId. simpl.
    rewrite (find_app_fresh id Z.eqb Z.eqb_eq);
      [now intros [= <- _] | | reflexivity].
    apply (find_none_not_in id Z.eqb Z.eqb_eq), tv_nextRowId_not_in.
Qed.

(** With a sound sequence counter the save succeeds and keeps what the
    store already had. *)
Lemma saveTvShow_keeps P det d :
  0 <= tv_shows_seq d ->
  exists s d',
    saveTvShow P det d = (Some s, d')
    /\ 0 <= tv_shows_seq d'
    /\ (forall t, present t d -> present t d').
Proof.
  intros Hseq.
  destruct (saveTvShow_spec P det d Hseq)
    as (i & d' & Hs & _ & Hseq' & _ & _ & Hp & _).
  exists (rowOf P det i), d'. split; [exact Hs|]. split; [exact Hseq' | exact Hp].
Qed.

Section Invariants.
Context (P : Tmdb.Provider) (excl0 : gset Z) (count : nat).

Lemma Mono_refl st : Mono count st st.
Proof. unfold Mono. split; [set_solver|]. split; [tauto|]. tauto. Qed.

Lemma Mono_trans st1 st2 st3 :
  Mono count st1 st2 -> Mono count st2 st3 -> Mono count st1 st3.
Proof.
  intros (E1 & F1 & D1) (E2 & F2 & D2). split; [etrans; eassumption|].
  split; [tauto|]. intros H. destruct (D1 H) as [H1 Hp1].
  destruct (D2 H1) as [H2 Hp2]. split; [exact H2|]. intros t Ht. auto.
Qed.

Lemma Inv_withDb d st : Inv P excl0 count st -> Inv P excl0 count (withDb d st).
Proof. exact (fun H => H). Qed.

Lemma full_false st : full count st = false -> (length (recommendations st) < count)%nat.
Proof. unfold full. intros H. apply Nat.leb_gt in H. exact H. Qed.

Lemma Inv_push s st :
  Inv P excl0 count st -> full count st = false ->
  recommended (tmdb_id s) (recommendations st) = false ->
  (details_consistent P -> tmdb_id s ∉ excl0) ->
  Inv P excl0 count (pushAndExclude s st).
Proof.
  intros (I1 & I2 & I3 & I4) Hfull Hrec Hfresh.
  apply full_false in Hfull. apply recommended_false in Hrec.
  unfold Inv, pushAndExclude, ids in *. simpl.
  rewrite !map_app, length_app, I1. simpl.
  split.
  { rewrite list_to_set_app_L, list_to_set_singleton_L.
    rewrite (comm_L (∪) (list_to_set _) {[ tmdb_id s ]}).
    now rewrite (assoc_L (∪)). }
  split.
  { apply NoDup_app. split; [exact I2|]. split; [|apply NoDup_singleton].
    intros t Ht Ht'. apply list_elem_of_singleton in Ht'. now subst. }
  split; [lia|].
  intros HC t Ht. apply elem_of_app in Ht as [Ht | Ht]; [now apply I4|].
  apply list_elem_of_singleton in Ht. subst. now apply Hfresh.
Qed.

Lemma Mono_push s st : Mono count st (pushAndExclude s st).
Proof.
  unfold Mono, pushAndExclude, full. simpl. split; [set_solver|].
  split; [|tauto]. rewrite length_app. intros H. apply Nat.leb_le in H.
  apply Nat.leb_le. lia.
Qed.

Lemma Mono_save det r st d' :
  saveTvShow P det (db st) = (r, d') -> Mono count st (withDb d' st).
Proof.
  intros Hs. unfold Mono, withDb, full. simpl. split; [set_solver|].
  split; [tauto|]. intros Hseq.
  destruct (saveTvShow_keeps P det (db st) Hseq) as (s & d'' & Hs' & H1 & H2).
  rewrite Hs in Hs'. injection Hs' as _ <-. split; assumption.
Qed.

Lemma offer_spec showInDb d' st :
  Inv P excl0 count st -> full count st = false ->
  (0 <= tv_shows_seq (db st) ->
   0 <= tv_shows_seq d' /\ forall t, present t (db st) -> present t d') ->
  (details_consistent P ->
   forall s, showInDb = Some s -> tmdb_id s ∉ excludeTvShowTmdbIds st) ->
  Inv P excl0 count (offer showInDb d' st)
  /\ Mono count st (offer showInDb d' st)
  /\ (forall s, showInDb = Some s -> tmdb_id s ∉ excludeTvShowTmdbIds st ->
        tmdb_id s ∈ excludeTvShowTmdbIds (offer showInDb d' st)).
Proof.
  intros HI Hfull Hdb Hfresh. unfold offer.
  assert (Mono count st (withDb d' st)) as Hm1.
  { unfold Mono, withDb, full. simpl. split; [reflexivity|]. split; [tauto | exact Hdb]. }
  destruct showInDb as [s|]; [|split; [exact HI | split; [exact Hm1 | discriminate]]].
  destruct (recommended (tmdb_id s) (recommendations (withDb d' st))) eqn:Hrec; simpl.
  - split; [exact HI|]. split; [exact Hm1|].
    intros s' [= <-] Hnot. exfalso. apply Hnot.
    destruct HI as (I1 & _). rewrite I1.
    apply recommended_spec in Hrec. simpl in Hrec.
    apply elem_of_union_l, elem_of_list_to_set. exact Hrec.
  - split; [|split].
    + apply Inv_push; [exact HI | exact Hfull | exact Hrec |].
      intros HC Hin. apply (Hfresh HC s eq_refl).
      destruct HI as (I1 & _). rewrite I1. now apply elem_of_union_r.
    + apply (Mono_trans _ _ _ Hm1), Mono_push.
    + intros s' [= <-] _. unfold pushAndExclude. simpl.
      apply elem_of_union_l, elem_of_singleton. reflexivity.
Qed.

(** *** Phase 3 *)

Lemma takePopular_cons pop rest st :
  takePopular P count (pop :: rest) st
  = takePopular P count rest (popularStep P count pop st).
Proof.
  unfold popularStep, offer. simpl.
  destruct (full count st || _)%bool; [reflexivity|].
  destruct (getTvShowByTmdbId _ _) as [s|].
  - simpl. now destruct (recommended _ _).
  - destruct (Tmdb.getTvShowDetails P _) as [det|]; [|reflexivity].
    destruct (saveTvShow P det (db st)) as [[s|] d']; simpl; [|reflexivity].
    now destruct (recommended _ _).
Qed.

Lemma popularStep_spec pop st :
  Inv P excl0 count st ->
  Inv P excl0 count (popularStep P count pop st)
  /\ Mono count st (popularStep P count pop st)
  /\ (details_consistent P -> 0 <= tv_shows_seq (db st) ->
      available P (Tmdb.id pop) (db st) ->
      full count (popularStep P count pop st) = true
      \/ Tmdb.id pop ∈ excludeTvShowTmdbIds (popularStep P count pop st)).
Proof.
  intros HI. unfold popularStep.
  destruct (full count st) eqn:Hfull; simpl.
  { split; [exact HI|]. split; [apply Mono_refl|]. intros. now left. }
  destruct (bool_decide (Tmdb.id pop ∈ excludeTvShowTmdbIds st)) eqn:Hex.
  { apply bool_decide_eq_true in Hex.
    split; [exact HI|]. split; [apply Mono_refl|]. intros. now right. }
  apply bool_decide_eq_false in Hex.
  destruct (getTvShowByTmdbId (Tmdb.id pop) (db st)) as [s|] eqn:Hdb.
  - destruct (find_some_key tmdb_id Z.eqb Z.eqb_eq _ _ _ Hdb) as [Hk _].
    destruct (offer_spec (Some s) (db st) st HI Hfull) as (H1 & H2 & H3).
    { intros H. split; [exact H | tauto]. }
    { intros _ s' [= <-]. now rewrite Hk. }
    split; [exact H1|]. split; [exact H2|]. intros _ _ _. right.
    rewrite <- Hk. apply (H3 s eq_refl). now rewrite Hk.
  - destruct (Tmdb.getTvShowDetails P (Tmdb.id pop)) as [det|] eqn:Hdet.
    + destruct (saveTvShow P det (db st)) as [r d'] eqn:Hsave. simpl.
      destruct (offer_spec r d' st HI Hfull) as (H1 & H2 & H3).
      { intros H. destruct (saveTvShow_keeps P det (db st) H)
          as (s & d'' & Hs' & Hq1 & Hq2).
        rewrite Hsave in Hs'. injection Hs' as _ <-. split; assumption. }
      { intros HC s ->. rewrite (saveTvShow_tmdb_id _ _ _ _ _ Hsave).
        now rewrite (HC _ _ Hdet). }
      split; [exact H1|]. split; [exact H2|]. intros HC Hseq _. right.
      destruct (saveTvShow_keeps P det (db st) Hseq) as (s & d'' & Hs' & _).
      rewrite Hsave in Hs'. injection Hs' as -> _.
      pose proof (saveTvShow_tmdb_id _ _ _ _ _ Hsave) as Hk.
      rewrite (HC _ _ Hdet) in Hk. rewrite <- Hk.
      apply (H3 s eq_refl). now rewrite Hk.
    + destruct (offer_spec None (db st) st HI Hfull) as (H1 & H2 & H3).
      { intros H. split; [exact H | tauto]. }
      { discriminate. }
      split; [exact H1|]. split; [exact H2|].
      intros _ _ [Hp | Hd].
      * exfalso. apply (find_none_not_in tmdb_id Z.eqb Z.eqb_eq) in Hdb.
        now apply Hdb.
      * destruct Hd as [? Hd]. rewrite Hdet in Hd. discriminate Hd.
Qed.

Lemma takePopular_spec popular : forall st,
  Inv P excl0 count st ->
  Inv P excl0 count (takePopular P count popular st)
  /\ Mono count st (takePopular P count popular st)
  /\ (details_consistent P -> 0 <= tv_shows_seq (db st) ->
      full count (takePopular P count popular st) = true
      \/ forall pop, pop ∈ popular -> available P (Tmdb.id pop) (db st) ->
           Tmdb.id pop ∈ excludeTvShowTmdbIds (takePopular P count popular st)).
Proof.
  induction popular as [|pop rest IH]; intros st HI.
  - simpl. split; [exact HI|]. split; [apply Mono_refl|].
    intros _ _. right. intros pop Hin. inversion Hin.
  - rewrite takePopular_cons.
    destruct (popularStep_spec pop st HI) as (H1 & H2 & H3).
    destruct (IH _ H1) as (J1 & J2 & J3).
    split; [exact J1|]. split; [exact (Mono_trans _ _ _ H2 J2)|].
    intros HC Hseq.
    destruct H2 as (E2 & F2 & D2). destruct (D2 Hseq) as [Hseq1 Hp1].
    destruct J2 as (E3 & F3 & D3).
    destruct (J3 HC Hseq1) as [Hf | Hall]; [now left|].
    destruct (full count (takePopular P count rest (popularStep P count pop st))) eqn:Hfin;
      [now left | right].
    intros pop' Hin Hav. apply elem_of_cons in Hin as [-> | Hin].
    + destruct (H3 HC Hseq Hav) as [Hf | Hex].
      * specialize (F3 Hf). congruence.
      * now apply E3.
    + apply (Hall pop' Hin). destruct Hav as [Hp | Hd]; [left; now apply Hp1 | now right].
Qed.

(** *** Phase 2 *)

Lemma takeCollaborative_cons c rest st :
  takeCollaborative P count (c :: rest) st
  = takeCollaborative P count rest (collabStep P count c st).
Proof.
  unfold collabStep, offer. simpl.
  destruct (full count st || _)%bool; [reflexivity|].
  destruct (Tmdb.getTvShowDetails P _) as [det|]; [|reflexivity].
  destruct (saveTvShow P det (db st)) as [[s|] d']; simpl; [|reflexivity].
  now destruct (recommended _ _).
Qed.

Lemma collabStep_spec c st :
  Inv P excl0 count st ->
  Inv P excl0 count (collabStep P count c st)
  /\ Mono count st (collabStep P count c st)
  /\ (details_consistent P -> 0 <= tv_shows_seq (db st) ->
      is_Some (Tmdb.getTvShowDetails P (Tmdb.id c)) ->
      full count (collabStep P count c st) = true
      \/ Tmdb.id c ∈ excludeTvShowTmdbIds (collabStep P count c st)).
Proof.
  intros HI. unfold collabStep.
  destruct (full count st) eqn:Hfull; simpl.
  { split; [exact HI|]. split; [apply Mono_refl|]. intros. now left. }
  destruct (bool_decide (Tmdb.id c ∈ excludeTvShowTmdbIds st)) eqn:Hex.
  { apply bool_decide_eq_true in Hex.
    split; [exact HI|]. split; [apply Mono_refl|]. intros. now right. }
  apply bool_decide_eq_false in Hex.
  destruct (Tmdb.getTvShowDetails P (Tmdb.id c)) as [det|] eqn:Hdet.
  - destruct (saveTvShow P det (db st)) as [r d'] eqn:Hsave. simpl.
    destruct (offer_spec r d' st HI Hfull) as (H1 & H2 & H3).
    { intros H. destruct (saveTvShow_keeps P det (db st) H)
        as (s & d'' & Hs' & Hq1 & Hq2).
      rewrite Hsave in Hs'. injection Hs' as _ <-. split; assumption. }
    { intros HC s ->. rewrite (saveTvShow_tmdb_id _ _ _ _ _ Hsave).
      now rewrite (HC _ _ Hdet). }
    split; [exact H1|]. split; [exact H2|]. intros HC Hseq _. right.
    destruct (saveTvShow_keeps P det (db st) Hseq) as (s & d'' & Hs' & _).
    rewrite Hsave in Hs'. injection Hs' as -> _.
    pose proof (saveTvShow_tmdb_id _ _ _ _ _ Hsave) as Hk.
    rewrite (HC _ _ Hdet) in Hk. rewrite <- Hk.
    apply (H3 s eq_refl). now rewrite Hk.
  - split; [exact HI|]. split; [apply Mono_refl|].
    intros _ _ [? Hd]. discriminate Hd.
Qed.

Lemma takeCollaborative_spec results : forall st,
  Inv P excl0 count st ->
  Inv P excl0 count (takeCollaborative P count results st)
  /\ Mono count st (takeCollaborative P count results st)
  /\ (details_consistent P -> 0 <= tv_shows_seq (db st) ->
      full count (takeCollaborative P count results st) = true
      \/ forall c, c ∈ results -> is_Some (Tmdb.getTvShowDetails P (Tmdb.id c)) ->
           Tmdb.id c ∈ excludeTvShowTmdbIds (takeCollaborative P count results st)).
Proof.
  induction results as [|c rest IH]; intros st HI.
  - simpl. split; [exact HI|]. split; [apply Mono_refl|].
    intros _ _. right. intros c Hin. inversion Hin.
  - rewrite takeCollaborative_cons.
    destruct (collabStep_spec c st HI) as (H1 & H2 & H3).
    destruct (IH _ H1) as (J1 & J2 & J3).
    split; [exact J1|]. split; [exact (Mono_trans _ _ _ H2 J2)|].
    intros HC Hseq.
    destruct H2 as (E2 & F2 & D2). destruct (D2 Hseq) as [Hseq1 Hp1].
    destruct J2 as (E3 & F3 & D3).
    destruct (J3 HC Hseq1) as [Hf | Hall]; [now left|].
    destruct (full count (takeCollaborative P count rest (collabStep P count c st))) eqn:Hfin;
      [now left | right].
    intros c' Hin Hav. apply elem_of_cons in Hin as [-> | Hin].
    + destruct (H3 HC Hseq Hav) as [Hf | Hex].
      * specialize (F3 Hf). congruence.
      * now apply E3.
    + now apply (Hall c' Hin).
Qed.

Lemma collaborativeLoop_spec ratedShows : forall st,
  Inv P excl0 count st ->
  Inv P excl0 count (collaborativeLoop P count ratedShows st)
  /\ Mono count st (collaborativeLoop P count ratedShows st)
  /\ (details_consistent P -> 0 <= tv_shows_seq (db st) ->
      full count (collaborativeLoop P count ratedShows st) = true
      \/ forall t, similarTo P ratedShows t ->
           t ∈ excludeTvShowTmdbIds (collaborativeLoop P count ratedShows st)).
Proof.
  induction ratedShows as [|r rest IH]; intros st HI.
  - simpl. split; [exact HI|]. split; [apply Mono_refl|].
    intros _ _. right. intros t (r & ? & ? & Hin & _). inversion Hin.
  - simpl. destruct (full count st) eqn:Hfull.
    { split; [exact HI|]. split; [apply Mono_refl|]. intros. now left. }
    set (st1 := match Tmdb.getTvShowRecommendations P (tv_show_tmdb_id r) with
                | Some results => takeCollaborative P count results st
                | None => st
                end).
    assert (Inv P excl0 count st1 /\ Mono count st st1
            /\ (details_consistent P -> 0 <= tv_shows_seq (db st) ->
                full count st1 = true
                \/ forall results c,
                     Tmdb.getTvShowRecommendations P (tv_show_tmdb_id r) = Some results ->
                     c ∈ results ->
                     is_Some (Tmdb.getTvShowDetails P (Tmdb.id c)) ->
                     Tmdb.id c ∈ excludeTvShowTmdbIds st1)) as (H1 & H2 & H3).
    { subst st1.
      destruct (Tmdb.getTvShowRecommendations P (tv_show_tmdb_id r)) as [results|].
      - destruct (takeCollaborative_spec results st HI) as (K1 & K2 & K3).
        split; [exact K1|]. split; [exact K2|]. intros HC Hseq.
        destruct (K3 HC Hseq) as [Hf | Hall]; [now left | right].
        intros results' c [= <-]. apply Hall.
      - split; [exact HI|]. split; [apply Mono_refl|].
        intros _ _. right. discriminate. }
    destruct (IH _ H1) as (J1 & J2 & J3).
    split; [exact J1|]. split; [exact (Mono_trans _ _ _ H2 J2)|].
    intros HC Hseq.
    destruct H2 as (E2 & F2 & D2). destruct (D2 Hseq) as [Hseq1 Hp1].
    destruct J2 as (E3 & F3 & D3).
    destruct (J3 HC Hseq1) as [Hf | Hall]; [now left|].
    destruct (full count (collaborativeLoop P count rest st1)) eqn:Hfin;
      [now left | right].
    intros t (r' & results & c & Hin & Hrec & Hc & Hid & Hdet).
    apply elem_of_cons in Hin as [-> | Hin].
    + destruct (H3 HC Hseq) as [Hf | Hex].
      * specialize (F3 Hf). congruence.
      * apply E3. rewrite <- Hid. apply (Hex results c Hrec Hc). now rewrite Hid.
    + apply Hall. exists r', results, c. auto.
Qed.

(** *** Phase 1 *)

Lemma collectCandidates_spec excl popular : forall cands d,
  (details_consistent P ->
   (forall c, c ∈ cands -> tmdb_id c ∉ excl) ->
   forall c, c ∈ fst (collectCandidates P excl popular cands d) ->
     tmdb_id c ∉ excl)
  /\ (0 <= tv_shows_seq d ->
      0 <= tv_shows_seq (snd (collectCandidates P excl popular cands d))
      /\ forall t, present t d ->
           present t (snd (collectCandidates P excl popular cands d))).
Proof.
  induction popular as [|pop rest IH]; intros cands d; simpl.
  - split; [auto | tauto].
  - destruct (bool_decide (Tmdb.id pop ∈ excl)) eqn:Hex; [apply IH|].
    apply bool_decide_eq_false in Hex.
    destruct (Tmdb.getTvShowDetails P (Tmdb.id pop)) as [det|] eqn:Hdet; [|apply IH].
    destruct (saveTvShow P det d) as [r d'] eqn:Hsave.
    assert (0 <= tv_shows_seq d ->
            0 <= tv_shows_seq d' /\ forall t, present t d -> present t d') as Hd.
    { intros H. destruct (saveTvShow_keeps P det d H) as (s & d'' & Hs' & Hq1 & Hq2).
      rewrite Hsave in Hs'. injection Hs' as _ <-. split; assumption. }
    destruct r as [s|].
    + destruct (IH (cands ++ [s]) d') as [IH1 IH2]. split.
      * intros HC Hc. apply (IH1 HC). intros c Hin.
        apply elem_of_app in Hin as [Hin | Hin]; [now apply Hc|].
        apply list_elem_of_singleton in Hin. subst c.
        rewrite (saveTvShow_tmdb_id _ _ _ _ _ Hsave). now rewrite (HC _ _ Hdet).
      * intros H. destruct (Hd H) as [H1 H2]. destruct (IH2 H1) as [H3 H4].
        split; [exact H3 | auto].
    + destruct (IH cands d') as [IH1 IH2]. split; [exact IH1|].
      intros H. destruct (Hd H) as [H1 H2]. destruct (IH2 H1) as [H3 H4].
      split; [exact H3 | auto].
Qed.

Lemma contentRecs_subset prefs cands n show :
  show ∈ getContentBasedTvShowRecommendations prefs cands n -> show ∈ cands.
Proof.
  unfold getContentBasedTvShowRecommendations, Js.slice0. intros Hin.
  apply list_elem_of_fmap in Hin as ([s q] & -> & Hin). simpl.
  apply (subseteq_take n _ _) in Hin.
  rewrite sort_perm in Hin.
  apply list_elem_of_In, filter_In in Hin as [Hin _].
  apply in_map_iff in Hin as (s' & [= <- _] & Hin).
  now apply list_elem_of_In.
Qed.

Lemma takeContentRecs_spec contentRecs : forall st,
  Inv P excl0 count st ->
  (details_consistent P -> forall r, r ∈ contentRecs -> tmdb_id r ∉ excl0) ->
  Inv P excl0 count (takeContentRecs count contentRecs st)
  /\ Mono count st (takeContentRecs count contentRecs st).
Proof.
  induction contentRecs as [|rec rest IH]; intros st HI Hfresh; simpl.
  - split; [exact HI | apply Mono_refl].
  - destruct (full count st) eqn:Hfull; [split; [exact HI | apply Mono_refl]|].
    assert (details_consistent P -> forall r, r ∈ rest -> tmdb_id r ∉ excl0) as Hrest
      by (intros HC r Hr; apply (Hfresh HC); now right).
    destruct (recommended (tmdb_id rec) (recommendations st)) eqn:Hrec; simpl.
    + now apply IH.
    + destruct (IH (pushAndExclude rec st)) as [J1 J2]; [|exact Hrest|].
      { apply Inv_push; [exact HI | exact Hfull | exact Hrec |].
        intros HC. apply (Hfresh HC). now left. }
      split; [exact J1|]. exact (Mono_trans _ _ _ (Mono_push rec st) J2).
Qed.

Lemma phase1_spec prefs st :
  Inv P excl0 count st ->
  Inv P excl0 count (phase1 P prefs count st) /\ Mono count st (phase1 P prefs count st).
Proof.
  intros HI. unfold phase1.
  set (r := match Tmdb.getPopularTvShows P with
            | Some results =>
                collectCandidates P (excludeTvShowTmdbIds st)
                  (Js.slice0 30 results) [] (db st)
            | None => ([], db st)
            end).
  assert ((details_consistent P -> forall c, c ∈ fst r ->
             tmdb_id c ∉ excludeTvShowTmdbIds st)
          /\ (0 <= tv_shows_seq (db st) ->
              0 <= tv_shows_seq (snd r)
              /\ forall t, present t (db st) -> present t (snd r))) as [Hc Hd].
  { subst r. destruct (Tmdb.getPopularTvShows P) as [results|].
    - destruct (collectCandidates_spec (excludeTvShowTmdbIds st)
                  (Js.slice0 30 results) [] (db st)) as [H1 H2].
      split; [|exact H2]. intros HC. apply (H1 HC). intros c Hin. inversion Hin.
    - simpl. split; [intros _ c Hin; inversion Hin | tauto]. }
  destruct r as [cands d]. simpl in Hc, Hd.
  assert (Mono count st (withDb d st)) as Hm.
  { unfold Mono, withDb, full. simpl. split; [reflexivity|]. split; [tauto | exact Hd]. }
  destruct (Nat.ltb 0 (length cands)); [|split; [exact HI | exact Hm]].
  destruct (takeContentRecs_spec
              (getContentBasedTvShowRecommendations prefs cands count)
              (withDb d st)) as [J1 J2].
  - exact HI.
  - intros HC r Hr. apply contentRecs_subset in Hr.
    specialize (Hc HC r Hr). destruct HI as (I1 & _). rewrite I1 in Hc.
    intros Hin. apply Hc. now apply elem_of_union_r.
  - split; [exact J1 | exact (Mono_trans _ _ _ Hm J2)].
Qed.

Lemma phase2_spec userRatings st :
  Inv P excl0 count st ->
  Inv P excl0 count (phase2 P count userRatings st)
  /\ Mono count st (phase2 P count userRatings st)
  /\ (details_consistent P -> 0 <= tv_shows_seq (db st) ->
      full count (phase2 P count userRatings st) = true
      \/ ((MIN_RATINGS_FOR_COLLABORATIVE_TV <= length userRatings)%nat ->
          forall t,
            similarTo P (Js.slice0 2 (Js.sort byRatingDesc userRatings)) t ->
            t ∈ excludeTvShowTmdbIds (phase2 P count userRatings st))).
Proof.
  intros HI. unfold phase2.
  destruct (full count st) eqn:Hfull; cbn [negb andb].
  { split; [exact HI|]. split; [apply Mono_refl|]. intros. now left. }
  destruct (Nat.leb MIN_RATINGS_FOR_COLLABORATIVE_TV (length userRatings)) eqn:Hn.
  - destruct (collaborativeLoop_spec
                (Js.slice0 2 (Js.sort byRatingDesc userRatings)) st HI)
      as (H1 & H2 & H3).
    split; [exact H1|]. split; [exact H2|]. intros HC Hseq.
    destruct (H3 HC Hseq) as [Hf | Hall]; [now left | right; auto].
  - split; [exact HI|]. split; [apply Mono_refl|]. intros _ _. right.
    intros Hle. apply Nat.leb_gt in Hn. lia.
Qed.

Lemma phase3_spec st :
  Inv P excl0 count st ->
  Inv P excl0 count (phase3 P count st)
  /\ Mono count st (phase3 P count st)
  /\ (details_consistent P -> 0 <= tv_shows_seq (db st) ->
      full count (phase3 P count st) = true
      \/ forall results pop,
           Tmdb.getPopularTvShows P = Some results -> pop ∈ results ->
           available P (Tmdb.id pop) (db st) ->
           Tmdb.id pop ∈ excludeTvShowTmdbIds (phase3 P count st)).
Proof.
  intros HI. unfold phase3.
  destruct (full count st) eqn:Hfull; simpl.
  { split; [exact HI|]. split; [apply Mono_refl|]. intros. now left. }
  destruct (Tmdb.getPopularTvShows P) as [results|].
  - destruct (takePopular_spec results st HI) as (H1 & H2 & H3).
    split; [exact H1|]. split; [exact H2|]. intros HC Hseq.
    destruct (H3 HC Hseq) as [Hf | Hall]; [now left | right].
    intros results' pop [= <-]. apply Hall.
  - split; [exact HI|]. split; [apply Mono_refl|]. intros _ _. right. discriminate.
Qed.

End Invariants.

(** *** The whole call *)

Lemma runPhases_unfold P user prefs excl0 count d :
  runPhases P user prefs excl0 count d
  = phase3 P count (afterPhase2 P user prefs excl0 count d).
Proof. reflexivity. Qed.

Lemma Inv_initial P excl0 count d : Inv P excl0 count (initial excl0 d).
Proof.
  unfold Inv, initial, ids. cbn [recommendations excludeTvShowTmdbIds map].
  split; [now rewrite list_to_set_nil, (left_id_L ∅ (∪))|].
  split; [apply NoDup_nil_2|]. split; [simpl; lia|]. intros _ t Ht. inversion Ht.
Qed.

Lemma Inv_phases P user prefs excl0 count d :
  Inv P excl0 count (afterPhase1 P prefs excl0 count d)
  /\ Inv P excl0 count (afterPhase2 P user prefs excl0 count d)
  /\ Inv P excl0 count (runPhases P user prefs excl0 count d).
Proof.
  destruct (phase1_spec P excl0 count prefs _ (Inv_initial P excl0 count d))
    as [H1 _].
  destruct (phase2_spec P excl0 count
              (getUserTvShowRatings (user_id user) d) _ H1) as (H2 & _).
  destruct (phase3_spec P excl0 count _ H2) as (H3 & _).
  split; [exact H1|]. split; [exact H2 | exact H3].
Qed.

(** The final [slice] changes nothing: the array never holds more than
    [count] shows. *)
Lemma result_is_recommendations P user prefs excl0 count d :
  getTvShowRecommendationsForUser P user prefs excl0 count d
  = (recommendations (runPhases P user prefs excl0 count d),
     excludeTvShowTmdbIds (runPhases P user prefs excl0 count d),
     db (runPhases P user prefs excl0 count d)).
Proof.
  unfold getTvShowRecommendationsForUser, Js.slice0.
  destruct (Inv_phases P user prefs excl0 count d) as (_ & _ & (_ & _ & Hlen & _)).
  now rewrite firstn_all2.
Qed.

Lemma supply_is_taken P user prefs excl0 count d :
  details_consistent P -> 0 <= tv_shows_seq d ->
  full count (runPhases P user prefs excl0 count d) = true
  \/ forall t, popularSupply P d t \/ similarSupply P user d t ->
       t ∈ excludeTvShowTmdbIds (runPhases P user prefs excl0 count d).
Proof.
  intros HC Hseq. rewrite runPhases_unfold.
  destruct (phase1_spec P excl0 count prefs _ (Inv_initial P excl0 count d))
    as [H1 M1].
  destruct (phase2_spec P excl0 count
              (getUserTvShowRatings (user_id user) d) _ H1) as (H2 & M2 & S2).
  fold (afterPhase1 P prefs excl0 count d) in H1, M1, H2, M2, S2.
  fold (afterPhase2 P user prefs excl0 count d) in H2, M2, S2.
  destruct (phase3_spec P excl0 count _ H2) as (H3 & M3 & S3).
  destruct M1 as (E1 & F1 & D1). destruct (D1 Hseq) as [Hseq1 Hp1].
  destruct M2 as (E2 & F2 & D2). destruct (D2 Hseq1) as [Hseq2 Hp2].
  destruct M3 as (E3 & F3 & D3).
  destruct (full count (phase3 P count (afterPhase2 P user prefs excl0 count d)))
    eqn:Hfin; [now left | right].
  intros t [(results & pop & Hpop & Hin & Hid & Hav) | [Hmin Hsim]].
  - destruct (S3 HC Hseq2) as [Hf | Hall]; [congruence|].
    rewrite <- Hid. apply (Hall results pop Hpop Hin). rewrite Hid.
    destruct Hav as [Hp | Hd]; [left; auto | now right].
  - destruct (S2 HC Hseq1) as [Hf | Hall].
    + specialize (F3 Hf). congruence.
    + apply E3. now apply Hall.
Qed.

End OrchestratorFacts.

(** ** The restaurant recommender returns every accepted restaurant *)

Module RecommendFacts.
Import Restaurants RestaurantFacts.

Lemma filter_sublist {A} (f : A -> bool) (l : list A) : sublist (List.filter f l) l.
Proof.
  induction l as [|x l IH]; simpl; [constructor|].
  destruct (f x); [now apply sublist_skip | now apply sublist_cons].
Qed.

Lemma unit_interval_tail rs : unit_interval rs -> unit_interval (fun n => rs (S n)).
Proof. intros H n. apply H. Qed.

(** Scoring a list pairs every restaurant with its score, in order. *)
Lemma rmap_scores (score : Restaurant -> UserPreferences -> Rand Q) prefs l :
  forall rs,
    map fst (fst (rmap (fun r => sc <~ score r prefs ;; rret (r, sc)) l rs)) = l.
Proof.
  induction l as [|r l IH]; intros rs; [reflexivity|].
  cbn [rmap]. unfold rbind at 1. unfold rbind at 1.
  destruct (score r prefs rs) as [sc rs1]. unfold rret at 1.
  unfold rbind at 1.
  specialize (IH rs1).
  destruct (rmap _ l rs1) as [ys rs2]. simpl in *. now rewrite IH.
Qed.

Lemma positive_scores_are_accepted f prefs l :
  (0 <= f)%Q -> forall rs, unit_interval rs ->
  map fst (List.filter (fun item => Js.Qltb 0 (snd item))
             (fst (rmap (fun r => sc <~ matchScoreWith f r prefs ;; rret (r, sc))
                        l rs)))
  = List.filter (fun r => Js.isSome (scoreBeforeJitter r prefs)) l.
Proof.
  intros Hf. induction l as [|r l IH]; intros rs Hrs; [reflexivity|].
  cbn [rmap]. unfold rbind at 1. unfold rbind at 1.
  destruct (scoreBeforeJitter r prefs) as [q|] eqn:Hq.
  - pose proof (accepted_positive f r prefs rs q Hf (proj1 (Hrs O)) Hq) as Hpos.
    rewrite (matchScoreWith_accept f r prefs rs q Hq) in *.
    unfold rret at 1. unfold rbind at 1.
    specialize (IH _ (unit_interval_tail rs Hrs)).
    destruct (rmap _ l (fun n => rs (S n))) as [ys rs2].
    simpl in *. rewrite Hq. simpl.
    rewrite (proj2 (Qltb_true _ _) Hpos). simpl. now rewrite IH.
  - rewrite (matchScoreWith_reject f r prefs rs Hq).
    unfold rret at 1. unfold rbind at 1.
    specialize (IH _ Hrs).
    destruct (rmap _ l rs) as [ys rs2].
    simpl in *. rewrite Hq. simpl. exact IH.
Qed.

Lemma filter_filter_andb {A} (f g : A -> bool) (l : list A) :
  List.filter g (List.filter f l) = List.filter (fun x => f x && g x)%bool l.
Proof.
  induction l as [|x l IH]; simpl; [reflexivity|].
  destruct (f x); simpl; [destruct (g x); now rewrite IH | exact IH].
Qed.

Lemma recommend_all_accepted f prefs catalog excl rs :
  (0 <= f)%Q -> unit_interval rs ->
  fst (recommendWith (matchScoreWith f) prefs catalog excl rs)
  ≡ₚ List.filter (fun r => notExcluded excl r
                           && Js.isSome (scoreBeforeJitter r prefs))%bool catalog.
Proof.
  intros Hf Hrs. unfold recommendWith. unfold rbind at 1.
  pose proof (positive_scores_are_accepted f prefs
                (List.filter (notExcluded excl) catalog) Hf rs Hrs) as H.
  destruct (rmap _ (List.filter (notExcluded excl) catalog) rs) as [scored rs'].
  simpl in *. rewrite sort_perm, H. now rewrite filter_filter_andb.
Qed.

Lemma recommend_from_catalog score prefs catalog excl rs :
  fst (recommendWith score prefs catalog excl rs)
  ⊆+ List.filter (notExcluded excl) catalog.
Proof.
  unfold recommendWith. unfold rbind at 1.
  pose proof (rmap_scores score prefs (List.filter (notExcluded excl) catalog) rs) as H.
  destruct (rmap _ (List.filter (notExcluded excl) catalog) rs) as [scored rs'].
  simpl in *. rewrite sort_perm. rewrite <- H.
  apply fmap_submseteq, sublist_submseteq, filter_sublist.
Qed.

End RecommendFacts.

Lemma NoDup_of_submseteq {A} (l k : list A) : l ⊆+ k -> NoDup k -> NoDup l.
Proof.
  intros Hs Hk. apply submseteq_Permutation in Hs as [k' Hp].
  rewrite Hp in Hk. now apply NoDup_app in Hk as [Hl _].
Qed.

(** ** Properties of the orchestrators *)

Module Orchestration.
Import TvShows TvShowDb TvRecommender Notions OrchestratorFacts RecommendFacts.

(** C7, as stated, fails in two ways.  TV shows: the caller excludes
    the external id 1; the provider lists show 7 as popular and its details
    endpoint answers the request for 7 with the record of show 1.  The
    orchestrator tests the id 7 against the exclusion set and pushes the
    record it saved, so the excluded show 1 is returned.  Restaurants: the
    recommender filters and sorts the catalog and never compares two
    entries, so a restaurant that the catalog lists twice is returned
    twice. *)
Lemma excluded_or_repeated_pick_example :
  map tmdb_id
    (fst (fst (getTvShowRecommendationsForUser Scenario.redirectingProvider
                 Scenario.viewer Scenario.noTvPrefs {[ 1 ]} 5
                 Scenario.emptyTvDb)))
  = [1]
  /\ fst (Restaurants.getRecommendations Scenario.userU
            [Scenario.restaurantA; Scenario.restaurantA] ∅ Scenario.halves)
     = [Scenario.restaurantA; Scenario.restaurantA].
Proof. split; vm_compute; reflexivity. Qed.

(** C7, amended.  For every call of the TV orchestrator: with a provider whose
    details endpoint answers with the show asked for, no returned show has
    an external id that was in the caller's exclusion set; no external id
    occurs twice in the result; the exclusion set the caller finds
    afterwards is its set at call time plus the external ids of the returned
    shows, and the same holds, with the picks made so far, after each of the
    three phases, because every push is paired with an add.  For the
    restaurant recommenders: every returned restaurant is in the catalog and
    has an id outside the exclusion set, and a catalog without repeated
    external ids gives a result without repeated external ids. *)
Theorem picks_are_new_distinct_and_excluded
    (P : Tmdb.Provider) (user : User) (prefs : UserTvShowPreferences)
    (excl0 : gset Z) (count : nat) (d : Db)
    (result : list TvShow) (excl' : gset Z) (d' : Db) :
  getTvShowRecommendationsForUser P user prefs excl0 count d
  = (result, excl', d') ->
  (details_consistent P -> forall show, show ∈ result -> tmdb_id show ∉ excl0)
  /\ NoDup (map tmdb_id result)
  /\ excl' = list_to_set (map tmdb_id result) ∪ excl0
  /\ (forall st,
        st ∈ [afterPhase1 P prefs excl0 count d;
              afterPhase2 P user prefs excl0 count d;
              runPhases P user prefs excl0 count d] ->
        excludeTvShowTmdbIds st
        = list_to_set (map tmdb_id (recommendations st)) ∪ excl0
        /\ NoDup (map tmdb_id (recommendations st)))
  /\ (forall score prefsR catalog (exclR : gset Z) (rs : RandomSource) r,
        r ∈ fst (Restaurants.recommendWith score prefsR catalog exclR rs) ->
        r ∈ catalog /\ exists i, Restaurants.id r = Some i /\ i ∉ exclR)
  /\ (forall score prefsR catalog (exclR : gset Z) (rs : RandomSource),
        NoDup (map Restaurants.googlePlaceId catalog) ->
        NoDup (map Restaurants.googlePlaceId
                 (fst (Restaurants.recommendWith score prefsR catalog exclR rs)))).
Proof.
  rewrite result_is_recommendations. intros [= <- <- <-].
  destruct (Inv_phases P user prefs excl0 count d) as (H1 & H2 & H3).
  split; [|split; [|split; [|split; [|split]]]].
  - intros HC show Hin. destruct H3 as (_ & _ & _ & Hfresh).
    apply (Hfresh HC). unfold ids. apply list_elem_of_fmap. now exists show.
  - now destruct H3 as (_ & Hnd & _).
  - now destruct H3 as (Hex & _).
  - intros st Hst.
    repeat (apply elem_of_cons in Hst as [-> | Hst]);
      [destruct H1 as (? & ? & _) | destruct H2 as (? & ? & _)
      | destruct H3 as (? & ? & _) | inversion Hst]; now split.
  - intros score prefsR catalog exclR rs r Hin.
    pose proof (elem_of_submseteq _ _ _ Hin
                  (recommend_from_catalog score prefsR catalog exclR rs)) as Hf.
    apply list_elem_of_In, filter_In in Hf as [Hc Hne].
    split; [now apply list_elem_of_In|].
    unfold Restaurants.notExcluded in Hne.
    destruct (Restaurants.id r) as [i|]; [|discriminate].
    exists i. split; [reflexivity|].
    apply negb_true_iff, bool_decide_eq_false in Hne. exact Hne.
  - intros score prefsR catalog exclR rs Hnd.
    apply (NoDup_of_submseteq _ (map Restaurants.googlePlaceId catalog)); [|exact Hnd].
    apply fmap_submseteq.
    etrans; [apply recommend_from_catalog|].
    apply sublist_submseteq, filter_sublist.
Qed.

(** C2, as stated, fails for restaurants: the restaurant recommender takes
    no count; for a user without preferences and six restaurants it returns
    six, more than the default count 5. *)
Lemma restaurant_result_exceeds_default_count_example :
  length (fst (Restaurants.getRecommendations Scenario.userNone
                 Scenario.sixDiners ∅ Scenario.halves)) = 6%nat
  /\ (defaultCount < 6)%nat.
Proof. split; [vm_compute; reflexivity | unfold defaultCount; lia]. Qed.

(** C2, amended.  The TV orchestrator returns at most [count] shows, and
    exactly [count] whenever, at call time, at least [count] distinct
    external ids outside the exclusion set can be supplied by the fallback
    phase (a popular show that is in the store or whose details can be
    fetched) or by the similarity phase (a show similar to one of the two
    top rated shows, with details, when the user has at least two ratings;
    of shows rated alike the one with the smaller local id comes first),
    the provider's details endpoint being consistent and the store's
    sequence counter non-negative.  The restaurant recommenders have no
    count: they return, in some order, every restaurant of the catalog that
    is not excluded and not rejected by the scorer. *)
Theorem tv_result_bounded_and_filled
    (P : Tmdb.Provider) (user : User) (prefs : UserTvShowPreferences)
    (excl0 : gset Z) (count : nat) (d : Db)
    (result : list TvShow) (excl' : gset Z) (d' : Db) (supply : list Z) :
  getTvShowRecommendationsForUser P user prefs excl0 count d
  = (result, excl', d') ->
  (length result <= count)%nat
  /\ (details_consistent P -> 0 <= tv_shows_seq d ->
      NoDup supply -> (count <= length supply)%nat ->
      (forall t, t ∈ supply ->
         (t ∉ excl0) /\ (popularSupply P d t \/ similarSupply P user d t)) ->
      length result = count)
  /\ (forall (f : Q) prefsR catalog (exclR : gset Z) (rs : RandomSource),
        (0 <= f)%Q -> unit_interval rs ->
        fst (Restaurants.recommendWith (Restaurants.matchScoreWith f)
               prefsR catalog exclR rs)
        ≡ₚ List.filter
             (fun r => Restaurants.notExcluded exclR r
                       && Js.isSome (Restaurants.scoreBeforeJitter r prefsR))%bool
             catalog).
Proof.
  rewrite result_is_recommendations. intros [= <- <- <-].
  destruct (Inv_phases P user prefs excl0 count d)
    as (_ & _ & (Hex & Hnd & Hlen & _)).
  split; [exact Hlen|]. split; [|intros; now apply recommend_all_accepted].
  intros HC Hseq Hsnd Hcount Hsupply.
  destruct (supply_is_taken P user prefs excl0 count d HC Hseq) as [Hf | Hall].
  - unfold full in Hf. apply Nat.leb_le in Hf. lia.
  - assert (supply ⊆+ ids (recommendations (runPhases P user prefs excl0 count d)))
      as Hsub.
    { apply NoDup_submseteq; [exact Hsnd|]. intros t Ht.
      destruct (Hsupply t Ht) as [Hnot Hs].
      specialize (Hall t Hs). rewrite Hex in Hall.
      apply elem_of_union in Hall as [Hin | Hin]; [|contradiction].
      now apply elem_of_list_to_set in Hin. }
    apply submseteq_length in Hsub. unfold ids in Hsub.
    rewrite length_map in Hsub. lia.
Qed.

Lemma provider_consistent : details_consistent Scenario.provider.
Proof.
  intros i det. unfold Scenario.provider. simpl.
  destruct (_ && _)%bool; [|discriminate]. now intros [= <-].
Qed.

Lemma tv_result_bounded_and_filled_witness :
  length (fst (fst (getTvShowRecommendationsForUser Scenario.provider
                      Scenario.viewer Scenario.noTvPrefs ∅ 2 Scenario.emptyTvDb)))
  = 2%nat.
Proof.
  destruct (getTvShowRecommendationsForUser Scenario.provider Scenario.viewer
              Scenario.noTvPrefs ∅ 2 Scenario.emptyTvDb)
    as [[result excl'] d'] eqn:E.
  destruct (tv_result_bounded_and_filled _ _ _ _ _ _ _ _ _ [1; 2] E)
    as (_ & H & _).
  apply H.
  - exact provider_consistent.
  - simpl. lia.
  - apply NoDup_cons_2; [|apply NoDup_singleton].
    intros Hin. apply list_elem_of_singleton in Hin. discriminate.
  - simpl. lia.
  - intros t Ht. split; [apply not_elem_of_empty|]. left.
    exists [Scenario.tmdbShow 1 8; Scenario.tmdbShow 2 7; Scenario.tmdbShow 3 6].
    apply elem_of_cons in Ht as [-> | Ht];
      [exists (Scenario.tmdbShow 1 8)
      | apply list_elem_of_singleton in Ht; subst t;
        exists (Scenario.tmdbShow 2 7)].
    all: split; [reflexivity|]; split;
      [repeat constructor | split; [reflexivity | right; eexists; reflexivity]].
Defined.

Example tv_recommendations_example :
  map tmdb_id (fst (fst (getTvShowRecommendationsForUser Scenario.provider
                      Scenario.viewer Scenario.noTvPrefs {[ 1 ]} 5 Scenario.emptyTvDb)))
  = [2; 3].
Proof. vm_compute. reflexivity. Qed.

Lemma picks_are_new_distinct_and_excluded_witness :
  NoDup (map tmdb_id
           (fst (fst (getTvShowRecommendationsForUser Scenario.provider
                        Scenario.viewer Scenario.noTvPrefs {[ 1 ]} 5
                        Scenario.emptyTvDb))))
  /\ forall show,
       show ∈ fst (fst (getTvShowRecommendationsForUser Scenario.provider
                          Scenario.viewer Scenario.noTvPrefs {[ 1 ]} 5
                          Scenario.emptyTvDb)) ->
       tmdb_id show ∉ ({[ 1 ]} : gset Z).
Proof.
  destruct (getTvShowRecommendationsForUser Scenario.provider Scenario.viewer
              Scenario.noTvPrefs {[ 1 ]} 5 Scenario.emptyTvDb)
    as [[result excl'] d'] eqn:E.
  destruct (picks_are_new_distinct_and_excluded _ _ _ _ _ _ _ _ _ E)
    as (H1 & H2 & _).
  split; [exact H2 | exact (H1 provider_consistent)].
Defined.

End Orchestration.

(** ** The sort orders by score *)

Section SortOrder.
Context {A : Type} (key : A -> Q).

Lemma insert_sorted_desc (x : A) (l : list A) :
  StronglySorted (desc key) l ->
  StronglySorted (desc key) (Js.insert_sorted (fun a b => Qle_bool (key b) (key a)) x l).
Proof.
  induction l as [|y l IH]; intros Hs; simpl.
  - constructor; constructor.
  - inversion Hs as [|? ? Hl Hy]; subst.
    destruct (Qle_bool (key y) (key x)) eqn:E.
    + apply Qle_bool_iff in E. constructor; [exact Hs|].
      constructor; [exact E|].
      eapply Forall_impl; [exact Hy|]. intros z Hz. unfold desc in *. lra.
    + apply Qle_bool_false in E. constructor; [now apply IH|].
      rewrite insert_sorted_perm. constructor; [unfold desc; lra | exact Hy].
Qed.

Lemma sort_desc (l : list A) :
  StronglySorted (desc key) (Js.sort (fun a b => Qle_bool (key b) (key a)) l).
Proof.
  induction l as [|x l IH]; simpl; [constructor|].
  now apply insert_sorted_desc.
Qed.

Lemma sorted_app_inv (l1 l2 : list A) :
  StronglySorted (desc key) (l1 ++ l2) ->
  forall x y, x ∈ l1 -> y ∈ l2 -> (desc key) x y.
Proof.
  induction l1 as [|z l1 IH]; intros Hs x y Hx Hy; [inversion Hx|].
  simpl in Hs. inversion Hs as [|? ? Hl Hz]; subst.
  apply elem_of_cons in Hx as [-> | Hx]; [|now apply IH].
  apply (proj1 (Forall_forall _ _) Hz). apply elem_of_app. now right.
Qed.
End SortOrder.

Lemma StronglySorted_take {A} (R : A -> A -> Prop) n (l : list A) :
  StronglySorted R l -> StronglySorted R (take n l).
Proof.
  revert n. induction l as [|x l IH]; intros [|n] Hs; simpl; try constructor.
  - inversion Hs; subst. now apply IH.
  - inversion Hs as [|? ? Hl Hx]; subst.
    apply Forall_forall. intros y Hy.
    apply (proj1 (Forall_forall _ _) Hx).
    now apply (subseteq_take n l).
Qed.

Lemma StronglySorted_fmap {A B} (R : A -> A -> Prop) (R' : B -> B -> Prop)
    (f : A -> B) (l : list A) :
  (forall x y, x ∈ l -> y ∈ l -> R x y -> R' (f x) (f y)) ->
  StronglySorted R l -> StronglySorted R' (map f l).
Proof.
  induction l as [|x l IH]; intros Hf Hs; simpl; [constructor|].
  inversion Hs as [|? ? Hl Hx]; subst. constructor.
  - apply IH; [|exact Hl]. intros a b Ha Hb. apply Hf; now right.
  - apply Forall_forall. intros b Hb.
    apply list_elem_of_fmap in Hb as (y & -> & Hy).
    apply Hf; [now left | now right |].
    now apply (proj1 (Forall_forall _ _) Hx).
Qed.

Module ContentBased.
Import TvShows TvFacts TvNotions.

Lemma ranked_perm prefs candidates :
  (forall show, show ∈ candidates -> (0 <= vote_average show)%Q) ->
  ranked prefs candidates
  ≡ₚ map (fun show => (show, scoreShow prefs show))
       (List.filter (passesHardFilters prefs) candidates).
Proof.
  intros Hv. unfold ranked.
  now rewrite sort_perm, positive_filter_is_hard_filter.
Qed.

Lemma ranked_scores prefs candidates x :
  x ∈ ranked prefs candidates -> snd x = scoreShow prefs (fst x).
Proof.
  unfold ranked. rewrite sort_perm. intros Hin.
  apply list_elem_of_In, filter_In in Hin as [Hin _].
  apply in_map_iff in Hin as (s & <- & _). reflexivity.
Qed.

Lemma ranked_sorted prefs candidates :
  StronglySorted (desc snd) (ranked prefs candidates).
Proof. apply (sort_desc snd). Qed.

Lemma contentRecs_unfold prefs candidates count :
  getContentBasedTvShowRecommendations prefs candidates count
  = map fst (take count (ranked prefs candidates)).
Proof. reflexivity. Qed.

Lemma contentRecs_sorted prefs candidates count :
  StronglySorted (fun a b => (scoreShow prefs b <= scoreShow prefs a)%Q)
    (getContentBasedTvShowRecommendations prefs candidates count).
Proof.
  rewrite contentRecs_unfold.
  apply (StronglySorted_fmap (desc snd));
    [|apply StronglySorted_take, ranked_sorted].
  intros x y Hx Hy Hxy. unfold desc in Hxy.
  apply (subseteq_take count _) in Hx, Hy.
  now rewrite <- (ranked_scores _ _ x Hx), <- (ranked_scores _ _ y Hy).
Qed.

Lemma contentRecs_positive prefs candidates count show :
  show ∈ getContentBasedTvShowRecommendations prefs candidates count ->
  (0 < scoreShow prefs show)%Q.
Proof.
  rewrite contentRecs_unfold. intros Hin.
  apply list_elem_of_fmap in Hin as (x & -> & Hx).
  apply (subseteq_take count _) in Hx.
  rewrite <- (ranked_scores _ _ x Hx).
  unfold ranked in Hx. rewrite sort_perm in Hx.
  apply list_elem_of_In, filter_In in Hx as [_ Hx]. now apply Qltb_true.
Qed.

Lemma StronglySorted_sublist {A} (R : A -> A -> Prop) (l k : list A) :
  sublist l k -> StronglySorted R k -> StronglySorted R l.
Proof.
  induction 1 as [|x l k Hsub IH|x l k Hsub IH]; intros Hs.
  - constructor.
  - inversion Hs as [|? ? Hk Hx]; subst. constructor; [now apply IH|].
    apply Forall_forall. intros y Hy.
    apply (proj1 (Forall_forall _ _) Hx).
    eapply elem_of_submseteq; [exact Hy | now apply sublist_submseteq].
  - inversion Hs; subst. now apply IH.
Qed.

(** X1.  [getContentBasedTvShowRecommendations] returns the [count]
    best candidates that pass the hard filters.  For candidates whose vote
    average is not negative, the result has as many shows as pass the hard
    filters, up to [count]; it consists of such candidates, each at most as
    often as it is among them; it is in descending order of score; and a
    passing candidate is left out only when [count] shows are returned, all
    of which score at least as high. *)
Theorem content_based_is_top_count
    (prefs : UserTvShowPreferences) (candidates : list TvShow) (count : nat) :
  (forall show, show ∈ candidates -> (0 <= vote_average show)%Q) ->
  let result := getContentBasedTvShowRecommendations prefs candidates count in
  let passing := List.filter (passesHardFilters prefs) candidates in
  length result = Nat.min count (length passing)
  /\ result ⊆+ passing
  /\ StronglySorted
       (fun a b => (scoreShow prefs b <= scoreShow prefs a)%Q) result
  /\ (forall show, show ∈ passing -> show ∉ result ->
        length result = count
        /\ forall r, r ∈ result -> (scoreShow prefs show <= scoreShow prefs r)%Q).
Proof.
  intros Hv result passing.
  pose proof (ranked_perm prefs candidates Hv) as Hp.
  pose proof (ranked_sorted prefs candidates) as Hs.
  pose proof (ranked_scores prefs candidates) as Hq.
  assert (result = map fst (take count (ranked prefs candidates))) as -> by reflexivity.
  fold passing in Hp.
  assert (map fst (ranked prefs candidates) ≡ₚ passing) as Hfst.
  { rewrite Hp, map_map. simpl. now rewrite map_id. }
  split; [|split; [|split]].
  - rewrite length_map, length_take, <- (length_map fst (ranked _ _)).
    now rewrite Hfst.
  - rewrite <- Hfst. apply fmap_submseteq, sublist_submseteq, sublist_take.
  - apply contentRecs_sorted.
  - intros show Hin Hout.
    assert ((show, scoreShow prefs show) ∈ ranked prefs candidates) as Hr.
    { rewrite Hp. apply list_elem_of_fmap. now exists show. }
    rewrite <- (take_drop count (ranked prefs candidates)) in Hr, Hs.
    apply elem_of_app in Hr as [Hr | Hr].
    { exfalso. apply Hout. apply list_elem_of_fmap. now exists (show, scoreShow prefs show). }
    split.
    + rewrite length_map, length_take.
      assert (0 < length (drop count (ranked prefs candidates)))%nat as Hd.
      { destruct (drop count _); [inversion Hr | simpl; lia]. }
      rewrite length_drop in Hd. lia.
    + intros r Hrin. apply list_elem_of_fmap in Hrin as (x & -> & Hx).
      pose proof (sorted_app_inv snd _ _ Hs _ _ Hx Hr) as Hd.
      unfold desc in Hd. simpl in Hd.
      rewrite <- (Hq x); [exact Hd|]. now apply (subseteq_take count _).
Qed.

Lemma content_based_is_top_count_witness :
  length (getContentBasedTvShowRecommendations Scenario.dramaPrefs
            [Scenario.comedyShow; Scenario.dramaShow] 5)
  = Nat.min 5 (length (List.filter (passesHardFilters Scenario.dramaPrefs)
                         [Scenario.comedyShow; Scenario.dramaShow])).
Proof.
  refine (proj1 (content_based_is_top_count Scenario.dramaPrefs
                   [Scenario.comedyShow; Scenario.dramaShow] 5 _)).
  intros show Hin.
  apply elem_of_cons in Hin as [-> | Hin]; [simpl; lra|].
  apply list_elem_of_singleton in Hin. subst show. simpl. lra.
Defined.

End ContentBased.

Module Ranking.
Import Restaurants RestaurantFacts RecommendFacts RankingNotions.









End Ranking.

Module RestaurantRanking.
Import Restaurants RestaurantFacts RecommendFacts RankingNotions Ranking.





End RestaurantRanking.

Module PlacesFacts.
Import GooglePlaces PlacesNotions.

Lemma includes_spec (arr : list string) (x : string) :
  Js.includes arr x = true <-> x ∈ arr.
Proof.
  unfold Js.includes. rewrite existsb_exists. split.
  - intros (y & Hin & E). apply String.eqb_eq in E. subst y.
    now apply list_elem_of_In.
  - intros Hin. exists x. split; [now apply list_elem_of_In | apply String.eqb_refl].
Qed.

Lemma includes_false (arr : list string) (x : string) :
  Js.includes arr x = false <-> x ∉ arr.
Proof. rewrite <- includes_spec. now destruct (Js.includes arr x). Qed.

Lemma pushNew_NoDup x arr : NoDup arr -> NoDup (pushNew x arr).
Proof.
  intros H. unfold pushNew. destruct (Js.includes arr x) eqn:E; [exact H|].
  apply includes_false in E. apply NoDup_app. split; [exact H|].
  split; [|apply NoDup_singleton].
  intros y Hy Hy'. apply list_elem_of_singleton in Hy'. now subst.
Qed.

Lemma pushNew_keeps x arr y : y ∈ arr -> y ∈ pushNew x arr.
Proof.
  intros H. unfold pushNew. destruct (Js.includes arr x); [exact H|].
  apply elem_of_app. now left.
Qed.

Lemma pushNew_elem x arr y : y ∈ pushNew x arr <-> y ∈ arr \/ y = x.
Proof.
  unfold pushNew. destruct (Js.includes arr x) eqn:E.
  - apply includes_spec in E. split; [now left | intros [H | ->]; assumption].
  - rewrite elem_of_app, list_elem_of_singleton. reflexivity.
Qed.

(** [pushNew] changes nothing on an array that has the element, so it
    leaves an array without repetition unchanged when folded over it. *)
Lemma fold_pushNew_NoDup {B} (f : list string -> B -> list string) l acc :
  (forall a b, NoDup a -> NoDup (f a b)) ->
  NoDup acc -> NoDup (fold_left f l acc).
Proof.
  intros Hf. revert acc. induction l as [|b l IH]; intros acc H; simpl; auto.
Qed.

Lemma fold_pushNew_keeps {B} (f : list string -> B -> list string) l acc y :
  (forall a b z, z ∈ a -> z ∈ f a b) ->
  y ∈ acc -> y ∈ fold_left f l acc.
Proof.
  intros Hf. revert acc. induction l as [|b l IH]; intros acc H; simpl; auto.
Qed.

Lemma unique_NoDup arr : NoDup (unique arr).
Proof.
  unfold unique. apply fold_pushNew_NoDup; [|apply NoDup_nil_2].
  intros a b. apply pushNew_NoDup.
Qed.

Lemma unique_elem arr y : y ∈ unique arr <-> y ∈ arr.
Proof.
  unfold unique.
  assert (forall acc, y ∈ fold_left (fun acc x => pushNew x acc) arr acc
                      <-> y ∈ acc \/ y ∈ arr) as H.
  { induction arr as [|x arr IH]; intros acc; simpl.
    - split; [now left | intros [H | H]; [exact H | inversion H]].
    - rewrite IH, pushNew_elem, elem_of_cons. tauto. }
  rewrite H. split; [intros [Hn | Hin]; [inversion Hn | exact Hin] | now right].
Qed.

(** On an array without repetition [[...new Set(arr)]] is the array. *)
Lemma unique_id arr : NoDup arr -> unique arr = arr.
Proof.
  unfold unique. intros Hnd.
  assert (forall acc, NoDup (acc ++ arr) ->
            fold_left (fun acc x => pushNew x acc) arr acc = acc ++ arr) as H.
  { clear Hnd. induction arr as [|x arr IH]; intros acc Hnd; simpl.
    - now rewrite app_nil_r.
    - assert (x ∉ acc) as Hx.
      { apply NoDup_app in Hnd as (_ & Hd & _). intros Hin.
        apply (Hd x Hin). now left. }
      unfold pushNew at 2. rewrite (proj2 (includes_false _ _) Hx).
      rewrite IH; [now rewrite <- (assoc_L (++))|].
      now rewrite <- (assoc_L (++)). }
  apply (H []). exact Hnd.
Qed.

Lemma fold_pushNew_adds {B} (f : list string -> B -> list string) l acc b y :
  (forall a b z, z ∈ a -> z ∈ f a b) ->
  (forall a, y ∈ f a b) ->
  b ∈ l -> y ∈ fold_left f l acc.
Proof.
  intros Hk Hb. revert acc. induction l as [|c l IH]; intros acc Hin; simpl.
  - inversion Hin.
  - apply elem_of_cons in Hin as [<- | Hin]; [|now apply IH].
    apply fold_pushNew_keeps; [exact Hk | apply Hb].
Qed.

Lemma fold_unchanged {B} (f : list string -> B -> list string) l acc :
  (forall a b, b ∈ l -> f a b = a) -> fold_left f l acc = acc.
Proof.
  revert acc. induction l as [|b l IH]; intros acc H; simpl; [reflexivity|].
  rewrite (H acc b) by now left. apply IH. intros a c Hc. apply H. now right.
Qed.

Lemma typeStep_NoDup a t : NoDup a -> NoDup (typeStep a t).
Proof.
  intros H. unfold typeStep. destruct (typeMap t); [now apply pushNew_NoDup|].
  destruct (Js.str_includes t _); [now apply pushNew_NoDup | exact H].
Qed.

Lemma typeStep_keeps a t z : z ∈ a -> z ∈ typeStep a t.
Proof.
  intros H. unfold typeStep. destruct (typeMap t); [now apply pushNew_keeps|].
  destruct (Js.str_includes t _); [now apply pushNew_keeps | exact H].
Qed.

Lemma nameStep_NoDup n a kw : NoDup a -> NoDup (nameStep n a kw).
Proof.
  intros H. unfold nameStep.
  destruct (Js.str_includes _ _); [now apply pushNew_NoDup | exact H].
Qed.

Lemma nameStep_keeps n a kw z : z ∈ a -> z ∈ nameStep n a kw.
Proof.
  intros H. unfold nameStep.
  destruct (Js.str_includes _ _); [now apply pushNew_keeps | exact H].
Qed.

Lemma mapGoogleTypesToCuisines_unfold googleTypes placeName :
  mapGoogleTypesToCuisines (Some googleTypes) placeName
  = let cuisines := inferred googleTypes placeName in
    let cuisines :=
      if (Js.includes googleTypes "restaurant" && Nat.eqb (length cuisines) 0)%bool
      then cuisines ++ ["Restaurant"%string] else cuisines in
    let cuisines :=
      if Nat.eqb (length cuisines) 0 then cuisines ++ ["Food"%string]
      else cuisines in
    unique cuisines.
Proof. reflexivity. Qed.

Lemma inferred_NoDup googleTypes placeName : NoDup (inferred googleTypes placeName).
Proof.
  unfold inferred.
  apply fold_pushNew_NoDup; [intros; now apply nameStep_NoDup|].
  apply fold_pushNew_NoDup; [intros; now apply typeStep_NoDup | apply NoDup_nil_2].
Qed.

(** The mapping as a case distinction on what the loops inferred. *)
Lemma mapGoogleTypesToCuisines_cases googleTypes placeName :
  mapGoogleTypesToCuisines (Some googleTypes) placeName
  = match inferred googleTypes placeName with
    | [] => if Js.includes googleTypes "restaurant"
            then ["Restaurant"%string] else ["Food"%string]
    | cuisines => cuisines
    end.
Proof.
  rewrite mapGoogleTypesToCuisines_unfold.
  pose proof (inferred_NoDup googleTypes placeName) as Hnd.
  destruct (inferred googleTypes placeName) as [|c cs] eqn:E; cbn zeta.
  - simpl. destruct (Js.includes googleTypes "restaurant"); reflexivity.
  - rewrite andb_false_r. simpl Nat.eqb. cbv iota. now apply unique_id.
Qed.

Lemma cuisines_nonempty_NoDup googleTypes placeName :
  mapGoogleTypesToCuisines googleTypes placeName <> []
  /\ NoDup (mapGoogleTypesToCuisines googleTypes placeName).
Proof.
  destruct googleTypes as [types|];
    [|split; [discriminate | apply NoDup_singleton]].
  rewrite mapGoogleTypesToCuisines_cases.
  pose proof (inferred_NoDup types placeName) as Hnd.
  destruct (inferred types placeName) as [|c cs].
  - destruct (Js.includes types _); (split; [discriminate | apply NoDup_singleton]).
  - split; [discriminate | exact Hnd].
Qed.

(** The four possible arrays of dietary options. *)
Lemma mapGoogleTypesToDietary_cases googleTypes :
  mapGoogleTypesToDietary googleTypes
  = match googleTypes with
    | None => []
    | Some types =>
        (if Js.includes types "vegetarian_restaurant"
         then ["vegetarian"%string] else [])
        ++ (if Js.includes types "vegan_restaurant" then ["vegan"%string] else [])
    end.
Proof.
  destruct googleTypes as [types|]; [|reflexivity]. unfold mapGoogleTypesToDietary.
  destruct (Js.includes types "vegetarian_restaurant"),
    (Js.includes types "vegan_restaurant"); reflexivity.
Qed.

Lemma dietary_options_of_place googleTypes o :
  o ∈ mapGoogleTypesToDietary googleTypes ->
  o = "vegetarian"%string \/ o = "vegan"%string.
Proof.
  rewrite mapGoogleTypesToDietary_cases. destruct googleTypes as [types|];
    [|intros H; inversion H].
  destruct (Js.includes types "vegetarian_restaurant"),
    (Js.includes types "vegan_restaurant"); simpl; intros H;
    repeat (apply elem_of_cons in H as [-> | H]; [tauto|]); inversion H.
Qed.

Lemma truthyS_nonempty o s : Js.truthyS o = Some s -> s <> EmptyString.
Proof.
  unfold Js.truthyS. destruct o as [t|]; [|discriminate].
  destruct t; simpl; [discriminate | intros [= <-]; discriminate].
Qed.

Lemma orElse_nonempty a b s : Js.orElse a b = Some s -> s <> EmptyString.
Proof.
  unfold Js.orElse. destruct (Js.truthyS a) eqn:E.
  - intros [= <-]. now apply (truthyS_nonempty a).
  - apply truthyS_nonempty.
Qed.

End PlacesFacts.

Module Places.
Import GooglePlaces PlacesNotions PlacesFacts.

(** X4.  [mapGoogleTypesToCuisines] never returns an empty array
    and never repeats a cuisine.  Without a type array the result is
    ["Miscellaneous"].  With one, every type of the type map contributes its
    cuisine, every keyword found in the lower-cased place name contributes
    its cuisine, and when neither loop infers anything the result is
    ["Restaurant"] if "restaurant" is among the types and ["Food"]
    otherwise.  For the last part no type may be a name that the type map
    inherits from [Object.prototype], such as "constructor": the lookup
    finds such a name, and the loop then pushes what it finds. *)
Theorem cuisines_never_empty_nor_repeated
    (googleTypes : option (list string)) (placeName : string) :
  let cuisines := mapGoogleTypesToCuisines googleTypes placeName in
  cuisines <> [] /\ NoDup cuisines
  /\ (googleTypes = None -> cuisines = ["Miscellaneous"%string])
  /\ (forall types, googleTypes = Some types ->
        (forall t c, t ∈ types -> typeMap t = Some c -> c ∈ cuisines)
        /\ (forall kw, kw ∈ nameKeywords ->
              Js.str_includes (Js.toLowerCase placeName) (fst kw) = true ->
              snd kw ∈ cuisines)
        /\ ((forall t, t ∈ types -> t ∉ objectPrototypeKeys) ->
            (forall t, t ∈ types ->
               typeMap t = None /\ Js.str_includes t "_restaurant" = false) ->
            (forall kw, kw ∈ nameKeywords ->
               Js.str_includes (Js.toLowerCase placeName) (fst kw) = false) ->
            cuisines = if Js.includes types "restaurant"
                       then ["Restaurant"%string] else ["Food"%string])).
Proof.
  cbn zeta.
  destruct (cuisines_nonempty_NoDup googleTypes placeName) as [Hne Hnd].
  split; [exact Hne|]. split; [exact Hnd|]. clear Hne Hnd.
  destruct googleTypes as [types|];
    [split; [discriminate|] | split; [reflexivity | discriminate]].
  intros types' [= <-].
  rewrite mapGoogleTypesToCuisines_cases.
  assert (forall t c, t ∈ types -> typeMap t = Some c -> c ∈ inferred types placeName)
    as Htypes.
  { intros t c Hin Hc. unfold inferred.
    apply fold_pushNew_keeps; [intros; now apply nameStep_keeps|].
    apply (fold_pushNew_adds typeStep types [] t);
      [intros; now apply typeStep_keeps | | exact Hin].
    intros a. unfold typeStep. rewrite Hc. apply pushNew_elem. now right. }
  assert (forall kw, kw ∈ nameKeywords ->
            Js.str_includes (Js.toLowerCase placeName) (fst kw) = true ->
            snd kw ∈ inferred types placeName) as Hnames.
  { intros kw Hin Hc. unfold inferred.
    apply (fold_pushNew_adds (nameStep placeName) nameKeywords _ kw);
      [intros; now apply nameStep_keeps | | exact Hin].
    intros a. unfold nameStep. rewrite Hc. apply pushNew_elem. now right. }
  assert ((forall t, t ∈ types ->
             typeMap t = None /\ Js.str_includes t "_restaurant" = false) ->
          (forall kw, kw ∈ nameKeywords ->
             Js.str_includes (Js.toLowerCase placeName) (fst kw) = false) ->
          inferred types placeName = []) as Hnone.
  { intros Ht Hk. unfold inferred.
    rewrite (fold_unchanged typeStep types []).
    - apply fold_unchanged. intros a kw Hin. unfold nameStep. now rewrite (Hk kw Hin).
    - intros a t Hin. unfold typeStep. destruct (Ht t Hin) as [-> ->]. reflexivity. }
  destruct (inferred types placeName) as [|c cs] eqn:E.
  - split; [intros t c Hin Hc; exfalso; specialize (Htypes t c Hin Hc); inversion Htypes|].
    split; [intros kw Hin Hc; exfalso; specialize (Hnames kw Hin Hc); inversion Hnames|].
    reflexivity.
  - split; [exact Htypes|]. split; [exact Hnames|].
    intros _ Ht Hk. specialize (Hnone Ht Hk). discriminate.
Qed.

(** X5.  Whatever [fetchRestaurantsFromGooglePlaces] returns: at most
    [maxResults] restaurants, each with a non-empty name and address, at
    least one cuisine and no repeated cuisine, and no dietary option other
    than "vegetarian" and "vegan".  When the request succeeds with status
    OK, the restaurants are the first [maxResults] places, in the order of
    the response, under their place ids. *)
Theorem fetched_restaurants_are_well_formed
    (env : Env) (locationQuery : string) (maxResults : nat)
    (fetched : list RestaurantDb.RestaurantData) :
  fetchRestaurantsFromGooglePlaces env locationQuery maxResults = inr fetched ->
  (length fetched <= maxResults)%nat
  /\ (forall r, r ∈ fetched ->
        RestaurantDb.data_name r <> EmptyString
        /\ RestaurantDb.data_address r <> EmptyString
        /\ RestaurantDb.data_cuisines r <> []
        /\ NoDup (RestaurantDb.data_cuisines r)
        /\ forall o, o ∈ RestaurantDb.data_dietaryOptions r ->
             o = "vegetarian"%string \/ o = "vegan"%string)
  /\ (forall key response data places,
        Js.truthyS (API_KEY env) = Some key ->
        fetch env ("restaurants in " ++ locationQuery)%string key = inr response ->
        ok response = true -> json response = inr data ->
        status data = "OK"%string -> results data = Some places ->
        map RestaurantDb.data_googlePlaceId fetched
        = map place_id (take maxResults places)
        /\ length fetched = Nat.min maxResults (length places)).
Proof.
  intros Hfetch.
  assert (exists places, fetched = map mapPlace (take maxResults places))
    as (places & Hmap).
  { revert Hfetch. unfold fetchRestaurantsFromGooglePlaces, try_catch, ebind.
    assert (fetched = [] -> exists places : list Place,
              fetched = map mapPlace (take maxResults places)) as Hempty
      by (intros ->; exists []; now rewrite take_nil).
    destruct (Js.truthyS (API_KEY env)) as [key|];
      [|intros [= <-]; now apply Hempty].
    destruct (fetch env _ key) as [e|response];
      [intros [= <-]; now apply Hempty|].
    destruct (ok response); simpl.
    2:{ destruct (text response); intros [= <-]; now apply Hempty. }
    destruct (json response) as [e|data]; [intros [= <-]; now apply Hempty|].
    destruct (negb _ && negb _)%bool; [intros [= <-]; now apply Hempty|].
    destruct (_ || _)%bool; [intros [= <-]; now apply Hempty|].
    intros [= <-]. now exists (default [] (results data)). }
  assert (forall key response data places',
            Js.truthyS (API_KEY env) = Some key ->
            fetch env ("restaurants in " ++ locationQuery)%string key
            = inr response ->
            ok response = true -> json response = inr data ->
            status data = "OK"%string -> results data = Some places' ->
            fetched = map mapPlace (take maxResults places')) as Hok.
  { intros key response data places' Hk Hf Ho Hj Hs Hr. revert Hfetch.
    unfold fetchRestaurantsFromGooglePlaces, try_catch, ebind.
    rewrite Hk, Hf, Ho. simpl. rewrite Hj, Hs, Hr. simpl.
    destruct places'; simpl; [rewrite take_nil|]; now intros [= <-]. }
  split; [|split].
  - rewrite Hmap, length_map, length_take. lia.
  - intros r Hr. rewrite Hmap in Hr.
    apply list_elem_of_fmap in Hr as (p & -> & _). unfold mapPlace. simpl.
    split.
    { destruct (Js.truthyS (place_name p)) eqn:E; simpl;
        [now apply (truthyS_nonempty _ _ E) | discriminate]. }
    split.
    { destruct (Js.orElse (formatted_address p) (vicinity p)) eqn:E; simpl;
        [now apply (orElse_nonempty _ _ _ E) | discriminate]. }
    split; [apply cuisines_nonempty_NoDup|].
    split; [apply cuisines_nonempty_NoDup|].
    apply dietary_options_of_place.
  - intros key response data places' Hk Hf Ho Hj Hs Hr.
    rewrite (Hok key response data places' Hk Hf Ho Hj Hs Hr).
    rewrite map_map, length_map, length_take. split; [reflexivity | lia].
Qed.

Lemma fetched_restaurants_are_well_formed_witness :
  (length [RestaurantDb.Build_RestaurantData "place-P" "Luigi Pizza" "2 High St"
             ["Thai Food"; "Bar"; "Pizza"]%string [] 4.3%Q] <= defaultMaxResults)%nat.
Proof.
  exact (proj1 (fetched_restaurants_are_well_formed Scenario.envOnePlace
                  "London" defaultMaxResults _ ProviderClient.fetch_one_place)).
Defined.

(** X6.  A restaurant as it is stored from a fetched place offers at
    most "vegetarian" and "vegan".  It is therefore rejected (score 0,
    random source untouched) for every user who states a dietary
    restriction that, in lower case, occurs in neither word, and, when the
    place has neither the type "vegetarian_restaurant" nor
    "vegan_restaurant", for every user who states any restriction. *)
Theorem fetched_place_meets_only_vegetarian_or_vegan
    (place : Place) (i : Z) (f : Q) (prefs : Restaurants.UserPreferences)
    (rs : RandomSource) :
  let r := RestaurantDb.rowOf (mapPlace place) i in
  (forall restriction,
      restriction ∈ Restaurants.dietaryRestrictions prefs ->
      Js.str_includes "vegetarian" (Js.toLowerCase restriction) = false ->
      Js.str_includes "vegan" (Js.toLowerCase restriction) = false ->
      Restaurants.matchScoreWith f r prefs rs = (0%Q, rs))
  /\ ((forall ts, types place = Some ts ->
         Js.includes ts "vegetarian_restaurant" = false
         /\ Js.includes ts "vegan_restaurant" = false) ->
      Restaurants.dietaryRestrictions prefs <> [] ->
      Restaurants.matchScoreWith f r prefs rs = (0%Q, rs)).
Proof.
  cbn zeta. split.
  - intros restriction Hin Hv Hg.
    apply RestaurantFacts.dietary_unmet_rejects.
    apply (RestaurantFacts.one_unmet_restriction _ _ restriction Hin).
    intros o Ho. simpl in Ho.
    apply dietary_options_of_place in Ho as [-> | ->]; assumption.
  - intros Hts Hne. apply RestaurantFacts.dietary_unmet_rejects.
    unfold Restaurants.meetsAllRestrictions. simpl.
    rewrite mapGoogleTypesToDietary_cases.
    destruct (types place) as [ts|].
    + destruct (Hts ts eq_refl) as [-> ->]. simpl.
      destruct (Restaurants.dietaryRestrictions prefs); [congruence | reflexivity].
    + destruct (Restaurants.dietaryRestrictions prefs); [congruence | reflexivity].
Qed.

End Places.

Lemma find_app_rows {A} (f : A -> bool) (l1 l2 : list A) :
  List.find f (l1 ++ l2)
  = match List.find f l1 with Some x => Some x | None => List.find f l2 end.
Proof.
  induction l1 as [|x l1 IH]; simpl; [reflexivity|].
  destruct (f x); [reflexivity | exact IH].
Qed.

Module TvRunFacts.
Import TvShows TvShowDb TvRecommender Notions TvNotions TvDbFacts OrchestratorFacts.

(** *** What one save does to the store *)

Lemma saveTvShow_other P det d r d' t :
  saveTvShow P det d = (r, d') -> t <> Tmdb.id det ->
  getTvShowByTmdbId t d' = getTvShowByTmdbId t d.
Proof.
  unfold saveTvShow, insertRow. intros Hs Hne.
  destruct (getTvShowByTmdbId (Tmdb.id det) d) as [e|] eqn:He.
  - injection Hs as _ <-. rewrite find_updateRows.
    destruct (getTvShowByTmdbId t d) as [x|] eqn:Hx; [|reflexivity]. simpl.
    destruct (find_some_key tmdb_id Z.eqb Z.eqb_eq _ _ _ Hx) as [Hk _].
    rewrite Hk. now rewrite (proj2 (Z.eqb_neq _ _) Hne).
  - rewrite (find_none_existsb tmdb_id Z.eqb _ _ He) in Hs.
    assert (d' = {| tv_shows := tv_shows d ++ [rowOf P det (nextRowId d)];
                    tv_shows_seq := nextRowId d;
                    user_tv_show_ratings := user_tv_show_ratings d |}) as ->
      by (destruct (Z.eqb (nextRowId d) 0); now injection Hs as _ <-).
    unfold getTvShowByTmdbId. simpl. rewrite find_app_rows.
    destruct (List.find _ (tv_shows d)); [reflexivity|]. simpl.
    now rewrite (proj2 (Z.eqb_neq _ _) (not_eq_sym Hne)).
Qed.

Lemma saveTvShow_row P det d s d' :
  saveTvShow P det d = (Some s, d') ->
  getTvShowByTmdbId (Tmdb.id det) d' = Some s /\ s = rowOf P det (id s).
Proof.
  unfold saveTvShow, insertRow.
  destruct (getTvShowByTmdbId (Tmdb.id det) d) as [e|] eqn:He.
  - intros [= Hs <-]. split; [exact Hs|].
    rewrite find_updateRows, He in Hs. simpl in Hs.
    destruct (find_some_key tmdb_id Z.eqb Z.eqb_eq _ _ _ He) as [Hk _].
    rewrite (proj2 (Z.eqb_eq _ _) Hk) in Hs. now injection Hs as <-.
  - rewrite (find_none_existsb tmdb_id Z.eqb _ _ He).
    destruct (Z.eqb (nextRowId d) 0); [discriminate|].
    unfold getTvShowByOurId. simpl.
    rewrite (find_app_fresh id Z.eqb Z.eqb_eq);
      [| apply (find_none_not_in id Z.eqb Z.eqb_eq), tv_nextRowId_not_in
       | reflexivity].
    intros [= <- <-]. split; [|reflexivity].
    now apply (find_app_fresh tmdb_id Z.eqb Z.eqb_eq).
Qed.

Lemma Grows_refl d : Grows d d.
Proof. unfold Grows. split; [reflexivity|]. tauto. Qed.

Lemma Grows_trans d1 d2 d3 : Grows d1 d2 -> Grows d2 d3 -> Grows d1 d3.
Proof.
  intros (A1 & B1 & C1 & D1) (A2 & B2 & C2 & D2).
  split; [etrans; eassumption|]. split; [congruence|]. tauto.
Qed.

Lemma saveTvShow_grows P det d r d' :
  saveTvShow P det d = (r, d') -> Grows d d'.
Proof.
  unfold saveTvShow, insertRow. intros Hs.
  destruct (getTvShowByTmdbId (Tmdb.id det) d) as [e|] eqn:He.
  - injection Hs as _ <-. unfold Grows.
    assert (map rowKey (tv_shows (updateRows P det d)) = map rowKey (tv_shows d)) as ->.
    { unfold updateRows. simpl. rewrite map_map. apply map_ext. intros x.
      destruct (Z.eqb (tmdb_id x) (Tmdb.id det)) eqn:E; [|reflexivity].
      apply Z.eqb_eq in E. unfold rowKey. simpl. now rewrite E. }
    rewrite tmdb_ids_updateRows. split; [reflexivity|]. simpl. tauto.
  - rewrite (find_none_existsb tmdb_id Z.eqb _ _ He) in Hs.
    assert (d' = {| tv_shows := tv_shows d ++ [rowOf P det (nextRowId d)];
                    tv_shows_seq := nextRowId d;
                    user_tv_show_ratings := user_tv_show_ratings d |}) as ->
      by (destruct (Z.eqb (nextRowId d) 0); now injection Hs as _ <-).
    unfold Grows. simpl. rewrite !map_app.
    split; [now apply prefix_app_r|]. split; [reflexivity|]. split.
    + intros Hu. apply NoDup_app. split; [exact Hu|].
      split; [|apply NoDup_singleton].
      intros t Ht Ht'. apply list_elem_of_singleton in Ht'. subst t.
      now apply (find_none_not_in tmdb_id Z.eqb Z.eqb_eq) in He.
    + intros H. destruct (tv_nextRowId_fresh d H). lia.
Qed.

(** *** One run of a loop *)

Section Runs.
Context (P : Tmdb.Provider) (excl0 : gset Z) (count : nat).

Lemma Run_refl st : Run P excl0 count st st.
Proof. split; [reflexivity|]. split; [apply Grows_refl | tauto]. Qed.

Lemma Run_trans st1 st2 st3 :
  (Inv P excl0 count st1 -> Inv P excl0 count st2) ->
  Run P excl0 count st1 st2 -> Run P excl0 count st2 st3 -> Run P excl0 count st1 st3.
Proof.
  intros HI (A1 & B1 & C1) (A2 & B2 & C2).
  split; [etrans; eassumption|]. split; [eapply Grows_trans; eassumption|].
  intros HC H1 S1. apply C2; [exact HC | now apply HI | now apply C1].
Qed.

Lemma Stored_push s st :
  Stored st -> getTvShowByTmdbId (tmdb_id s) (db st) = Some s ->
  Stored (pushAndExclude s st).
Proof.
  intros HS Hs r Hr. unfold pushAndExclude in *. simpl in *.
  apply elem_of_app in Hr as [Hr | Hr]; [now apply HS|].
  apply list_elem_of_singleton in Hr. now subst.
Qed.

Lemma offer_run showInDb d' st :
  recommendations st `prefix_of` recommendations (offer showInDb d' st)
  /\ db (offer showInDb d' st) = d'
  /\ (Stored (withDb d' st) ->
      (forall s, showInDb = Some s -> getTvShowByTmdbId (tmdb_id s) d' = Some s) ->
      Stored (offer showInDb d' st)).
Proof.
  unfold offer. destruct showInDb as [s|]; [|split; [reflexivity | tauto]].
  destruct (recommended (tmdb_id s) (recommendations (withDb d' st))); simpl.
  - split; [reflexivity | tauto].
  - split; [now apply prefix_app_r|]. split; [reflexivity|].
    intros HS Hs. apply Stored_push; [exact HS | now apply Hs].
Qed.

(** Saving details that were asked for under an id that is not excluded
    leaves the recommended shows as they are stored. *)
Lemma Stored_save req det r d' st :
  details_consistent P -> Inv P excl0 count st -> Stored st ->
  req ∉ excludeTvShowTmdbIds st ->
  Tmdb.getTvShowDetails P req = Some det ->
  saveTvShow P det (db st) = (r, d') ->
  Stored (withDb d' st).
Proof.
  intros HC (I1 & _) HS Hex Hdet Hsave x Hx. simpl.
  rewrite (saveTvShow_other _ _ _ _ _ (tmdb_id x) Hsave); [now apply HS|].
  rewrite (HC _ _ Hdet). intros E. apply Hex. rewrite I1, <- E.
  apply elem_of_union_l, elem_of_list_to_set.
  unfold ids. apply list_elem_of_fmap. now exists x.
Qed.

Lemma popularStep_run pop st : Run P excl0 count st (popularStep P count pop st).
Proof.
  unfold popularStep.
  destruct (full count st || _)%bool eqn:Hc; [apply Run_refl|].
  apply orb_false_iff in Hc as [Hfull Hex]. apply bool_decide_eq_false in Hex.
  destruct (getTvShowByTmdbId (Tmdb.id pop) (db st)) as [s|] eqn:Hdb.
  - destruct (offer_run (Some s) (db st) st) as (H1 & H2 & H3).
    split; [exact H1|]. split; [rewrite H2; apply Grows_refl|].
    intros _ _ HS. apply H3; [exact HS|]. intros s' [= <-].
    destruct (find_some_key tmdb_id Z.eqb Z.eqb_eq _ _ _ Hdb) as [Hk _].
    now rewrite Hk.
  - destruct (Tmdb.getTvShowDetails P (Tmdb.id pop)) as [det|] eqn:Hdet.
    + destruct (saveTvShow P det (db st)) as [r d'] eqn:Hsave. simpl.
      destruct (offer_run r d' st) as (H1 & H2 & H3).
      split; [exact H1|]. split; [rewrite H2; now apply (saveTvShow_grows P det _ r)|].
      intros HC HI HS. apply H3.
      * now apply (Stored_save (Tmdb.id pop) det r).
      * intros s ->. destruct (saveTvShow_row _ _ _ _ _ Hsave) as [Hrow _].
        now rewrite (saveTvShow_tmdb_id _ _ _ _ _ Hsave).
    + destruct (offer_run None (db st) st) as (H1 & H2 & H3).
      split; [exact H1|]. split; [rewrite H2; apply Grows_refl|].
      intros _ _ HS. apply H3; [exact HS | discriminate].
Qed.

Lemma collabStep_run c st : Run P excl0 count st (collabStep P count c st).
Proof.
  unfold collabStep.
  destruct (full count st || _)%bool eqn:Hc; [apply Run_refl|].
  apply orb_false_iff in Hc as [Hfull Hex]. apply bool_decide_eq_false in Hex.
  destruct (Tmdb.getTvShowDetails P (Tmdb.id c)) as [det|] eqn:Hdet;
    [|apply Run_refl].
  destruct (saveTvShow P det (db st)) as [r d'] eqn:Hsave. simpl.
  destruct (offer_run r d' st) as (H1 & H2 & H3).
  split; [exact H1|]. split; [rewrite H2; now apply (saveTvShow_grows P det _ r)|].
  intros HC HI HS. apply H3.
  - now apply (Stored_save (Tmdb.id c) det r).
  - intros s ->. destruct (saveTvShow_row _ _ _ _ _ Hsave) as [Hrow _].
    now rewrite (saveTvShow_tmdb_id _ _ _ _ _ Hsave).
Qed.

Lemma takePopular_run popular : forall st, Run P excl0 count st (takePopular P count popular st).
Proof.
  induction popular as [|pop rest IH]; intros st; [apply Run_refl|].
  rewrite takePopular_cons.
  apply (Run_trans _ (popularStep P count pop st));
    [intros HI; now apply popularStep_spec | apply popularStep_run | apply IH].
Qed.

Lemma takeCollaborative_run results :
  forall st, Run P excl0 count st (takeCollaborative P count results st).
Proof.
  induction results as [|c rest IH]; intros st; [apply Run_refl|].
  rewrite takeCollaborative_cons.
  apply (Run_trans _ (collabStep P count c st));
    [intros HI; now apply collabStep_spec | apply collabStep_run | apply IH].
Qed.

Lemma collaborativeLoop_run ratedShows :
  forall st, Run P excl0 count st (collaborativeLoop P count ratedShows st).
Proof.
  induction ratedShows as [|r rest IH]; intros st; [apply Run_refl|]. simpl.
  destruct (full count st); [apply Run_refl|].
  destruct (Tmdb.getTvShowRecommendations P (tv_show_tmdb_id r)) as [results|];
    [|apply IH].
  apply (Run_trans _ (takeCollaborative P count results st));
    [intros HI; now apply takeCollaborative_spec
    | apply takeCollaborative_run | apply IH].
Qed.

Lemma phase2_run userRatings st : Run P excl0 count st (phase2 P count userRatings st).
Proof.
  unfold phase2. destruct (_ && _)%bool; [apply collaborativeLoop_run | apply Run_refl].
Qed.

Lemma phase3_run st : Run P excl0 count st (phase3 P count st).
Proof.
  unfold phase3. destruct (negb _); [|apply Run_refl].
  destruct (Tmdb.getPopularTvShows P); [apply takePopular_run | apply Run_refl].
Qed.

(** *** Phase 1 *)

Lemma collectCandidates_run excl popular : forall cands d,
  Grows d (snd (collectCandidates P excl popular cands d))
  /\ (details_consistent P ->
      (forall c, c ∈ cands -> CandidateOk P d c) ->
      forall c, c ∈ fst (collectCandidates P excl popular cands d) ->
        CandidateOk P (snd (collectCandidates P excl popular cands d)) c)
  /\ (details_consistent P ->
      forall recs : list TvShow,
        (forall x, x ∈ recs -> tmdb_id x ∈ excl) ->
        (forall x, x ∈ recs -> getTvShowByTmdbId (tmdb_id x) d = Some x) ->
        forall x, x ∈ recs ->
          getTvShowByTmdbId (tmdb_id x)
            (snd (collectCandidates P excl popular cands d)) = Some x).
Proof.
  induction popular as [|pop rest IH]; intros cands d; simpl.
  - split; [apply Grows_refl|]. split; auto.
  - destruct (bool_decide (Tmdb.id pop ∈ excl)) eqn:Hex; [apply IH|].
    apply bool_decide_eq_false in Hex.
    destruct (Tmdb.getTvShowDetails P (Tmdb.id pop)) as [det|] eqn:Hdet; [|apply IH].
    destruct (saveTvShow P det d) as [r d'] eqn:Hsave.
    pose proof (saveTvShow_grows _ _ _ _ _ Hsave) as Hg.
    assert (details_consistent P ->
            forall c, CandidateOk P d c -> CandidateOk P d' c) as Hkeep.
    { intros HC c (Hfind & det' & Hdet' & Hrow).
      split; [|now exists det'].
      destruct (Z.eq_dec (tmdb_id c) (Tmdb.id det)) as [E | E].
      - rewrite (HC _ _ Hdet) in E. rewrite E, Hdet in Hdet'. injection Hdet' as <-.
        rewrite E, <- (HC _ _ Hdet) in Hfind.
        rewrite (saveTvShow_existing P det d c Hfind) in Hsave.
        injection Hsave as _ <-. rewrite find_updateRows.
        rewrite E, <- (HC _ _ Hdet), Hfind. simpl.
        rewrite (HC _ _ Hdet), <- E, Z.eqb_refl. now rewrite <- Hrow.
      - now rewrite (saveTvShow_other _ _ _ _ _ _ Hsave E). }
    assert (details_consistent P ->
            forall recs : list TvShow,
              (forall x, x ∈ recs -> tmdb_id x ∈ excl) ->
              (forall x, x ∈ recs -> getTvShowByTmdbId (tmdb_id x) d = Some x) ->
              forall x, x ∈ recs -> getTvShowByTmdbId (tmdb_id x) d' = Some x)
      as Hrecs.
    { intros HC recs Hin Hst x Hx.
      rewrite (saveTvShow_other _ _ _ _ _ (tmdb_id x) Hsave); [now apply Hst|].
      rewrite (HC _ _ Hdet). intros E. apply Hex. rewrite <- E. now apply Hin. }
    destruct r as [s|].
    + destruct (IH (cands ++ [s]) d') as (I1 & I2 & I3).
      split; [exact (Grows_trans _ _ _ Hg I1)|]. split.
      * intros HC Hc. apply (I2 HC). intros c Hin.
        apply elem_of_app in Hin as [Hin | Hin]; [apply (Hkeep HC); now apply Hc|].
        apply list_elem_of_singleton in Hin. subst c.
        destruct (saveTvShow_row _ _ _ _ _ Hsave) as [Hrow Hs].
        pose proof (saveTvShow_tmdb_id _ _ _ _ _ Hsave) as Hk.
        split; [now rewrite Hk|]. exists det. split; [|exact Hs].
        now rewrite Hk, (HC _ _ Hdet).
      * intros HC recs Hin Hst. apply (I3 HC recs Hin). now apply (Hrecs HC).
    + destruct (IH cands d') as (I1 & I2 & I3).
      split; [exact (Grows_trans _ _ _ Hg I1)|]. split.
      * intros HC Hc. apply (I2 HC). intros c Hin. apply (Hkeep HC). now apply Hc.
      * intros HC recs Hin Hst. apply (I3 HC recs Hin). now apply (Hrecs HC).
Qed.

Lemma takeContentRecs_run contentRecs : forall st,
  db (takeContentRecs count contentRecs st) = db st
  /\ (exists picks,
        recommendations (takeContentRecs count contentRecs st)
        = recommendations st ++ picks
        /\ sublist picks contentRecs)
  /\ (Stored st ->
      (forall c, c ∈ contentRecs ->
         getTvShowByTmdbId (tmdb_id c) (db st) = Some c) ->
      Stored (takeContentRecs count contentRecs st)).
Proof.
  induction contentRecs as [|rec rest IH]; intros st; simpl.
  - split; [reflexivity|]. split; [|tauto].
    exists []. split; [now rewrite app_nil_r | constructor].
  - destruct (full count st).
    { split; [reflexivity|]. split; [|tauto].
      exists []. split; [now rewrite app_nil_r | apply sublist_nil_l]. }
    destruct (recommended (tmdb_id rec) (recommendations st)); simpl.
    + destruct (IH st) as (H1 & (picks & H2 & H3) & H4).
      split; [exact H1|]. split.
      * exists picks. split; [exact H2 | now apply sublist_cons].
      * intros HS Hc. apply H4; [exact HS|]. intros c Hin. apply Hc. now right.
    + destruct (IH (pushAndExclude rec st)) as (H1 & (picks & H2 & H3) & H4).
      split; [exact H1|]. split.
      * exists (rec :: picks). split; [|now apply sublist_skip].
        rewrite H2. simpl. now rewrite <- (assoc_L (++)).
      * intros HS Hc. apply H4.
        -- apply Stored_push; [exact HS | apply Hc; now left].
        -- intros c Hin. simpl. apply Hc. now right.
Qed.

Lemma phase1_run prefs st :
  Run P excl0 count st (phase1 P prefs count st)
  /\ exists picks candidates,
       recommendations (phase1 P prefs count st) = recommendations st ++ picks
       /\ sublist picks
            (getContentBasedTvShowRecommendations prefs candidates count).
Proof.
  unfold phase1.
  set (r := match Tmdb.getPopularTvShows P with
            | Some results =>
                collectCandidates P (excludeTvShowTmdbIds st)
                  (Js.slice0 30 results) [] (db st)
            | None => ([], db st)
            end).
  assert (Grows (db st) (snd r)
          /\ (details_consistent P ->
              forall c, c ∈ fst r -> CandidateOk P (snd r) c)
          /\ (details_consistent P -> Inv P excl0 count st -> Stored st ->
              Stored (withDb (snd r) st))) as (Hg & Hc & Hs).
  { subst r. destruct (Tmdb.getPopularTvShows P) as [results|].
    - destruct (collectCandidates_run (excludeTvShowTmdbIds st)
                  (Js.slice0 30 results) [] (db st)) as (H1 & H2 & H3).
      split; [exact H1|]. split.
      + intros HC. apply (H2 HC). intros c Hin. inversion Hin.
      + intros HC (I1 & _) HS x Hx. simpl.
        apply (H3 HC (recommendations st)); [|exact HS | exact Hx].
        intros y Hy. rewrite I1. apply elem_of_union_l, elem_of_list_to_set.
        unfold ids. apply list_elem_of_fmap. now exists y.
    - simpl. split; [apply Grows_refl|]. split; [intros _ c Hin; inversion Hin|].
      intros _ _ HS. exact HS. }
  destruct r as [cands d]. simpl in Hg, Hc, Hs.
  destruct (Nat.ltb 0 (length cands)).
  - destruct (takeContentRecs_run
                (getContentBasedTvShowRecommendations prefs cands count)
                (withDb d st)) as (H1 & (picks & H2 & H3) & H4).
    split.
    + split; [rewrite H2; now apply prefix_app_r|].
      split; [now rewrite H1|].
      intros HC HI HS. apply H4; [now apply Hs|].
      intros c Hin. apply contentRecs_subset in Hin.
      now destruct (Hc HC c Hin).
    + exists picks, cands. split; [exact H2 | exact H3].
  - split.
    + split; [reflexivity|]. split; [exact Hg | exact Hs].
    + exists [], cands. split; [now rewrite app_nil_r | apply sublist_nil_l].
Qed.

End Runs.

End TvRunFacts.

Module TvRun.
Import TvShows TvShowDb TvRecommender Notions TvNotions TvDbFacts
  OrchestratorFacts TvRunFacts ContentBased.

Lemma Stored_initial excl0 d : Stored (initial excl0 d).
Proof. intros r Hr. inversion Hr. Qed.

(** The three phases, one after the other. *)
Lemma phases_run P user prefs excl0 count d :
  Run P excl0 count (initial excl0 d) (afterPhase1 P prefs excl0 count d)
  /\ Run P excl0 count (afterPhase1 P prefs excl0 count d)
       (afterPhase2 P user prefs excl0 count d)
  /\ Run P excl0 count (afterPhase2 P user prefs excl0 count d)
       (runPhases P user prefs excl0 count d).
Proof.
  split; [apply phase1_run|]. split; [apply phase2_run | apply phase3_run].
Qed.

Lemma whole_run P user prefs excl0 count d :
  Run P excl0 count (initial excl0 d) (runPhases P user prefs excl0 count d).
Proof.
  destruct (phases_run P user prefs excl0 count d) as (R1 & R2 & R3).
  destruct (Inv_phases P user prefs excl0 count d) as (I1 & I2 & I3).
  apply (Run_trans _ _ _ _ (afterPhase2 P user prefs excl0 count d));
    [tauto | | exact R3].
  apply (Run_trans _ _ _ _ (afterPhase1 P prefs excl0 count d)); tauto.
Qed.

(** X7.  The result lists the picks of the content phase first, then
    those of the similarity phase, then those of the fallback phase.  The
    picks of the content phase all have a positive content score for the
    user's preferences and are in descending order of that score. *)
Theorem content_picks_lead_the_result
    (P : Tmdb.Provider) (user : User) (prefs : UserTvShowPreferences)
    (excl0 : gset Z) (count : nat) (d : Db)
    (result : list TvShow) (excl' : gset Z) (d' : Db) :
  getTvShowRecommendationsForUser P user prefs excl0 count d
  = (result, excl', d') ->
  let picks1 := recommendations (afterPhase1 P prefs excl0 count d) in
  let picks2 := recommendations (afterPhase2 P user prefs excl0 count d) in
  picks1 `prefix_of` picks2 /\ picks2 `prefix_of` result
  /\ (forall show, show ∈ picks1 -> (0 < scoreShow prefs show)%Q)
  /\ StronglySorted
       (fun a b => (scoreShow prefs b <= scoreShow prefs a)%Q) picks1.
Proof.
  rewrite result_is_recommendations. intros [= <- <- <-]. cbn zeta.
  destruct (phases_run P user prefs excl0 count d) as (_ & (R2 & _) & (R3 & _)).
  split; [exact R2|]. split; [exact R3|].
  destruct (phase1_run P excl0 count prefs (initial excl0 d))
    as (_ & picks & cands & Hp & Hsub).
  unfold afterPhase1. rewrite Hp. simpl. split.
  - intros show Hin. apply (contentRecs_positive prefs cands count).
    eapply elem_of_submseteq; [exact Hin | now apply sublist_submseteq].
  - apply (StronglySorted_sublist _ _ _ Hsub), contentRecs_sorted.
Qed.

Lemma content_picks_lead_the_result_witness :
  recommendations (afterPhase1 Scenario.provider Scenario.noTvPrefs {[ 1 ]} 5
                     Scenario.emptyTvDb)
  `prefix_of`
  recommendations (afterPhase2 Scenario.provider Scenario.viewer
                     Scenario.noTvPrefs {[ 1 ]} 5 Scenario.emptyTvDb).
Proof.
  destruct (getTvShowRecommendationsForUser Scenario.provider Scenario.viewer
              Scenario.noTvPrefs {[ 1 ]} 5 Scenario.emptyTvDb)
    as [[result excl'] d'] eqn:E.
  exact (proj1 (content_picks_lead_the_result _ _ _ _ _ _ _ _ _ E)).
Defined.

(** X8.  With a provider whose details endpoint answers with the
    show asked for, every returned show is persisted: the store the call
    leaves behind holds, under the show's external id, exactly the record
    that was returned. *)
Theorem returned_shows_are_stored
    (P : Tmdb.Provider) (user : User) (prefs : UserTvShowPreferences)
    (excl0 : gset Z) (count : nat) (d : Db)
    (result : list TvShow) (excl' : gset Z) (d' : Db) :
  details_consistent P ->
  getTvShowRecommendationsForUser P user prefs excl0 count d
  = (result, excl', d') ->
  forall show, show ∈ result ->
    getTvShowByTmdbId (tmdb_id show) d' = Some show.
Proof.
  intros HC. rewrite result_is_recommendations. intros [= <- <- <-].
  destruct (whole_run P user prefs excl0 count d) as (_ & _ & HS).
  apply (HS HC (Inv_initial P excl0 count d) (Stored_initial excl0 d)).
Qed.

(** X9.  A call only adds rows to the table of shows or refreshes
    their attributes: the rows present before are still there, in place,
    under the same local and external ids; the ratings are untouched; the
    UNIQUE constraint on the external id and a non-negative sequence
    counter are kept. *)
Theorem store_only_grows
    (P : Tmdb.Provider) (user : User) (prefs : UserTvShowPreferences)
    (excl0 : gset Z) (count : nat) (d : Db)
    (result : list TvShow) (excl' : gset Z) (d' : Db) :
  getTvShowRecommendationsForUser P user prefs excl0 count d
  = (result, excl', d') ->
  map rowKey (tv_shows d) `prefix_of` map rowKey (tv_shows d')
  /\ user_tv_show_ratings d' = user_tv_show_ratings d
  /\ (unique_tmdb_ids d -> unique_tmdb_ids d')
  /\ (0 <= tv_shows_seq d -> 0 <= tv_shows_seq d').
Proof.
  rewrite result_is_recommendations. intros [= <- <- <-].
  now destruct (whole_run P user prefs excl0 count d) as (_ & HG & _).
Qed.

Lemma returned_shows_are_stored_witness :
  Forall (fun show =>
            getTvShowByTmdbId (tmdb_id show)
              (snd (getTvShowRecommendationsForUser Scenario.provider
                      Scenario.viewer Scenario.noTvPrefs {[ 1 ]} 5
                      Scenario.emptyTvDb))
            = Some show)
    (fst (fst (getTvShowRecommendationsForUser Scenario.provider
                 Scenario.viewer Scenario.noTvPrefs {[ 1 ]} 5
                 Scenario.emptyTvDb))).
Proof.
  destruct (getTvShowRecommendationsForUser Scenario.provider Scenario.viewer
              Scenario.noTvPrefs {[ 1 ]} 5 Scenario.emptyTvDb)
    as [[result excl'] d'] eqn:E.
  apply Forall_forall.
  exact (returned_shows_are_stored _ _ _ _ _ _ _ _ _
           Orchestration.provider_consistent E).
Defined.

Lemma store_only_grows_witness :
  user_tv_show_ratings
    (snd (getTvShowRecommendationsForUser Scenario.provider
            Scenario.viewer Scenario.noTvPrefs {[ 1 ]} 5 Scenario.emptyTvDb))
  = user_tv_show_ratings Scenario.emptyTvDb.
Proof.
  destruct (getTvShowRecommendationsForUser Scenario.provider Scenario.viewer
              Scenario.noTvPrefs {[ 1 ]} 5 Scenario.emptyTvDb)
    as [[result excl'] d'] eqn:E.
  exact (proj1 (proj2 (store_only_grows _ _ _ _ _ _ _ _ _ E))).
Defined.

Lemma collaborativeLoop_down P count ratedShows st :
  (forall i, Tmdb.getTvShowRecommendations P i = None) ->
  collaborativeLoop P count ratedShows st = st.
Proof.
  intros Hdown. revert st. induction ratedShows as [|r rest IH]; intros st; simpl;
    [reflexivity|].
  destruct (full count st); [reflexivity|]. rewrite Hdown. apply IH.
Qed.

(** X10.  When the provider returns no popular shows and either the
    user has fewer than two ratings or the provider returns no similar
    shows, the call returns no recommendation and leaves the exclusion set
    and the store as they were. *)
Theorem nothing_without_provider
    (P : Tmdb.Provider) (user : User) (prefs : UserTvShowPreferences)
    (excl0 : gset Z) (count : nat) (d : Db) :
  Tmdb.getPopularTvShows P = None ->
  (length (getUserTvShowRatings (user_id user) d)
   < MIN_RATINGS_FOR_COLLABORATIVE_TV)%nat
  \/ (forall i, Tmdb.getTvShowRecommendations P i = None) ->
  getTvShowRecommendationsForUser P user prefs excl0 count d = ([], excl0, d).
Proof.
  intros Hpop Hsim.
  assert (forall st, phase2 P count (getUserTvShowRatings (user_id user) d) st = st)
    as H2.
  { intros st. unfold phase2. destruct Hsim as [Hfew | Hdown].
    - apply Nat.leb_gt in Hfew. rewrite Hfew. now rewrite andb_false_r.
    - destruct (_ && _)%bool; [now apply collaborativeLoop_down | reflexivity]. }
  assert (forall st, phase3 P count st = st) as H3.
  { intros st. unfold phase3. rewrite Hpop. now destruct (negb _). }
  unfold getTvShowRecommendationsForUser, runPhases. rewrite H3, H2.
  unfold phase1. rewrite Hpop. simpl. now rewrite take_nil.
Qed.

Lemma nothing_without_provider_witness :
  getTvShowRecommendationsForUser
    {| Tmdb.getPopularTvShows := None;
       Tmdb.getTvShowDetails := fun _ => None;
       Tmdb.getTvShowRecommendations := fun _ => None;
       Tmdb.getTvShowGenreList := [] |}
    Scenario.viewer Scenario.noTvPrefs {[ 1 ]} 5 Scenario.emptyTvDb
  = ([], {[ 1 ]}, Scenario.emptyTvDb).
Proof.
  apply nothing_without_provider; [reflexivity | now right].
Defined.

End TvRun.

Module RestaurantFetchFacts.
Import Restaurants RestaurantDb Notions RestaurantNotions RestaurantDbFacts RestaurantFetch.

Lemma fetch_total env q n :
  exists fetched,
    GooglePlaces.fetchRestaurantsFromGooglePlaces env q n = inr fetched.
Proof.
  unfold GooglePlaces.fetchRestaurantsFromGooglePlaces, try_catch, ebind.
  destruct (Js.truthyS _) as [key|]; [|eauto].
  destruct (GooglePlaces.fetch env _ key) as [e|response]; [eauto|].
  destruct (GooglePlaces.ok response); simpl.
  - destruct (GooglePlaces.json response) as [e|data]; [eauto|].
    repeat match goal with
    | |- context [if ?c then _ else _] => destruct c
    end; eauto.
  - destruct (GooglePlaces.text response); eauto.
Qed.

Lemma isRestaurantPreviouslySaved_false g s db :
  unique_place_ids db -> getByGooglePlaceId g db = Some s ->
  isRestaurantPreviouslySaved g (id s) db = false.
Proof.
  intros Hu Hs. unfold isRestaurantPreviouslySaved.
  rewrite <- (RecommendFacts.filter_filter_andb
                (fun r => String.eqb (googlePlaceId r) g)).
  rewrite (unique_row googlePlaceId String.eqb String.eqb_eq _ _ _ Hu Hs).
  simpl. destruct (id s) as [i|]; [rewrite Z.eqb_refl|]; reflexivity.
Qed.

Lemma find_prefix {A} (f : A -> bool) (l k : list A) e :
  l `prefix_of` k -> List.find f l = Some e -> List.find f k = Some e.
Proof. intros [m ->] H. now rewrite find_app_rows, H. Qed.

(** One save of the loop: the restaurant is counted as saved, never as
    skipped. *)
Lemma saveOne_spec resto counts db :
  Sound db ->
  exists saved row db1,
    saveRestaurantToDb resto db = (Some saved, db1)
    /\ saveOne resto (counts, db)
       = ({| savedCount := S (savedCount counts);
             skippedCount := skippedCount counts |}, db1)
    /\ Sound db1
    /\ restaurants db `prefix_of` restaurants db1
    /\ getByGooglePlaceId (data_googlePlaceId resto) db1 = Some row
    /\ (is_Some (getByGooglePlaceId (data_googlePlaceId resto) db) -> db1 = db)
    /\ (forall x, x ∈ restaurants db1 ->
          x ∈ restaurants db \/ exists i, x = rowOf resto i).
Proof.
  intros [Hseq Hu].
  destruct (saveRestaurantToDb_spec resto db Hseq)
    as (saved & row & db1 & Hsave & Hsid & Hfind & Hseq1 & Hu1 & Hex & Hnew).
  specialize (Hu1 Hu). exists saved, row, db1. split; [exact Hsave|].
  split.
  { unfold saveOne. rewrite Hsave, Hsid.
    now rewrite (isRestaurantPreviouslySaved_false _ _ _ Hu1 Hfind). }
  split; [split; assumption|].
  destruct (getByGooglePlaceId (data_googlePlaceId resto) db) as [e|] eqn:He.
  - destruct (Hex e eq_refl) as (_ & -> & ->).
    split; [reflexivity|]. split; [exact Hfind|]. split; [reflexivity|].
    intros x Hx. now left.
  - rewrite (saveRestaurantToDb_new resto db He Hseq) in Hsave.
    injection Hsave as _ <-. simpl.
    split; [now apply prefix_app_r|]. split; [exact Hfind|].
    split; [intros [? H]; discriminate H|].
    intros x Hx. apply elem_of_app in Hx as [Hx | Hx]; [now left|].
    apply list_elem_of_singleton in Hx. right. now exists (nextRowId db).
Qed.

Lemma saveAll_from fetched : forall counts db,
  Sound db ->
  exists db',
    fold_left (fun acc resto => saveOne resto acc) fetched (counts, db)
    = ({| savedCount := savedCount counts + length fetched;
          skippedCount := skippedCount counts |}, db')
    /\ Sound db'
    /\ restaurants db `prefix_of` restaurants db'
    /\ (forall r, r ∈ fetched ->
          is_Some (getByGooglePlaceId (data_googlePlaceId r) db'))
    /\ ((forall r, r ∈ fetched ->
           is_Some (getByGooglePlaceId (data_googlePlaceId r) db)) -> db' = db)
    /\ (forall x, x ∈ restaurants db' ->
          x ∈ restaurants db \/ exists r i, r ∈ fetched /\ x = rowOf r i).
Proof.
  induction fetched as [|resto rest IH]; intros counts db Hs; cbn [fold_left length].
  - exists db. rewrite Nat.add_0_r. destruct counts.
    split; [reflexivity|]. split; [exact Hs|]. split; [reflexivity|].
    split; [intros r Hr; inversion Hr|]. split; [reflexivity|]. intros x Hx. now left.
  - destruct (saveOne_spec resto counts db Hs)
      as (saved & row & db1 & _ & Hone & Hs1 & Hp1 & Hf1 & Hsame1 & Hrows1).
    rewrite Hone.
    destruct (IH {| savedCount := S (savedCount counts);
                    skippedCount := skippedCount counts |} db1 Hs1)
      as (db' & Hall & Hs' & Hp' & Hf' & Hsame' & Hrows').
    exists db'. cbn [savedCount skippedCount] in Hall. rewrite Hall.
    split; [f_equal; f_equal; lia|]. split; [exact Hs'|].
    split; [etrans; eassumption|]. split; [|split].
    + intros r Hr. apply elem_of_cons in Hr as [-> | Hr]; [|now apply Hf'].
      exists row. apply (find_prefix _ _ _ _ Hp' Hf1).
    + intros Hall'. assert (db1 = db) as -> by (apply Hsame1, Hall'; now left).
      apply Hsame'. intros r Hr. apply Hall'. now right.
    + intros x Hx. destruct (Hrows' x Hx) as [Hx1 | (r & i & Hr & ->)].
      * destruct (Hrows1 x Hx1) as [Hx0 | (i & ->)]; [now left|].
        right. exists resto, i. split; [now left | reflexivity].
      * right. exists r, i. split; [now right | reflexivity].
Qed.

End RestaurantFetchFacts.

Module RestaurantLoading.
Import Restaurants RestaurantDb Notions RestaurantNotions RestaurantDbFacts
  RestaurantFetch RestaurantFetchFacts.

(** X11.  On a sound store [fetchAndSaveRestaurantsToDb] never throws.
    For a blank location or an empty fetch it leaves the store as it is and
    reports no count.  Otherwise it reports every fetched restaurant as
    saved and none as skipped, whether or not the place was stored already;
    the rows stored before stay in place and unchanged, every fetched place
    is stored afterwards, every new row is a fetched restaurant, and the
    store stays sound. *)
Theorem load_reports_every_fetched_restaurant_as_saved
    (env : GooglePlaces.Env) (locationQuery : string) (db : Db) :
  Sound db ->
  exists fetched result db',
    GooglePlaces.fetchRestaurantsFromGooglePlaces env locationQuery
      GooglePlaces.defaultMaxResults = inr fetched
    /\ fetchAndSaveRestaurantsToDb env locationQuery db = inr (result, db')
    /\ (JsStrings.trim locationQuery = EmptyString \/ fetched = [] ->
        result = None /\ db' = db)
    /\ (JsStrings.trim locationQuery <> EmptyString -> fetched <> [] ->
        result = Some {| savedCount := length fetched; skippedCount := 0 |}
        /\ forall r, r ∈ fetched ->
             is_Some (getByGooglePlaceId (data_googlePlaceId r) db'))
    /\ Sound db'
    /\ restaurants db `prefix_of` restaurants db'
    /\ (forall x, x ∈ restaurants db' ->
          x ∈ restaurants db \/ exists r i, r ∈ fetched /\ x = rowOf r i).
Proof.
  intros Hs.
  destruct (fetch_total env locationQuery GooglePlaces.defaultMaxResults)
    as [fetched Hf].
  exists fetched. unfold fetchAndSaveRestaurantsToDb, ebind. rewrite Hf.
  destruct (String.eqb (JsStrings.trim locationQuery) EmptyString) eqn:Eb.
  { apply String.eqb_eq in Eb. exists None, db. split; [reflexivity|].
    split; [reflexivity|]. split; [tauto|]. split; [congruence|].
    split; [exact Hs|]. split; [reflexivity|]. intros x Hx. now left. }
  apply String.eqb_neq in Eb.
  destruct fetched as [|r0 rest] eqn:Ef.
  { exists None, db. split; [reflexivity|]. split; [reflexivity|].
    split; [tauto|]. split; [congruence|].
    split; [exact Hs|]. split; [reflexivity|]. intros x Hx. now left. }
  rewrite <- Ef. replace (Nat.eqb (length fetched) 0) with false
    by (subst fetched; reflexivity).
  unfold saveAll.
  destruct (saveAll_from fetched {| savedCount := 0; skippedCount := 0 |} db Hs)
    as (db' & Hall & Hs' & Hp & Hpres & _ & Hrows).
  rewrite Hall. simpl.
  exists (Some {| savedCount := length fetched; skippedCount := 0 |}), db'.
  split; [reflexivity|]. split; [reflexivity|].
  split; [intros [H | H]; [contradiction | subst; discriminate]|].
  split; [intros _ _; split; [reflexivity | exact Hpres]|].
  split; [exact Hs'|]. split; [exact Hp | exact Hrows].
Qed.

(** X12.  Loading the same location again, with the provider giving
    the same answer, leaves the store exactly as the first load left it and
    reports the same counts. *)
Theorem second_load_changes_nothing
    (env : GooglePlaces.Env) (locationQuery : string) (db : Db)
    (result : option Counts) (db' : Db) :
  Sound db ->
  fetchAndSaveRestaurantsToDb env locationQuery db = inr (result, db') ->
  fetchAndSaveRestaurantsToDb env locationQuery db' = inr (result, db').
Proof.
  intros Hs. unfold fetchAndSaveRestaurantsToDb, ebind.
  destruct (String.eqb (JsStrings.trim locationQuery) EmptyString);
    [now intros [= <- <-]|].
  destruct (GooglePlaces.fetchRestaurantsFromGooglePlaces env locationQuery
              GooglePlaces.defaultMaxResults) as [e|fetched]; [discriminate|].
  destruct (Nat.eqb (length fetched) 0); [now intros [= <- <-]|].
  unfold saveAll.
  destruct (saveAll_from fetched {| savedCount := 0; skippedCount := 0 |} db Hs)
    as (db1 & Hall & Hs1 & _ & Hpres & _).
  rewrite Hall. intros [= <- <-].
  destruct (saveAll_from fetched {| savedCount := 0; skippedCount := 0 |} db1 Hs1)
    as (db2 & Hall2 & _ & _ & _ & Hsame & _).
  rewrite Hall2. now rewrite (Hsame Hpres).
Qed.

Lemma sound_empty : Sound Scenario.emptyRestaurantDb.
Proof. split; [simpl; lia | apply NoDup_nil_2]. Qed.

Lemma load_reports_every_fetched_restaurant_as_saved_witness :
  exists fetched result db',
    GooglePlaces.fetchRestaurantsFromGooglePlaces Scenario.envOnePlace "London"
      GooglePlaces.defaultMaxResults = inr fetched
    /\ fetchAndSaveRestaurantsToDb Scenario.envOnePlace "London"
         Scenario.emptyRestaurantDb = inr (result, db')
    /\ Sound db'.
Proof.
  destruct (load_reports_every_fetched_restaurant_as_saved Scenario.envOnePlace
              "London" Scenario.emptyRestaurantDb sound_empty)
    as (fetched & result & db' & H1 & H2 & _ & _ & H5 & _).
  exists fetched, result, db'. split; [exact H1|]. split; [exact H2 | exact H5].
Defined.

Lemma second_load_changes_nothing_witness :
  let first := fetchAndSaveRestaurantsToDb Scenario.envOnePlace "London"
                 Scenario.emptyRestaurantDb in
  match first with
  | inr (result, db') =>
      fetchAndSaveRestaurantsToDb Scenario.envOnePlace "London" db'
      = inr (result, db')
  | inl _ => False
  end.
Proof.
  cbn zeta.
  destruct (fetchAndSaveRestaurantsToDb Scenario.envOnePlace "London"
              Scenario.emptyRestaurantDb) as [e|[result db']] eqn:E;
    [discriminate E|].
  exact (second_load_changes_nothing _ _ _ _ _ sound_empty E).
Defined.

End RestaurantLoading.

Module DatabaseFacts.
Import Restaurants RestaurantDb Notions RestaurantNotions RestaurantDbFacts
  RestaurantFetchFacts.

Lemma insertRow_new data db :
  getByGooglePlaceId (data_googlePlaceId data) db = None ->
  insertRow data db
  = inr (nextRowId db,
         {| restaurants := restaurants db ++ [rowOf data (nextRowId db)];
            restaurants_seq := nextRowId db |}).
Proof.
  intros Hnone. unfold insertRow.
  now rewrite (find_none_existsb googlePlaceId String.eqb _ _ Hnone).
Qed.

Lemma Sound_insert data db :
  Sound db -> getByGooglePlaceId (data_googlePlaceId data) db = None ->
  Sound {| restaurants := restaurants db ++ [rowOf data (nextRowId db)];
           restaurants_seq := nextRowId db |}.
Proof.
  intros [Hseq Hu] Hnone.
  destruct (restaurant_nextRowId_fresh db Hseq) as [Hpos _].
  split; [simpl; lia|]. unfold unique_place_ids. simpl. rewrite map_app.
  apply NoDup_app. split; [exact Hu|]. split; [|apply NoDup_singleton].
  intros t Ht Ht'. apply list_elem_of_singleton in Ht'. subst t.
  now apply (find_none_not_in googlePlaceId String.eqb String.eqb_eq) in Hnone.
Qed.

Lemma saveAll_spec fetched : forall counts db,
  Sound db ->
  exists counts' db',
    Database.saveAll fetched (counts, db) = inr (counts', db')
    /\ (Database.savedCount counts' + Database.existingSkippedCount counts'
        = Database.savedCount counts + Database.existingSkippedCount counts
          + length fetched)%nat
    /\ (length (restaurants db') + Database.savedCount counts
        = length (restaurants db) + Database.savedCount counts')%nat
    /\ Sound db'
    /\ restaurants db `prefix_of` restaurants db'
    /\ (forall r, r ∈ fetched ->
          is_Some (getByGooglePlaceId (data_googlePlaceId r) db')).
Proof.
  induction fetched as [|resto rest IH]; intros counts db Hs.
  - exists counts, db. simpl. split; [reflexivity|]. split; [lia|].
    split; [lia|]. split; [exact Hs|]. split; [reflexivity|].
    intros r Hr. inversion Hr.
  - cbn [Database.saveAll]. unfold Database.saveOne, ebind.
    destruct (getByGooglePlaceId (data_googlePlaceId resto) db) as [e|] eqn:He.
    + destruct (IH {| Database.savedCount := Database.savedCount counts;
                      Database.existingSkippedCount :=
                        S (Database.existingSkippedCount counts) |} db Hs)
        as (c' & db' & Hall & Hsum & Hlen & Hs' & Hp & Hpres).
      exists c', db'. split; [exact Hall|]. simpl in Hsum, Hlen.
      split; [simpl; lia|]. split; [lia|]. split; [exact Hs'|].
      split; [exact Hp|].
      intros r Hr. apply elem_of_cons in Hr as [-> | Hr]; [|now apply Hpres].
      exists e. apply (find_prefix _ _ _ _ Hp He).
    + rewrite (insertRow_new resto db He).
      destruct (restaurant_nextRowId_fresh db (proj1 Hs)) as [Hpos _].
      rewrite (proj2 (Z.eqb_neq _ _)) by lia.
      destruct (IH {| Database.savedCount := S (Database.savedCount counts);
                      Database.existingSkippedCount :=
                        Database.existingSkippedCount counts |} _
                  (Sound_insert resto db Hs He))
        as (c' & db' & Hall & Hsum & Hlen & Hs' & Hp & Hpres).
      exists c', db'. split; [exact Hall|]. simpl in Hsum, Hlen.
      rewrite length_app in Hlen. simpl in Hlen.
      split; [simpl; lia|]. split; [lia|]. split; [exact Hs'|].
      split; [etrans; [|exact Hp]; now apply prefix_app_r|].
      intros r Hr. apply elem_of_cons in Hr as [-> | Hr]; [|now apply Hpres].
      exists (rowOf resto (nextRowId db)).
      apply (find_prefix _ _ _ _ Hp). simpl.
      now apply (find_app_fresh googlePlaceId String.eqb String.eqb_eq).
Qed.

End DatabaseFacts.

Module FirstStore.
Import Restaurants RestaurantDb Notions RestaurantNotions RestaurantDbFacts
  RestaurantFetchFacts DatabaseFacts.

(** X13.  The first store (src/database.ts).  [saveRestaurant] yields
    no id and writes nothing exactly when the place is stored already;
    otherwise it appends the row and yields its fresh id.
    [fetchAndSaveRestaurants] never throws on a sound store; after a
    non-empty fetch, the two counts add up to the number of fetched
    restaurants, the count of saved ones is the number of rows added, every
    fetched place is stored, the earlier rows stay in place, and the store
    stays sound. *)
Theorem first_store_counts_new_rows
    (env : GooglePlaces.Env) (locationQuery : string) (db : Db) :
  Sound db ->
  (forall r,
      match getByGooglePlaceId (data_googlePlaceId r) db with
      | Some _ => Database.saveRestaurant r db = (None, db)
      | None =>
          Database.saveRestaurant r db
          = (Some (nextRowId db),
             {| restaurants := restaurants db ++ [rowOf r (nextRowId db)];
                restaurants_seq := nextRowId db |})
          /\ Some (nextRowId db) ∉ map id (restaurants db)
      end)
  /\ exists fetched result db',
       GooglePlaces.fetchRestaurantsFromGooglePlaces env locationQuery
         GooglePlaces.defaultMaxResults = inr fetched
       /\ Database.fetchAndSaveRestaurants env locationQuery db
          = inr (result, db')
       /\ (JsStrings.trim locationQuery = EmptyString \/ fetched = [] ->
           result = None /\ db' = db)
       /\ (JsStrings.trim locationQuery <> EmptyString -> fetched <> [] ->
           exists counts,
             result = Some counts
             /\ (Database.savedCount counts
                 + Database.existingSkippedCount counts = length fetched)%nat
             /\ (length (restaurants db')
                 = length (restaurants db) + Database.savedCount counts)%nat
             /\ forall r, r ∈ fetched ->
                  is_Some (getByGooglePlaceId (data_googlePlaceId r) db'))
       /\ Sound db'
       /\ restaurants db `prefix_of` restaurants db'.
Proof.
  intros Hs. split.
  { intros r. unfold Database.saveRestaurant.
    destruct (getByGooglePlaceId (data_googlePlaceId r) db) eqn:He; [reflexivity|].
    rewrite (insertRow_new r db He). split; [reflexivity|].
    apply restaurant_nextRowId_fresh, Hs. }
  destruct (fetch_total env locationQuery GooglePlaces.defaultMaxResults)
    as [fetched Hf].
  exists fetched. unfold Database.fetchAndSaveRestaurants, ebind. rewrite Hf.
  destruct (String.eqb (JsStrings.trim locationQuery) EmptyString) eqn:Eb.
  { apply String.eqb_eq in Eb. exists None, db. split; [reflexivity|].
    split; [reflexivity|]. split; [tauto|]. split; [congruence|].
    split; [exact Hs | reflexivity]. }
  apply String.eqb_neq in Eb.
  destruct fetched as [|r0 rest] eqn:Ef.
  { exists None, db. split; [reflexivity|]. split; [reflexivity|].
    split; [tauto|]. split; [congruence|]. split; [exact Hs | reflexivity]. }
  rewrite <- Ef. replace (Nat.eqb (length fetched) 0) with false
    by (subst fetched; reflexivity).
  destruct (saveAll_spec fetched
              {| Database.savedCount := 0; Database.existingSkippedCount := 0 |}
              db Hs)
    as (c' & db' & Hall & Hsum & Hlen & Hs' & Hp & Hpres).
  rewrite Hall. simpl in Hsum, Hlen. exists (Some c'), db'.
  split; [reflexivity|]. split; [reflexivity|].
  split; [intros [H | H]; [contradiction | subst; discriminate]|].
  split; [|split; [exact Hs' | exact Hp]].
  intros _ _. exists c'. split; [reflexivity|]. split; [lia|]. split; [lia|].
  exact Hpres.
Qed.

Lemma first_store_counts_new_rows_witness :
  Database.saveRestaurant (Scenario.trattoria 4) Scenario.emptyRestaurantDb
  = (Some (nextRowId Scenario.emptyRestaurantDb),
     {| restaurants := restaurants Scenario.emptyRestaurantDb
                       ++ [rowOf (Scenario.trattoria 4)
                             (nextRowId Scenario.emptyRestaurantDb)];
        restaurants_seq := nextRowId Scenario.emptyRestaurantDb |}).
Proof.
  exact (proj1 (proj1 (first_store_counts_new_rows Scenario.envNoKey "London"
                         Scenario.emptyRestaurantDb
                         RestaurantLoading.sound_empty)
                 (Scenario.trattoria 4))).
Defined.

End FirstStore.

Module UserFacts.
Import UserDb UserNotions.

Lemma user_nextRowId_fresh db :
  0 <= users_seq db -> 0 < nextRowId db /\ nextRowId db ∉ map id (users db).
Proof.
  intros Hs. unfold nextRowId.
  destruct (max_fold_ge (users_seq db) (map id (users db))) as [H1 H2].
  split; [lia|]. intros Hin. apply H2 in Hin. lia.
Qed.

Lemma ensureUser_existing n db e :
  getUserByName n db = Some e -> ensureUser n db = (Some e, db).
Proof. intros He. unfold ensureUser. now rewrite He. Qed.

Lemma ensureUser_new n db :
  0 <= users_seq db -> getUserByName n db = None ->
  ensureUser n db
  = (Some {| id := nextRowId db; name := n |},
     {| users := users db ++ [{| id := nextRowId db; name := n |}];
        users_seq := nextRowId db |}).
Proof.
  intros Hseq Hnone. unfold ensureUser, insertUser. rewrite Hnone.
  rewrite (find_none_existsb name String.eqb _ _ Hnone).
  destruct (user_nextRowId_fresh db Hseq) as [Hpos Hfresh].
  rewrite (proj2 (Z.eqb_neq _ _)) by lia.
  unfold getUserById. simpl.
  rewrite (find_app_fresh id Z.eqb Z.eqb_eq); [reflexivity | | reflexivity].
  now apply (find_none_not_in id Z.eqb Z.eqb_eq).
Qed.

Lemma Sound_new n db :
  Sound db -> getUserByName n db = None ->
  Sound {| users := users db ++ [{| id := nextRowId db; name := n |}];
           users_seq := nextRowId db |}.
Proof.
  intros (Hseq & Hn & Hi) Hnone.
  destruct (user_nextRowId_fresh db Hseq) as [Hpos Hfresh].
  split; [simpl; lia|]. simpl. rewrite !map_app. simpl. split.
  - apply NoDup_app. split; [exact Hn|]. split; [|apply NoDup_singleton].
    intros t Ht Ht'. apply list_elem_of_singleton in Ht'. subst t.
    now apply (find_none_not_in name String.eqb String.eqb_eq) in Hnone.
  - apply NoDup_app. split; [exact Hi|]. split; [|apply NoDup_singleton].
    intros t Ht Ht'. apply list_elem_of_singleton in Ht'. now subst t.
Qed.

(** A row of a table without repeated keys is found under its key. *)
Lemma find_unique_key {A K} (key : A -> K) (eqb : K -> K -> bool)
    (eqb_spec : forall x y, eqb x y = true <-> x = y) (rows : list A) (e : A) :
  NoDup (map key rows) -> e ∈ rows ->
  List.find (fun r => eqb (key r) (key e)) rows = Some e.
Proof.
  induction rows as [|r rows IH]; intros Hnd Hin; [inversion Hin|].
  simpl in *. apply NoDup_cons in Hnd as [Hnot Hnd].
  apply elem_of_cons in Hin as [<- | Hin].
  - now rewrite (proj2 (eqb_spec _ _) eq_refl).
  - destruct (eqb (key r) (key e)) eqn:E; [|now apply IH].
    apply eqb_spec in E. exfalso. apply Hnot. rewrite E.
    apply list_elem_of_fmap. now exists e.
Qed.

Lemma ensureUser_spec n db :
  Sound db ->
  exists u db',
    ensureUser n db = (Some u, db')
    /\ name u = n
    /\ getUserByName n db' = Some u
    /\ getUserById (id u) db' = Some u
    /\ (forall e, getUserByName n db = Some e -> u = e /\ db' = db)
    /\ (getUserByName n db = None ->
        users db' = users db ++ [u] /\ (id u ∉ map id (users db)) /\ 0 < id u)
    /\ Sound db'.
Proof.
  intros Hs. pose proof Hs as (Hseq & Hn & Hi).
  destruct (getUserByName n db) as [e|] eqn:He.
  - exists e, db. rewrite (ensureUser_existing n db e He).
    destruct (find_some_key name String.eqb String.eqb_eq _ _ _ He) as [Hk Hin].
    split; [reflexivity|]. split; [exact Hk|]. split; [exact He|].
    split; [now apply (find_unique_key id Z.eqb Z.eqb_eq)|].
    split; [now intros e' [= <-]|]. split; [discriminate | exact Hs].
  - eexists. eexists. rewrite (ensureUser_new n db Hseq He).
    destruct (user_nextRowId_fresh db Hseq) as [Hpos Hfresh].
    split; [reflexivity|]. split; [reflexivity|]. simpl.
    split; [now apply (find_app_fresh name String.eqb String.eqb_eq)|].
    split.
    { apply (find_app_fresh id Z.eqb Z.eqb_eq); [|reflexivity].
      now apply (find_none_not_in id Z.eqb Z.eqb_eq). }
    split; [discriminate|]. split; [auto|]. now apply Sound_new.
Qed.

Lemma seedLoop_cons n rest c db :
  seedLoop (n :: rest) (c, db)
  = seedLoop rest
      (match ensureUser n db with
       | (Some _, db') => (S c, db')
       | (None, db') => (c, db')
       end).
Proof.
  unfold seedLoop. simpl. now destruct (ensureUser n db) as [[u|] db'].
Qed.

Lemma seedLoop_spec names : forall c db,
  Sound db ->
  exists db',
    seedLoop names (c, db) = ((c + length names)%nat, db')
    /\ Sound db'
    /\ users db `prefix_of` users db'
    /\ (forall n, n ∈ names -> is_Some (getUserByName n db'))
    /\ (NoDup names -> (forall n, n ∈ names -> getUserByName n db = None) ->
        map name (users db') = map name (users db) ++ names).
Proof.
  induction names as [|n rest IH]; intros c db Hs.
  - exists db. simpl. rewrite Nat.add_0_r, app_nil_r.
    split; [reflexivity|]. split; [exact Hs|]. split; [reflexivity|].
    split; [intros n Hn; inversion Hn | reflexivity].
  - rewrite seedLoop_cons.
    destruct (ensureUser_spec n db Hs)
      as (u & db1 & H1 & H2 & H3 & _ & H5 & H6 & H7).
    rewrite H1.
    destruct (IH (S c) db1 H7) as (db' & I1 & I2 & I3 & I4 & I5).
    exists db'. rewrite I1. cbn [length].
    split; [f_equal; lia|]. split; [exact I2|].
    assert (users db `prefix_of` users db1) as Hp1.
    { destruct (getUserByName n db) as [e|] eqn:He.
      - destruct (H5 e eq_refl) as [_ ->]. reflexivity.
      - destruct (H6 eq_refl) as [-> _]. now apply prefix_app_r. }
    split; [etrans; eassumption|]. split.
    + intros m Hm. apply elem_of_cons in Hm as [-> | Hm]; [|now apply I4].
      exists u. apply (RestaurantFetchFacts.find_prefix _ _ _ _ I3 H3).
    + intros Hnd Hnone. apply NoDup_cons in Hnd as [Hn Hnd].
      destruct (H6 (Hnone n ltac:(now left))) as [Hu _].
      rewrite I5; [|exact Hnd|].
      * rewrite Hu, map_app. simpl. rewrite H2. now rewrite <- (assoc_L (++)).
      * intros m Hm. unfold getUserByName. rewrite Hu.
        rewrite find_app_rows.
        fold (getUserByName m db). rewrite (Hnone m) by now right.
        simpl. rewrite H2.
        destruct (String.eqb n m) eqn:E; [|reflexivity].
        apply String.eqb_eq in E. now subst.
Qed.

End UserFacts.

Module Users.
Import UserDb UserNotions UserFacts.

(** X14.  On a sound table [ensureUser] gets or creates: it returns a
    user with the given name, who is afterwards found under that name and
    under the returned id.  A user who existed is returned as stored and
    nothing is written; otherwise one row is appended, with a fresh
    positive id.  A second call returns the same user and writes nothing,
    and the table stays sound. *)
Theorem ensureUser_gets_or_creates (n : string) (db : Db) :
  Sound db ->
  exists u db',
    ensureUser n db = (Some u, db')
    /\ name u = n
    /\ getUserByName n db' = Some u
    /\ getUserById (id u) db' = Some u
    /\ (forall e, getUserByName n db = Some e -> u = e /\ db' = db)
    /\ (getUserByName n db = None ->
        users db' = users db ++ [u] /\ (id u ∉ map id (users db)) /\ 0 < id u)
    /\ ensureUser n db' = (Some u, db')
    /\ Sound db'.
Proof.
  intros Hs.
  destruct (ensureUser_spec n db Hs) as (u & db' & H1 & H2 & H3 & H4 & H5 & H6 & H7).
  exists u, db'. repeat (split; [assumption|]).
  split; [now apply ensureUser_existing | exact H7].
Qed.

Lemma sound_emptyUserDb : Sound emptyUserDb.
Proof. split; [simpl; lia|]. split; apply NoDup_nil_2. Qed.

Lemma ensureUser_gets_or_creates_witness :
  exists u db',
    ensureUser "Alice" emptyUserDb = (Some u, db')
    /\ ensureUser "Alice" db' = (Some u, db').
Proof.
  destruct (ensureUser_gets_or_creates "Alice" emptyUserDb sound_emptyUserDb)
    as (u & db' & H1 & _ & _ & _ & _ & _ & H7 & _).
  exists u, db'. split; [exact H1 | exact H7].
Defined.

(** X15.  [seedInitialGenericUsers] writes only to an empty table.  On
    a non-empty table it changes nothing.  On an empty one it creates the
    six users, in the order Alice, Bob, Charlie, Diana, Edward, Fiona, and
    reports six; a second run changes nothing. *)
Theorem seeding_only_fills_an_empty_table (db : Db) :
  Sound db ->
  (users db <> [] -> seedInitialGenericUsers db = (None, db))
  /\ (users db = [] ->
      exists db',
        seedInitialGenericUsers db = (Some 6%nat, db')
        /\ map name (users db') = usersToSeed
        /\ Sound db'
        /\ seedInitialGenericUsers db' = (None, db')).
Proof.
  intros Hs. unfold seedInitialGenericUsers. split.
  - intros Hne. destruct (users db); [congruence | reflexivity].
  - intros He. rewrite He. simpl Nat.eqb. cbv iota.
    destruct (seedLoop_spec usersToSeed O db Hs) as (db' & H1 & H2 & _ & _ & H5).
    exists db'. rewrite H1. split; [reflexivity|].
    assert (map name (users db') = usersToSeed) as Hnames.
    { rewrite H5, He; [reflexivity | |].
      - unfold usersToSeed. repeat (apply NoDup_cons_2;
          [intros H; repeat (apply elem_of_cons in H as [H | H];
                             [discriminate H|]); inversion H|]).
        apply NoDup_nil_2.
      - intros n _. unfold getUserByName. now rewrite He. }
    split; [exact Hnames|]. split; [exact H2|].
    destruct (users db') eqn:E; [discriminate Hnames | reflexivity].
Qed.

Lemma seeding_only_fills_an_empty_table_witness :
  exists db',
    seedInitialGenericUsers emptyUserDb = (Some 6%nat, db')
    /\ seedInitialGenericUsers db' = (None, db').
Proof.
  destruct (proj2 (seeding_only_fills_an_empty_table emptyUserDb
                     sound_emptyUserDb) eq_refl)
    as (db' & H1 & _ & _ & H4).
  exists db'. split; [exact H1 | exact H4].
Defined.

Example seeded_ids :
  map id (users (snd (seedInitialGenericUsers emptyUserDb))) = [1; 2; 3; 4; 5; 6].
Proof. reflexivity. Qed.

End Users.

Section Upserts.
Context {A : Type} (key : A -> Z).

(** A table in which the rows with the key of [new] are replaced by
    [new]. *)
Lemma find_replaced (new : A) (rows : list A) (k : Z) :
  List.find (fun r => Z.eqb (key r) k)
    (map (fun r => if Z.eqb (key r) (key new) then new else r) rows)
  = (fun r => if Z.eqb (key r) (key new) then new else r)
      <$> List.find (fun r => Z.eqb (key r) k) rows.
Proof.
  induction rows as [|r rows IH]; simpl; [reflexivity|].
  destruct (Z.eqb (key r) (key new)) eqn:E; simpl.
  - apply Z.eqb_eq in E. rewrite <- E.
    destruct (Z.eqb (key r) k) eqn:E'; simpl.
    + now rewrite Z.eqb_refl.
    + rewrite E. exact IH.
  - destruct (Z.eqb (key r) k) eqn:E'; simpl; [now rewrite E | exact IH].
Qed.

Lemma keys_replaced (new : A) (rows : list A) :
  map key (map (fun r => if Z.eqb (key r) (key new) then new else r) rows)
  = map key rows.
Proof.
  rewrite map_map. apply map_ext. intros r.
  destruct (Z.eqb (key r) (key new)) eqn:E; [|reflexivity].
  symmetry. now apply Z.eqb_eq.
Qed.
End Upserts.

Module AccountFacts.
Import RestaurantAccounts.

Lemma existsb_find {A} (f : A -> bool) (l : list A) :
  existsb f l = Js.isSome (List.find f l).
Proof.
  induction l as [|x l IH]; simpl; [reflexivity|]. now destruct (f x).
Qed.

Lemma save_existing prefs db e :
  getUserRestaurantPreferences (user_id prefs) db = Some e ->
  saveUserRestaurantPreferences prefs db
  = withPreferences
      (map (fun r => if Z.eqb (user_id r) (user_id prefs) then prefs else r)
         (user_restaurant_preferences db)) db.
Proof.
  unfold saveUserRestaurantPreferences, upsertPreferences,
    getUserRestaurantPreferences.
  intros He. now rewrite existsb_find, He.
Qed.

Lemma save_new prefs db u :
  getUserRestaurantPreferences (user_id prefs) db = None ->
  UserDb.getUserById (user_id prefs) (users db) = Some u ->
  saveUserRestaurantPreferences prefs db
  = withPreferences (user_restaurant_preferences db ++ [prefs]) db.
Proof.
  unfold saveUserRestaurantPreferences, upsertPreferences,
    getUserRestaurantPreferences.
  intros He Hu. now rewrite existsb_find, He, Hu.
Qed.

Lemma save_rejected prefs db :
  getUserRestaurantPreferences (user_id prefs) db = None ->
  UserDb.getUserById (user_id prefs) (users db) = None ->
  saveUserRestaurantPreferences prefs db = db.
Proof.
  unfold saveUserRestaurantPreferences, upsertPreferences,
    getUserRestaurantPreferences.
  intros He Hu. now rewrite existsb_find, He, Hu.
Qed.

Lemma liked_spec userId restaurantId db :
  existsb (fun l => (Z.eqb (like_user_id l) userId
                     && Z.eqb (restaurant_id l) restaurantId)%bool)
    (user_restaurant_likes db) = true
  <-> restaurantId ∈ getLikedRestaurantIdsByUserId userId db.
Proof.
  unfold getLikedRestaurantIdsByUserId, likesOfUser.
  rewrite sort_perm, existsb_exists, list_elem_of_fmap. split.
  - intros (l & Hin & E). apply andb_true_iff in E as [E1 E2].
    apply Z.eqb_eq in E2. exists l. split; [now symmetry|].
    apply list_elem_of_In, filter_In. now split.
  - intros (l & -> & Hin). apply list_elem_of_In, filter_In in Hin as [Hin E].
    exists l. split; [exact Hin|]. now rewrite E, Z.eqb_refl.
Qed.

Lemma liked_withLikes userId rows db :
  getLikedRestaurantIdsByUserId userId (withLikes rows db)
  ≡ₚ map restaurant_id (List.filter (fun l => Z.eqb (like_user_id l) userId) rows).
Proof.
  unfold getLikedRestaurantIdsByUserId, likesOfUser. now rewrite sort_perm.
Qed.

Lemma liked_rows userId db :
  getLikedRestaurantIdsByUserId userId db
  ≡ₚ map restaurant_id
       (List.filter (fun l => Z.eqb (like_user_id l) userId)
          (user_restaurant_likes db)).
Proof.
  unfold getLikedRestaurantIdsByUserId, likesOfUser. now rewrite sort_perm.
Qed.

Lemma record_cases userId restaurantId db :
  (restaurantId ∈ getLikedRestaurantIdsByUserId userId db
   /\ recordUserRestaurantLike userId restaurantId db = db)
  \/ ((restaurantId ∉ getLikedRestaurantIdsByUserId userId db)
      /\ is_Some (UserDb.getUserById userId (users db))
      /\ is_Some (RestaurantDb.getRestaurantById restaurantId (restaurants db))
      /\ recordUserRestaurantLike userId restaurantId db
         = withLikes (user_restaurant_likes db
                      ++ [{| like_user_id := userId;
                             restaurant_id := restaurantId |}]) db)
  \/ ((restaurantId ∉ getLikedRestaurantIdsByUserId userId db)
      /\ (UserDb.getUserById userId (users db) = None
          \/ RestaurantDb.getRestaurantById restaurantId (restaurants db) = None)
      /\ recordUserRestaurantLike userId restaurantId db = db).
Proof.
  unfold recordUserRestaurantLike, insertLike.
  destruct (existsb _ (user_restaurant_likes db)) eqn:E.
  - left. split; [now apply liked_spec | reflexivity].
  - right.
    assert (restaurantId ∉ getLikedRestaurantIdsByUserId userId db) as Hnot.
    { intros H. apply liked_spec in H. congruence. }
    destruct (UserDb.getUserById userId (users db)) as [u|]; simpl.
    + destruct (RestaurantDb.getRestaurantById restaurantId (restaurants db))
        as [r|]; simpl.
      * left. split; [exact Hnot|]. split; [eauto|]. split; [eauto | reflexivity].
      * right. split; [exact Hnot|]. split; [now right | reflexivity].
    + right. split; [exact Hnot|]. split; [now left | reflexivity].
Qed.

Lemma combine_fst_NoDup {A B C} (f : A -> C) (l : list A) (k : list B) :
  NoDup (map f l) -> NoDup (map (fun p => f (fst p)) (combine l k)).
Proof.
  revert k. induction l as [|x l IH]; intros k Hnd; [apply NoDup_nil_2|].
  destruct k as [|y k]; [apply NoDup_nil_2|]. simpl in *.
  apply NoDup_cons in Hnd as [Hx Hnd]. apply NoDup_cons. split; [|now apply IH].
  intros Hin. apply Hx. apply list_elem_of_fmap in Hin as ([a b] & E & Hin).
  simpl in E. rewrite E. apply list_elem_of_fmap. exists a. split; [reflexivity|].
  apply list_elem_of_In. apply list_elem_of_In in Hin.
  now apply in_combine_l in Hin.
Qed.

Lemma in_combine_fst {A B} (l : list A) (k : list B) (p : A * B) :
  p ∈ combine l k -> fst p ∈ l.
Proof.
  destruct p as [a b]. intros Hp.
  apply list_elem_of_In, in_combine_l, list_elem_of_In in Hp. exact Hp.
Qed.

(** Saving preferences for distinct existing users who have none appends
    one row for each, in order. *)
Lemma seed_fold pairs : forall db,
  NoDup (map (fun p => UserDb.id (fst p)) pairs) ->
  (forall p, p ∈ pairs ->
     is_Some (UserDb.getUserById (UserDb.id (fst p)) (users db))) ->
  (forall p, p ∈ pairs ->
     UserDb.id (fst p) ∉ map user_id (user_restaurant_preferences db)) ->
  fold_left (fun db pair =>
               saveUserRestaurantPreferences
                 (seededPreferences (fst pair) (snd pair)) db) pairs db
  = withPreferences
      (user_restaurant_preferences db
       ++ map (fun p => seededPreferences (fst p) (snd p)) pairs) db.
Proof.
  induction pairs as [|p pairs IH]; intros db Hnd Hex Hnew.
  - simpl. rewrite app_nil_r. now destruct db.
  - cbn [fold_left map]. apply NoDup_cons in Hnd as [Hp Hnd].
    destruct (Hex p ltac:(now left)) as [u Hu].
    assert (getUserRestaurantPreferences
              (user_id (seededPreferences (fst p) (snd p))) db = None) as Hnone.
    { apply (find_none_not_in user_id Z.eqb Z.eqb_eq). apply Hnew. now left. }
    rewrite (save_new _ db u Hnone Hu). rewrite IH.
    + simpl. unfold withPreferences. simpl. now rewrite <- (assoc_L (++)).
    + exact Hnd.
    + intros q Hq. simpl. apply Hex. now right.
    + intros q Hq. simpl. rewrite map_app. simpl. intros Hin.
      apply elem_of_app in Hin as [Hin | Hin].
      * apply (Hnew q); [now right | exact Hin].
      * apply list_elem_of_singleton in Hin. apply Hp. rewrite <- Hin.
        apply list_elem_of_fmap. now exists q.
Qed.

End AccountFacts.

Module Accounts.
Import RestaurantAccounts AccountFacts.

(** X16.  [saveUserRestaurantPreferences] followed by
    [getUserRestaurantPreferences] yields what was saved, whenever the user
    exists or already had preferences; the earlier preferences of that user
    are replaced, not kept beside.  For an unknown user without
    preferences the failed insert is swallowed and the store is unchanged.
    The preferences of every other user, the users, the restaurants and the
    likes are untouched, and no user gets a second row. *)
Theorem restaurant_preferences_round_trip
    (prefs : RestaurantUserPreferences) (db : Db) :
  let db' := saveUserRestaurantPreferences prefs db in
  (is_Some (UserDb.getUserById (user_id prefs) (users db))
   \/ is_Some (getUserRestaurantPreferences (user_id prefs) db) ->
   getUserRestaurantPreferences (user_id prefs) db' = Some prefs)
  /\ (UserDb.getUserById (user_id prefs) (users db) = None ->
      getUserRestaurantPreferences (user_id prefs) db = None -> db' = db)
  /\ (forall other, other <> user_id prefs ->
        getUserRestaurantPreferences other db'
        = getUserRestaurantPreferences other db)
  /\ (NoDup (map user_id (user_restaurant_preferences db)) ->
      NoDup (map user_id (user_restaurant_preferences db')))
  /\ users db' = users db /\ restaurants db' = restaurants db
  /\ user_restaurant_likes db' = user_restaurant_likes db.
Proof.
  cbn zeta.
  destruct (getUserRestaurantPreferences (user_id prefs) db) as [e|] eqn:He.
  - rewrite (save_existing prefs db e He).
    unfold getUserRestaurantPreferences in *. simpl.
    split.
    { intros _. rewrite (find_replaced user_id), He. simpl.
      destruct (find_some_key user_id Z.eqb Z.eqb_eq _ _ _ He) as [Hk _].
      now rewrite (proj2 (Z.eqb_eq _ _) Hk). }
    split; [discriminate|]. split.
    { intros other Hne. rewrite (find_replaced user_id).
      destruct (List.find (fun r => Z.eqb (user_id r) other)
                  (user_restaurant_preferences db)) as [x|] eqn:Hx;
        [|reflexivity]. simpl.
      destruct (find_some_key user_id Z.eqb Z.eqb_eq _ _ _ Hx) as [-> _].
      now rewrite (proj2 (Z.eqb_neq _ _) Hne). }
    split; [now rewrite (keys_replaced user_id)|]. auto.
  - destruct (UserDb.getUserById (user_id prefs) (users db)) as [u|] eqn:Hu.
    + rewrite (save_new prefs db u He Hu).
      unfold getUserRestaurantPreferences in *. simpl.
      split; [intros _; now apply (find_app_fresh user_id Z.eqb Z.eqb_eq)|].
      split; [discriminate|]. split.
      { intros other Hne. rewrite find_app_rows.
        destruct (List.find (fun r => Z.eqb (user_id r) other)
                    (user_restaurant_preferences db)); [reflexivity|].
        simpl. now rewrite (proj2 (Z.eqb_neq _ _) (not_eq_sym Hne)). }
      split; [|repeat split]. rewrite map_app. intros Hnd.
      apply NoDup_app. split; [exact Hnd|]. split; [|apply NoDup_singleton].
      intros t Ht Ht'. apply list_elem_of_singleton in Ht'. subst t.
      now apply (find_none_not_in user_id Z.eqb Z.eqb_eq) in He.
    + rewrite (save_rejected prefs db He Hu).
      split; [intros [[? H] | [? H]]; discriminate H|].
      repeat split; auto.
Qed.

(** X17.  A like is recorded once.  For an existing user and an
    existing restaurant the restaurant is among the liked ones afterwards.
    A like that is already recorded is left alone, so liking twice is
    liking once and the liked ids are never repeated.  A like for an
    unknown user or restaurant is swallowed.  The likes of other users and
    the other tables are untouched, and no like is ever removed. *)
Theorem like_is_recorded_once (userId restaurantId : Z) (db : Db) :
  let db' := recordUserRestaurantLike userId restaurantId db in
  (is_Some (UserDb.getUserById userId (users db)) ->
   is_Some (RestaurantDb.getRestaurantById restaurantId (restaurants db)) ->
   restaurantId ∈ getLikedRestaurantIdsByUserId userId db')
  /\ (restaurantId ∈ getLikedRestaurantIdsByUserId userId db -> db' = db)
  /\ recordUserRestaurantLike userId restaurantId db' = db'
  /\ (restaurantId ∉ getLikedRestaurantIdsByUserId userId db ->
      UserDb.getUserById userId (users db) = None
      \/ RestaurantDb.getRestaurantById restaurantId (restaurants db) = None ->
      db' = db)
  /\ (NoDup (getLikedRestaurantIdsByUserId userId db) ->
      NoDup (getLikedRestaurantIdsByUserId userId db'))
  /\ (forall r, r ∈ getLikedRestaurantIdsByUserId userId db ->
        r ∈ getLikedRestaurantIdsByUserId userId db')
  /\ (forall other, other <> userId ->
        getLikedRestaurantIdsByUserId other db'
        = getLikedRestaurantIdsByUserId other db)
  /\ users db' = users db /\ restaurants db' = restaurants db
  /\ user_restaurant_preferences db' = user_restaurant_preferences db.
Proof.
  cbn zeta.
  destruct (record_cases userId restaurantId db)
    as [[Hin ->] | [(Hnot & Hu & Hr & ->) | (Hnot & Hmiss & ->)]].
  - split; [auto|]. split; [auto|].
    split; [destruct (record_cases userId restaurantId db)
              as [[_ ->] | [(Hnot & _) | (Hnot & _)]]; tauto|].
    split; [auto|]. split; [auto|]. split; [auto|]. repeat split.
  - assert (getLikedRestaurantIdsByUserId userId
              (withLikes (user_restaurant_likes db
                          ++ [{| like_user_id := userId;
                                 restaurant_id := restaurantId |}]) db)
            ≡ₚ getLikedRestaurantIdsByUserId userId db ++ [restaurantId]) as Hl.
    { rewrite liked_withLikes, List.filter_app, map_app, (liked_rows userId db).
      simpl. now rewrite Z.eqb_refl. }
    split; [intros _ _; rewrite Hl; apply elem_of_app; right; now left|].
    split; [contradiction|]. split.
    { destruct (record_cases userId restaurantId
                  (withLikes (user_restaurant_likes db
                              ++ [{| like_user_id := userId;
                                     restaurant_id := restaurantId |}]) db))
        as [[_ ->] | [(Hnot' & _) | (Hnot' & _)]]; [reflexivity | |];
        exfalso; apply Hnot'; rewrite Hl; apply elem_of_app; right; now left. }
    split.
    { intros _ [Hm | Hm]; [destruct Hu as [? Hu] | destruct Hr as [? Hr]];
        congruence. }
    split.
    { intros Hnd. rewrite Hl. apply NoDup_app. split; [exact Hnd|].
      split; [|apply NoDup_singleton].
      intros t Ht Ht'. apply list_elem_of_singleton in Ht'. now subst t. }
    split; [intros r Hr'; rewrite Hl; apply elem_of_app; now left|].
    split; [|repeat split].
    intros other Hne. unfold getLikedRestaurantIdsByUserId, likesOfUser.
    simpl. rewrite List.filter_app. simpl.
    rewrite (proj2 (Z.eqb_neq _ _) (not_eq_sym Hne)). simpl.
    now rewrite app_nil_r.
  - split.
    { intros Hu Hr. destruct Hmiss as [Hm | Hm];
        [destruct Hu as [? Hu] | destruct Hr as [? Hr]]; congruence. }
    split; [auto|].
    split; [destruct (record_cases userId restaurantId db)
              as [[_ ->] | [(_ & Hu & Hr & _) | (_ & _ & ->)]];
            [reflexivity | | reflexivity];
            destruct Hmiss as [Hm | Hm];
            [destruct Hu as [? Hu] | destruct Hr as [? Hr]]; congruence|].
    split; [auto|]. split; [auto|]. split; [auto|]. repeat split.
Qed.

(** X18.  [seedInitialRestaurantPreferences] writes only when there
    are users and nobody has preferences yet; otherwise the store is
    unchanged, so preferences a user has set are never overwritten.  When
    it writes, the i-th user in id order receives the preferences of the
    i-th mock user, for as many users as there are of both, and nothing
    else changes.  After the generic users have been seeded into an empty
    table, every user thus receives the preferences of the mock user with
    the same name. *)
Theorem seeding_pairs_users_with_mock_preferences (db : Db) :
  NoDup (map UserDb.id (UserDb.users (users db))) ->
  let db' := seedInitialRestaurantPreferences db in
  (user_restaurant_preferences db <> [] \/ UserDb.users (users db) = [] ->
   db' = db)
  /\ (user_restaurant_preferences db = [] ->
      user_restaurant_preferences db'
      = map (fun p => seededPreferences (fst p) (snd p))
          (combine (usersById db) mockUsers))
  /\ users db' = users db /\ restaurants db' = restaurants db
  /\ user_restaurant_likes db' = user_restaurant_likes db
  /\ (let seeded :=
         seedInitialRestaurantPreferences
           {| users := snd (UserDb.seedInitialGenericUsers UserNotions.emptyUserDb);
              restaurants := Scenario.emptyRestaurantDb;
              user_restaurant_preferences := [];
              user_restaurant_likes := [] |} in
       Forall (fun u =>
                 exists m, m ∈ mockUsers /\ mock_name m = UserDb.name u
                   /\ getUserRestaurantPreferences (UserDb.id u) seeded
                      = Some (seededPreferences u m))
         (UserDb.users (users seeded))).
Proof.
  intros Hnd. cbn zeta.
  assert (usersById db ≡ₚ UserDb.users (users db)) as Hperm by apply sort_perm.
  assert ((usersById db = [] /\ seedInitialRestaurantPreferences db = db)
          \/ (user_restaurant_preferences db <> []
              /\ seedInitialRestaurantPreferences db = db)
          \/ (user_restaurant_preferences db = []
              /\ UserDb.users (users db) <> []
              /\ seedInitialRestaurantPreferences db
                 = withPreferences
                     (map (fun p => seededPreferences (fst p) (snd p))
                        (combine (usersById db) mockUsers)) db)) as Hcases.
  { unfold seedInitialRestaurantPreferences. cbv zeta.
    destruct (Nat.ltb 0 (length (usersById db))) eqn:Hlen.
    2:{ left. split; [|reflexivity].
        destruct (usersById db); [reflexivity | discriminate]. }
    destruct (user_restaurant_preferences db) as [|r rows] eqn:Hrows;
      [|right; left; split; [discriminate | reflexivity]].
    simpl. right. right. split; [reflexivity|]. split.
    { intros He. rewrite He in Hperm. apply Permutation_nil_r in Hperm.
      rewrite Hperm in Hlen. discriminate. }
    rewrite seed_fold.
    - now rewrite Hrows.
    - apply (combine_fst_NoDup UserDb.id). now rewrite Hperm.
    - intros p Hp. apply in_combine_fst in Hp. rewrite Hperm in Hp.
      destruct (UserDb.getUserById (UserDb.id (fst p)) (users db)) eqn:E; [eauto|].
      apply (find_none_not_in UserDb.id Z.eqb Z.eqb_eq) in E.
      exfalso. apply E. apply list_elem_of_fmap. now exists (fst p).
    - intros p _. rewrite Hrows. simpl. apply not_elem_of_nil. }
  split; [|split; [|split; [|split; [|split]]]].
  - intros [Hne | He];
      destruct Hcases as [[_ ->] | [[_ ->] | (H1 & H2 & _)]];
      try reflexivity; contradiction.
  - intros Hrows.
    destruct Hcases as [[Hu ->] | [[Hne _] | (_ & _ & ->)]];
      [now rewrite Hu, Hrows | contradiction | reflexivity].
  - destruct Hcases as [[_ ->] | [[_ ->] | (_ & _ & ->)]]; reflexivity.
  - destruct Hcases as [[_ ->] | [[_ ->] | (_ & _ & ->)]]; reflexivity.
  - destruct Hcases as [[_ ->] | [[_ ->] | (_ & _ & ->)]]; reflexivity.
  - apply Forall_forall. intros u Hu. vm_compute in Hu.
    repeat (apply elem_of_cons in Hu as [-> | Hu];
            [first [exists (nth 0 mockUsers (mockUser "" [] [] 0));
                      split; [|split; reflexivity]
                   |exists (nth 1 mockUsers (mockUser "" [] [] 0));
                      split; [|split; reflexivity]
                   |exists (nth 2 mockUsers (mockUser "" [] [] 0));
                      split; [|split; reflexivity]
                   |exists (nth 3 mockUsers (mockUser "" [] [] 0));
                      split; [|split; reflexivity]
                   |exists (nth 4 mockUsers (mockUser "" [] [] 0));
                      split; [|split; reflexivity]
                   |exists (nth 5 mockUsers (mockUser "" [] [] 0));
                      split; [|split; reflexivity]];
             unfold mockUsers; simpl; repeat (first [now left | right])|]).
    inversion Hu.
Qed.

Lemma seeding_pairs_users_with_mock_preferences_witness :
  user_restaurant_preferences
    (seedInitialRestaurantPreferences
       {| users := TvSamples.oneUser;
          restaurants := Scenario.emptyRestaurantDb;
          user_restaurant_preferences := [];
          user_restaurant_likes := [] |})
  = map (fun p => seededPreferences (fst p) (snd p))
      (combine
         (usersById {| users := TvSamples.oneUser;
                       restaurants := Scenario.emptyRestaurantDb;
                       user_restaurant_preferences := [];
                       user_restaurant_likes := [] |})
         mockUsers).
Proof.
  refine (proj1 (proj2 (seeding_pairs_users_with_mock_preferences
                          {| users := TvSamples.oneUser;
                             restaurants := Scenario.emptyRestaurantDb;
                             user_restaurant_preferences := [];
                             user_restaurant_likes := [] |} _)) eq_refl).
  simpl. apply NoDup_singleton.
Defined.

End Accounts.

Module TvAccountFacts.
Import TvShows TvAccounts AccountFacts.

Lemma save_prefs_cases prefs db :
  (exists e, getUserTvShowPreferences (prefs_user_id prefs) db = Some e
     /\ saveUserTvShowPreferences prefs db
        = withPreferences
            (map (fun r => if Z.eqb (prefs_user_id r) (prefs_user_id prefs)
                           then prefs else r)
               (user_tv_show_preferences db)) db)
  \/ (getUserTvShowPreferences (prefs_user_id prefs) db = None
      /\ is_Some (UserDb.getUserById (prefs_user_id prefs) (users db))
      /\ saveUserTvShowPreferences prefs db
         = withPreferences (user_tv_show_preferences db ++ [prefs]) db)
  \/ (getUserTvShowPreferences (prefs_user_id prefs) db = None
      /\ UserDb.getUserById (prefs_user_id prefs) (users db) = None
      /\ saveUserTvShowPreferences prefs db = db).
Proof.
  unfold saveUserTvShowPreferences, upsertPreferences, getUserTvShowPreferences.
  rewrite existsb_find.
  destruct (List.find _ (user_tv_show_preferences db)) as [e|]; simpl.
  - left. now exists e.
  - right. destruct (UserDb.getUserById _ (users db)) as [u|]; simpl.
    + left. split; [reflexivity|]. split; [eauto | reflexivity].
    + right. auto.
Qed.

End TvAccountFacts.

Module TvPreferences.
Import TvShows TvAccounts AccountFacts TvAccountFacts.

(** X19.  [saveUserTvShowPreferences] followed by
    [getUserTvShowPreferences] yields the preferences that were saved, with
    every unset field unset again, whenever the user exists or already had
    preferences; earlier preferences of the user are replaced.  For an
    unknown user without preferences the failed insert is swallowed and the
    store is unchanged.  Other users' preferences, the users, the shows
    and the ratings are untouched, and no user gets a second row. *)
Theorem tv_preferences_round_trip (prefs : UserTvShowPreferences) (db : Db) :
  let db' := saveUserTvShowPreferences prefs db in
  (is_Some (UserDb.getUserById (prefs_user_id prefs) (users db))
   \/ is_Some (getUserTvShowPreferences (prefs_user_id prefs) db) ->
   getUserTvShowPreferences (prefs_user_id prefs) db' = Some prefs)
  /\ (UserDb.getUserById (prefs_user_id prefs) (users db) = None ->
      getUserTvShowPreferences (prefs_user_id prefs) db = None -> db' = db)
  /\ (forall other, other <> prefs_user_id prefs ->
        getUserTvShowPreferences other db' = getUserTvShowPreferences other db)
  /\ (NoDup (map prefs_user_id (user_tv_show_preferences db)) ->
      NoDup (map prefs_user_id (user_tv_show_preferences db')))
  /\ users db' = users db /\ shows db' = shows db.
Proof.
  cbn zeta.
  destruct (save_prefs_cases prefs db)
    as [(e & He & ->) | [(He & Hu & ->) | (He & Hu & ->)]].
  - unfold getUserTvShowPreferences in *. simpl. split.
    { intros _. rewrite (find_replaced prefs_user_id), He. simpl.
      destruct (find_some_key prefs_user_id Z.eqb Z.eqb_eq _ _ _ He) as [Hk _].
      now rewrite (proj2 (Z.eqb_eq _ _) Hk). }
    split; [congruence|]. split.
    { intros other Hne. rewrite (find_replaced prefs_user_id).
      destruct (List.find (fun r => Z.eqb (prefs_user_id r) other)
                  (user_tv_show_preferences db)) as [x|] eqn:Hx;
        [|reflexivity]. simpl.
      destruct (find_some_key prefs_user_id Z.eqb Z.eqb_eq _ _ _ Hx) as [-> _].
      now rewrite (proj2 (Z.eqb_neq _ _) Hne). }
    split; [now rewrite (keys_replaced prefs_user_id)|]. split; reflexivity.
  - unfold getUserTvShowPreferences in *. simpl.
    split; [intros _; now apply (find_app_fresh prefs_user_id Z.eqb Z.eqb_eq)|].
    split; [destruct Hu as [? Hu]; congruence|]. split.
    { intros other Hne. rewrite find_app_rows.
      destruct (List.find (fun r => Z.eqb (prefs_user_id r) other)
                  (user_tv_show_preferences db)); [reflexivity|].
      simpl. now rewrite (proj2 (Z.eqb_neq _ _) (not_eq_sym Hne)). }
    split; [|split; reflexivity]. rewrite map_app. intros Hnd.
    apply NoDup_app. split; [exact Hnd|]. split; [|apply NoDup_singleton].
    intros t Ht Ht'. apply list_elem_of_singleton in Ht'. subst t.
    now apply (find_none_not_in prefs_user_id Z.eqb Z.eqb_eq) in He.
  - split; [intros [[? H] | [? H]]; congruence|]. repeat split; auto.
Qed.

End TvPreferences.

Module TvRatingFacts.
Import TvShows TvShowDb TvAccounts AccountFacts.

Lemma existsb_false_all {A} (p : A -> bool) (l : list A) :
  existsb p l = false -> forall x, x ∈ l -> p x = false.
Proof.
  intros H x Hx. destruct (p x) eqn:E; [|reflexivity].
  rewrite <- H. symmetry. apply existsb_exists. exists x.
  split; [now apply list_elem_of_In | exact E].
Qed.

Lemma replace_none {A} (p : A -> bool) (new : A) (l : list A) :
  (forall x, x ∈ l -> p x = false) ->
  map (fun x => if p x then new else x) l = l.
Proof.
  induction l as [|x l IH]; intros H; simpl; [reflexivity|].
  rewrite (H x) by now left. f_equal. apply IH. intros y Hy. apply H. now right.
Qed.

Lemma replace_twice {A} (p : A -> bool) (n1 n2 : A) (l : list A) :
  p n1 = true ->
  map (fun x => if p x then n2 else x) (map (fun x => if p x then n1 else x) l)
  = map (fun x => if p x then n2 else x) l.
Proof.
  intros H1. rewrite map_map. apply map_ext. intros x.
  destruct (p x) eqn:E; [now rewrite H1 | now rewrite E].
Qed.

Lemma existsb_replace {A} (p : A -> bool) (new : A) (l : list A) :
  p new = true ->
  existsb p (map (fun x => if p x then new else x) l) = existsb p l.
Proof.
  intros Hn. induction l as [|x l IH]; simpl; [reflexivity|].
  rewrite IH. destruct (p x) eqn:E; [now rewrite Hn | now rewrite E].
Qed.

Lemma sameRating_new userId tvShowId r :
  sameRating userId tvShowId
    {| user_id := userId; tv_show_id := tvShowId; rating := r |} = true.
Proof. unfold sameRating. simpl. now rewrite !Z.eqb_refl. Qed.

Lemma rated_spec userId tvShowId db :
  existsb (sameRating userId tvShowId) (user_tv_show_ratings (shows db)) = true
  <-> tvShowId ∈ getRatedTvShowIdsByUser userId db.
Proof.
  unfold getRatedTvShowIdsByUser, ratingsOfUser, sameRating.
  rewrite sort_perm, existsb_exists, list_elem_of_fmap. split.
  - intros (l & Hin & E). apply andb_true_iff in E as [E1 E2].
    apply Z.eqb_eq in E2. exists l. split; [now symmetry|].
    apply list_elem_of_In, filter_In. now split.
  - intros (l & -> & Hin). apply list_elem_of_In, filter_In in Hin as [Hin E].
    exists l. split; [exact Hin|]. now rewrite E, Z.eqb_refl.
Qed.

Lemma rating_cases userId tvShowId r db :
  let new := {| user_id := userId; tv_show_id := tvShowId; rating := r |} in
  let rows := user_tv_show_ratings (shows db) in
  (existsb (sameRating userId tvShowId) rows = true
   /\ saveUserTvShowRating userId tvShowId r db
      = withRatings
          (map (fun x => if sameRating userId tvShowId x then new else x) rows)
          db)
  \/ (existsb (sameRating userId tvShowId) rows = false
      /\ is_Some (UserDb.getUserById userId (users db))
      /\ is_Some (getTvShowByOurId tvShowId (shows db))
      /\ saveUserTvShowRating userId tvShowId r db
         = withRatings (rows ++ [new]) db)
  \/ (existsb (sameRating userId tvShowId) rows = false
      /\ (UserDb.getUserById userId (users db) = None
          \/ getTvShowByOurId tvShowId (shows db) = None)
      /\ saveUserTvShowRating userId tvShowId r db = db).
Proof.
  cbn zeta. unfold saveUserTvShowRating, upsertRating.
  destruct (existsb _ (user_tv_show_ratings (shows db))) eqn:E.
  - left. split; reflexivity.
  - right. destruct (UserDb.getUserById userId (users db)) as [u|]; simpl.
    + destruct (getTvShowByOurId tvShowId (shows db)) as [s|]; simpl.
      * left. split; [reflexivity|]. split; [eauto|]. split; [eauto | reflexivity].
      * right. split; [reflexivity|]. split; [now right | reflexivity].
    + right. split; [reflexivity|]. split; [now left | reflexivity].
Qed.

End TvRatingFacts.

Module TvRatings.
Import TvShows TvShowDb TvAccounts AccountFacts TvRatingFacts.

(** X20.  [saveUserTvShowRating] keeps one rating for each user and
    show.  When the user and the show exist, or the show is already rated
    by the user, the table afterwards holds the new rating, and every other
    row of that user and show is gone; the rows of other users and shows
    are exactly those of before, and the number of rows changes only when
    the pair is new.  Rating twice leaves the same store as the second
    rating alone.  A first rating for an unknown user or show is swallowed
    and changes nothing.  The shows, the users and the preferences are
    untouched. *)
Theorem rating_is_kept_once_per_show (userId tvShowId r : Z) (db : Db) :
  let db' := saveUserTvShowRating userId tvShowId r db in
  let rows := user_tv_show_ratings (shows db) in
  let rows' := user_tv_show_ratings (shows db') in
  let new := {| user_id := userId; tv_show_id := tvShowId; rating := r |} in
  ((is_Some (UserDb.getUserById userId (users db))
    /\ is_Some (getTvShowByOurId tvShowId (shows db)))
   \/ tvShowId ∈ getRatedTvShowIdsByUser userId db ->
   new ∈ rows' /\ tvShowId ∈ getRatedTvShowIdsByUser userId db')
  /\ (forall x, x ∈ rows' -> sameRating userId tvShowId x = true -> x = new)
  /\ (forall x, sameRating userId tvShowId x = false -> x ∈ rows' <-> x ∈ rows)
  /\ (tvShowId ∈ getRatedTvShowIdsByUser userId db ->
      length rows' = length rows)
  /\ (NoDup (map (fun x => (user_id x, tv_show_id x)) rows) ->
      NoDup (map (fun x => (user_id x, tv_show_id x)) rows'))
  /\ (forall r2, saveUserTvShowRating userId tvShowId r2 db'
                 = saveUserTvShowRating userId tvShowId r2 db)
  /\ ((tvShowId ∉ getRatedTvShowIdsByUser userId db) ->
      UserDb.getUserById userId (users db) = None
      \/ getTvShowByOurId tvShowId (shows db) = None ->
      db' = db)
  /\ tv_shows (shows db') = tv_shows (shows db)
  /\ tv_shows_seq (shows db') = tv_shows_seq (shows db)
  /\ users db' = users db
  /\ user_tv_show_preferences db' = user_tv_show_preferences db.
Proof.
  cbn zeta.
  pose proof (sameRating_new userId tvShowId r) as Hnew.
  destruct (rating_cases userId tvShowId r db)
    as [(Hex & Hsave) | [(Hex & Hu & Hs & Hsave) | (Hex & Hmiss & Hsave)]];
    cbn zeta in Hsave.
  - (* the pair is rated already *)
    rewrite Hsave. cbn [withRatings withShows shows user_tv_show_ratings
                        tv_shows tv_shows_seq users user_tv_show_preferences].
    set (f := fun x => if sameRating userId tvShowId x
                       then {| user_id := userId; tv_show_id := tvShowId;
                               rating := r |} else x).
    assert ({| user_id := userId; tv_show_id := tvShowId; rating := r |}
            ∈ map f (user_tv_show_ratings (shows db))) as Hin.
    { apply existsb_exists in Hex as (x & Hx & E).
      apply list_elem_of_fmap. exists x. split; [|now apply list_elem_of_In].
      unfold f. now rewrite E. }
    split.
    { intros _. split; [exact Hin|]. apply rated_spec. simpl.
      apply existsb_exists. eexists. split; [apply list_elem_of_In, Hin|].
      exact Hnew. }
    split.
    { intros x Hx E. apply list_elem_of_fmap in Hx as (y & -> & Hy).
      unfold f in *. destruct (sameRating userId tvShowId y) eqn:E';
        [reflexivity | congruence]. }
    split.
    { intros x E. rewrite list_elem_of_fmap. split.
      - intros (y & -> & Hy). unfold f in *.
        destruct (sameRating userId tvShowId y) eqn:E'; [congruence | exact Hy].
      - intros Hx. exists x. split; [|exact Hx]. unfold f. now rewrite E. }
    split; [intros _; now rewrite length_map|].
    split.
    { intros Hnd. rewrite map_map.
      erewrite map_ext; [exact Hnd|]. intros x. unfold f.
      destruct (sameRating userId tvShowId x) eqn:E; [|reflexivity].
      unfold sameRating in E. apply andb_true_iff in E as [E1 E2].
      apply Z.eqb_eq in E1, E2. simpl. congruence. }
    split.
    { intros r2. unfold saveUserTvShowRating, upsertRating.
      cbn [withRatings withShows shows user_tv_show_ratings users].
      unfold f. rewrite (existsb_replace _ _ _ Hnew), Hex.
      rewrite (replace_twice _ _ _ _ Hnew). reflexivity. }
    split; [|repeat split].
    intros Hnot. exfalso. apply Hnot. now apply rated_spec.
  - (* a first rating of an existing show by an existing user *)
    rewrite Hsave. cbn [withRatings withShows shows user_tv_show_ratings
                        tv_shows tv_shows_seq users user_tv_show_preferences].
    pose proof (existsb_false_all _ _ Hex) as Hall.
    split.
    { intros _. split; [apply elem_of_app; right; now left|].
      apply rated_spec. simpl. rewrite existsb_app. simpl.
      rewrite Hnew. now rewrite orb_true_r. }
    split.
    { intros x Hx E. apply elem_of_app in Hx as [Hx | Hx].
      - rewrite (Hall x Hx) in E. discriminate.
      - now apply list_elem_of_singleton in Hx. }
    split.
    { intros x E. rewrite elem_of_app, list_elem_of_singleton. split; [|tauto].
      intros [Hx | ->]; [exact Hx | congruence]. }
    split.
    { intros Hin. apply rated_spec in Hin. congruence. }
    split.
    { intros Hnd. rewrite map_app. apply NoDup_app.
      split; [exact Hnd|]. split; [|apply NoDup_singleton].
      intros k Hk Hk'. apply list_elem_of_singleton in Hk'. subst k.
      apply list_elem_of_fmap in Hk as (x & E & Hx). simpl in E.
      pose proof (Hall x Hx) as Hf. unfold sameRating in Hf.
      injection E as E1 E2. now rewrite <- E1, <- E2, !Z.eqb_refl in Hf. }
    split.
    { intros r2. unfold saveUserTvShowRating, upsertRating.
      cbn [withRatings withShows shows user_tv_show_ratings users].
      rewrite existsb_app, Hex. simpl. rewrite Hnew. simpl.
      destruct Hu as [u Hu], Hs as [s Hs].
      unfold getTvShowByOurId in *. simpl. rewrite Hu, Hs. simpl.
      rewrite map_app, (replace_none _ _ _ Hall). simpl. now rewrite Hnew. }
    split; [|repeat split].
    intros _ [Hm | Hm]; [destruct Hu as [? Hu] | destruct Hs as [? Hs]];
      congruence.
  - (* the insert is rejected *)
    rewrite Hsave. pose proof (existsb_false_all _ _ Hex) as Hall.
    split.
    { intros [[Hu Hs] | Hin].
      - destruct Hmiss as [Hm | Hm];
          [destruct Hu as [? Hu] | destruct Hs as [? Hs]]; congruence.
      - apply rated_spec in Hin. congruence. }
    split; [intros x Hx E; rewrite (Hall x Hx) in E; discriminate|].
    split; [tauto|]. split; [reflexivity|]. split; [tauto|].
    split; [reflexivity|]. repeat split.
Qed.

End TvRatings.

Module TvMenuFacts.
Import TvShows TvShowDb TvRecommender Notions TvNotions TvAccounts TvCli.
Import AccountFacts TvRatingFacts TvDbFacts OrchestratorFacts.

(** The exclusion set of menu option 1 holds the external id of every
    stored show the user has rated. *)
Lemma rated_is_excluded userId db i s :
  i ∈ getRatedTvShowIdsByUser userId db ->
  getTvShowByOurId i (shows db) = Some s ->
  tmdb_id s ∈ (list_to_set
                 (map tmdb_id
                    (omap (fun i => getTvShowByOurId i (shows db))
                       (getRatedTvShowIdsByUser userId db))) : gset Z).
Proof.
  intros Hi Hs. apply elem_of_list_to_set, list_elem_of_fmap.
  exists s. split; [reflexivity|]. apply list_elem_of_omap. now exists i.
Qed.

Lemma recommendCase_unfold P user prefs db :
  recommendCase P user prefs db
  = let excl : gset Z :=
      list_to_set
        (map tmdb_id
           (omap (fun i => getTvShowByOurId i (shows db))
              (getRatedTvShowIdsByUser (user_id user) db))) in
    let st := runPhases P user prefs excl defaultCount (shows db) in
    (recommendations st, withShows (TvRecommender.db st) db).
Proof.
  unfold recommendCase. cbv zeta. now rewrite result_is_recommendations.
Qed.

Lemma recommendCase_excludes P user prefs db i s show :
  details_consistent P ->
  i ∈ getRatedTvShowIdsByUser (user_id user) db ->
  getTvShowByOurId i (shows db) = Some s ->
  show ∈ fst (recommendCase P user prefs db) ->
  tmdb_id show <> tmdb_id s.
Proof.
  intros HC Hi Hs. rewrite recommendCase_unfold. cbv zeta. simpl.
  intros Hshow Heq.
  destruct (Inv_phases P user prefs
              (list_to_set
                 (map tmdb_id
                    (omap (fun i => getTvShowByOurId i (shows db))
                       (getRatedTvShowIdsByUser (user_id user) db))))
              defaultCount (shows db)) as (_ & _ & (_ & _ & _ & Hex)).
  apply (Hex HC (tmdb_id show)).
  - unfold ids. apply list_elem_of_fmap. now exists show.
  - rewrite Heq. now apply (rated_is_excluded _ _ i).
Qed.

(** A row found under a local id is still found under it, with the
    same external id, in a table that extends the first one. *)
Lemma find_by_id_prefix (rows rows' : list TvShow) (more : list (Z * Z)) i s :
  map rowKey rows' = map rowKey rows ++ more ->
  List.find (fun r => Z.eqb (id r) i) rows = Some s ->
  exists s', List.find (fun r => Z.eqb (id r) i) rows' = Some s'
             /\ tmdb_id s' = tmdb_id s.
Proof.
  revert rows'. induction rows as [|x rows IH]; intros rows' Hkeys Hs;
    [discriminate|].
  destruct rows' as [|x' rows']; [discriminate|].
  cbn [map app] in Hkeys. unfold rowKey at 1 3 in Hkeys.
  injection Hkeys as Hid Htm Hkeys.
  cbn [List.find] in Hs |- *. rewrite Hid.
  destruct (Z.eqb (id x) i).
  - injection Hs as <-. now exists x'.
  - now apply IH.
Qed.

(** [saveTvShow] keeps the local ids distinct. *)
Lemma saveTvShow_local_ids P det d r d' :
  0 <= tv_shows_seq d ->
  NoDup (map id (tv_shows d)) ->
  saveTvShow P det d = (r, d') ->
  NoDup (map id (tv_shows d')).
Proof.
  intros Hseq Hnd Hs.
  destruct (getTvShowByTmdbId (Tmdb.id det) d) as [e|] eqn:He.
  - rewrite (saveTvShow_existing P det d e He) in Hs. injection Hs as _ <-.
    unfold updateRows. simpl. rewrite map_map.
    erewrite map_ext; [exact Hnd|]. intros x. simpl.
    now destruct (Z.eqb (tmdb_id x) (Tmdb.id det)).
  - rewrite (saveTvShow_new P det d He Hseq) in Hs. injection Hs as _ <-.
    simpl. rewrite map_app. apply NoDup_app. split; [exact Hnd|].
    split; [|apply NoDup_singleton].
    intros k Hk Hk'. apply list_elem_of_singleton in Hk'. subst k.
    now apply (tv_nextRowId_not_in d).
Qed.

(** After a rating that satisfies the foreign keys the show is among the
    rated ones, and the shows are as before. *)
Lemma rating_saved userId tvShowId r db :
  is_Some (UserDb.getUserById userId (users db)) ->
  is_Some (getTvShowByOurId tvShowId (shows db)) ->
  {| TvShows.user_id := userId; tv_show_id := tvShowId; rating := r |}
    ∈ user_tv_show_ratings (shows (saveUserTvShowRating userId tvShowId r db))
  /\ tvShowId ∈ getRatedTvShowIdsByUser userId
                  (saveUserTvShowRating userId tvShowId r db)
  /\ tv_shows (shows (saveUserTvShowRating userId tvShowId r db))
     = tv_shows (shows db).
Proof.
  intros Hu Hs.
  pose proof (sameRating_new userId tvShowId r) as Hnew.
  assert (forall rows,
            {| TvShows.user_id := userId; tv_show_id := tvShowId; rating := r |} ∈ rows ->
            tvShowId ∈ getRatedTvShowIdsByUser userId (withRatings rows db))
    as Hrated.
  { intros rows Hin. apply rated_spec. simpl. apply existsb_exists.
    eexists. split; [apply list_elem_of_In, Hin | exact Hnew]. }
  destruct (rating_cases userId tvShowId r db)
    as [(Hex & Hsave) | [(Hex & _ & _ & Hsave) | (Hex & Hmiss & Hsave)]];
    cbn zeta in Hsave.
  - rewrite Hsave.
    assert ({| TvShows.user_id := userId; tv_show_id := tvShowId; rating := r |}
            ∈ map (fun x => if sameRating userId tvShowId x
                            then {| TvShows.user_id := userId; tv_show_id := tvShowId;
                                    rating := r |} else x)
                (user_tv_show_ratings (shows db))) as Hin.
    { apply existsb_exists in Hex as (x & Hx & E).
      apply list_elem_of_fmap. exists x. split; [|now apply list_elem_of_In].
      now rewrite E. }
    split; [exact Hin|]. split; [now apply Hrated | reflexivity].
  - rewrite Hsave.
    assert ({| TvShows.user_id := userId; tv_show_id := tvShowId; rating := r |}
            ∈ user_tv_show_ratings (shows db)
              ++ [{| TvShows.user_id := userId; tv_show_id := tvShowId; rating := r |}])
      as Hin by (apply elem_of_app; right; now left).
    split; [exact Hin|]. split; [now apply Hrated | reflexivity].
  - exfalso. destruct Hmiss as [Hm | Hm];
      [destruct Hu as [? Hu] | destruct Hs as [? Hs]]; congruence.
Qed.

(** Menu option 2 with an answer between 1 and 5. *)
Lemma rateCase_rated P user tmdbId ratingStr r db :
  details_consistent P ->
  0 <= tv_shows_seq (shows db) ->
  NoDup (map id (tv_shows (shows db))) ->
  is_Some (UserDb.getUserById (user_id user) (users db)) ->
  is_Some (Tmdb.getTvShowDetails P tmdbId) ->
  Js.parseInt ratingStr = Some r -> 1 <= r <= 5 ->
  exists s,
    tmdb_id s = tmdbId
    /\ getTvShowByOurId (id s) (shows (rateCase P user tmdbId ratingStr db))
       = Some s
    /\ getTvShowByTmdbId tmdbId (shows (rateCase P user tmdbId ratingStr db))
       = Some s
    /\ {| TvShows.user_id := user_id user; tv_show_id := id s; rating := r |}
         ∈ user_tv_show_ratings (shows (rateCase P user tmdbId ratingStr db))
    /\ id s ∈ getRatedTvShowIdsByUser (user_id user)
                (rateCase P user tmdbId ratingStr db).
Proof.
  intros HC Hseq Hnd Hu [det Hdet] Hparse Hr. unfold rateCase.
  rewrite Hdet, Hparse.
  destruct (saveTvShow_spec P det (shows db) Hseq)
    as (i & d1 & Hsave & Hfind & _).
  pose proof (saveTvShow_local_ids P det (shows db) _ _ Hseq Hnd Hsave) as Hnd1.
  rewrite Hsave.
  rewrite (proj2 (Z.leb_le 1 r)) by lia. rewrite (proj2 (Z.leb_le r 5)) by lia.
  simpl andb. cbv iota.
  set (s := rowOf P det i) in *.
  assert (getTvShowByOurId (id s) d1 = Some s) as Hours.
  { apply (UserFacts.find_unique_key id Z.eqb Z.eqb_eq); [exact Hnd1|].
    now destruct (find_some_key tmdb_id Z.eqb Z.eqb_eq _ _ _ Hfind). }
  destruct (rating_saved (user_id user) (id s) r (withShows d1 db))
    as (Hin & Hrated & Hshows); [exact Hu | simpl; eauto |].
  exists s. split; [exact (HC _ _ Hdet)|].
  unfold getTvShowByOurId, getTvShowByTmdbId in *. rewrite Hshows. simpl.
  split; [exact Hours|]. split; [now rewrite <- (HC _ _ Hdet)|].
  split; [exact Hin | exact Hrated].
Qed.

End TvMenuFacts.

Module TvMenu.
Import TvShows TvShowDb TvRecommender Notions TvNotions TvAccounts TvCli.
Import AccountFacts TvRatingFacts TvDbFacts OrchestratorFacts TvRunFacts TvRun
  TvMenuFacts.

(** X21.  Menu option 1 never recommends a show the user has rated:
    with a provider whose details endpoint answers with the show asked for,
    no returned show has the external id of a stored show that is among
    the user's ratings.  At most five shows are returned.  Asking for
    recommendations changes no rating, user or preference, so the same
    shows are excluded the next time. *)
Theorem rated_shows_are_never_recommended
    (P : Tmdb.Provider) (user : User) (prefs : UserTvShowPreferences)
    (db : Db) :
  details_consistent P ->
  let result := fst (recommendCase P user prefs db) in
  let db' := snd (recommendCase P user prefs db) in
  (forall i s show,
     i ∈ getRatedTvShowIdsByUser (user_id user) db ->
     getTvShowByOurId i (shows db) = Some s ->
     show ∈ result -> tmdb_id show <> tmdb_id s)
  /\ (length result <= 5)%nat
  /\ user_tv_show_ratings (shows db') = user_tv_show_ratings (shows db)
  /\ (forall i s, getTvShowByOurId i (shows db) = Some s ->
        exists s', getTvShowByOurId i (shows db') = Some s'
                   /\ tmdb_id s' = tmdb_id s)
  /\ users db' = users db
  /\ user_tv_show_preferences db' = user_tv_show_preferences db.
Proof.
  intros HC. cbn zeta.
  split; [intros i s show Hi Hs; now apply (recommendCase_excludes P user prefs db i)|].
  rewrite recommendCase_unfold. cbv zeta. simpl.
  set (excl := list_to_set _ : gset Z).
  destruct (Inv_phases P user prefs excl defaultCount (shows db))
    as (_ & _ & (_ & _ & Hlen & _)).
  destruct (whole_run P user prefs excl defaultCount (shows db))
    as (_ & (Hkeys & Hratings & _) & _).
  split; [exact Hlen|]. split; [exact Hratings|]. split; [|split; reflexivity].
  intros i s Hs. destruct Hkeys as [more Hkeys].
  exact (find_by_id_prefix _ _ _ i s Hkeys Hs).
Qed.

Lemma rated_shows_are_never_recommended_witness :
  (length (fst (recommendCase Scenario.provider Scenario.viewer
                  Scenario.noTvPrefs TvSamples.freshStore)) <= 5)%nat.
Proof.
  exact (proj1 (proj2 (rated_shows_are_never_recommended Scenario.provider
                         Scenario.viewer Scenario.noTvPrefs
                         TvSamples.freshStore
                         Orchestration.provider_consistent))).
Defined.

(** X22.  Rating a show and then asking for recommendations: when
    the details of the chosen show can be fetched and the answer to the
    rating question parses to a number from 1 to 5, the show is stored, the
    user's rating of it is recorded, and the show is not among the
    recommendations the user gets afterwards. *)
Theorem rated_show_is_not_recommended_afterwards
    (P P' : Tmdb.Provider) (user : User) (prefs : UserTvShowPreferences)
    (tmdbId : Z) (ratingStr : string) (r : Z) (db : Db) :
  details_consistent P -> details_consistent P' ->
  0 <= tv_shows_seq (shows db) ->
  NoDup (map id (tv_shows (shows db))) ->
  is_Some (UserDb.getUserById (user_id user) (users db)) ->
  is_Some (Tmdb.getTvShowDetails P tmdbId) ->
  Js.parseInt ratingStr = Some r -> 1 <= r <= 5 ->
  let db1 := rateCase P user tmdbId ratingStr db in
  (exists s,
     getTvShowByTmdbId tmdbId (shows db1) = Some s
     /\ {| TvShows.user_id := user_id user; tv_show_id := id s; rating := r |}
          ∈ user_tv_show_ratings (shows db1))
  /\ forall show, show ∈ fst (recommendCase P' user prefs db1) ->
       tmdb_id show <> tmdbId.
Proof.
  intros HC HC' Hseq Hnd Hu Hdet Hparse Hr. cbn zeta.
  destruct (rateCase_rated P user tmdbId ratingStr r db HC Hseq Hnd Hu Hdet
              Hparse Hr) as (s & Htm & Hours & Hfind & Hin & Hrated).
  split; [now exists s|].
  intros show Hshow. rewrite <- Htm.
  exact (recommendCase_excludes P' user prefs _ (id s) s show HC' Hrated Hours Hshow).
Qed.

Lemma rated_show_is_not_recommended_afterwards_witness :
  Forall (fun show => tmdb_id show <> 1)
    (fst (recommendCase Scenario.provider Scenario.viewer Scenario.noTvPrefs
            (rateCase Scenario.provider Scenario.viewer 1 "4"
               TvSamples.freshStore))).
Proof.
  apply Forall_forall.
  refine (proj2 (rated_show_is_not_recommended_afterwards Scenario.provider
                   Scenario.provider Scenario.viewer Scenario.noTvPrefs 1 "4" 4
                   TvSamples.freshStore Orchestration.provider_consistent
                   Orchestration.provider_consistent _ _ _ _ _ _)).
  - simpl. lia.
  - simpl. apply NoDup_nil_2.
  - simpl. eauto.
  - simpl. eauto.
  - reflexivity.
  - lia.
Defined.

End TvMenu.

(** ** The movie store *)

Module MovieDbFacts.
Import Movies MovieDb MovieNotions.

Lemma movie_nextRowId_not_in d : nextRowId d ∉ map id (movies d).
Proof.
  unfold nextRowId.
  destruct (max_fold_ge (movies_seq d) (map id (movies d))) as [_ H2].
  intros Hin. apply H2 in Hin. lia.
Qed.

Lemma movie_nextRowId_pos d : 0 <= movies_seq d -> 0 < nextRowId d.
Proof.
  intros Hs. unfold nextRowId.
  destruct (max_fold_ge (movies_seq d) (map id (movies d))) as [H1 _]. lia.
Qed.

Lemma movie_nextRowId_seq d : movies_seq d < nextRowId d.
Proof.
  unfold nextRowId.
  destruct (max_fold_ge (movies_seq d) (map id (movies d))) as [H1 _]. lia.
Qed.

Lemma getMovieByOurId_inserted P data d :
  getMovieByOurId (nextRowId d) (inserted P data d)
  = Some (rowOf P data (nextRowId d)).
Proof.
  unfold getMovieByOurId, inserted. simpl.
  apply (find_app_fresh id Z.eqb Z.eqb_eq); [|reflexivity].
  apply (find_none_not_in id Z.eqb Z.eqb_eq), movie_nextRowId_not_in.
Qed.

Lemma getMovieByTmdbId_inserted P data d :
  getMovieByTmdbId (TmdbMovies.id data) d = None ->
  getMovieByTmdbId (TmdbMovies.id data) (inserted P data d)
  = Some (rowOf P data (nextRowId d)).
Proof.
  intros Hn. unfold getMovieByTmdbId, inserted. simpl.
  now apply (find_app_fresh tmdb_id Z.eqb Z.eqb_eq).
Qed.

(** A movie that is not stored is inserted; the row is returned unless
    the row id is 0. *)
Lemma saveMovie_absent P data d :
  getMovieByTmdbId (TmdbMovies.id data) d = None ->
  saveMovie P data d
  = (if Z.eqb (nextRowId d) 0 then None
     else Some (rowOf P data (nextRowId d)), inserted P data d).
Proof.
  intros Hn. unfold saveMovie, insertRow. rewrite Hn.
  rewrite (find_none_existsb tmdb_id Z.eqb _ _ Hn).
  fold (inserted P data d). rewrite getMovieByOurId_inserted.
  now destruct (Z.eqb (nextRowId d) 0).
Qed.

Lemma saveMovie_new P data d :
  getMovieByTmdbId (TmdbMovies.id data) d = None -> 0 <= movies_seq d ->
  saveMovie P data d = (Some (rowOf P data (nextRowId d)), inserted P data d).
Proof.
  intros Hn Hs. rewrite (saveMovie_absent P data d Hn).
  pose proof (movie_nextRowId_pos d Hs).
  now rewrite (proj2 (Z.eqb_neq _ _)) by lia.
Qed.

Lemma find_updated P data d t :
  getMovieByTmdbId t (updateRows P data d)
  = (fun r => if Z.eqb (tmdb_id r) (TmdbMovies.id data)
              then rowOf P data (id r) else r)
      <$> getMovieByTmdbId t d.
Proof.
  unfold getMovieByTmdbId, updateRows. simpl.
  induction (movies d) as [|r rows IH]; simpl; [reflexivity|].
  destruct (Z.eqb (tmdb_id r) (TmdbMovies.id data)) eqn:E; simpl.
  - apply Z.eqb_eq in E. rewrite <- E.
    destruct (Z.eqb (tmdb_id r) t) eqn:E'; simpl.
    + rewrite Z.eqb_refl. reflexivity.
    + rewrite E. exact IH.
  - destruct (Z.eqb (tmdb_id r) t) eqn:E'; simpl; [now rewrite E | exact IH].
Qed.

Lemma saveMovie_existing P data d e :
  getMovieByTmdbId (TmdbMovies.id data) d = Some e ->
  saveMovie P data d = (Some (rowOf P data (id e)), updateRows P data d).
Proof.
  intros He. unfold saveMovie. rewrite He, find_updated, He. simpl.
  destruct (find_some_key tmdb_id Z.eqb Z.eqb_eq _ _ _ He) as [Hk _].
  now rewrite (proj2 (Z.eqb_eq _ _) Hk).
Qed.

End MovieDbFacts.

(** ** The movie recommender, step by step *)

Module MovieRunFacts.
Import Movies MovieDb MovieRecommender MovieNotions MovieDbFacts.
Import RestaurantFetchFacts(find_prefix).

Lemma movie_recommended_spec t recs :
  recommended t recs = true <-> t ∈ ids recs.
Proof.
  unfold recommended, ids.
  destruct (List.find (fun r => Z.eqb (tmdb_id r) t) recs) as [m|] eqn:E; simpl.
  - split; [intros _|reflexivity].
    destruct (find_some_key tmdb_id Z.eqb Z.eqb_eq _ _ _ E) as [<- Hin].
    apply list_elem_of_fmap. now exists m.
  - split; [discriminate|]. intros Hin.
    now apply (find_none_not_in tmdb_id Z.eqb Z.eqb_eq) in E.
Qed.

Lemma Extends_refl st : Extends st st.
Proof. unfold Extends. split; [reflexivity|]. split; [reflexivity|]. tauto. Qed.

Lemma Extends_trans st1 st2 st3 :
  Extends st1 st2 -> Extends st2 st3 -> Extends st1 st3.
Proof.
  intros (A1 & B1 & C1 & D1) (A2 & B2 & C2 & D2).
  split; [etrans; eassumption|]. split; [etrans; eassumption|].
  split; [congruence | tauto].
Qed.

(** What [findOrSave] does to the store and what it returns. *)
Lemma findOrSave_spec P t d r d' :
  findOrSave P t d = (r, d') ->
  movies d `prefix_of` movies d'
  /\ user_movie_ratings d' = user_movie_ratings d
  /\ (0 <= movies_seq d -> 0 <= movies_seq d' /\ is_Some r)
  /\ (forall m, r = Some m ->
        tmdb_id m = TmdbMovies.id t
        /\ getMovieByTmdbId (TmdbMovies.id t) d' = Some m).
Proof.
  unfold findOrSave.
  destruct (getMovieByTmdbId (TmdbMovies.id t) d) as [e|] eqn:He.
  - intros [= <- <-]. split; [reflexivity|]. split; [reflexivity|].
    split; [intros Hs; split; [exact Hs | eauto]|].
    intros m [= <-]. split; [|exact He].
    now destruct (find_some_key tmdb_id Z.eqb Z.eqb_eq _ _ _ He).
  - rewrite (saveMovie_absent P t d He). intros [= <- <-].
    split; [now apply prefix_app_r|]. split; [reflexivity|]. split.
    + intros Hs. pose proof (movie_nextRowId_pos d Hs). simpl.
      split; [lia|]. rewrite (proj2 (Z.eqb_neq _ _)) by lia. eauto.
    + intros m Hm. destruct (Z.eqb (nextRowId d) 0); [discriminate|].
      injection Hm as <-. split; [reflexivity|].
      now apply getMovieByTmdbId_inserted.
Qed.

Lemma stored_prefix d d' m :
  movies d `prefix_of` movies d' ->
  getMovieByTmdbId (tmdb_id m) d = Some m ->
  getMovieByTmdbId (tmdb_id m) d' = Some m.
Proof. intros Hp. now apply find_prefix. Qed.

Section Steps.
Context (P : TmdbMovies.Provider) (excl0 : gset Z) (count : nat).

(** A movie that is stored, not excluded and not recommended is pushed. *)
Lemma push_keeps m d' st :
  Inv excl0 count st ->
  full count st = false ->
  tmdb_id m ∉ excludeMovieTmdbIds st ->
  movies (db st) `prefix_of` movies d' ->
  getMovieByTmdbId (tmdb_id m) d' = Some m ->
  Inv excl0 count (pushAndExclude m (withDb d' st)).
Proof.
  intros (I1 & I2 & I3 & I4 & I5) Hfull Hex Hp Hm.
  unfold Inv, pushAndExclude, withDb, ids in *. simpl.
  apply Nat.leb_gt in Hfull.
  assert ((tmdb_id m ∉ map tmdb_id (recommendations st))
          /\ (tmdb_id m ∉ excl0)) as [Hn1 Hn2].
  { rewrite I1 in Hex. split; intros H; apply Hex;
      [apply elem_of_union_l; now apply elem_of_list_to_set
      | now apply elem_of_union_r]. }
  split.
  { rewrite I1, map_app, list_to_set_app_L. simpl.
    rewrite (right_id_L ∅ (∪)), (assoc_L (∪)).
    now rewrite (comm_L (∪) {[tmdb_id m]}). }
  split.
  { rewrite map_app. apply NoDup_app. split; [exact I2|].
    split; [|apply NoDup_singleton].
    intros t Ht Ht'. apply list_elem_of_singleton in Ht'. now subst t. }
  split; [rewrite length_app; simpl; lia|]. split.
  { intros t Ht. rewrite map_app in Ht. apply elem_of_app in Ht as [Ht | Ht];
      [now apply I4|]. apply list_elem_of_singleton in Ht. now subst t. }
  intros x Hx. apply elem_of_app in Hx as [Hx | Hx].
  - apply (stored_prefix (db st)); [exact Hp | now apply I5].
  - apply list_elem_of_singleton in Hx. now subst x.
Qed.

Lemma withDb_keeps d' st :
  Inv excl0 count st ->
  movies (db st) `prefix_of` movies d' ->
  Inv excl0 count (withDb d' st).
Proof.
  intros (I1 & I2 & I3 & I4 & I5) Hp. unfold Inv, withDb. simpl.
  repeat (split; [assumption|]).
  intros x Hx. apply (stored_prefix (db st)); [exact Hp | now apply I5].
Qed.

Lemma Extends_withDb d' st :
  movies (db st) `prefix_of` movies d' ->
  user_movie_ratings d' = user_movie_ratings (db st) ->
  (0 <= movies_seq (db st) -> 0 <= movies_seq d') ->
  Extends st (withDb d' st).
Proof. intros H1 H2 H3. unfold Extends, withDb. simpl. now split. Qed.

Lemma Extends_push m st : Extends st (pushAndExclude m st).
Proof.
  unfold Extends, pushAndExclude. simpl.
  split; [now apply prefix_app_r|]. split; [reflexivity|]. tauto.
Qed.

Lemma takeFromProvider_spec results : forall st,
  Inv excl0 count st ->
  Inv excl0 count (takeFromProvider P count results st)
  /\ Extends st (takeFromProvider P count results st).
Proof.
  induction results as [|t rest IH]; intros st HI; simpl;
    [split; [exact HI | apply Extends_refl]|].
  destruct (full count st) eqn:Hfull; [split; [exact HI | apply Extends_refl]|].
  destruct (bool_decide (TmdbMovies.id t ∈ excludeMovieTmdbIds st)) eqn:Hex;
    [now apply IH|].
  apply bool_decide_eq_false in Hex.
  destruct (findOrSave P t (db st)) as [r d'] eqn:Hsave.
  destruct (findOrSave_spec P t (db st) r d' Hsave) as (Hp & Hr & Hs & Hm).
  pose proof (Extends_withDb d' st Hp Hr (fun H => proj1 (Hs H))) as HE.
  destruct r as [m|].
  - destruct (Hm m eq_refl) as [Hk Hfind].
    destruct (negb (recommended (tmdb_id m) (recommendations st))).
    + assert (Inv excl0 count (pushAndExclude m (withDb d' st))) as HI'.
      { apply push_keeps;
          [exact HI | exact Hfull | now rewrite Hk | exact Hp | now rewrite Hk]. }
      destruct (IH _ HI') as [H1 H2]. split; [exact H1|].
      eapply Extends_trans; [exact HE|].
      eapply Extends_trans; [apply Extends_push | exact H2].
    + destruct (IH _ (withDb_keeps d' st HI Hp)) as [H1 H2].
      split; [exact H1 | eapply Extends_trans; eassumption].
  - destruct (IH _ (withDb_keeps d' st HI Hp)) as [H1 H2].
    split; [exact H1 | eapply Extends_trans; eassumption].
Qed.

Lemma movie_collaborativeLoop_spec seeds : forall st,
  Inv excl0 count st ->
  Inv excl0 count (collaborativeLoop P count seeds st)
  /\ Extends st (collaborativeLoop P count seeds st).
Proof.
  induction seeds as [|s rest IH]; intros st HI; simpl;
    [split; [exact HI | apply Extends_refl]|].
  assert (Inv excl0 count
            match TmdbMovies.getMovieRecommendations P (movie_tmdb_id s) with
            | Some results => takeFromProvider P count results st
            | None => st
            end
          /\ Extends st
               match TmdbMovies.getMovieRecommendations P (movie_tmdb_id s) with
               | Some results => takeFromProvider P count results st
               | None => st
               end) as [H1 H2].
  { destruct (TmdbMovies.getMovieRecommendations P (movie_tmdb_id s));
      [now apply takeFromProvider_spec | split; [exact HI | apply Extends_refl]]. }
  destruct (full count _); [now split|].
  destruct (IH _ H1) as [H3 H4]. split; [exact H3|].
  eapply Extends_trans; eassumption.
Qed.

Lemma collaborativePhase_spec userRatings st :
  Inv excl0 count st ->
  Inv excl0 count (collaborativePhase P count userRatings st)
  /\ Extends st (collaborativePhase P count userRatings st).
Proof.
  intros HI. unfold collaborativePhase.
  destruct (Nat.leb _ _); [now apply movie_collaborativeLoop_spec|].
  split; [exact HI | apply Extends_refl].
Qed.

(** The candidates are stored rows, and the store only grows. *)
Lemma movie_collectCandidates_spec excl popular : forall cands d cands' d',
  collectCandidates P excl popular cands d = (cands', d') ->
  movies d `prefix_of` movies d'
  /\ user_movie_ratings d' = user_movie_ratings d
  /\ (0 <= movies_seq d -> 0 <= movies_seq d')
  /\ ((forall c, c ∈ cands -> getMovieByTmdbId (tmdb_id c) d = Some c) ->
      forall c, c ∈ cands' -> getMovieByTmdbId (tmdb_id c) d' = Some c).
Proof.
  induction popular as [|t rest IH]; intros cands d cands' d'; simpl.
  - intros [= <- <-]. split; [reflexivity|]. split; [reflexivity|]. tauto.
  - destruct (bool_decide (TmdbMovies.id t ∈ excl)); [apply IH|].
    destruct (findOrSave P t d) as [r d1] eqn:Hsave.
    destruct (findOrSave_spec P t d r d1 Hsave) as (Hp & Hr & Hs & Hm).
    destruct r as [m|]; intros Hc; apply IH in Hc as (A & B & C & D).
    + split; [etrans; eassumption|]. split; [congruence|].
      split; [intros H; apply C; now apply Hs|].
      intros Hst. apply D. intros c Hin.
      apply elem_of_app in Hin as [Hin | Hin].
      * apply (stored_prefix d); [exact Hp | now apply Hst].
      * apply list_elem_of_singleton in Hin. subst c.
        destruct (Hm m eq_refl) as [Hk Hfind]. now rewrite Hk.
    + split; [etrans; eassumption|]. split; [congruence|].
      split; [intros H; apply C; now apply Hs|].
      intros Hst. apply D. intros c Hin.
      apply (stored_prefix d); [exact Hp | now apply Hst].
Qed.

Lemma movie_takeContentRecs_spec contentRecs : forall st,
  Inv excl0 count st ->
  (forall c, c ∈ contentRecs -> getMovieByTmdbId (tmdb_id c) (db st) = Some c) ->
  Inv excl0 count (takeContentRecs count contentRecs st)
  /\ Extends st (takeContentRecs count contentRecs st).
Proof.
  induction contentRecs as [|c rest IH]; intros st HI Hst; simpl;
    [split; [exact HI | apply Extends_refl]|].
  destruct (full count st) eqn:Hfull; [split; [exact HI | apply Extends_refl]|].
  destruct (negb (recommended (tmdb_id c) (recommendations st))
            && negb (bool_decide (tmdb_id c ∈ excludeMovieTmdbIds st)))%bool
    eqn:Hc.
  - apply andb_true_iff in Hc as [_ Hex]. apply negb_true_iff in Hex.
    apply bool_decide_eq_false in Hex.
    assert (Inv excl0 count (pushAndExclude c st)) as HI'.
    { replace st with (withDb (db st) st) at 1 by now destruct st.
      apply push_keeps;
        [now destruct st | exact Hfull | exact Hex | reflexivity
        | apply Hst; now left]. }
    destruct (IH _ HI') as [H1 H2].
    + intros x Hx. simpl. apply Hst. now right.
    + split; [exact H1|].
      eapply Extends_trans; [apply Extends_push | exact H2].
  - apply IH; [exact HI|]. intros x Hx. apply Hst. now right.
Qed.

End Steps.

End MovieRunFacts.

(** ** Ranking by a score *)

Section TopCount.
Context {A : Type} (score : A -> Q).

Lemma filter_scored (l : list A) :
  List.filter (fun item : A * Q => Js.Qltb 0 (snd item))
    (map (fun a => (a, score a)) l)
  = map (fun a => (a, score a)) (List.filter (fun a => Js.Qltb 0 (score a)) l).
Proof.
  induction l as [|x l IH]; simpl; [reflexivity|].
  destruct (Js.Qltb 0 (score x)); simpl; now rewrite IH.
Qed.

Lemma scored_perm (l : list A) :
  scored score l
  ≡ₚ map (fun a => (a, score a)) (List.filter (fun a => Js.Qltb 0 (score a)) l).
Proof. unfold scored. now rewrite sort_perm, filter_scored. Qed.

Lemma scored_snd (l : list A) x : x ∈ scored score l -> snd x = score (fst x).
Proof.
  rewrite scored_perm. intros Hin.
  apply list_elem_of_fmap in Hin as (a & -> & _). reflexivity.
Qed.

(** The first [count] items by score: as many as there are items with a
    positive score, up to [count]; in descending order of score; and no
    item left out has a higher score than one that is taken. *)
Lemma top_count (l : list A) (count : nat) :
  let result := map fst (take count (scored score l)) in
  let passing := List.filter (fun a => Js.Qltb 0 (score a)) l in
  length result = Nat.min count (length passing)
  /\ result ⊆+ passing
  /\ StronglySorted (fun a b => (score b <= score a)%Q) result
  /\ (forall a, a ∈ passing -> a ∉ result ->
        length result = count
        /\ forall r, r ∈ result -> (score a <= score r)%Q).
Proof.
  intros result passing.
  pose proof (scored_perm l) as Hp. fold passing in Hp.
  assert (StronglySorted (desc snd) (scored score l)) as Hs by apply (sort_desc snd).
  assert (map fst (scored score l) ≡ₚ passing) as Hfst.
  { rewrite Hp, map_map. simpl. now rewrite map_id. }
  split; [|split; [|split]].
  - unfold result. rewrite length_map, length_take, <- (length_map fst (scored score l)).
    now rewrite Hfst.
  - rewrite <- Hfst. apply fmap_submseteq, sublist_submseteq, sublist_take.
  - apply (StronglySorted_fmap (desc snd));
      [|now apply StronglySorted_take].
    intros x y Hx Hy Hxy. unfold desc in Hxy.
    apply (subseteq_take count _) in Hx, Hy.
    now rewrite <- (scored_snd l x Hx), <- (scored_snd l y Hy).
  - intros a Hin Hout.
    assert ((a, score a) ∈ scored score l) as Hr.
    { rewrite Hp. apply list_elem_of_fmap. now exists a. }
    rewrite <- (take_drop count (scored score l)) in Hr, Hs.
    apply elem_of_app in Hr as [Hr | Hr].
    { exfalso. apply Hout. apply list_elem_of_fmap. now exists (a, score a). }
    split.
    + unfold result. rewrite length_map, length_take.
      assert (0 < length (drop count (scored score l)))%nat as Hd.
      { destruct (drop count _); [inversion Hr | simpl; lia]. }
      rewrite length_drop in Hd. lia.
    + intros r Hrin. apply list_elem_of_fmap in Hrin as (x & -> & Hx).
      pose proof (sorted_app_inv snd _ _ Hs _ _ Hx Hr) as Hd.
      unfold desc in Hd. simpl in Hd.
      rewrite <- (scored_snd l x); [exact Hd|]. now apply (subseteq_take count _).
Qed.
End TopCount.

(** ** The genres a user likes and the content score of a movie *)

Module MovieContentFacts.
Import Movies MovieDb MovieRecommender MovieNotions.

Lemma addName_spec names n :
  (forall x, x ∈ addName names n <-> x ∈ names \/ x = n)
  /\ (NoDup names -> NoDup (addName names n)).
Proof.
  unfold addName. destruct (Js.includes names n) eqn:E.
  - apply PlacesFacts.includes_spec in E. split; [|tauto].
    intros x. split; [tauto|]. intros [H | ->]; assumption.
  - split.
    + intros x. rewrite elem_of_app, list_elem_of_singleton. tauto.
    + intros Hnd. apply NoDup_app. split; [exact Hnd|].
      split; [|apply NoDup_singleton].
      intros x Hx Hx'. apply list_elem_of_singleton in Hx'. subst x.
      apply PlacesFacts.includes_spec in Hx. congruence.
Qed.

Lemma addNames_spec (l : list string) : forall acc,
  (forall x, x ∈ fold_left addName l acc <-> x ∈ acc \/ x ∈ l)
  /\ (NoDup acc -> NoDup (fold_left addName l acc)).
Proof.
  induction l as [|n l IH]; intros acc; simpl.
  - split; [|tauto]. intros x. split; [tauto|]. intros [H | H]; [exact H|].
    inversion H.
  - destruct (IH (addName acc n)) as [H1 H2].
    destruct (addName_spec acc n) as [H3 H4]. split.
    + intros x. rewrite H1, H3, elem_of_cons. tauto.
    + intros Hnd. now apply H2, H4.
Qed.

Lemma fold_genres (ga : list Tmdb.Genre) : forall acc,
  fold_left (fun names g => addName names (Tmdb.genre_name g)) ga acc
  = fold_left addName (map Tmdb.genre_name ga) acc.
Proof. induction ga as [|g ga IH]; intros acc; simpl; [reflexivity | apply IH]. Qed.

Lemma fold_rows (rows : list (list Tmdb.Genre)) : forall acc,
  fold_left (fun allGenreNames genresArray =>
               fold_left (fun names g => addName names (Tmdb.genre_name g))
                 genresArray allGenreNames) rows acc
  = fold_left addName (map Tmdb.genre_name (concat rows)) acc.
Proof.
  induction rows as [|ga rows IH]; intros acc; simpl; [reflexivity|].
  now rewrite IH, fold_genres, map_app, fold_left_app.
Qed.

Lemma threshold_spec (r : Z) : Qle_bool 3.5 (inject_Z r) = true <-> 4 <= r.
Proof. rewrite Qle_bool_iff. unfold Qle. simpl. lia. Qed.

(** The liked genres are the genres of the stored movies that the user
    rated with four or five stars. *)
Lemma liked_genres_spec userId db n :
  n ∈ getGenresFromUserHighlyRatedMovies userId 3.5 db
  <-> exists umr m g,
        umr ∈ user_movie_ratings db /\ user_id umr = userId /\ 4 <= rating umr
        /\ m ∈ movies db /\ id m = movie_id umr
        /\ g ∈ genres m /\ Tmdb.genre_name g = n.
Proof.
  assert (forall umr, umr ∈ ratingsOfUser userId db
            <-> umr ∈ user_movie_ratings db /\ user_id umr = userId) as Hrows.
  { intros umr. unfold ratingsOfUser. rewrite sort_perm.
    rewrite !list_elem_of_In, filter_In, Z.eqb_eq. reflexivity. }
  unfold getGenresFromUserHighlyRatedMovies. cbv zeta. rewrite fold_rows.
  match goal with
  | |- _ ∈ fold_left addName ?l [] <-> _ =>
      destruct (addNames_spec l []) as [H _]
  end.
  rewrite H. clear H. split.
  - intros [Hin | Hin]; [inversion Hin|].
    apply list_elem_of_fmap in Hin as (g & -> & Hg).
    apply list_elem_of_In, in_concat in Hg as (ga & Hga & Hg).
    apply in_flat_map in Hga as (umr & Humr & Hga).
    apply in_map_iff in Hga as (m & <- & Hm).
    apply filter_In in Humr as [Humr E2], Hm as [Hm E'].
    apply list_elem_of_In, Hrows in Humr as [Humr E1].
    apply Z.eqb_eq in E'. apply threshold_spec in E2.
    apply list_elem_of_In in Hm, Hg. exists umr, m, g. tauto.
  - intros (umr & m & g & Humr & Hu & Hr & Hm & Hid & Hg & <-). right.
    apply list_elem_of_fmap. exists g. split; [reflexivity|].
    apply list_elem_of_In, in_concat. exists (genres m).
    split; [|now apply list_elem_of_In].
    apply in_flat_map. exists umr. split.
    + apply filter_In. split; [|now apply threshold_spec].
      apply list_elem_of_In, Hrows. now split.
    + apply in_map. apply filter_In.
      split; [now apply list_elem_of_In | now apply Z.eqb_eq].
Qed.

Lemma liked_genres_NoDup userId minRating db :
  NoDup (getGenresFromUserHighlyRatedMovies userId minRating db).
Proof.
  unfold getGenresFromUserHighlyRatedMovies. cbv zeta. rewrite fold_rows.
  apply addNames_spec, NoDup_nil_2.
Qed.

(** The score counts the liked genres of the movie. *)
Lemma fold_score (liked : list string) (gs : list Tmdb.Genre) : forall a : Q,
  (fold_left (fun score genre =>
                if Js.includes liked (Tmdb.genre_name genre)
                then (score + 1)%Q else score) gs a
   == a + inject_Z (Z.of_nat
                      (length (List.filter
                                 (fun g => Js.includes liked (Tmdb.genre_name g))
                                 gs))))%Q.
Proof.
  induction gs as [|g gs IH]; intros a; cbn [fold_left List.filter].
  - change (inject_Z (Z.of_nat (length []))) with 0%Q. ring.
  - rewrite IH. destruct (Js.includes liked (Tmdb.genre_name g)); [|reflexivity].
    cbn [length]. rewrite Nat2Z.inj_succ, <- Z.add_1_r, inject_Z_plus.
    change (inject_Z 1) with 1%Q. ring.
Qed.

Lemma scoreMovie_spec liked m :
  (scoreMovie liked m
   == inject_Z (Z.of_nat (length (likedGenresOf liked m))))%Q.
Proof. unfold scoreMovie, likedGenresOf. rewrite fold_score. lra. Qed.

Lemma positive_score liked m :
  Js.Qltb 0 (scoreMovie liked m) = hasLikedGenre liked m.
Proof.
  apply eq_true_iff_eq. rewrite Qltb_true, scoreMovie_spec.
  unfold hasLikedGenre, likedGenresOf. rewrite existsb_exists.
  rewrite <- (Zlt_Qlt 0), <- Nat2Z.inj_0, <- Nat2Z.inj_lt. split.
  - intros Hlen.
    destruct (List.filter _ (genres m)) as [|g l] eqn:E; [simpl in Hlen; lia|].
    assert (In g (List.filter
                    (fun g => Js.includes liked (Tmdb.genre_name g)) (genres m)))
      as Hg by (rewrite E; now left).
    apply filter_In in Hg. now exists g.
  - intros (g & Hg & E).
    assert (In g (List.filter
                    (fun g => Js.includes liked (Tmdb.genre_name g)) (genres m)))
      as Hin by (apply filter_In; now split).
    destruct (List.filter _ (genres m)); [inversion Hin | simpl; lia].
Qed.

Lemma contentBased_unfold user all count db :
  getContentBasedRecommendations user all count db
  = let liked :=
      getGenresFromUserHighlyRatedMovies (TvRecommender.user_id user) 3.5 db in
    if Nat.eqb (length liked) 0 then []
    else map fst (take count (scored (scoreMovie liked) all)).
Proof. reflexivity. Qed.

Lemma contentBased_subset user all count db m :
  m ∈ getContentBasedRecommendations user all count db -> m ∈ all.
Proof.
  rewrite contentBased_unfold. cbv zeta.
  destruct (Nat.eqb _ 0); [intros H; inversion H|]. intros Hin.
  destruct (top_count
              (scoreMovie (getGenresFromUserHighlyRatedMovies
                             (TvRecommender.user_id user) 3.5 db)) all count)
    as (_ & Hsub & _).
  apply (elem_of_submseteq _ _ _ Hin) in Hsub.
  now apply list_elem_of_In, filter_In in Hsub as [Hsub _]; apply list_elem_of_In.
Qed.

End MovieContentFacts.

(** ** When a category mismatch rejects *)

Module CategoryPreference.
Import Restaurants RestaurantFacts TvFacts MovieNotions MovieContentFacts.

Lemma mismatch_points r p :
  Js.includes (favoriteCuisines p) "Any" = false ->
  favoriteCuisines p <> [] ->
  arrayIntersects (cuisines r) (favoriteCuisines p) = false ->
  cuisineMatch r p 0 = 0%Q.
Proof.
  intros Hany Hne Hno. unfold cuisineMatch. rewrite Hany, Hno.
  destruct (favoriteCuisines p); [contradiction | reflexivity].
Qed.

Lemma match_points r p :
  Js.includes (favoriteCuisines p) "Any" = false ->
  arrayIntersects (cuisines r) (favoriteCuisines p) = true ->
  cuisineMatch r p 0 = (0 + CUISINE_MATCH_SCORE)%Q.
Proof.
  intros Hany Hyes. unfold cuisineMatch. rewrite Hany, Hyes.
  destruct (favoriteCuisines p) as [|c cs] eqn:E; [|reflexivity].
  exfalso. revert Hyes. unfold arrayIntersects.
  induction (cuisines r) as [|c cs IH]; simpl; [discriminate | exact IH].
Qed.

(** A restaurant none of whose cuisines is a stated favourite takes an
    early return exactly when a dietary restriction is unmet, or when the
    user has no restriction and the rating is below the minimum. *)
Lemma mismatch_rejected r p :
  cuisineMatch r p 0 = 0%Q ->
  scoreBeforeJitter r p = None
  <-> meetsAllRestrictions r (dietaryRestrictions p) = false
      \/ (dietaryRestrictions p = [] /\ (rating r < minRating p)%Q).
Proof.
  intros Hc. unfold scoreBeforeJitter, dietaryMatch, ratingMatch. rewrite Hc.
  destruct (dietaryRestrictions p) as [|d ds] eqn:Ed.
  - cbn [length Nat.ltb Nat.leb meetsAllRestrictions forallb mbind option_bind].
    destruct (Qle_bool (minRating p) (rating r)) eqn:Hr.
    + apply Qle_bool_iff in Hr. split; [discriminate|].
      intros [H | [_ H]]; [discriminate | lra].
    + apply Qle_bool_false in Hr.
      replace (Js.Qltb (0 + DIETARY_MATCH_SCORE / 5)
                 ((CUISINE_MATCH_SCORE + DIETARY_MATCH_SCORE) / 2))
        with true by reflexivity.
      split; [intros _; right; now split | reflexivity].
  - replace (Nat.ltb 0 (length (d :: ds))) with true by reflexivity.
    destruct (meetsAllRestrictions r (d :: ds)) eqn:Hm;
      cbn [mbind option_bind].
    + replace (Js.Qltb (0 + DIETARY_MATCH_SCORE)
                 ((CUISINE_MATCH_SCORE + DIETARY_MATCH_SCORE) / 2))
        with false by reflexivity.
      destruct (Qle_bool (minRating p) (rating r)).
      all: split; [discriminate | intros [H | [H _]]; discriminate].
    + split; [now left | reflexivity].
Qed.

(** A restaurant with a stated favourite among its cuisines takes an
    early return exactly when a dietary restriction is unmet. *)
Lemma match_rejected r p :
  cuisineMatch r p 0 = (0 + CUISINE_MATCH_SCORE)%Q ->
  scoreBeforeJitter r p = None
  <-> meetsAllRestrictions r (dietaryRestrictions p) = false.
Proof.
  intros Hc. unfold scoreBeforeJitter, dietaryMatch, ratingMatch. rewrite Hc.
  destruct (dietaryRestrictions p) as [|d ds] eqn:Ed.
  - cbn [length Nat.ltb Nat.leb meetsAllRestrictions forallb mbind option_bind].
    replace (Js.Qltb (0 + CUISINE_MATCH_SCORE + DIETARY_MATCH_SCORE / 5)
               ((CUISINE_MATCH_SCORE + DIETARY_MATCH_SCORE) / 2))
      with false by reflexivity.
    destruct (Qle_bool (minRating p) (rating r)); split; discriminate.
  - replace (Nat.ltb 0 (length (d :: ds))) with true by reflexivity.
    destruct (meetsAllRestrictions r (d :: ds)) eqn:Hm;
      cbn [mbind option_bind].
    + replace (Js.Qltb (0 + CUISINE_MATCH_SCORE + DIETARY_MATCH_SCORE)
                 ((CUISINE_MATCH_SCORE + DIETARY_MATCH_SCORE) / 2))
        with false by reflexivity.
      destruct (Qle_bool (minRating p) (rating r)); split; discriminate.
    + split; reflexivity.
Qed.

Lemma no_genre_matches prefs show preferred :
  Js.nonEmpty (TvShows.preferred_genres prefs) = Some preferred ->
  (forall pg, pg ∈ preferred ->
     Js.includes
       (map (fun g => Js.toLowerCase (Tmdb.genre_name g)) (TvShows.genres show))
       (Js.toLowerCase pg) = false) ->
  TvShows.genreOk prefs show = false.
Proof.
  intros Hp Hno. unfold TvShows.genreOk. rewrite Hp.
  apply not_true_iff_false. rewrite existsb_exists.
  intros (pg & Hin & Hinc). apply list_elem_of_In in Hin.
  rewrite (Hno pg Hin) in Hinc. discriminate.
Qed.

Lemma no_liked_genre_scores_0 liked movie :
  hasLikedGenre liked movie = false ->
  (MovieRecommender.scoreMovie liked movie == 0)%Q.
Proof.
  intros H. rewrite scoreMovie_spec. unfold likedGenresOf.
  unfold hasLikedGenre in H.
  assert (List.filter (fun g => Js.includes liked (Tmdb.genre_name g))
            (Movies.genres movie) = []) as ->; [|reflexivity].
  induction (Movies.genres movie) as [|g gs IH]; [reflexivity|].
  simpl in *. apply orb_false_iff in H as [-> H]. now apply IH.
Qed.

Lemma no_liked_genre_not_returned user all count db movie :
  hasLikedGenre
    (MovieDb.getGenresFromUserHighlyRatedMovies (TvRecommender.user_id user)
       3.5 db) movie = false ->
  movie ∉ MovieRecommender.getContentBasedRecommendations user all count db.
Proof.
  intros H Hin. rewrite contentBased_unfold in Hin. cbv zeta in Hin.
  destruct (Nat.eqb _ 0); [inversion Hin|].
  destruct (top_count
              (MovieRecommender.scoreMovie
                 (MovieDb.getGenresFromUserHighlyRatedMovies
                    (TvRecommender.user_id user) 3.5 db)) all count)
    as (_ & Hsub & _).
  apply (elem_of_submseteq _ _ _ Hin) in Hsub.
  apply list_elem_of_In, filter_In in Hsub as [_ Hpos].
  rewrite positive_score in Hpos. congruence.
Qed.

(** C1, amended.  A stated category preference that the entity does not
    match is a hard filter for TV shows and movies, and for restaurants
    exactly when the user has no dietary restriction and the restaurant is
    rated below the minimum.

    Restaurants, for favourite cuisines that are stated (not empty,
    without "Any") and a non-negative random factor.  A restaurant none of
    whose cuisines is a favourite scores 0 exactly when it leaves a dietary
    restriction unmet, or when the user has no dietary restriction and its
    rating is below the minimum; in every other case its score is
    positive.  A restaurant with a favourite among its cuisines scores 0
    exactly when it leaves a dietary restriction unmet.  So the mismatch
    decides only for a user without dietary restrictions and a restaurant
    rated below the minimum: there the matching restaurant is kept and the
    other one is rejected.

    TV shows: when the preferred genres are stated and none of them is,
    ignoring case, a genre of the show, the score is 0.

    Movies: a movie without a genre among the genres of the movies the
    user rated 4 or higher (the threshold 3.5 on whole ratings) scores 0
    and is never returned by the content-based recommender. *)
Theorem category_mismatch_rejects_exactly_when :
  (forall (f : Q) (r : Restaurant) (p : UserPreferences) (rs : RandomSource),
      (0 <= f)%Q -> unit_interval rs ->
      Js.includes (favoriteCuisines p) "Any" = false ->
      favoriteCuisines p <> [] ->
      (arrayIntersects (cuisines r) (favoriteCuisines p) = false ->
       ((fst (matchScoreWith f r p rs) == 0)%Q
        <-> meetsAllRestrictions r (dietaryRestrictions p) = false
            \/ (dietaryRestrictions p = [] /\ (rating r < minRating p)%Q))
       /\ (meetsAllRestrictions r (dietaryRestrictions p) = true ->
           dietaryRestrictions p <> [] \/ (minRating p <= rating r)%Q ->
           (0 < fst (matchScoreWith f r p rs))%Q))
      /\ (arrayIntersects (cuisines r) (favoriteCuisines p) = true ->
          ((fst (matchScoreWith f r p rs) == 0)%Q
           <-> meetsAllRestrictions r (dietaryRestrictions p) = false)
          /\ (meetsAllRestrictions r (dietaryRestrictions p) = true ->
              (0 < fst (matchScoreWith f r p rs))%Q)))
  /\ (forall (prefs : TvShows.UserTvShowPreferences) (show : TvShows.TvShow)
             (preferred : list string),
        Js.nonEmpty (TvShows.preferred_genres prefs) = Some preferred ->
        (forall pg, pg ∈ preferred ->
           Js.includes
             (map (fun g => Js.toLowerCase (Tmdb.genre_name g))
                (TvShows.genres show))
             (Js.toLowerCase pg) = false) ->
        TvShows.genreOk prefs show = false
        /\ TvShows.scoreShow prefs show = 0%Q)
  /\ (forall (liked : list string) (movie : Movies.Movie),
        hasLikedGenre liked movie = false ->
        (MovieRecommender.scoreMovie liked movie == 0)%Q)
  /\ (forall (user : TvRecommender.User) (all : list Movies.Movie)
             (count : nat) (db : MovieDb.Db) (movie : Movies.Movie),
        hasLikedGenre
          (MovieDb.getGenresFromUserHighlyRatedMovies
             (TvRecommender.user_id user) 3.5 db) movie = false ->
        movie ∉ MovieRecommender.getContentBasedRecommendations
                  user all count db).
Proof.
  split; [|split; [|split]].
  - intros f r p rs Hf Hrs Hany Hne. pose proof (proj1 (Hrs O)) as H0. split.
    + intros Hno. pose proof (mismatch_points r p Hany Hne Hno) as Hc. split.
      * rewrite (rejected_iff f r p rs Hf H0). now apply mismatch_rejected.
      * intros Hm Hother.
        destruct (scoreBeforeJitter r p) as [q|] eqn:Hq;
          [exact (accepted_positive f r p rs q Hf H0 Hq)|].
        apply (mismatch_rejected r p Hc) in Hq as [Hq | [Hd Hr]];
          [congruence|]. destruct Hother as [Hd' | Hr']; [contradiction | lra].
    + intros Hyes. pose proof (match_points r p Hany Hyes) as Hc. split.
      * rewrite (rejected_iff f r p rs Hf H0). now apply match_rejected.
      * intros Hm.
        destruct (scoreBeforeJitter r p) as [q|] eqn:Hq;
          [exact (accepted_positive f r p rs q Hf H0 Hq)|].
        apply (match_rejected r p Hc) in Hq. congruence.
  - intros prefs show preferred Hp Hno.
    pose proof (no_genre_matches prefs show preferred Hp Hno) as Hg.
    split; [exact Hg|]. apply scoreShow_fail.
    unfold TvShows.passesHardFilters. now rewrite Hg.
  - exact no_liked_genre_scores_0.
  - exact no_liked_genre_not_returned.
Qed.

Lemma category_mismatch_rejects_exactly_when_witness :
  ((fst (calculateMatchScore Scenario.mexican4 Scenario.prefsItalian45
           Scenario.halves) == 0)%Q
   <-> meetsAllRestrictions Scenario.mexican4
         (dietaryRestrictions Scenario.prefsItalian45) = false
       \/ (dietaryRestrictions Scenario.prefsItalian45 = []
           /\ (rating Scenario.mexican4 < minRating Scenario.prefsItalian45)%Q))
  /\ (0 < fst (calculateMatchScore Scenario.restaurantB Scenario.prefsU
                 Scenario.nearlyOne))%Q
  /\ TvShows.scoreShow Scenario.dramaPrefs Scenario.comedyShow = 0%Q.
Proof.
  destruct category_mismatch_rejects_exactly_when as (HR & HT & _).
  assert (unit_interval Scenario.halves) as Hh
    by (intros n; unfold Scenario.halves; split; lra).
  pose proof Scoring.unit_interval_nearlyOne as Hn.
  split; [|split].
  - refine (proj1 (proj1 (HR 5%Q Scenario.mexican4 Scenario.prefsItalian45
                            Scenario.halves _ Hh _ _) _)).
    + lra.
    + reflexivity.
    + discriminate.
    + reflexivity.
  - refine (proj2 (proj1 (HR 5%Q Scenario.restaurantB Scenario.prefsU
                            Scenario.nearlyOne _ Hn _ _) _) _ _).
    + lra.
    + reflexivity.
    + discriminate.
    + reflexivity.
    + reflexivity.
    + left. discriminate.
  - apply (HT Scenario.dramaPrefs Scenario.comedyShow ["Drama"%string]);
      [reflexivity|].
    intros pg Hpg. apply list_elem_of_singleton in Hpg. now subst pg.
Defined.

End CategoryPreference.

(** ** The phases of the movie recommender *)

Module MoviePhaseFacts.
Import Movies MovieDb MovieRecommender MovieNotions MovieDbFacts MovieRunFacts
  MovieContentFacts.

Lemma movie_Inv_initial excl0 count d : Inv excl0 count (initial excl0 d).
Proof.
  unfold Inv, initial, ids. simpl.
  split; [now rewrite (left_id_L ∅ (∪))|]. split; [apply NoDup_nil_2|].
  split; [lia|]. split; intros x Hx; inversion Hx.
Qed.

Lemma contentPhase_spec P excl0 count user userRatings st :
  Inv excl0 count st ->
  Inv excl0 count (contentPhase P user count userRatings st)
  /\ Extends st (contentPhase P user count userRatings st).
Proof.
  intros HI. unfold contentPhase.
  destruct (negb (full count st) && Nat.ltb 0 (length userRatings))%bool;
    [|split; [exact HI | apply Extends_refl]].
  assert (exists cands d,
            match TmdbMovies.getPopularMovies P with
            | Some results =>
                collectCandidates P (excludeMovieTmdbIds st) results [] (db st)
            | None => ([], db st)
            end = (cands, d)
            /\ movies (db st) `prefix_of` movies d
            /\ user_movie_ratings d = user_movie_ratings (db st)
            /\ (0 <= movies_seq (db st) -> 0 <= movies_seq d)
            /\ forall c, c ∈ cands -> getMovieByTmdbId (tmdb_id c) d = Some c)
    as (cands & d & -> & Hp & Hr & Hs & Hc).
  { destruct (TmdbMovies.getPopularMovies P) as [results|].
    - destruct (collectCandidates P (excludeMovieTmdbIds st) results [] (db st))
        as [cands d] eqn:E.
      destruct (movie_collectCandidates_spec P _ _ _ _ _ _ E) as (A & B & C & D).
      exists cands, d. split; [reflexivity|]. split; [exact A|].
      split; [exact B|]. split; [exact C|]. apply D. intros c Hin. inversion Hin.
    - exists [], (db st). split; [reflexivity|]. split; [reflexivity|].
      split; [reflexivity|]. split; [tauto|]. intros c Hin. inversion Hin. }
  destruct (movie_takeContentRecs_spec excl0 count
              (getContentBasedRecommendations user cands
                 (count - length (recommendations (withDb d st)))
                 (db (withDb d st)))
              (withDb d st) (withDb_keeps excl0 count d st HI Hp)) as [H1 H2].
  { intros c Hin. apply contentBased_subset in Hin. simpl. now apply Hc. }
  split; [exact H1|].
  exact (Extends_trans _ _ _ (Extends_withDb d st Hp Hr Hs) H2).
Qed.

Lemma fallbackPhase_spec P excl0 count st :
  Inv excl0 count st ->
  Inv excl0 count (fallbackPhase P count st)
  /\ Extends st (fallbackPhase P count st).
Proof.
  intros HI. unfold fallbackPhase.
  destruct (negb (full count st)); [|split; [exact HI | apply Extends_refl]].
  destruct (TmdbMovies.getPopularMovies P);
    [now apply takeFromProvider_spec | split; [exact HI | apply Extends_refl]].
Qed.

Lemma movie_runPhases_unfold P user excl0 count d :
  runPhases P user excl0 count d
  = fallbackPhase P count (beforeFallback P user excl0 count d).
Proof. reflexivity. Qed.

Lemma beforeFallback_spec P user excl0 count d :
  Inv excl0 count (beforeFallback P user excl0 count d)
  /\ Extends (initial excl0 d) (beforeFallback P user excl0 count d).
Proof.
  unfold beforeFallback. cbv zeta.
  destruct (collaborativePhase_spec P excl0 count
              (getUserMovieRatings (TvRecommender.user_id user) d)
              (initial excl0 d) (movie_Inv_initial excl0 count d)) as [H1 H2].
  destruct (contentPhase_spec P excl0 count user
              (getUserMovieRatings (TvRecommender.user_id user) d) _ H1)
    as [H3 H4].
  split; [exact H3 | eapply Extends_trans; eassumption].
Qed.

Lemma runPhases_spec P user excl0 count d :
  Inv excl0 count (runPhases P user excl0 count d)
  /\ Extends (initial excl0 d) (runPhases P user excl0 count d).
Proof.
  rewrite movie_runPhases_unfold.
  destruct (beforeFallback_spec P user excl0 count d) as [H1 H2].
  destruct (fallbackPhase_spec P excl0 count _ H1) as [H3 H4].
  split; [exact H3 | eapply Extends_trans; eassumption].
Qed.

(** The final [slice] changes nothing. *)
Lemma movie_result_is_recommendations P user excl0 count d :
  getMovieRecommendationsForUser P user excl0 count d
  = (recommendations (runPhases P user excl0 count d),
     excludeMovieTmdbIds (runPhases P user excl0 count d),
     db (runPhases P user excl0 count d)).
Proof.
  unfold getMovieRecommendationsForUser, Js.slice0. cbv zeta.
  destruct (runPhases_spec P user excl0 count d) as [(_ & _ & Hlen & _) _].
  now rewrite firstn_all2.
Qed.

(** The loop over the provider's movies takes, in order, the movies whose
    ids are neither excluded nor repeated, until the array is full. *)
Lemma takeFromProvider_ids P count results : forall st,
  0 <= movies_seq (db st) ->
  (forall t, t ∈ ids (recommendations st) -> t ∈ excludeMovieTmdbIds st) ->
  ids (recommendations (takeFromProvider P count results st))
  = ids (recommendations st)
    ++ take (count - length (recommendations st))
         (fresh (excludeMovieTmdbIds st) (map TmdbMovies.id results)).
Proof.
  induction results as [|t rest IH]; intros st Hseq Hsub; simpl.
  - now rewrite take_nil, app_nil_r.
  - destruct (full count st) eqn:Hfull.
    { apply Nat.leb_le in Hfull.
      replace (count - length (recommendations st))%nat with 0%nat by lia.
      now rewrite take_0, app_nil_r. }
    apply Nat.leb_gt in Hfull.
    destruct (bool_decide (TmdbMovies.id t ∈ excludeMovieTmdbIds st)) eqn:Hex;
      [now apply IH|].
    apply bool_decide_eq_false in Hex.
    destruct (findOrSave P t (db st)) as [r d'] eqn:Hsave.
    destruct (findOrSave_spec P t (db st) r d' Hsave) as (Hp & Hr & Hs & Hm).
    destruct (Hs Hseq) as [Hseq' [m ->]].
    destruct (Hm m eq_refl) as [Hk _].
    assert (recommended (tmdb_id m) (recommendations st) = false) as ->.
    { apply not_true_iff_false. rewrite movie_recommended_spec, Hk.
      intros Hin. apply Hex. now apply Hsub. }
    simpl. rewrite IH; simpl.
    + unfold ids. rewrite map_app, length_app. simpl.
      rewrite <- (assoc_L (++)). simpl. rewrite Hk. f_equal.
      replace (count - length (recommendations st))%nat
        with (S (count - (length (recommendations st) + 1)))%nat by lia.
      reflexivity.
    + exact Hseq'.
    + intros x Hx. unfold ids in Hx. rewrite map_app in Hx.
      apply elem_of_app in Hx as [Hx | Hx].
      * apply elem_of_union_r. now apply Hsub.
      * apply list_elem_of_singleton in Hx. subst x.
        now apply elem_of_union_l, elem_of_singleton.
Qed.

End MoviePhaseFacts.

Lemma StronglySorted_impl {A} (R R' : A -> A -> Prop) (l : list A) :
  (forall x y, R x y -> R' x y) -> StronglySorted R l -> StronglySorted R' l.
Proof.
  intros HR. induction 1 as [|x l Hl IH Hx]; constructor; [exact IH|].
  eapply Forall_impl; [exact Hx | intros y; apply HR].
Qed.

Module MoviePicks.
Import Movies MovieDb MovieRecommender MovieNotions MovieDbFacts MovieRunFacts
  MovieContentFacts MoviePhaseFacts.

(** X23.  The movie recommender returns at most [count] movies, no
    movie twice, and none whose external id the caller excluded; the
    exclusion set it leaves behind is the caller's set plus the external
    ids of the returned movies.  Every returned movie is the row the store
    holds under its external id afterwards.  The call only appends rows to
    the table of movies: no existing row is rewritten, and no rating is
    touched. *)
Theorem movie_picks_are_new_distinct_and_stored
    (P : TmdbMovies.Provider) (user : TvRecommender.User) (excl0 : gset Z)
    (count : nat) (d : Db) (result : list Movie) (excl' : gset Z) (d' : Db) :
  getMovieRecommendationsForUser P user excl0 count d = (result, excl', d') ->
  (length result <= count)%nat
  /\ NoDup (ids result)
  /\ (forall m, m ∈ result -> tmdb_id m ∉ excl0)
  /\ excl' = list_to_set (ids result) ∪ excl0
  /\ (forall m, m ∈ result -> getMovieByTmdbId (tmdb_id m) d' = Some m)
  /\ movies d `prefix_of` movies d'
  /\ user_movie_ratings d' = user_movie_ratings d.
Proof.
  rewrite movie_result_is_recommendations. intros [= <- <- <-].
  destruct (runPhases_spec P user excl0 count d)
    as [(I1 & I2 & I3 & I4 & I5) (_ & E2 & E3 & _)].
  split; [exact I3|]. split; [exact I2|]. split.
  { intros m Hm. apply I4. unfold ids. apply list_elem_of_fmap. now exists m. }
  split; [exact I1|]. split; [exact I5|]. split; [exact E2 | exact E3].
Qed.

Lemma movie_picks_are_new_distinct_and_stored_witness :
  (length (fst (fst (getMovieRecommendationsForUser MovieSamples.provider
                       Scenario.viewer {[ 2%Z ]} 5 MovieSamples.emptyMovieDb)))
   <= 5)%nat.
Proof.
  destruct (getMovieRecommendationsForUser MovieSamples.provider
              Scenario.viewer {[ 2 ]} 5 MovieSamples.emptyMovieDb)
    as [[result excl'] d'] eqn:E.
  exact (proj1 (movie_picks_are_new_distinct_and_stored _ _ _ _ _ _ _ _ E)).
Defined.

(** X24.  The fallback fills the result from the popular list.  When
    the sequence counter of the store is not negative and the provider
    returns popular movies, the result is what the first two phases picked,
    followed by the popular movies in the provider's order, leaving out the
    excluded and the repeated ones, until [count] movies are reached.  For
    a user without ratings the first two phases pick nothing, so the result
    is the first [count] popular movies that are not excluded. *)
Theorem movie_result_is_filled_from_popular
    (P : TmdbMovies.Provider) (user : TvRecommender.User) (excl0 : gset Z)
    (count : nat) (d : Db) (popular : list TmdbMovies.TMDBMovie)
    (result : list Movie) (excl' : gset Z) (d' : Db) :
  0 <= movies_seq d ->
  TmdbMovies.getPopularMovies P = Some popular ->
  getMovieRecommendationsForUser P user excl0 count d = (result, excl', d') ->
  let st2 := beforeFallback P user excl0 count d in
  ids result
  = ids (recommendations st2)
    ++ take (count - length (recommendations st2))
         (fresh (excludeMovieTmdbIds st2) (map TmdbMovies.id popular))
  /\ (getUserMovieRatings (TvRecommender.user_id user) d = [] ->
      ids result = take count (fresh excl0 (map TmdbMovies.id popular))).
Proof.
  intros Hseq Hpop. rewrite movie_result_is_recommendations.
  intros [= <- <- <-]. cbn zeta. rewrite movie_runPhases_unfold.
  destruct (beforeFallback_spec P user excl0 count d)
    as [(I1 & _ & I3 & _) (_ & _ & _ & Hs)].
  assert (forall st,
            0 <= movies_seq (db st) ->
            (forall t, t ∈ ids (recommendations st) ->
               t ∈ excludeMovieTmdbIds st) ->
            (length (recommendations st) <= count)%nat ->
            ids (recommendations (fallbackPhase P count st))
            = ids (recommendations st)
              ++ take (count - length (recommendations st))
                   (fresh (excludeMovieTmdbIds st) (map TmdbMovies.id popular)))
    as Hfill.
  { intros st Hst Hsub Hlen. unfold fallbackPhase. rewrite Hpop.
    destruct (full count st) eqn:Hfull; simpl.
    - apply Nat.leb_le in Hfull.
      replace (count - length (recommendations st))%nat with 0%nat by lia.
      now rewrite take_0, app_nil_r.
    - now apply takeFromProvider_ids. }
  split.
  - apply Hfill; [now apply Hs | | exact I3].
    intros t Ht. rewrite I1. now apply elem_of_union_l, elem_of_list_to_set.
  - intros Hnone. unfold beforeFallback. rewrite Hnone.
    unfold collaborativePhase, contentPhase. simpl.
    rewrite andb_false_r.
    rewrite (Hfill (initial excl0 d)); simpl;
      [now rewrite Nat.sub_0_r | exact Hseq | intros t Ht; inversion Ht | lia].
Qed.

Lemma movie_result_is_filled_from_popular_witness :
  ids (fst (fst (getMovieRecommendationsForUser MovieSamples.provider
                   Scenario.viewer {[ 2 ]} 5 MovieSamples.emptyMovieDb)))
  = take 5 (fresh {[ 2 ]} [1; 2; 1; 3]).
Proof.
  destruct (getMovieRecommendationsForUser MovieSamples.provider
              Scenario.viewer {[ 2 ]} 5 MovieSamples.emptyMovieDb)
    as [[result excl'] d'] eqn:E.
  exact (proj2 (movie_result_is_filled_from_popular MovieSamples.provider
                  Scenario.viewer {[ 2 ]} 5 MovieSamples.emptyMovieDb
                  _ result excl' d' (Z.le_refl 0) eq_refl E) eq_refl).
Defined.

(** X25.  The content-based movie picks.  The liked genres are
    the genres of the stored movies the user rated with four or five stars
    (the threshold 3.5 on whole ratings).  The function returns, of the
    candidates that have a liked genre, the [count] with the most liked
    genres, in descending order of that number: as many as there are, up
    to [count], and no candidate left out has more liked genres than one
    that is returned.  Without a liked genre nothing is returned. *)
Theorem movie_content_picks_share_a_liked_genre
    (user : TvRecommender.User) (allMoviesFromDB : list Movie) (count : nat)
    (db : Db) :
  let liked :=
    getGenresFromUserHighlyRatedMovies (TvRecommender.user_id user) 3.5 db in
  let result := getContentBasedRecommendations user allMoviesFromDB count db in
  let matching := List.filter (hasLikedGenre liked) allMoviesFromDB in
  let overlap := fun m => length (likedGenresOf liked m) in
  (forall n, n ∈ liked <->
     exists umr m g,
       umr ∈ user_movie_ratings db
       /\ user_id umr = TvRecommender.user_id user /\ 4 <= rating umr
       /\ m ∈ movies db /\ id m = movie_id umr
       /\ g ∈ genres m /\ Tmdb.genre_name g = n)
  /\ length result = Nat.min count (length matching)
  /\ result ⊆+ matching
  /\ StronglySorted (fun a b => (overlap b <= overlap a)%nat) result
  /\ (forall m, m ∈ matching -> m ∉ result ->
        length result = count
        /\ forall r, r ∈ result -> (overlap m <= overlap r)%nat).
Proof.
  cbn zeta. split; [intros n; apply liked_genres_spec|].
  set (liked := getGenresFromUserHighlyRatedMovies _ _ db).
  rewrite contentBased_unfold. cbv zeta. fold liked.
  assert (forall a b,
            (scoreMovie liked b <= scoreMovie liked a)%Q ->
            (length (likedGenresOf liked b)
             <= length (likedGenresOf liked a))%nat) as Hle.
  { intros a b. rewrite !scoreMovie_spec, <- Zle_Qle. lia. }
  destruct (Nat.eqb (length liked) 0) eqn:Hlen.
  - assert (liked = []) as ->
      by (apply Nat.eqb_eq in Hlen; now destruct liked).
    assert (List.filter (hasLikedGenre []) allMoviesFromDB = []) as ->.
    { induction allMoviesFromDB as [|m l IH]; simpl; [reflexivity|].
      assert (hasLikedGenre [] m = false) as ->; [|exact IH].
      unfold hasLikedGenre. now induction (genres m). }
    simpl. split; [now rewrite Nat.min_0_r|]. split; [reflexivity|].
    split; [constructor|]. intros m Hm. inversion Hm.
  - destruct (top_count (scoreMovie liked) allMoviesFromDB count)
      as (T1 & T2 & T3 & T4).
    assert (List.filter (fun a => Js.Qltb 0 (scoreMovie liked a)) allMoviesFromDB
            = List.filter (hasLikedGenre liked) allMoviesFromDB) as Hf
      by (apply filter_ext; intros m; apply positive_score).
    rewrite Hf in T1, T2, T4.
    split; [exact T1|]. split; [exact T2|]. split.
    + eapply StronglySorted_impl; [|exact T3]. intros x y. apply Hle.
    + intros m Hm Hout. destruct (T4 m Hm Hout) as [H1 H2].
      split; [exact H1|]. intros r Hr. apply Hle. now apply H2.
Qed.

(** X26.  [saveMovie] is keyed on the external id.  With distinct
    local ids and a sequence counter that is not negative it returns the
    stored row, which is then found under the external id and under its
    local id.  A movie that is already stored keeps its local id and no row
    is added; a new movie is appended under a local id that no row has.
    The rows of other external ids and the ratings are untouched, and the
    ids stay distinct. *)
Theorem saved_movie_is_found_under_both_ids
    (P : TmdbMovies.Provider) (data : TmdbMovies.TMDBMovie) (d : Db) :
  0 <= movies_seq d ->
  NoDup (map id (movies d)) ->
  let d' := snd (saveMovie P data d) in
  exists i,
    fst (saveMovie P data d) = Some (rowOf P data i)
    /\ getMovieByTmdbId (TmdbMovies.id data) d' = Some (rowOf P data i)
    /\ getMovieByOurId i d' = Some (rowOf P data i)
    /\ (forall e, getMovieByTmdbId (TmdbMovies.id data) d = Some e ->
          i = id e /\ length (movies d') = length (movies d))
    /\ (getMovieByTmdbId (TmdbMovies.id data) d = None ->
        (i ∉ map id (movies d))
        /\ movies d' = movies d ++ [rowOf P data i])
    /\ (forall t, t <> TmdbMovies.id data ->
          getMovieByTmdbId t d' = getMovieByTmdbId t d)
    /\ NoDup (map id (movies d'))
    /\ (NoDup (map tmdb_id (movies d)) -> NoDup (map tmdb_id (movies d')))
    /\ 0 <= movies_seq d'
    /\ user_movie_ratings d' = user_movie_ratings d.
Proof.
  intros Hseq Hnd. cbn zeta.
  destruct (getMovieByTmdbId (TmdbMovies.id data) d) as [e|] eqn:He.
  - rewrite (saveMovie_existing P data d e He). cbn [fst snd]. exists (id e).
    assert (map id (movies (updateRows P data d)) = map id (movies d)) as Hids.
    { unfold updateRows. simpl. rewrite map_map. apply map_ext. intros x.
      now destruct (Z.eqb (tmdb_id x) (TmdbMovies.id data)). }
    assert (map tmdb_id (movies (updateRows P data d)) = map tmdb_id (movies d))
      as Htmdb.
    { unfold updateRows. simpl. rewrite map_map. apply map_ext. intros x.
      destruct (Z.eqb (tmdb_id x) (TmdbMovies.id data)) eqn:E; [|reflexivity].
      simpl. symmetry. now apply Z.eqb_eq. }
    assert (getMovieByTmdbId (TmdbMovies.id data) (updateRows P data d)
            = Some (rowOf P data (id e))) as Hfind.
    { rewrite find_updated, He. simpl.
      destruct (find_some_key tmdb_id Z.eqb Z.eqb_eq _ _ _ He) as [Hk _].
      now rewrite (proj2 (Z.eqb_eq _ _) Hk). }
    split; [reflexivity|]. split; [exact Hfind|]. split.
    { destruct (find_some_key tmdb_id Z.eqb Z.eqb_eq _ _ _ Hfind) as [_ Hin].
      apply (UserFacts.find_unique_key id Z.eqb Z.eqb_eq _ (rowOf P data (id e)));
        [now rewrite Hids | exact Hin]. }
    split.
    { intros e' [= <-]. split; [reflexivity|].
      unfold updateRows. simpl. now rewrite length_map. }
    split; [discriminate|]. split.
    { intros t Hne. rewrite find_updated.
      destruct (getMovieByTmdbId t d) as [x|] eqn:Hx; [|reflexivity]. simpl.
      destruct (find_some_key tmdb_id Z.eqb Z.eqb_eq _ _ _ Hx) as [Hk _].
      now rewrite Hk, (proj2 (Z.eqb_neq _ _) Hne). }
    split; [now rewrite Hids|]. split; [now rewrite Htmdb|].
    split; [exact Hseq | reflexivity].
  - rewrite (saveMovie_new P data d He Hseq). cbn [fst snd].
    exists (nextRowId d).
    pose proof (movie_nextRowId_not_in d) as Hfresh.
    pose proof (movie_nextRowId_pos d Hseq) as Hpos.
    split; [reflexivity|].
    split; [now apply getMovieByTmdbId_inserted|].
    split; [apply getMovieByOurId_inserted|].
    split; [discriminate|]. split; [intros _; split; [exact Hfresh | reflexivity]|].
    split.
    { intros t Hne. unfold getMovieByTmdbId. simpl. rewrite find_app_rows.
      destruct (List.find _ (movies d)); [reflexivity|]. simpl.
      now rewrite (proj2 (Z.eqb_neq _ _) (not_eq_sym Hne)). }
    split.
    { unfold inserted. cbn [movies]. rewrite map_app.
      apply NoDup_app. split; [exact Hnd|].
      split; [|apply NoDup_singleton].
      intros k Hk Hk'. apply list_elem_of_singleton in Hk'. now subst k. }
    split.
    { intros Hnt. unfold inserted. cbn [movies]. rewrite map_app.
      apply NoDup_app. split; [exact Hnt|].
      split; [|apply NoDup_singleton].
      intros k Hk Hk'. apply list_elem_of_singleton in Hk'. subst k.
      now apply (find_none_not_in tmdb_id Z.eqb Z.eqb_eq) in He. }
    split; [simpl; lia | reflexivity].
Qed.

Lemma saved_movie_is_found_under_both_ids_witness :
  exists i,
    fst (saveMovie MovieSamples.provider (MovieSamples.tmdbMovie 1 [28])
           MovieSamples.emptyMovieDb)
    = Some (rowOf MovieSamples.provider (MovieSamples.tmdbMovie 1 [28]) i).
Proof.
  destruct (saved_movie_is_found_under_both_ids MovieSamples.provider
              (MovieSamples.tmdbMovie 1 [28]) MovieSamples.emptyMovieDb
              (Z.le_refl 0) (NoDup_nil_2 : NoDup (map id [])))
    as (i & Hi & _).
  exists i. exact Hi.
Defined.

End MoviePicks.
